(* ===== verification/_CoqProject ===== *)
-Q . S2P
Prelude.v
GoStrings.v
GoNet.v
GoUrl.v
Dns.v
Filter.v
Cache.v
CacheConc.v
RateLimit.v
Records.v
Blocklist.v
Upstream.v
Stats.v
Server.v
HA.v
Update.v
Control.v
Node.v
Cert.v
Config.v
Daemon.v
Auth.v
AuthConc.v
Release.v
Bus.v
Client.v
BlocklistDB.v
Pagination.v
LogTime.v
QueryLog.v
Fleet.v
FleetPush.v
FleetOps.v
UpdateJob.v
EventStream.v
Import.v
Profile.v
Web.v
WebFacts.v
Boot.v
FleetNode.v
Ctl.v
