(* ===== verification/Prelude.v ===== *)
(** * BlipDNS: a verification development of the filtering resolver

    BlipDNS is a filtering DNS resolver.  A node (the program [blipd]) answers
    classic DNS and DNS-over-HTTPS queries: it applies the policy of the client
    and a global blocklist, answers local records itself, and forwards the rest
    to upstream resolvers through a shared cache.  A node is driven through an
    authenticated management API by a controller ([blipc]), which pushes the
    configuration to all nodes and compares what they report with what it
    pushed.  This library models both programs, component by component, as
    executable functions translated from the Go sources under src/internal, and
    proves what makes each component, and their composition, correct.

    ** The program's parts and the files that model them

    A part calls only parts above it in this list; its file requires theirs.

    - Prelude.v (this file): results with errors, machine integers, the hint
      database [blip] and tactics, lexicographic orders and stable sorting,
      lemmas on lists.
    - GoStrings.v, GoNet.v, GoUrl.v: what the sources use of the packages
      strings, strconv, net and net/url, on byte strings and byte lists, and
      the theory of parent domains ("ancestors") that three components share.
    - Dns.v: the messages of the vendored package github.com/miekg/dns, as far
      as the sources read or write them.
    - Filter.v: internal/filter/filter.go.  [Store] is the Go struct with its
      derived tables (networks, client ids); [SetPolicy], [RemovePolicy],
      [SetDefault] and the queries [Classify], [Allowed], [BlockSource] keep the
      source's names.  [store_wf] is the invariant.
    - Cache.v: internal/cache/cache.go, with entries on a heap, the map and the
      linked list of the source.  [spec_step] is the abstract LRU store it
      refines.
    - CacheConc.v: the same cache under interleaving.  [tstep] gives the steps of
      one goroutine in [DoHit] (the critical sections of [Get], the vendored
      singleflight [Group.Do], the unlocked reads of an entry), [cstep] adds the
      other operations; [conf_inv] is the invariant.
    - RateLimit.v: internal/dnsserver/ratelimit.go, token buckets in IEEE
      binary64, sixteen shards.
    - Records.v: internal/dnsserver/records.go, [RecordsHash] of
      internal/control/server.go and the record reconciliation
      ([maybePushRecords]) of internal/controller/fleet.go.
    - Blocklist.v: internal/blocklist/blocklist.go: sets, checksums, lookup, the
      line parser, source fetching and merging, the snapshot file.
    - Upstream.v: internal/upstream/upstream.go, routing.go and probe.go: spec
      strings, the resolver pool, routes, failover, transports, the probe.
    - Stats.v: internal/control/stats.go and the delivery of events to the
      watchers of internal/control/server.go.
    - Server.v: internal/dnsserver/server.go, helper.go and upstream_ctrl.go: the
      query path ([serve], from the rate limit to the reply), the DoH handler
      ([handleDoH]), [NewServer] and the runtime setters, in the state monad [M]
      over the record [Server]; [srv_step] is the transition relation of an
      instance and [srv_inv] its invariant.
    - HA.v: internal/ha/manager.go and internal/control/ha.go, the keepalived
      manager.
    - Update.v: internal/update/manager.go and internal/control/update.go.
    - Control.v: internal/control/server.go with the cache and upstream
      handlers: authentication, the one-time adoption, every handler and their
      dispatch ([Handler]).  It is written against the class [Host], whose laws
      [HostLaws] state what the API is promised by the components it drives.
    - Node.v: the node.  [node_host] and [node_laws] discharge that interface
      with the components of Server.v, HA.v and Update.v, so that the theorems
      of Control.v hold of the composed program.
    - Cert.v: internal/certgen/certgen.go, the self-signed pair: its names, how
      it is made, kept and replaced.  Key generation, signing and PEM are the
      class [X509] with its laws [X509Laws].
    - Config.v: internal/config/config.go, the defaults, loading over them, and
      the warnings of the two programs.
    - Daemon.v: cmd/blipd/main.go, with [Start], [Shutdown] and [SetTLSCert] of
      internal/dnsserver/server.go: from the configuration to the running
      process ([main]); [dstep] is its transition relation, [sound] its
      invariant.

    The controller (internal/controller and the client in internal/control):
    - Auth.v: auth.go, sessions, the login limiter and the bearer keys, as
      operations on the record [Auth]; [auth_run] is a history of them.
    - AuthConc.v: the same logins as threads of critical sections that overlap
      ([login_section], [sched_step]).
    - Release.v: release.go, selfupdate.go and the vendored comparison of
      versions (golang.org/x/mod/semver).
    - Bus.v: bus.go, the event bus.
    - Client.v: internal/control/client.go, the client of the management API,
      over the class [Transport] (one request, one reply).
    - BlocklistDB.v: blocklistdb.go, tables and transactions in which any
      statement may fail.
    - Pagination.v: pagination.go with [time.ParseDuration].
    - LogTime.v: how times are stored, read back and compared as text
      ([formatTime] of the vendored driver, [parseQueryTS]).
    - QueryLog.v: querylog.go, the buffered writer and every query; rows keep
      instants, and statements compare the texts that LogTime.v gives them.
    - Fleet.v: the structs of fleet.go and instance.go, the desired
      configuration with its overrides, the validation of a high availability
      pair.
    - FleetPush.v: saving, pushing and reconciling ([maybePush*], [poll]) in
      the state monad [FM] over the fleet and the world ([World]); [keeps] and
      the tactic [keep] show what a method leaves alone.
    - FleetOps.v: instances, adoption, the watch stream, high availability and
      the staged update (update.go); UpdateJob.v proves what a run of the
      update job asks of the nodes, and in which order.
    - EventStream.v: the way of an event from a node's query to the query log:
      the rest of [handleWatch], the reader of [Client.Watch] and the loop of
      [Instance.watch] with the byte stream between them, as the transition
      system [pstep] over a node (Server.v) and the controller (FleetOps.v),
      of which [flow_step] is the stream itself at work; [path_inv] is its
      invariant.
    - Import.v: the blocklist sources, the import, the hand-kept domains and
      the goroutines that store them; [sys_step] interleaves goroutines.
    - Profile.v: mobileconfig.go, the device profile.
    - Web.v: server.go, every handler, the gate and the routing, over the
      record [Web]; WebFacts.v proves what they guarantee.
    - Boot.v: cmd/blipc/main.go, the start of the controller from the file that
      [saveConfig] writes ([file_of] in FleetPush.v, [boot]).
    - FleetNode.v: the controller and a node together: the transport of
      [Client] is the [Handler] of Node.v ([net_world]).
    - Ctl.v: cmd/blipctl/main.go, the command line, over [Client].

    ** What the theorems show

    Each property carries its number (C1, C2, ...) in its doc comment.
    - The query path (Server.v): a blocked query is decided and answered on the
      node and never reaches a resolver; answers of different resolvers never
      mix in the cache; every reachable instance keeps the invariants of all
      its components, does not panic and replies to the question asked; the
      rate limit cannot be evaded with request headers; the lifetime given to
      HTTP caches is never longer than that of the records; which reverse
      lookups stay on the node.
    - The management API (Control.v with Node.v): nothing works without the
      token, the claim code works once and cannot be guessed quickly, an
      acknowledged setting is the one reported.
    - The cache: refinement of an LRU list, its invariant, the lifetime of an
      entry; under interleaving, at most one fetch per key, no shared pointers,
      no access to freed entries, no deadlock.
    - The policy store and the blocklist: exact characterisations of when a name
      is blocked and which policy applies; independence of map order; the
      checksums are those of the sets; parser and snapshot round trips; which
      sources may be fetched from.
    - Upstream: longest matching route, the failover order and its cooldown
      marks, spec parsing, which addresses may be dialled.
    - Local records: forward and reverse lookup, and when the checksum makes the
      controller stop pushing.
    - Rate limiter: exact burst in floating point, isolation of clients.
    - High availability: no pushed value can inject configuration, and accepted
      settings survive a restart of the node; a node that is updated is first
      asked to yield the address and then given its own settings back
      (UpdateJob.v).
    - The controller's doors (Auth.v, AuthConc.v, WebFacts.v, Profile.v): a
      session comes from the password, a key from an operator; guesses are
      limited, also when logins overlap, by the number that can be in flight; a
      request without credentials changes nothing but what sessions and the
      limiter forget, and learns nothing; setup works once; no parameter
      escapes into a device profile.
    - The controller's settings (WebFacts.v): which part of the desired
      configuration a request changes, and that the value in effect is the one
      asked for.
    - Start and restart (Daemon.v, Boot.v, Cert.v): whatever happens to
      a running node, its invariants hold and its own certificate names its
      addresses and its virtual address; the settings a controller has saved are those it
      starts with; a certificate that was stored is used again.
    - Convergence (FleetNode.v): two polls after the last change an adopted
      node runs exactly the desired configuration.
    - The event stream (EventStream.v): once the stream's bytes have been
      delivered, a blocked query is in the query log under its client, and over broken and reopened connections events
      are handed on in order, without repetition, with at most one connection
      a second.
    - The import (Import.v): what the merged list holds after it, that it ends,
      and that a superseded import stops without touching the list.
    - Storage (BlocklistDB.v, QueryLog.v, LogTime.v): a replacement is all or
      nothing, opening and migrating loses no row, no entry the writer took is
      lost, pages tile the result, totals are sums, comparing stored times is
      comparing instants within a time zone.
    - Versions, updates and parameters (Release.v, UpdateJob.v, Pagination.v):
      the order of versions is that of their numbers, an update job takes one
      node at a time, asks nothing of a node after a failed one and ends with
      every node accounted for, page parameters are bounded.
    Some theorems state what the code does where a comment or the intent says
    otherwise (an unnamed upstream server is lost, a record override is pushed
    for ever, private reverse lookups are forwarded, a second "block" command
    replaces the first); small [Example]s of the
    same nature are beside the code they are about.

    ** Conventions and bounds

    A Go [(T, error)] is [res] or an option; a panic, and an operation on a list
    node that is not in its list, is [None].  A mutex-protected method is one
    step, except in CacheConc.v, in AuthConc.v and in the race example of Stats.v.  Integers
    are [Z]; conversions that can wrap are written with [u8], [u16], [u32],
    [u64].  Go maps are [gmap]s and map iteration takes its order as an argument
    over which the theorems quantify.  The clock, the DNS network, the wire
    codec, encoding/json, the file system, the host's commands and the system
    listener are arguments; where a theorem relies on one of them (a JSON round
    trip) the hypothesis is in its statement.  Texts that only reproduce an
    error of the Go runtime are abbreviated to a constructor.

    Fuel is used in few places, always with a bound that the input gives, and
    the theorems about these functions show that it suffices: the eviction loop
    has the length of the LRU list (every round removes one entry), a walk over
    the ancestors of a name has its length plus one (every round drops a
    label), the parser of IPv6 groups has eight groups, a mask byte eight bits
    and a printed group four digits; inserting rows in chunks has the length of
    the list, a duration the length of its text, comparing prerelease
    identifiers the length of both texts, a policy id the length of the
    network it is made from, a file mode four octal digits, the abbreviation
    of a time zone six letters.  The wait for an updated node has the number of
    ticks before its deadline, an argument; an import takes at most 2n + 7
    steps for n sources.  All other functions are structural.

    ** What is not modelled

    The embedded web pages (internal/controller/ui.go), the parsing of flags,
    signal handling and the sockets below the listeners are input and output or
    glue; YAML decoding and the crypto library are arguments.  Strings are byte strings: case mapping
    and white space are those of ASCII.  A panic inside a coalesced fetch is
    left out.  In EventStream.v the node keeps running: its restart closes a
    connection and starts a new path.  A method of the fleet is one step: what other goroutines do
    while it waits for the network is interleaved only for the import and the
    stores (Import.v). *)
From stdpp Require Export base gmap sets list strings sorting pretty.
From Stdlib Require Export ZArith Lia.

(** ** Fallible results

    Go's [(T, error)] pairs, in the calls where a non-nil error comes with a
    zero value, are values of [res E T]. *)
Inductive res (E A : Type) : Type :=
| Ok (a : A)
| Err (e : E).
Arguments Ok {E A} a.
Arguments Err {E A} e.

Definition res_bind {E A B} (f : A → res E B) (r : res E A) : res E B :=
  match r with Ok a => f a | Err e => Err e end.

#[export] Instance res_mret E : MRet (res E) := λ A a, Ok a.
#[export] Instance res_mbind E : MBind (res E) := λ A B f r, res_bind f r.

Definition is_ok {E A} (r : res E A) : bool :=
  match r with Ok _ => true | Err _ => false end.

(** [res_mapM f l] runs [f] over [l] and stops at the first error, like a Go
    loop that returns on error and appends on success. *)
Fixpoint res_mapM {E A B} (f : A → res E B) (l : list A) : res E (list B) :=
  match l with
  | [] => Ok []
  | x :: l =>
      match f x with
      | Err e => Err e
      | Ok y => match res_mapM f l with Ok ys => Ok (y :: ys) | Err e => Err e end
      end
  end.

(** ** Machine integers

    Integers are [Z]; the conversions of the source that can wrap are written
    with these functions. *)
Definition u8 (z : Z) : Z := z mod 2 ^ 8.
Definition u16 (z : Z) : Z := z mod 2 ^ 16.
Definition u32 (z : Z) : Z := z mod 2 ^ 32.
Definition u64 (z : Z) : Z := z mod 2 ^ 64.
Definition max_int64 : Z := 2 ^ 63 - 1.
Definition min_int64 : Z := - 2 ^ 63.
Definition in_int64 (z : Z) : bool := (min_int64 <=? z)%Z && (z <=? max_int64)%Z.

(** ** Time

    [time.Time] and [time.Duration] are nanoseconds in [Z]; [time.Time.Sub]
    saturates at the int64 bounds of [time.Duration]. *)
Definition second : Z := 1000000000.
Definition minute : Z := 60 * second.
Definition hour : Z := 60 * minute.
Definition time_sub (t u : Z) : Z := Z.max min_int64 (Z.min max_int64 (t - u)).
Definition time_after (t u : Z) : bool := (u <? t)%Z.
Definition time_before (t u : Z) : bool := (t <? u)%Z.

(** ** Automation *)
Create HintDb blip.

(** [split_match] destructs the scrutinee of a match in the goal, keeping the equation. *)
Ltac split_match :=
  match goal with
  | |- context [ match ?x with _ => _ end ] =>
      lazymatch x with
      | context [ match _ with _ => _ end ] => fail
      | _ => let E := fresh "E" in destruct x eqn:E
      end
  end.
Ltac split_match_in H :=
  match type of H with
  | context [ match ?x with _ => _ end ] =>
      lazymatch x with
      | context [ match _ with _ => _ end ] => fail
      | _ => let E := fresh "E" in destruct x eqn:E
      end
  end.
Ltac split_matches := repeat (split_match; simplify_eq/=).

(** [bools] turns boolean (in)equalities of the context into propositions. *)
Ltac bools :=
  repeat match goal with
  | H : (_ && _) = true |- _ => apply andb_true_iff in H as [? ?]
  | H : (_ || _) = false |- _ => apply orb_false_iff in H as [? ?]
  | H : negb _ = true |- _ => apply negb_true_iff in H
  | H : negb _ = false |- _ => apply negb_false_iff in H
  | H : (_ =? _)%Z = true |- _ => apply Z.eqb_eq in H
  | H : (_ =? _)%Z = false |- _ => apply Z.eqb_neq in H
  | H : (_ <? _)%Z = true |- _ => apply Z.ltb_lt in H
  | H : (_ <? _)%Z = false |- _ => apply Z.ltb_ge in H
  | H : (_ <=? _)%Z = true |- _ => apply Z.leb_le in H
  | H : (_ <=? _)%Z = false |- _ => apply Z.leb_gt in H
  | H : (_ >? _)%Z = _ |- _ => rewrite Z.gtb_ltb in H
  | H : (_ >=? _)%Z = _ |- _ => rewrite Z.geb_leb in H
  | H : (_ <? _)%nat = true |- _ => apply Nat.ltb_lt in H
  | H : (_ <? _)%nat = false |- _ => apply Nat.ltb_ge in H
  | H : (_ <=? _)%nat = true |- _ => apply Nat.leb_le in H
  | H : (_ <=? _)%nat = false |- _ => apply Nat.leb_gt in H
  | H : (_ =? _)%nat = true |- _ => apply Nat.eqb_eq in H
  | H : (_ =? _)%nat = false |- _ => apply Nat.eqb_neq in H
  | H : bool_decide _ = true |- _ => apply bool_decide_eq_true in H
  | H : bool_decide _ = false |- _ => apply bool_decide_eq_false in H
  end.

(** [by_decision] proves a closed decidable proposition by evaluating its decision procedure. *)
Lemma bool_decide_holds (P : Prop) `{Decision P} : bool_decide P = true → P.
Proof. apply bool_decide_eq_true_1. Qed.
Ltac by_decision :=
  match goal with |- ?P => apply (bool_decide_holds P); vm_compute; reflexivity end.

(** ** Assignment to a field

    [eta] rebuilds a record from its fields; the [Setter] of a field is computed
    from it, so that [r <| f := v |>] reads like the assignment [r.f = v]. *)
Class Eta (R : Type) := eta : R → R.
Class Setter {R T : Type} (proj : R → T) := set : (T → T) → R → R.
Arguments set {R T} proj {_} f r /.
Ltac build_setter :=
  lazymatch goal with
  | |- @Setter ?R ?T ?proj =>
      let inst := constr:(_ : Eta R) in
      let f := fresh "f" in
      let x := fresh "x" in
      refine (fun (f : T -> T) (x : R) => _);
      let e := eval hnf in (inst x) in
      lazymatch eval pattern (proj x) in e with
      | ?P _ => let r := eval cbv beta in (P (f (proj x))) in exact r
      end
  end.
#[export] Hint Extern 0 (Setter _) => build_setter : typeclass_instances.
Notation "r <| p := v |>" := (set p (λ _, v) r)
  (at level 12, left associativity, p at level 11, format "r  <| p  :=  v |>") : stdpp_scope.
Notation "r <| p ::= f |>" := (set p f r)
  (at level 12, left associativity, p at level 11, format "r  <| p  ::=  f |>") : stdpp_scope.

(** ** Generic lemmas *)
Lemma res_mapM_ok {E A B} (f : A → res E B) l ys :
  res_mapM f l = Ok ys ↔ Forall2 (λ x y, f x = Ok y) l ys.
Proof.
  revert ys. induction l as [|x l IH]; intros ys; simpl.
  - split; [intros [= <-]; constructor|by inversion 1].
  - split.
    + intros H. destruct (f x) as [y|] eqn:Hf; [|done].
      destruct (res_mapM f l) as [ys'|] eqn:Hl; [|done].
      injection H as <-. constructor; [done|by apply IH].
    + inversion 1 as [|? y ? ys' Hy Hys]; subst. apply IH in Hys.
      by rewrite Hy, Hys.
Qed.

Lemma res_mapM_err {E A B} (f : A → res E B) l e :
  res_mapM f l = Err e → ∃ x, x ∈ l ∧ f x = Err e.
Proof.
  induction l as [|x l IH]; simpl; [done|].
  intros H. destruct (f x) as [y|] eqn:Hf.
  - destruct (res_mapM f l) as [ys|] eqn:Hl; [done|].
    destruct (IH H) as (x' & ? & ?). exists x'. split; [by right|done].
  - injection H as ->. exists x. split; [by left|done].
Qed.

Lemma u32_bound z : (0 ≤ u32 z < 2 ^ 32)%Z.
Proof. apply Z.mod_pos_bound. lia. Qed.
Lemma u64_bound z : (0 ≤ u64 z < 2 ^ 64)%Z.
Proof. apply Z.mod_pos_bound. lia. Qed.
#[export] Hint Resolve u32_bound u64_bound : blip.

Lemma u64_add_l a b : u64 (u64 a + b) = u64 (a + b).
Proof. unfold u64. by rewrite Zplus_mod_idemp_l. Qed.
Lemma u64_add_r a b : u64 (a + u64 b) = u64 (a + b).
Proof. unfold u64. by rewrite Zplus_mod_idemp_r. Qed.
Lemma u64_sub_l a b : u64 (u64 a - b) = u64 (a - b).
Proof. unfold u64. by rewrite Zminus_mod_idemp_l. Qed.
Lemma u64_idemp a : u64 (u64 a) = u64 a.
Proof. unfold u64. by rewrite Zmod_mod. Qed.

Lemma filter_id {A} (P : A → Prop) `{!∀ x, Decision (P x)} (l : list A) :
  (∀ x, x ∈ l → P x) → filter P l = l.
Proof.
  induction l as [|x l IH]; intros HP; [done|].
  rewrite filter_cons_True by (apply HP; left). f_equal. apply IH. intros y Hy. apply HP. by right.
Qed.

Lemma omap_app_list {A B} (f : A → option B) l k : omap f (l ++ k) = omap f l ++ omap f k.
Proof. induction l as [|x l IH]; [done|]. csimpl. rewrite IH. by destruct (f x). Qed.

Lemma omap_ext_in {A B} (f g : A → option B) (l : list A) :
  (∀ x, x ∈ l → f x = g x) → omap f l = omap g l.
Proof.
  induction l as [|x l IH]; intros H; [done|]. csimpl. rewrite (H x) by left.
  rewrite IH; [done|]. intros y Hy. apply H. by right.
Qed.

(** ** Lexicographic orders

    [lex le f R]: compare by the key [f], ties broken by [R], as the chained
    comparators passed to [sort.Slice] do. *)
Definition lex {A K} `{EqDecision K} (le : relation K) (f : A → K) (R : relation A) : relation A :=
  λ a b, if decide (f a = f b) then R a b else le (f a) (f b).

Section Lex.
Context {A K : Type} `{EqDecision K} (le : relation K) (f : A → K) (R : relation A).

#[export] Instance lex_dec `{!RelDecision le, !RelDecision R} : RelDecision (lex le f R).
Proof. intros a b. unfold lex. destruct (decide (f a = f b)); apply _. Defined.

#[export] Instance lex_total `{!Total le, !Total R} : Total (lex le f R).
Proof.
  intros a b. unfold lex. destruct (decide (f a = f b)) as [->|Hne].
  - rewrite decide_True by done. apply (total R).
  - rewrite (decide_False (P := f b = f a)) by congruence. apply (total le).
Qed.

#[export] Instance lex_trans `{!PartialOrder le, !Transitive R} : Transitive (lex le f R).
Proof.
  intros a b c. unfold lex. destruct (decide (f a = f b)) as [E|E].
  - rewrite E. case_decide; [by etrans|done].
  - destruct (decide (f b = f c)) as [E'|E'].
    + rewrite <-E'. by rewrite decide_False.
    + intros H1 H2. case_decide as E''.
      * rewrite E'' in H1. destruct E'. by apply (anti_symm le).
      * by etrans.
Qed.

Lemma lex_anti_symm `{!PartialOrder le} a b :
  lex le f R a b → lex le f R b a → f a = f b ∧ R a b ∧ R b a.
Proof.
  unfold lex. destruct (decide (f a = f b)) as [E|E].
  - rewrite decide_True by done. done.
  - rewrite decide_False by congruence. intros. destruct E. by apply (anti_symm le).
Qed.
End Lex.

Lemma merge_sort_unique {A} (R : relation A) `{!RelDecision R, !Transitive R, !Total R, !AntiSymm (=) R} l k :
  l ≡ₚ k → merge_sort R l = merge_sort R k.
Proof.
  intros Hp. apply (StronglySorted_unique R); [apply StronglySorted_merge_sort; apply _..|].
  by rewrite !merge_sort_Permutation.
Qed.

(** ** Stable sorting

    [sort.SliceStable] as insertion from the left: an element goes after the
    elements it is not less than. *)
Section StableSort.
Context {A : Type} (less : A → A → bool).

Fixpoint stable_ins (x : A) (l : list A) : list A :=
  match l with
  | [] => [x]
  | y :: l' => if less x y then x :: l else y :: stable_ins x l'
  end.
Definition stable_sort (l : list A) : list A := foldl (λ acc x, stable_ins x acc) [] l.

Lemma stable_ins_perm x l : stable_ins x l ≡ₚ x :: l.
Proof.
  induction l as [|y l IH]; [done|]. cbn [stable_ins]. destruct (less x y); [done|].
  rewrite IH. apply Permutation_swap.
Qed.
Lemma stable_sort_perm l : stable_sort l ≡ₚ l.
Proof.
  unfold stable_sort. induction l as [|x l IH] using rev_ind; [done|].
  rewrite foldl_app. cbn [foldl]. rewrite stable_ins_perm, IH. apply Permutation_cons_append.
Qed.

(** [less] by an integer key. *)
Context (key : A → Z) (Hless : ∀ x y, less x y = (key x <? key y)%Z).
Notation le := (λ x y, (key x ≤ key y)%Z).

Lemma stable_ins_sorted x l : StronglySorted le l → StronglySorted le (stable_ins x l).
Proof.
  induction 1 as [|y l Hl IH Hy]; cbn [stable_ins]; [repeat constructor|].
  rewrite Hless. destruct (Z.ltb_spec (key x) (key y)).
  - constructor; [by constructor|]. constructor; [lia|]. eapply Forall_impl; [exact Hy|]. cbn. lia.
  - constructor; [done|]. rewrite stable_ins_perm. by constructor.
Qed.
Lemma stable_sort_sorted l : StronglySorted le (stable_sort l).
Proof.
  unfold stable_sort. induction l as [|x l IH] using rev_ind; [constructor|].
  rewrite foldl_app. cbn [foldl]. by apply stable_ins_sorted.
Qed.

(** Elements with equal keys keep their order. *)
Lemma filter_key_lt k l : Forall (λ y, (k < key y)%Z) l → filter (λ y, key y = k) l = [].
Proof. induction 1 as [|y l Hy _ IH]; [done|]. rewrite filter_cons_False; [done|lia]. Qed.
Lemma stable_ins_filter k x l :
  StronglySorted le l →
  filter (λ y, key y = k) (stable_ins x l) = filter (λ y, key y = k) l ++ filter (λ y, key y = k) [x].
Proof.
  induction 1 as [|y l Hl IH Hy]; cbn [stable_ins]; [done|]. rewrite Hless.
  destruct (Z.ltb_spec (key x) (key y)) as [Hlt|Hge].
  - rewrite !(filter_cons _ x), filter_nil. destruct (decide (key x = k)) as [Hk|Hk].
    + rewrite filter_key_lt; [done|].
      constructor; [lia|]. eapply Forall_impl; [exact Hy|]. cbn. lia.
    + by rewrite List.app_nil_r.
  - rewrite !(filter_cons _ y), IH. by case_decide.
Qed.
Lemma stable_sort_filter k l : filter (λ y, key y = k) (stable_sort l) = filter (λ y, key y = k) l.
Proof.
  unfold stable_sort. induction l as [|x l IH] using rev_ind; [done|].
  rewrite foldl_app, filter_app, <-IH. cbn [foldl]. apply stable_ins_filter, stable_sort_sorted.
Qed.
End StableSort.
