(* ===== verification/GoStrings.v ===== *)
(** * Go's string operations

    Go strings are byte strings: [string] of 8-bit [ascii].  This file defines
    the operations of the packages [strings] and [strconv] that BlipDNS uses,
    on byte strings: case mapping and white space are the ASCII ones (a name
    in wire format is escaped to ASCII before the program sees it), an index is
    [None] where Go returns -1, and a slice [s[i:]], [s[:i]] is [sdrop]/[stake].
    The last part is the theory of parent domains that the filter, the
    blocklist and the record store share. *)
From S2P Require Import Prelude.
From Stdlib Require Import Ascii.

Abbreviation slen := String.length.

(** ** Characters *)
Definition code (c : ascii) : Z := Z.of_N (N_of_ascii c).
Definition in_range (lo hi : Z) (c : ascii) : bool := (lo <=? code c)%Z && (code c <=? hi)%Z.
Definition ascii_eqb (c d : ascii) : bool := Ascii.eqb c d.
Definition is_digit : ascii → bool := in_range 48 57.
Definition lower_ascii (c : ascii) : ascii :=
  if in_range 65 90 c then ascii_of_N (N_of_ascii c + 32) else c.
Definition upper_ascii (c : ascii) : ascii :=
  if in_range 97 122 c then ascii_of_N (N_of_ascii c - 32) else c.
Definition is_space (c : ascii) : bool := in_range 9 13 c || (code c =? 32)%Z.
Definition dot : ascii := "."%char.
Definition is_dot (c : ascii) : bool := ascii_eqb c dot.

#[global] Arguments ascii_eqb : simpl never.
#[global] Arguments in_range : simpl never.
#[global] Arguments is_dot : simpl never.
#[global] Arguments is_space : simpl never.
#[global] Arguments lower_ascii : simpl never.
#[global] Arguments upper_ascii : simpl never.

(** ** Slices *)
Fixpoint sdrop (n : nat) (s : string) : string :=
  match n, s with
  | S n, String _ s => sdrop n s
  | _, _ => s
  end.
Fixpoint stake (n : nat) (s : string) : string :=
  match n, s with
  | S n, String c s => String c (stake n s)
  | _, _ => ""
  end.
Fixpoint smap (f : ascii → ascii) (s : string) : string :=
  match s with "" => "" | String c s => String (f c) (smap f s) end.
Fixpoint sforall (p : ascii → bool) (s : string) : bool :=
  match s with "" => true | String c s => p c && sforall p s end.

Definition str_eqb (s t : string) : bool := String.eqb s t.
#[global] Arguments str_eqb : simpl never.

(** ** Package strings *)
Definition ToLower : string → string := smap lower_ascii.
Definition ToUpper : string → string := smap upper_ascii.
Definition HasPrefix (s p : string) : bool := String.prefix p s.
Definition HasSuffix (s p : string) : bool :=
  (slen p <=? slen s) && str_eqb (sdrop (slen s - slen p) s) p.
Definition TrimPrefix (s p : string) : string :=
  if HasPrefix s p then sdrop (slen p) s else s.
Definition TrimSuffix (s p : string) : string :=
  if HasSuffix s p then stake (slen s - slen p) s else s.
Definition CutSuffix (s p : string) : option string :=
  if HasSuffix s p then Some (stake (slen s - slen p) s) else None.
Fixpoint IndexFunc (p : ascii → bool) (s : string) : option nat :=
  match s with
  | "" => None
  | String c s => if p c then Some 0 else S <$> IndexFunc p s
  end.
Definition IndexByte (s : string) (c : ascii) : option nat := IndexFunc (ascii_eqb c) s.
Fixpoint LastIndexFunc (p : ascii → bool) (s : string) : option nat :=
  match s with
  | "" => None
  | String c s =>
      match LastIndexFunc p s with
      | Some i => Some (S i)
      | None => if p c then Some 0 else None
      end
  end.
Definition LastIndexByte (s : string) (c : ascii) : option nat := LastIndexFunc (ascii_eqb c) s.
Fixpoint str_mem (c : ascii) (s : string) : bool :=
  match s with "" => false | String d s => ascii_eqb c d || str_mem c s end.
Definition IndexAny (s chars : string) : option nat := IndexFunc (λ c, str_mem c chars) s.
Definition ContainsAny (s chars : string) : bool := bool_decide (is_Some (IndexAny s chars)).
Definition Index (s sub : string) : option nat := String.index 0 sub s.
Definition Contains (s sub : string) : bool := bool_decide (is_Some (Index s sub)).
Fixpoint LastIndex (s sub : string) : option nat :=
  match s with
  | "" => if HasPrefix "" sub then Some 0 else None
  | String _ s' =>
      match LastIndex s' sub with
      | Some i => Some (S i)
      | None => if HasPrefix s sub then Some 0 else None
      end
  end.
Fixpoint TrimLeftFunc (p : ascii → bool) (s : string) : string :=
  match s with
  | "" => ""
  | String c s' => if p c then TrimLeftFunc p s' else s
  end.
Fixpoint TrimRightFunc (p : ascii → bool) (s : string) : string :=
  match s with
  | "" => ""
  | String c s' =>
      match TrimRightFunc p s' with
      | "" => if p c then "" else String c ""
      | r => String c r
      end
  end.
Definition TrimSpace (s : string) : string := TrimRightFunc is_space (TrimLeftFunc is_space s).
Definition TrimLeft (s chars : string) : string := TrimLeftFunc (λ c, str_mem c chars) s.
Definition TrimRight (s chars : string) : string := TrimRightFunc (λ c, str_mem c chars) s.
Definition Trim (s chars : string) : string := TrimRight (TrimLeft s chars) chars.
(** [Split s sep] for a one-byte separator. *)
Fixpoint Split (s : string) (sep : ascii) : list string :=
  match s with
  | "" => [""]
  | String c s' =>
      if ascii_eqb c sep then "" :: Split s' sep
      else match Split s' sep with
           | [] => [String c ""]
           | w :: ws => String c w :: ws
           end
  end.
Definition Join (l : list string) (sep : string) : string := String.concat sep l.
Fixpoint fields_go (p : ascii → bool) (cur s : string) : list string :=
  match s with
  | "" => if str_eqb cur "" then [] else [cur]
  | String c s' =>
      if p c then (if str_eqb cur "" then fields_go p "" s' else cur :: fields_go p "" s')
      else fields_go p (cur +:+ String c "") s'
  end.
Definition FieldsFunc (s : string) (p : ascii → bool) : list string := fields_go p "" s.
Definition Fields (s : string) : list string := FieldsFunc s is_space.

(** ** Package strconv *)
Definition Itoa (z : Z) : string := pretty z.
Fixpoint parse_digits (acc : Z) (s : string) : option Z :=
  match s with
  | "" => Some acc
  | String c s' => if is_digit c then parse_digits (10 * acc + (code c - 48)) s' else None
  end.
Definition parse_nat_dec (s : string) : option Z :=
  match s with "" => None | _ => parse_digits 0 s end.
Definition check_int64 (z : Z) : option Z := if in_int64 z then Some z else None.
(** [strconv.Atoi]: an optional sign, decimal digits, the int64 range. *)
Definition Atoi (s : string) : option Z :=
  match s with
  | String "-" r => parse_nat_dec r ≫= λ z, check_int64 (- z)
  | String "+" r => parse_nat_dec r ≫= check_int64
  | _ => parse_nat_dec s ≫= check_int64
  end.

(** ** Parent domains

    [parents s] lists what follows each dot of [s], left to right: for
    "a.b.c" it is ["b.c"; "c"].  [reference loops]: the label walks of the
    filter, the blocklist and the record store all enumerate it. *)
Fixpoint parents (s : string) : list string :=
  match s with
  | "" => []
  | String c s' => if is_dot c then s' :: parents s' else parents s'
  end.
(** [x] is a strict subdomain of [root]. *)
Definition subdomain (x root : string) : Prop := ∃ p, x = p +:+ String dot root.

(** ** Lemmas on strings *)
Lemma ascii_eqb_eq c d : ascii_eqb c d = true ↔ c = d.
Proof. apply Ascii.eqb_eq. Qed.
Lemma ascii_eqb_refl c : ascii_eqb c c = true.
Proof. by apply ascii_eqb_eq. Qed.
Lemma ascii_eqb_neq c d : ascii_eqb c d = false ↔ c ≠ d.
Proof. apply Ascii.eqb_neq. Qed.
Lemma is_dot_true c : is_dot c = true ↔ c = dot.
Proof. apply ascii_eqb_eq. Qed.
Lemma is_dot_false c : is_dot c = false ↔ c ≠ dot.
Proof. apply ascii_eqb_neq. Qed.
Lemma str_eqb_eq s t : str_eqb s t = true ↔ s = t.
Proof. apply String.eqb_eq. Qed.
Lemma str_eqb_neq s t : str_eqb s t = false ↔ s ≠ t.
Proof. apply String.eqb_neq. Qed.
Lemma str_eqb_refl s : str_eqb s s = true.
Proof. by apply str_eqb_eq. Qed.

Lemma app_nil_l s : "" +:+ s = s.
Proof. done. Qed.
Lemma app_cons c s t : String c s +:+ t = String c (s +:+ t).
Proof. done. Qed.
Lemma app_nil_r s : s +:+ "" = s.
Proof. induction s as [|c s IH]; [done|]. by rewrite app_cons, IH. Qed.
Lemma app_assoc s t u : (s +:+ t) +:+ u = s +:+ t +:+ u.
Proof. induction s as [|c s IH]; [done|]. by rewrite !app_cons, IH. Qed.
Lemma slen_app s t : slen (s +:+ t) = slen s + slen t.
Proof. induction s as [|c s IH]; [done|]. rewrite app_cons. simpl. by rewrite IH. Qed.
Lemma slen_0 s : slen s = 0 → s = "".
Proof. by destruct s. Qed.
Lemma app_inj_r p q s : p +:+ s = q +:+ s → p = q.
Proof.
  intros H. assert (slen p = slen q) as Hl.
  { apply (f_equal slen) in H. rewrite !slen_app in H. lia. }
  revert q H Hl. induction p as [|c p IH]; intros [|d q] H Hl; try done.
  rewrite !app_cons in H. injection H as -> H. f_equal. apply IH; [done|]. simpl in Hl. lia.
Qed.
Lemma app_eq_nil s t : s +:+ t = "" → s = "" ∧ t = "".
Proof. by destruct s. Qed.

Lemma sdrop_app s t : sdrop (slen s) (s +:+ t) = t.
Proof. induction s as [|c s IH]; [done|]. rewrite app_cons. done. Qed.
Lemma stake_app s t : stake (slen s) (s +:+ t) = s.
Proof. induction s as [|c s IH]; [done|]. rewrite app_cons. simpl. by rewrite IH. Qed.
Lemma stake_sdrop n s : stake n s +:+ sdrop n s = s.
Proof.
  revert s. induction n as [|n IH]; intros [|c s]; try done.
  simpl. by rewrite app_cons, IH.
Qed.
Lemma slen_sdrop n s : slen (sdrop n s) = slen s - n.
Proof. revert s. induction n as [|n IH]; intros [|c s]; simpl; auto. Qed.
Lemma slen_stake n s : n ≤ slen s → slen (stake n s) = n.
Proof.
  revert s. induction n as [|n IH]; intros [|c s]; simpl; intros; try lia.
  rewrite IH; lia.
Qed.

Lemma HasPrefix_spec s p : HasPrefix s p = true ↔ ∃ t, s = p +:+ t.
Proof.
  unfold HasPrefix. revert s. induction p as [|c p IH]; intros s.
  - destruct s; simpl; (split; [intros _; eexists; done|done]).
  - destruct s as [|d s]; simpl.
    + split; [done|]. intros [t Ht]. by rewrite app_cons in Ht.
    + destruct (ascii_dec c d) as [->|Hne].
      * rewrite IH. split; intros [t Ht]; exists t.
        -- by rewrite Ht, app_cons.
        -- rewrite app_cons in Ht. by injection Ht.
      * split; [done|]. intros [t Ht]. rewrite app_cons in Ht. congruence.
Qed.
Lemma HasPrefix_app p t : HasPrefix (p +:+ t) p = true.
Proof. apply HasPrefix_spec. eauto. Qed.
Lemma TrimPrefix_app p t : TrimPrefix (p +:+ t) p = t.
Proof. unfold TrimPrefix. by rewrite HasPrefix_app, sdrop_app. Qed.

Lemma HasSuffix_spec s p : HasSuffix s p = true ↔ ∃ t, s = t +:+ p.
Proof.
  unfold HasSuffix. rewrite andb_true_iff, Nat.leb_le, str_eqb_eq. split.
  - intros [_ H]. exists (stake (slen s - slen p) s). rewrite <-H at 2. by rewrite stake_sdrop.
  - intros [t ->]. rewrite slen_app. split; [lia|].
    replace (slen t + slen p - slen p) with (slen t) by lia. apply sdrop_app.
Qed.
Lemma HasSuffix_app t p : HasSuffix (t +:+ p) p = true.
Proof. apply HasSuffix_spec. eauto. Qed.
Lemma TrimSuffix_app t p : TrimSuffix (t +:+ p) p = t.
Proof.
  unfold TrimSuffix. rewrite HasSuffix_app, slen_app.
  replace (slen t + slen p - slen p) with (slen t) by lia. apply stake_app.
Qed.
Lemma CutSuffix_app t p : CutSuffix (t +:+ p) p = Some t.
Proof.
  unfold CutSuffix. rewrite HasSuffix_app, slen_app.
  replace (slen t + slen p - slen p) with (slen t) by lia. by rewrite stake_app.
Qed.
Lemma CutSuffix_Some s p t : CutSuffix s p = Some t ↔ s = t +:+ p.
Proof.
  split; [|intros ->; apply CutSuffix_app].
  unfold CutSuffix. destruct (HasSuffix s p) eqn:H; [|done].
  apply HasSuffix_spec in H as [u ->]. rewrite slen_app.
  replace (slen u + slen p - slen p) with (slen u) by lia. rewrite stake_app. congruence.
Qed.
Lemma TrimSuffix_cases s p :
  (HasSuffix s p = false ∧ TrimSuffix s p = s) ∨ (∃ t, s = t +:+ p ∧ TrimSuffix s p = t).
Proof.
  destruct (HasSuffix s p) eqn:H.
  - right. apply HasSuffix_spec in H as [t ->]. exists t. by rewrite TrimSuffix_app.
  - left. unfold TrimSuffix. by rewrite H.
Qed.

(** ** Case mapping *)
Lemma smap_app f s t : smap f (s +:+ t) = smap f s +:+ smap f t.
Proof. induction s as [|c s IH]; [done|]. rewrite !app_cons. simpl. by rewrite IH. Qed.
Lemma slen_smap f s : slen (smap f s) = slen s.
Proof. induction s as [|c s IH]; [done|]. simpl. by rewrite IH. Qed.
Lemma lower_idemp c : lower_ascii (lower_ascii c) = lower_ascii c.
Proof. by destruct c as [[] [] [] [] [] [] [] []]. Qed.
Lemma ToLower_idemp s : ToLower (ToLower s) = ToLower s.
Proof. unfold ToLower. induction s as [|c s IH]; [done|]. simpl. by rewrite lower_idemp, IH. Qed.
Lemma ToLower_app s t : ToLower (s +:+ t) = ToLower s +:+ ToLower t.
Proof. apply smap_app. Qed.
Lemma lower_dot c : lower_ascii c = dot ↔ c = dot.
Proof. split; [|by intros ->]. by destruct c as [[] [] [] [] [] [] [] []]. Qed.
Lemma is_dot_lower c : is_dot (lower_ascii c) = is_dot c.
Proof. by destruct c as [[] [] [] [] [] [] [] []]. Qed.
Lemma is_space_lower c : is_space (lower_ascii c) = is_space c.
Proof. by destruct c as [[] [] [] [] [] [] [] []]. Qed.
Lemma ToLower_nil s : ToLower s = "" ↔ s = "".
Proof. by destruct s. Qed.
Lemma smap_app_inv f s t u : smap f s = t +:+ u →
  ∃ t' u', s = t' +:+ u' ∧ smap f t' = t ∧ smap f u' = u.
Proof.
  revert s. induction t as [|c t IH]; intros s H.
  - exists "", s. done.
  - destruct s as [|d s]; [done|]. rewrite app_cons in H. simpl in H. injection H as <- H.
    destruct (IH _ H) as (t' & u' & -> & <- & <-). exists (String d t'), u'. done.
Qed.
Lemma HasSuffix_dot_lower s : HasSuffix (ToLower s) "." = HasSuffix s ".".
Proof.
  apply eq_true_iff_eq. rewrite !HasSuffix_spec. split.
  - intros [t Ht]. apply smap_app_inv in Ht as (t' & u' & -> & _ & Hu).
    destruct u' as [|c [|? ?]]; try done. injection Hu as Hc. apply lower_dot in Hc as ->. by exists t'.
  - intros [t ->]. exists (ToLower t). by rewrite ToLower_app.
Qed.
(** Lowering commutes with stripping the root dot: the program does both orders. *)
Lemma TrimSuffix_dot_lower s : TrimSuffix (ToLower s) "." = ToLower (TrimSuffix s ".").
Proof.
  destruct (TrimSuffix_cases s ".") as [[Hs ->]|(t & -> & ->)].
  - unfold TrimSuffix. by rewrite HasSuffix_dot_lower, Hs.
  - rewrite ToLower_app. apply TrimSuffix_app.
Qed.

(** ** Parent domains *)
Lemma parents_spec s x : x ∈ parents s ↔ subdomain s x.
Proof.
  unfold subdomain. induction s as [|c s IH]; simpl.
  - split; [by intros ?%elem_of_nil|]. intros [p Hp]. by destruct p.
  - destruct (is_dot c) eqn:Hc.
    + apply is_dot_true in Hc as ->. rewrite elem_of_cons, IH. split.
      * intros [->|[p ->]]; [by exists ""|]. by exists (String dot p).
      * intros [[|d p] Hp]; rewrite ?app_cons in Hp; [left; by injection Hp|].
        injection Hp as _ Hp. right. by exists p.
    + rewrite IH. split.
      * intros [p ->]. by exists (String c p).
      * intros [[|d p] Hp]; rewrite ?app_cons in Hp.
        { injection Hp as -> _. by rewrite (proj2 (is_dot_true dot) eq_refl) in Hc. }
        injection Hp as -> Hp. by exists p.
Qed.
Lemma parents_lower s : parents (ToLower s) = ToLower <$> parents s.
Proof.
  unfold ToLower. induction s as [|c s IH]; [done|].
  simpl. rewrite is_dot_lower, IH. by destruct (is_dot c).
Qed.
Lemma parents_slen s x : x ∈ parents s → slen x < slen s.
Proof. intros [p ->]%parents_spec. rewrite slen_app. simpl. lia. Qed.
Lemma subdomain_trans s t u : subdomain s t → subdomain t u → subdomain s u.
Proof. intros [p ->] [q ->]. exists (p +:+ String dot q). by rewrite app_assoc. Qed.
Lemma subdomain_irrefl s : ¬ subdomain s s.
Proof. intros ?%parents_spec%parents_slen. lia. Qed.

(** The step of the label loops: [i := strings.IndexByte(a, '.'); a = a[i+1:]]. *)
Definition next_label (a : string) : option string :=
  match IndexByte a dot with None => None | Some i => Some (sdrop (S i) a) end.
Lemma next_label_cons c s : next_label (String c s) = if is_dot c then Some s else next_label s.
Proof.
  unfold next_label, IndexByte, is_dot. simpl.
  replace (ascii_eqb dot c) with (ascii_eqb c dot) by apply Ascii.eqb_sym.
  destruct (ascii_eqb c dot); [done|]. by destruct (IndexFunc _ s).
Qed.
Lemma parents_next_label s :
  parents s = match next_label s with None => [] | Some b => b :: parents b end.
Proof.
  induction s as [|c s IH]; [done|].
  rewrite next_label_cons. simpl. destruct (is_dot c); done.
Qed.
Lemma next_label_slen a b : next_label a = Some b → slen b < slen a.
Proof. intros H. apply parents_slen. rewrite parents_next_label, H. by left. Qed.

(** The suffix joins [strings.Join(labels[i:], ".")] of a split name. *)
Fixpoint suffix_joins (ws : list string) : list string :=
  match ws with [] => [] | _ :: ws' => Join ws "." :: suffix_joins ws' end.
Lemma Split_nonempty s sep : Split s sep ≠ [].
Proof. destruct s as [|c s]; simpl; [done|]. destruct (ascii_eqb c sep); [done|]. by destruct (Split s sep). Qed.
Lemma Join_cons w ws sep : ws ≠ [] → Join (w :: ws) sep = w +:+ sep +:+ Join ws sep.
Proof. by destruct ws. Qed.
Lemma Join_Split s : Join (Split s dot) "." = s.
Proof.
  induction s as [|c s IH]; [done|]. simpl.
  pose proof (Split_nonempty s dot) as Hne. destruct (ascii_eqb c dot) eqn:Hc.
  - apply ascii_eqb_eq in Hc as ->. by rewrite Join_cons, IH.
  - destruct (Split s dot) as [|w ws]; [done|]. destruct ws as [|w' ws].
    + unfold Join in *. simpl in *. by rewrite IH.
    + rewrite Join_cons in IH |- * by done. by rewrite app_cons, IH.
Qed.
Lemma suffix_joins_tail s : suffix_joins (tail (Split s dot)) = parents s.
Proof.
  induction s as [|c s IH]; [done|]. simpl. unfold is_dot.
  destruct (ascii_eqb c dot) eqn:Hc; simpl.
  - rewrite <-IH. rewrite <-(Join_Split s) at 2.
    pose proof (Split_nonempty s dot). by destruct (Split s dot).
  - pose proof (Split_nonempty s dot). by destruct (Split s dot).
Qed.
Lemma suffix_joins_lookup ws i :
  suffix_joins ws !! i = if decide (i < length ws) then Some (Join (drop i ws) ".") else None.
Proof.
  revert i. induction ws as [|w ws IH]; intros i; [done|].
  destruct i as [|i]; simpl; [done|]. rewrite IH. by repeat case_decide; try lia.
Qed.
(** The loop [for i := 1; i < len(labels); i++ { strings.Join(labels[i:], ".") }]. *)
Lemma label_loop s :
  (λ i, Join (drop i (Split s dot)) ".") <$> seq 1 (length (Split s dot) - 1) = parents s.
Proof.
  rewrite <-suffix_joins_tail. set (L := Split s dot). pose proof (Split_nonempty s dot) as Hne.
  fold L in Hne. destruct L as [|w ws]; [done|]. simpl. rewrite Nat.sub_0_r.
  apply list_eq. intros i. rewrite suffix_joins_lookup, list_lookup_fmap.
  case_decide.
  - rewrite lookup_seq_lt by done. simpl. done.
  - rewrite lookup_seq_ge by lia. done.
Qed.

(** ** Trimming *)
Lemma TrimLeft_stop p c s : p c = false → TrimLeftFunc p (String c s) = String c s.
Proof. intros H. simpl. by rewrite H. Qed.
Lemma TrimRight_stop p c s : p c = false → TrimRightFunc p (s +:+ String c "") = s +:+ String c "".
Proof.
  intros H. induction s as [|d s IH].
  - rewrite app_nil_l. simpl. by rewrite H.
  - rewrite app_cons. simpl. rewrite IH. by destruct s.
Qed.
Lemma TrimSpace_stop c s d : is_space c = false → is_space d = false →
  TrimSpace (String c (s +:+ String d "")) = String c (s +:+ String d "").
Proof.
  intros Hc Hd. unfold TrimSpace. rewrite TrimLeft_stop by done.
  by apply (TrimRight_stop is_space d (String c s)).
Qed.

(** ** Separators and decimal numbers *)
Definition free_of (c : ascii) (s : string) : bool := sforall (λ d, negb (ascii_eqb d c)) s.

Lemma sforall_app p s t : sforall p (s +:+ t) = sforall p s && sforall p t.
Proof. induction s as [|c s IH]; [done|]. rewrite app_cons. cbn [sforall]. by rewrite IH, andb_assoc. Qed.

Lemma free_of_cons c d s : free_of c (String d s) = true ↔ d ≠ c ∧ free_of c s = true.
Proof. unfold free_of. cbn [sforall]. by rewrite andb_true_iff, negb_true_iff, ascii_eqb_neq. Qed.

Lemma first_sep_inj c t u p q :
  free_of c t = true → free_of c u = true →
  t +:+ String c p = u +:+ String c q → t = u ∧ p = q.
Proof.
  revert u. induction t as [|d t IH]; intros [|d' u] Ht Hu; rewrite ?app_cons, ?app_nil_l.
  - by intros [= ->].
  - intros [= <- _]. by apply free_of_cons in Hu as [? _].
  - intros [= -> _]. by apply free_of_cons in Ht as [? _].
  - apply free_of_cons in Ht as [_ Ht], Hu as [_ Hu]. intros [= -> H].
    by destruct (IH u Ht Hu H) as [-> ->].
Qed.

Lemma last_sep_inj c p q t u :
  free_of c t = true → free_of c u = true →
  p +:+ String c t = q +:+ String c u → p = q ∧ t = u.
Proof.
  intros Ht Hu. revert q. induction p as [|d p IH]; intros [|d' q]; rewrite ?app_cons, ?app_nil_l.
  - by intros [= ->].
  - intros [= -> ->]. unfold free_of in Ht. rewrite sforall_app in Ht. cbn [sforall] in Ht.
    rewrite ascii_eqb_refl in Ht. cbn in Ht. by rewrite andb_false_r in Ht.
  - intros [= -> <-]. unfold free_of in Hu. rewrite sforall_app in Hu. cbn [sforall] in Hu.
    rewrite ascii_eqb_refl in Hu. cbn in Hu. by rewrite andb_false_r in Hu.
  - intros [= -> H]. by destruct (IH q H) as [-> ->].
Qed.

Lemma pretty_N_go_forall p x s :
  (∀ d, p (pretty_N_char d) = true) → sforall p s = true → sforall p (pretty_N_go x s) = true.
Proof.
  intros Hp. revert s. induction (N.lt_wf_0 x) as [x _ IH]; intros s Hs.
  destruct (decide (x = 0)%N) as [->|Hx]; [done|].
  rewrite pretty_N_go_step by lia. apply IH; [by apply N.div_lt; lia|]. cbn [sforall]. by rewrite Hp.
Qed.

Lemma Itoa_forall p z :
  p "-"%char = true → (∀ d, p (pretty_N_char d) = true) → sforall p (Itoa z) = true.
Proof.
  intros Hm Hp. unfold Itoa, pretty. destruct z as [|n|n]; cbn [pretty_Z].
  - cbn [sforall]. pose proof (Hp 0%N) as H0. cbn in H0. by rewrite H0.
  - unfold pretty, pretty_positive, pretty, pretty_N. case_decide; [done|]. by apply pretty_N_go_forall.
  - rewrite sforall_app. cbn [sforall]. rewrite Hm. cbn [andb].
    unfold pretty, pretty_positive, pretty, pretty_N. case_decide; [done|]. by apply pretty_N_go_forall.
Qed.

Lemma Itoa_inj z z' : Itoa z = Itoa z' → z = z'.
Proof. apply (inj pretty). Qed.

Lemma Itoa_free c z : c ≠ "-"%char → is_digit c = false → free_of c (Itoa z) = true.
Proof.
  intros Hc Hd. apply Itoa_forall; intros; apply negb_true_iff, ascii_eqb_neq; [done|].
  intros <-. unfold pretty_N_char in Hd. by repeat case_match.
Qed.

(** ** Splitting what was joined *)
Lemma Split_free sep w : free_of sep w = true → Split w sep = [w].
Proof.
  induction w as [|c w IH]; [done|]. intros [Hc Hw]%free_of_cons. cbn [Split].
  apply ascii_eqb_neq in Hc. rewrite Hc, IH by done. done.
Qed.
Lemma Split_app sep w s : free_of sep w = true → Split (w +:+ String sep s) sep = w :: Split s sep.
Proof.
  induction w as [|c w IH]; intros H.
  - rewrite app_nil_l. cbn [Split]. by rewrite ascii_eqb_refl.
  - apply free_of_cons in H as [Hc Hw]. rewrite app_cons. cbn [Split].
    apply ascii_eqb_neq in Hc. by rewrite Hc, IH.
Qed.
Lemma Split_Join_sep c ws :
  ws ≠ [] → Forall (λ w, free_of c w = true) ws → Split (Join ws (String c "")) c = ws.
Proof.
  induction ws as [|w ws IH]; [done|]. intros _ [Hw Hws]%Forall_cons.
  destruct ws as [|w' ws]; [by apply Split_free|].
  rewrite Join_cons by done. change (String c "" +:+ Join (w' :: ws) (String c "")) with (String c (Join (w' :: ws) (String c ""))).
  rewrite Split_app, IH; done.
Qed.
Lemma Split_Join ws :
  ws ≠ [] → Forall (λ w, free_of dot w = true) ws → Split (Join ws ".") dot = ws.
Proof. exact (Split_Join_sep dot ws). Qed.

Lemma smap_id f s : sforall (λ c, ascii_eqb (f c) c) s = true → smap f s = s.
Proof.
  induction s as [|c s IH]; [done|]. cbn [sforall smap]. intros [Hc Hs]%andb_true_iff.
  apply ascii_eqb_eq in Hc. by rewrite Hc, IH.
Qed.
Lemma ToLower_Itoa z : ToLower (Itoa z) = Itoa z.
Proof.
  apply smap_id, Itoa_forall; [reflexivity|]. intros d. unfold pretty_N_char. by repeat case_match.
Qed.

Lemma IndexFunc_app p w c s :
  sforall (λ d, negb (p d)) w = true → p c = true → IndexFunc p (w +:+ String c s) = Some (slen w).
Proof.
  intros Hw Hc. induction w as [|d w IH]; [rewrite app_nil_l; cbn [IndexFunc]; by rewrite Hc|].
  cbn [sforall] in Hw. apply andb_true_iff in Hw as [Hd%negb_true_iff Hw]. rewrite app_cons. cbn [IndexFunc].
  by rewrite Hd, IH.
Qed.
Lemma str_mem_app c s t : str_mem c (s +:+ t) = str_mem c s || str_mem c t.
Proof. induction s as [|d s IH]; [done|]. rewrite app_cons. cbn [str_mem]. by rewrite IH, orb_assoc. Qed.
Lemma str_mem_free c s : free_of c s = true → str_mem c s = false.
Proof.
  induction s as [|d s IH]; [done|]. intros [Hd Hs]%free_of_cons. cbn [str_mem].
  rewrite IH by done. rewrite orb_false_r. apply ascii_eqb_neq. congruence.
Qed.

(** ** Trimming and searching text without the character *)
Lemma TrimLeft_id p s : sforall (λ c, negb (p c)) s = true → TrimLeftFunc p s = s.
Proof. destruct s as [|c s]; [done|]. cbn [sforall]. intros [H%negb_true_iff _]%andb_true_iff. by apply TrimLeft_stop. Qed.
Lemma TrimRight_app_id p a b :
  b ≠ "" → sforall (λ c, negb (p c)) b = true → TrimRightFunc p (a +:+ b) = a +:+ b.
Proof.
  intros Hb Hall.
  assert (TrimRightFunc p b = b) as Hid.
  { clear a. induction b as [|c b IH]; [done|]. cbn [sforall] in Hall.
    apply andb_true_iff in Hall as [Hc%negb_true_iff Hall]. cbn [TrimRightFunc].
    destruct b as [|c' b]; [cbn; by rewrite Hc|]. by rewrite IH. }
  induction a as [|c a IH]; [done|]. rewrite app_cons. cbn [TrimRightFunc]. rewrite IH.
  destruct (a +:+ b) eqn:E; [|done]. apply app_eq_nil in E as [_ ?]. done.
Qed.
Lemma TrimSpace_id s : sforall (λ c, negb (is_space c)) s = true → TrimSpace s = s.
Proof.
  intros H. unfold TrimSpace. rewrite TrimLeft_id by done. destruct s as [|c s]; [done|].
  by apply (TrimRight_app_id is_space "").
Qed.
Lemma IndexFunc_none p s : sforall (λ c, negb (p c)) s = true → IndexFunc p s = None.
Proof.
  induction s as [|c s IH]; [done|]. cbn [sforall IndexFunc]. intros [H%negb_true_iff Hs]%andb_true_iff.
  by rewrite H, IH.
Qed.
Lemma sforall_impl p q s : (∀ c, p c = true → q c = true) → sforall p s = true → sforall q s = true.
Proof.
  intros Hpq. induction s as [|c s IH]; [done|]. cbn [sforall]. rewrite !andb_true_iff. intros [? ?]. auto.
Qed.
Lemma Contains_free c s t : free_of c s = true → Contains s (String c t) = false.
Proof.
  intros Hs. unfold Contains, Index. rewrite bool_decide_false; [done|].
  assert (String.index 0 (String c t) s = None) as ->; [|by intros [? ?]].
  induction s as [|d s IH]; [done|]. apply free_of_cons in Hs as [Hd Hs]. cbn [String.index].
  assert (String.prefix (String c t) (String d s) = false) as ->.
  { cbn [String.prefix]. by destruct (ascii_dec c d) as [->|]. }
  by rewrite IH.
Qed.
Lemma fields_go_plain p cur s :
  sforall (λ c, negb (p c)) s = true → s ≠ "" → fields_go p cur s = [cur +:+ s].
Proof.
  revert cur. induction s as [|c s IH]; intros cur Hs Hne; [done|]. cbn [sforall] in Hs.
  apply andb_true_iff in Hs as [Hc%negb_true_iff Hs]. cbn [fields_go]. rewrite Hc.
  assert (cur +:+ String c s = (cur +:+ String c "") +:+ s) as -> by (by rewrite app_assoc).
  destruct s as [|c' s]; [|by apply IH]. rewrite app_nil_r. cbn [fields_go].
  destruct (str_eqb _ _) eqn:E; [|done]. apply str_eqb_eq, app_eq_nil in E as [_ ?]. done.
Qed.

(** The [%q] verb on a string.  Exact for ASCII text; a byte above 127 is
    rendered as the escape of an invalid byte. *)
Definition hex_char (v : Z) : ascii := ascii_of_N (Z.to_N (if (v <? 10)%Z then 48 + v else 87 + v)%Z).
Definition quote_char (c : ascii) : string :=
  let z := code c in
  if (z =? 34)%Z then String "\" (String c "")
  else if (z =? 92)%Z then "\\"
  else if (32 <=? z)%Z && (z <=? 126)%Z then String c ""
  else if (z =? 7)%Z then "\a" else if (z =? 8)%Z then "\b" else if (z =? 9)%Z then "\t"
  else if (z =? 10)%Z then "\n" else if (z =? 11)%Z then "\v" else if (z =? 12)%Z then "\f"
  else if (z =? 13)%Z then "\r"
  else "\x" +:+ String (hex_char (z / 16)) (String (hex_char (z mod 16)) "").
Fixpoint quote_body (s : string) : string :=
  match s with "" => "" | String c s => quote_char c +:+ quote_body s end.
Definition dquote : string := String (ascii_of_N 34) "".
Definition Quote (s : string) : string := dquote +:+ quote_body s +:+ dquote.
