(* ===== verification/GoNet.v ===== *)
(** * Go's package net, as far as BlipDNS uses it

    A [net.IP] is its list of bytes: 4 or 16 of them, [[]] for nil.  The file
    defines address parsing ([ParseIP] through [netip.ParseAddr]'s two
    grammars, [ParseCIDR]), printing ([ip_string] for [IP.String]), the
    classification predicates, network membership ([Contains]) and the
    host:port splitter, on every input. *)
From S2P Require Import Prelude GoStrings.
From Stdlib Require Import Ascii.
#[local] Open Scope Z_scope.

Abbreviation IP := (list Z).
Record IPNet := mkIPNet { net_ip : IP; net_mask : list Z }.
#[export] Instance IPNet_eq_dec : EqDecision IPNet.
Proof. solve_decision. Defined.

Definition v4InV6Prefix : list Z := [0; 0; 0; 0; 0; 0; 0; 0; 0; 0; 255; 255].

(** [IP.To4]: [None] stands for the nil result. *)
Definition To4 (ip : IP) : option IP :=
  if (length ip =? 4)%nat then Some ip
  else if (length ip =? 16)%nat && bool_decide (take 12 ip = v4InV6Prefix) then Some (drop 12 ip)
  else None.
Definition To16 (ip : IP) : option IP :=
  if (length ip =? 4)%nat then Some (v4InV6Prefix ++ ip)
  else if (length ip =? 16)%nat then Some ip else None.
(** The common idiom [if ip4 := ip.To4(); ip4 != nil { ip = ip4 }]. *)
Definition norm4 (ip : IP) : IP := default ip (To4 ip).
(** [IP.Equal]. *)
Definition ip_equal (ip x : IP) : bool :=
  if (length ip =? length x)%nat then bool_decide (ip = x)
  else if (length ip =? 4)%nat && (length x =? 16)%nat then bool_decide (v4InV6Prefix ++ ip = x)
  else if (length ip =? 16)%nat && (length x =? 4)%nat then bool_decide (ip = v4InV6Prefix ++ x)
  else false.

Definition IPv4zero : IP := v4InV6Prefix ++ [0; 0; 0; 0].
Definition IPv6zero : IP := replicate 16 0.
Definition IPv6loopback : IP := replicate 15 0 ++ [1].
Definition IPv4bcast : IP := v4InV6Prefix ++ [255; 255; 255; 255].

(** ** Classification *)
Definition byte_at (ip : IP) (i : nat) : Z := default 0 (ip !! i).
Definition IsUnspecified (ip : IP) : bool := ip_equal ip IPv4zero || ip_equal ip IPv6zero.
Definition IsLoopback (ip : IP) : bool :=
  match To4 ip with
  | Some ip4 => byte_at ip4 0 =? 127
  | None => ip_equal ip IPv6loopback
  end.
Definition IsMulticast (ip : IP) : bool :=
  match To4 ip with
  | Some ip4 => Z.land (byte_at ip4 0) 240 =? 224
  | None => (length ip =? 16)%nat && (byte_at ip 0 =? 255)
  end.
Definition IsLinkLocalMulticast (ip : IP) : bool :=
  match To4 ip with
  | Some ip4 => (byte_at ip4 0 =? 224) && (byte_at ip4 1 =? 0) && (byte_at ip4 2 =? 0)
  | None => (length ip =? 16)%nat && (byte_at ip 0 =? 255) && (Z.land (byte_at ip 1) 15 =? 2)
  end.
Definition IsLinkLocalUnicast (ip : IP) : bool :=
  match To4 ip with
  | Some ip4 => (byte_at ip4 0 =? 169) && (byte_at ip4 1 =? 254)
  | None => (length ip =? 16)%nat && (byte_at ip 0 =? 254) && (Z.land (byte_at ip 1) 192 =? 128)
  end.
Definition IsPrivate (ip : IP) : bool :=
  match To4 ip with
  | Some ip4 => (byte_at ip4 0 =? 10)
                || ((byte_at ip4 0 =? 172) && (Z.land (byte_at ip4 1) 240 =? 16))
                || ((byte_at ip4 0 =? 192) && (byte_at ip4 1 =? 168))
  | None => (length ip =? 16)%nat && (Z.land (byte_at ip 0) 254 =? 252)
  end.
Definition IsGlobalUnicast (ip : IP) : bool :=
  ((length ip =? 4)%nat || (length ip =? 16)%nat)
  && negb (ip_equal ip IPv4bcast) && negb (IsUnspecified ip) && negb (IsLoopback ip)
  && negb (IsMulticast ip) && negb (IsLinkLocalUnicast ip).

(** ** Masks and networks *)
(** [CIDRMask n bits]: [n] one bits, then zeros, as [bits/8] bytes. *)
Definition mask_byte (n : Z) : Z := if 8 <=? n then 255 else if n <=? 0 then 0 else 256 - 2 ^ (8 - n).
Definition CIDRMask (n : Z) (bits : nat) : list Z :=
  (λ i, mask_byte (n - 8 * Z.of_nat i)) <$> seq 0 (bits / 8).
(** [simpleMaskLength]: the number of leading ones, -1 when ones are not contiguous. *)
Fixpoint byte_ones (fuel : nat) (v : Z) : Z :=
  match fuel with
  | O => 0
  | S k => if Z.testbit v 7 then 1 + byte_ones k (Z.land (Z.shiftl v 1) 255) else 0
  end.
Fixpoint simpleMaskLength (mask : list Z) : Z :=
  match mask with
  | [] => 0
  | v :: rest =>
      if v =? 255 then
        (let n := simpleMaskLength rest in if n =? -1 then -1 else 8 + n)
      else
        let n := byte_ones 8 v in
        if (Z.land v (2 ^ (8 - n) - 1) =? 0) && forallb (Z.eqb 0) rest then n else -1
  end.
Definition mask_size (mask : list Z) : Z * Z :=
  let ones := simpleMaskLength mask in
  if ones =? -1 then (0, 0) else (ones, 8 * Z.of_nat (length mask)).
(** [IP.Mask]. *)
Definition ip_mask (ip : IP) (mask : list Z) : IP :=
  let mask := if (length mask =? 16)%nat && (length ip =? 4)%nat && forallb (Z.eqb 255) (take 12 mask)
              then drop 12 mask else mask in
  let ip := if (length mask =? 4)%nat && (length ip =? 16)%nat && bool_decide (take 12 ip = v4InV6Prefix)
            then drop 12 ip else ip in
  if (length ip =? length mask)%nat then zip_with Z.land ip mask else [].
Definition networkNumberAndMask (n : IPNet) : option (IP * list Z) :=
  let ip := norm4 (net_ip n) in
  if (length ip =? 4)%nat then
    if (length (net_mask n) =? 4)%nat then Some (ip, net_mask n)
    else if (length (net_mask n) =? 16)%nat then Some (ip, drop 12 (net_mask n)) else None
  else if (length ip =? 16)%nat && (length (net_mask n) =? 16)%nat then Some (ip, net_mask n)
  else None.
(** [IPNet.Contains]. *)
Definition Contains_ip (n : IPNet) (ip : IP) : bool :=
  let ip := norm4 ip in
  match networkNumberAndMask n with
  | None => (length ip =? 0)%nat
  | Some (nn, m) =>
      (length ip =? length nn)%nat
      && bool_decide (zip_with Z.land nn m = zip_with Z.land ip m)
  end.

(** ** Parsing *)
(** One octet of a dotted quad: digits, no leading zero, at most 255. *)
Definition parse_octet (s : string) : option Z :=
  match s with
  | "" => None
  | String c rest =>
      if ascii_eqb c "0" && negb (str_eqb rest "") then None
      else parse_nat_dec s ≫= λ v, if v <=? 255 then Some v else None
  end.
Definition parseIPv4 (s : string) : option IP :=
  match Split s dot with
  | [a; b; c; d] =>
      a ← parse_octet a; b ← parse_octet b; c ← parse_octet c; d ← parse_octet d;
      Some [a; b; c; d]
  | _ => None
  end.
Definition hex_val (c : ascii) : option Z :=
  if in_range 48 57 c then Some (code c - 48)
  else if in_range 97 102 c then Some (code c - 87)
  else if in_range 65 70 c then Some (code c - 55)
  else None.
(** Reads the hex digits at the head of [s]: (how many, their value, the rest). *)
Fixpoint hex_run (acc : Z) (off : nat) (s : string) : nat * Z * string :=
  match s with
  | "" => (off, acc, "")
  | String c s' =>
      match hex_val c with
      | Some v => hex_run (16 * acc + v) (S off) s'
      | None => (off, acc, s)
      end
  end.
(** The group loop of [netip.parseIPv6]: [bytes] are written so far, [ell] is
    the position of "::" in them, [fuel] bounds the eight groups. *)
Fixpoint v6_groups (fuel : nat) (bytes : list Z) (ell : option nat) (s : string)
    : option (list Z * option nat * string) :=
  match fuel with
  | O => Some (bytes, ell, s)
  | S fuel =>
      let '(off, acc, rest) := hex_run 0 0 s in
      if (off =? 0)%nat || (4 <? off)%nat then None
      else if HasPrefix rest "." then
        if (match ell with None => negb (length bytes =? 12)%nat | Some _ => false end)
           || (16 <? length bytes + 4)%nat then None
        else q ← parseIPv4 s; Some (bytes ++ q, ell, "")
      else
        let bytes := bytes ++ [Z.shiftr acc 8; Z.land acc 255] in
        match rest with
        | "" => Some (bytes, ell, "")
        | String ":" "" => None
        | String ":" (String ":" s2) =>
            match ell with
            | Some _ => None
            | None => if str_eqb s2 "" then Some (bytes, Some (length bytes), "")
                      else v6_groups fuel bytes (Some (length bytes)) s2
            end
        | String ":" s1 => v6_groups fuel bytes ell s1
        | _ => None
        end
  end.
Definition parseIPv6 (s : string) : option IP :=
  let start := match s with
               | String ":" (String ":" r) => (Some 0%nat, r)
               | _ => (None, s)
               end in
  if bool_decide (start.1 = Some 0%nat) && str_eqb start.2 "" then Some (replicate 16 0)
  else
    '(bytes, ell, rest) ← v6_groups 8 [] start.1 start.2;
    if negb (str_eqb rest "") then None
    else match ell with
         | None => if (length bytes =? 16)%nat then Some bytes else None
         | Some e => if (length bytes <? 16)%nat
                     then Some (take e bytes ++ replicate (16 - length bytes) 0 ++ drop e bytes)
                     else None
         end.
(** [netip.ParseAddr] for an address without a zone, as 4 or 16 bytes: the
    first of '.', ':' and '%' chooses the grammar, and a zone makes the callers
    in package net fail. *)
Definition ParseAddr (s : string) : option IP :=
  if str_mem "%" s then None
  else match IndexAny s ".:" with
       | Some i => match sdrop i s with
                   | String "." _ => parseIPv4 s
                   | _ => parseIPv6 s
                   end
       | None => None
       end.
Definition as16 (ip : IP) : IP := if (length ip =? 4)%nat then v4InV6Prefix ++ ip else ip.
(** [net.ParseIP]: 16 bytes on success, nil ([[]]) otherwise. *)
Definition ParseIP_opt (s : string) : option IP := as16 <$> ParseAddr s.
Definition ParseIP (s : string) : IP := default [] (ParseIP_opt s).
(** [dtoi] on the whole mask text. *)
Definition parse_prefix_len (s : string) : option Z :=
  parse_nat_dec s ≫= λ n, if n <? 16777215 then Some n else None.
Definition ParseCIDR (s : string) : option (IP * IPNet) :=
  match IndexByte s "/" with
  | None => None
  | Some i =>
      a ← ParseAddr (stake i s);
      n ← parse_prefix_len (sdrop (S i) s);
      let bits := (8 * length a)%nat in
      if n <=? Z.of_nat bits then
        let m := CIDRMask n bits in
        Some (as16 a, mkIPNet (ip_mask (as16 a) m) m)
      else None
  end.

(** ** Printing *)
Definition hex_digit (v : Z) : ascii :=
  ascii_of_N (Z.to_N (if v <? 10 then 48 + v else 87 + v)).
Definition hex_byte (v : Z) : string := String (hex_digit (Z.shiftr v 4)) (String (hex_digit (Z.land v 15)) "").
Fixpoint hex_group (fuel : nat) (v : Z) (acc : string) : string :=
  match fuel with
  | O => acc
  | S k => let acc := String (hex_digit (Z.land v 15)) acc in
           if Z.shiftr v 4 =? 0 then acc else hex_group k (Z.shiftr v 4) acc
  end.
Definition ipv4_string (ip : IP) : string := Join (Itoa <$> ip) ".".
Fixpoint groups16 (ip : list Z) : list Z :=
  match ip with a :: b :: r => (256 * a + b) :: groups16 r | _ => [] end.
(** Longest run of at least two zero groups: its start and end. *)
Fixpoint zero_run (gs : list Z) : nat :=
  match gs with g :: r => if g =? 0 then S (zero_run r) else O | [] => O end.
Definition best_run (gs : list Z) : nat * nat :=
  foldl (λ best i, let l := zero_run (drop i gs) in if (1 <? l)%nat && (best.2 <? l)%nat then (i, l) else best)
    (O, O) (seq 0 (length gs)).
Definition ipv6_string (ip : IP) : string :=
  let gs := groups16 ip in
  let render l := Join ((λ g, hex_group 4 g "") <$> l) ":" in
  let '(i, l) := best_run gs in
  if (l =? 0)%nat then render gs
  else render (take i gs) +:+ "::" +:+ render (drop (i + l) gs).
(** [IP.String]. *)
Definition ip_string (ip : IP) : string :=
  if (length ip =? 0)%nat then "<nil>"
  else match To4 ip with
       | Some ip4 => ipv4_string ip4
       | None => if (length ip =? 16)%nat then ipv6_string ip
                 else "?" +:+ Join (hex_byte <$> ip) ""
       end.

(** ** Host and port *)
Definition SplitHostPort (hp : string) : option (string * string) :=
  match LastIndexByte hp ":" with
  | None => None
  | Some i =>
      let port := sdrop (S i) hp in
      match hp with
      | String "[" _ =>
          e ← IndexByte hp "]";
          if (S e =? i)%nat then
            if bool_decide (is_Some (IndexByte (sdrop 1 hp) "["))
               || bool_decide (is_Some (IndexByte (sdrop (S e) hp) "]")) then None
            else Some (stake (e - 1) (sdrop 1 hp), port)
          else None
      | _ =>
          let host := stake i hp in
          if bool_decide (is_Some (IndexByte host ":"))
             || bool_decide (is_Some (IndexByte hp "["))
             || bool_decide (is_Some (IndexByte hp "]")) then None
          else Some (host, port)
      end
  end.
Definition JoinHostPort (host port : string) : string :=
  if bool_decide (is_Some (IndexByte host ":")) then "[" +:+ host +:+ "]:" +:+ port
  else host +:+ ":" +:+ port.

(** ** Checks on concrete inputs *)
Example ParseIP_v4 : ParseIP "192.168.0.1" = v4InV6Prefix ++ [192; 168; 0; 1].
Proof. reflexivity. Qed.
Example ParseIP_v6 : ParseIP "fe80::1:2" = [254; 128; 0; 0; 0; 0; 0; 0; 0; 0; 0; 0; 0; 1; 0; 2].
Proof. reflexivity. Qed.
Example ParseIP_bad : (ParseIP "1.2.3.04", ParseIP "1:2", ParseIP "::1%eth0", ParseIP "1::2::3") = ([], [], [], []).
Proof. reflexivity. Qed.
Example ParseIP_mapped : ParseIP "::ffff:10.0.0.1" = ParseIP "10.0.0.1".
Proof. reflexivity. Qed.
Example ParseCIDR_v4 : ParseCIDR "10.1.2.3/9" = Some (ParseIP "10.1.2.3", mkIPNet [10; 0; 0; 0] [255; 128; 0; 0]).
Proof. reflexivity. Qed.
Example ip_string_v6 : ip_string (ParseIP "2001:db8:0:0:1:0:0:1") = "2001:db8::1:0:0:1".
Proof. reflexivity. Qed.
Example ip_string_unspec : (ip_string IPv6zero, ip_string (ParseIP "1.2.3.4")) = ("::", "1.2.3.4").
Proof. reflexivity. Qed.
Example SplitHostPort_ex :
  (SplitHostPort "[::1]:53", SplitHostPort "1.1.1.1:53", SplitHostPort "::1:53", SplitHostPort "h")
  = (Some ("::1", "53"), Some ("1.1.1.1", "53"), None, None).
Proof. reflexivity. Qed.

(** ** Printing then parsing an IPv4 address *)
Definition is_byte (z : Z) : Prop := 0 ≤ z < 256.
Lemma parse_octet_Itoa z : is_byte z → parse_octet (Itoa z) = Some z.
Proof.
  intros Hz. assert (∀ n, (n < 256)%nat → parse_octet (Itoa (Z.of_nat n)) = Some (Z.of_nat n)) as H.
  { intros n Hn.
    assert (forallb (λ n, bool_decide (parse_octet (Itoa (Z.of_nat n)) = Some (Z.of_nat n))) (seq 0 256) = true)
      as Hall by (vm_compute; reflexivity).
    rewrite forallb_forall in Hall. specialize (Hall n). rewrite bool_decide_eq_true in Hall.
    apply Hall, in_seq. lia. }
  destruct Hz. rewrite <-(Z2Nat.id z) by done. apply H. lia.
Qed.
Lemma parseIPv4_string a b c d :
  is_byte a → is_byte b → is_byte c → is_byte d → parseIPv4 (ipv4_string [a; b; c; d]) = Some [a; b; c; d].
Proof.
  intros Ha Hb Hc Hd. unfold parseIPv4, ipv4_string. rewrite Split_Join; [|done|].
  - cbn [fmap list_fmap]. by rewrite !parse_octet_Itoa by done.
  - repeat constructor; apply Itoa_free; done.
Qed.
Lemma ParseIP_ipv4_string a b c d :
  is_byte a → is_byte b → is_byte c → is_byte d →
  ParseIP_opt (ipv4_string [a; b; c; d]) = Some (v4InV6Prefix ++ [a; b; c; d]).
Proof.
  intros Ha Hb Hc Hd. unfold ParseIP_opt.
  assert (ParseAddr (ipv4_string [a; b; c; d]) = Some [a; b; c; d]) as ->; [|done].
  pose proof (parseIPv4_string a b c d Ha Hb Hc Hd) as Hp. unfold ParseAddr.
  assert (str_mem "%" (ipv4_string [a; b; c; d]) = false) as ->.
  { unfold ipv4_string. cbn [fmap list_fmap]. rewrite !Join_cons by done. cbn [Join String.concat].
    rewrite !str_mem_app, !(str_mem_free "%" (Itoa _)) by (apply Itoa_free; done). done. }
  assert (ipv4_string [a; b; c; d] = Itoa a +:+ String "." (ipv4_string [b; c; d])) as Heq.
  { unfold ipv4_string. cbn [fmap list_fmap]. by rewrite Join_cons. }
  assert (IndexAny (ipv4_string [a; b; c; d]) ".:" = Some (slen (Itoa a))) as ->.
  { rewrite Heq. apply IndexFunc_app; [|done]. apply Itoa_forall; [done|].
    intros x. unfold pretty_N_char. by repeat case_match. }
  rewrite Heq at 1. by rewrite sdrop_app.
Qed.
