(* ===== verification/GoUrl.v ===== *)
(** * Package net/url

    [url.Parse] and [url.ParseRequestURI] as far as BlipDNS reads their result:
    whether a text is a URL, its scheme, host and path text, and [Hostname].
    User information is validated but not kept, and escapes of paths and
    fragments are validated but not decoded. *)
From S2P Require Import Prelude GoStrings GoNet.
From Stdlib Require Import Ascii.

Record URL := mkURL { u_Scheme : string; u_Opaque : string; u_Host : string; u_Path : string }.

Definition is_alpha (c : ascii) : bool := in_range 97 122 c || in_range 65 90 c.
Definition is_ctl (c : ascii) : bool := in_range 0 31 c || in_range 127 127 c.
Definition sexists (p : ascii → bool) (s : string) : bool := negb (sforall (λ c, negb (p c)) s).

(** [strings.Cut] at the first [c]: before, after. *)
Definition Cut (s : string) (c : ascii) : string * string :=
  match IndexByte s c with Some i => (stake i s, sdrop (S i) s) | None => (s, "") end.

(** [getScheme]: [None] is the missing-scheme error. *)
Fixpoint get_scheme (first : bool) (seen rest raw : string) : option (string * string) :=
  match rest with
  | "" => Some ("", raw)
  | String c r =>
      if is_alpha c then get_scheme false (seen +:+ String c "") r raw
      else if is_digit c || str_mem c "+-." then
        if first then Some ("", raw) else get_scheme false (seen +:+ String c "") r raw
      else if ascii_eqb c ":" then
        if first then None else Some (seen, r)
      else Some ("", raw)
  end.

(** [unescape] in the modes for hosts, zones and everything else: a valid
    percent escape is two hex digits; a host may escape only non-ASCII bytes
    and the percent sign, and may not hold a raw byte that must be escaped. *)
Inductive mode := EncodeHost | EncodeZone | EncodeOther.
Definition host_byte_ok (c : ascii) : bool :=
  is_alpha c || is_digit c || str_mem c "!$&'()*+,;=:[]<>-_.~" || in_range 34 34 c || in_range 128 255 c.
Fixpoint unescape (m : mode) (s : string) : option string :=
  match s with
  | "" => Some ""
  | String "%" (String a (String b r)) =>
      match hex_val a, hex_val b with
      | Some x, Some y =>
          let v := (16 * x + y)%Z in
          let ch := ascii_of_N (Z.to_N v) in
          let bad := match m with
                     | EncodeHost => (x <? 8)%Z && negb (v =? 37)%Z
                     | EncodeZone => negb (v =? 37)%Z && negb (v =? 32)%Z && negb (host_byte_ok ch)
                     | EncodeOther => false
                     end in
          if bad then None else String ch <$> unescape m r
      | _, _ => None
      end
  | String c r =>
      if ascii_eqb c "%" then None
      else match m with
           | EncodeOther => String c <$> unescape m r
           | _ => if host_byte_ok c then String c <$> unescape m r else None
           end
  end.

Definition validOptionalPort (port : string) : bool :=
  match port with
  | "" => true
  | String c r => ascii_eqb c ":" && sforall is_digit r
  end.

Definition parseHost (host : string) : option string :=
  if HasPrefix host "[" then
    i ← LastIndexByte host "]";
    if negb (validOptionalPort (sdrop (S i) host)) then None
    else match Index (stake i host) "%25" with
         | Some z =>
             h1 ← unescape EncodeHost (stake z host);
             h2 ← unescape EncodeZone (sdrop z (stake i host));
             h3 ← unescape EncodeHost (sdrop i host);
             Some (h1 +:+ h2 +:+ h3)
         | None => unescape EncodeHost host
         end
  else
    match LastIndexByte host ":" with
    | Some i => if validOptionalPort (sdrop i host) then unescape EncodeHost host else None
    | None => unescape EncodeHost host
    end.

Definition userinfo_ok (c : ascii) : bool :=
  is_alpha c || is_digit c || str_mem c "-._:~!$&'()*+,;=%@".
Definition parseAuthority (authority : string) : option string :=
  match LastIndexByte authority "@" with
  | None => parseHost authority
  | Some i =>
      host ← parseHost (sdrop (S i) authority);
      let userinfo := stake i authority in
      if negb (sforall userinfo_ok userinfo) then None
      else
        let '(user, pass) := Cut userinfo ":" in
        _ ← unescape EncodeOther user; _ ← unescape EncodeOther pass; Some host
  end.

(** [parse]; [viaRequest] distinguishes [ParseRequestURI]. *)
Definition url_parse_raw (viaRequest : bool) (raw : string) : option URL :=
  if sexists is_ctl raw then None
  else if str_eqb raw "" && viaRequest then None
  else if str_eqb raw "*" then Some (mkURL "" "" "" "*")
  else
    '(scheme, rest) ← get_scheme true "" raw raw;
    let scheme := ToLower scheme in
    let rest := (Cut rest "?").1 in
    let rooted := HasPrefix rest "/" in
    if negb rooted && negb (str_eqb scheme "") then Some (mkURL scheme rest "" "")
    else if negb rooted && viaRequest then None
    else if negb rooted && bool_decide (is_Some (IndexByte (Cut rest "/").1 ":")) then None
    else if (negb (str_eqb scheme "") || (negb viaRequest && negb (HasPrefix rest "///"))) && HasPrefix rest "//" then
      let authority := sdrop 2 rest in
      let '(authority, path) :=
        match IndexByte authority "/" with
        | Some i => (stake i authority, sdrop i authority)
        | None => (authority, "")
        end in
      host ← parseAuthority authority;
      _ ← unescape EncodeOther path;
      Some (mkURL scheme "" host path)
    else
      _ ← unescape EncodeOther rest;
      Some (mkURL scheme "" "" rest).

Definition url_Parse (raw : string) : option URL :=
  let '(u, frag) := Cut raw "#" in
  url ← url_parse_raw false u;
  _ ← unescape EncodeOther frag;
  Some url.
Definition url_ParseRequestURI (raw : string) : option URL := url_parse_raw true raw.

(** [URL.Hostname]: the host without port and brackets. *)
Definition Hostname (u : URL) : string :=
  let host := u_Host u in
  let host := match LastIndexByte host ":" with
              | Some i => if validOptionalPort (sdrop i host) then stake i host else host
              | None => host
              end in
  if HasPrefix host "[" && HasSuffix host "]" then stake (slen host - 2) (sdrop 1 host) else host.

(** ** Query strings *)
Definition query_unreserved (c : ascii) : bool := is_alpha c || is_digit c || str_mem c "-_.~".
Definition upper_hex (v : Z) : ascii := upper_ascii (hex_digit v).
Definition query_escape_byte (c : ascii) : string :=
  if query_unreserved c then String c ""
  else if ascii_eqb c " " then "+"
  else let v := Z.of_N (N_of_ascii c) in String "%" (String (upper_hex (Z.shiftr v 4)) (String (upper_hex (Z.land v 15)) "")).
Fixpoint QueryEscape (s : string) : string :=
  match s with "" => "" | String c s => query_escape_byte c +:+ QueryEscape s end.
(** [QueryUnescape]: [None] is an invalid escape. *)
Fixpoint QueryUnescape (s : string) : option string :=
  match s with
  | "" => Some ""
  | String "%" (String a (String b r)) =>
      match hex_val a, hex_val b with
      | Some x, Some y => String (ascii_of_N (Z.to_N (16 * x + y)%Z)) <$> QueryUnescape r
      | _, _ => None
      end
  | String c r =>
      if ascii_eqb c "%" then None
      else String (if ascii_eqb c "+" then " "%char else c) <$> QueryUnescape r
  end.
(** [ParseQuery]: the pairs in order; a malformed one is dropped. *)
Definition query_pairs (q : string) : list (string * string) :=
  omap (λ kv,
    if str_eqb kv "" || str_mem ";" kv then None
    else let '(k, v) := Cut kv "=" in k ← QueryUnescape k; v ← QueryUnescape v; Some (k, v)) (Split q "&").
(** [Values.Get]. *)
Definition query_get (q k : string) : string :=
  default "" (head (omap (λ p, if str_eqb p.1 k then Some p.2 else None) (query_pairs q))).
(** The path and the raw query of a request for a relative reference. *)
Definition split_target (ref : string) : string * string := Cut (Cut ref "#").1 "?".

Example url_demo :
  (λ u, (u_Scheme u, u_Host u, Hostname u)) <$>
    omap url_Parse ["HTTPS://user:pw@Lists.Example.com:8443/a/b?x#f"; "http://[fe80::1%25eth0]:80/"; "mailto:a@b";
                    "http://a b/"; "//h/p"; "1http://x"]
  = [("https", "Lists.Example.com:8443", "Lists.Example.com"); ("http", "[fe80::1%eth0]:80", "fe80::1%eth0");
     ("mailto", "", ""); ("", "h", "h")].
Proof. vm_compute. reflexivity. Qed.
Example query_demo :
  (QueryEscape "a b&c=/", (λ k, query_get (split_target "/api/v1/policy?id=kids+1%262&x;y=1&z#frag").2 k) <$> ["id"; "z"; "x"])
  = ("a+b%26c%3D%2F", ["kids 1&2"; ""; ""]).
Proof. vm_compute. reflexivity. Qed.
