(* ===== verification/Dns.v ===== *)
(** * DNS messages

    The part of the vendored package github.com/miekg/dns that BlipDNS's own
    code reads or writes: message headers, questions, resource records (with
    the record types the server builds or renders; any other type carries its
    presentation text), [SetReply], [SetQuestion] and [Fqdn].  A message is a
    value, so the deep copy [Msg.Copy] is the identity; where the Go code
    depends on pointers being distinct the model says so. *)
From S2P Require Import Prelude GoStrings GoNet.
From Stdlib Require Import Ascii.
#[local] Open Scope Z_scope.

Definition TypeA := 1.
Definition TypeCNAME := 5.
Definition TypePTR := 12.
Definition TypeAAAA := 28.
Definition ClassINET := 1.
Definition ClassCHAOS := 3.
Definition OpcodeQuery := 0.
Definition RcodeSuccess := 0.
Definition RcodeFormatError := 1.
Definition RcodeServerFailure := 2.
Definition RcodeNameError := 3.
Definition RcodeRefused := 5.

Record Question := mkQuestion { q_Name : string; q_Qtype : Z; q_Qclass : Z }.

Record RR_Header := mkHdr { h_Name : string; h_Rrtype : Z; h_Class : Z; h_Ttl : Z }.
Inductive RData :=
| RD_A (a : IP)
| RD_AAAA (a : IP)
| RD_CNAME (target : string)
| RD_PTR (ptr : string)
| RD_TXT (txt : list string)
| RD_MX (mx : string) (pref : Z)
| RD_SRV (prio weight port : Z) (target : string)
| RD_other (text : string).
Record RR := mkRR { rr_hdr : RR_Header; rr_data : RData }.
Definition ttl_of (rr : RR) : Z := h_Ttl (rr_hdr rr).
Definition set_ttl (t : Z) (rr : RR) : RR :=
  let h := rr_hdr rr in mkRR (mkHdr (h_Name h) (h_Rrtype h) (h_Class h) t) (rr_data rr).

Record Msg := mkMsg {
  m_Id : Z;
  m_Response : bool;
  m_Opcode : Z;
  m_Authoritative : bool;
  m_Truncated : bool;
  m_RecursionDesired : bool;
  m_RecursionAvailable : bool;
  m_Zero : bool;
  m_AuthenticatedData : bool;
  m_CheckingDisabled : bool;
  m_Rcode : Z;
  m_Question : list Question;
  m_Answer : list RR;
  m_Ns : list RR;
  m_Extra : list RR }.

#[export] Instance Question_eq_dec : EqDecision Question.
Proof. solve_decision. Defined.
#[export] Instance RR_Header_eq_dec : EqDecision RR_Header.
Proof. solve_decision. Defined.
#[export] Instance RData_eq_dec : EqDecision RData.
Proof. solve_decision. Defined.
#[export] Instance RR_eq_dec : EqDecision RR.
Proof. solve_decision. Defined.
#[export] Instance Msg_eq_dec : EqDecision Msg.
Proof. solve_decision. Defined.

(** [new(dns.Msg)]. *)
Definition empty_msg : Msg :=
  mkMsg 0 false 0 false false false false false false false 0 [] [] [] [].

Definition with_Id (v : Z) (m : Msg) : Msg :=
  let '(mkMsg _ a2 a3 a4 a5 a6 a7 a8 a9 a10 a11 a12 a13 a14 a15) := m in
  mkMsg v a2 a3 a4 a5 a6 a7 a8 a9 a10 a11 a12 a13 a14 a15.
Definition with_Authoritative (v : bool) (m : Msg) : Msg :=
  let '(mkMsg a1 a2 a3 _ a5 a6 a7 a8 a9 a10 a11 a12 a13 a14 a15) := m in
  mkMsg a1 a2 a3 v a5 a6 a7 a8 a9 a10 a11 a12 a13 a14 a15.
Definition with_RecursionAvailable (v : bool) (m : Msg) : Msg :=
  let '(mkMsg a1 a2 a3 a4 a5 a6 _ a8 a9 a10 a11 a12 a13 a14 a15) := m in
  mkMsg a1 a2 a3 a4 a5 a6 v a8 a9 a10 a11 a12 a13 a14 a15.
Definition with_Rcode (v : Z) (m : Msg) : Msg :=
  let '(mkMsg a1 a2 a3 a4 a5 a6 a7 a8 a9 a10 _ a12 a13 a14 a15) := m in
  mkMsg a1 a2 a3 a4 a5 a6 a7 a8 a9 a10 v a12 a13 a14 a15.
Definition with_Question (v : list Question) (m : Msg) : Msg :=
  let '(mkMsg a1 a2 a3 a4 a5 a6 a7 a8 a9 a10 a11 _ a13 a14 a15) := m in
  mkMsg a1 a2 a3 a4 a5 a6 a7 a8 a9 a10 a11 v a13 a14 a15.
Definition with_Answer (v : list RR) (m : Msg) : Msg :=
  let '(mkMsg a1 a2 a3 a4 a5 a6 a7 a8 a9 a10 a11 a12 _ a14 a15) := m in
  mkMsg a1 a2 a3 a4 a5 a6 a7 a8 a9 a10 a11 a12 v a14 a15.

(** [resp := new(dns.Msg); resp.SetReply(req)]. *)
Definition SetReply (request : Msg) : Msg :=
  let copy := m_Opcode request =? OpcodeQuery in
  {| m_Id := m_Id request;
     m_Response := true;
     m_Opcode := m_Opcode request;
     m_Authoritative := false;
     m_Truncated := false;
     m_RecursionDesired := copy && m_RecursionDesired request;
     m_RecursionAvailable := false;
     m_Zero := false;
     m_AuthenticatedData := false;
     m_CheckingDisabled := copy && m_CheckingDisabled request;
     m_Rcode := RcodeSuccess;
     m_Question := take 1 (m_Question request);
     m_Answer := [];
     m_Ns := [];
     m_Extra := [] |}.

(** [new(dns.Msg).SetQuestion(z, t)]; [id] is the fresh message id. *)
Definition SetQuestion (id : Z) (z : string) (t : Z) : Msg :=
  {| m_Id := id;
     m_Response := false;
     m_Opcode := 0;
     m_Authoritative := false;
     m_Truncated := false;
     m_RecursionDesired := true;
     m_RecursionAvailable := false;
     m_Zero := false;
     m_AuthenticatedData := false;
     m_CheckingDisabled := false;
     m_Rcode := 0;
     m_Question := [mkQuestion z t ClassINET];
     m_Answer := [];
     m_Ns := [];
     m_Extra := [] |}.

(** [dns.IsFqdn]: ends in a dot that is not escaped. *)
Definition IsFqdn (s : string) : bool :=
  if str_eqb s "" || negb (HasSuffix s ".") then false
  else
    let s := stake (slen s - 1) s in
    if str_eqb s "" || negb (HasSuffix s "\") then true
    else
      let i := match LastIndexFunc (λ c, negb (ascii_eqb c "\")) s with
               | Some i => Z.of_nat i | None => -1 end in
      negb ((Z.of_nat (slen s) - i) mod 2 =? 0).
Definition Fqdn (s : string) : string := if IsFqdn s then s else s +:+ ".".

Definition TypeToString_table : list (Z * string) :=
  [
   (1, "A"); (28, "AAAA"); (18, "AFSDB"); (260, "AMTRELAY"); (255, "ANY"); (42, "APL"); (34, "ATMA");
    (258, "AVC"); (252, "AXFR"); (257, "CAA"); (60, "CDNSKEY"); (59, "CDS"); (37, "CERT");
    (5, "CNAME"); (62, "CSYNC"); (49, "DHCID"); (32769, "DLV"); (39, "DNAME"); (48, "DNSKEY");
    (43, "DS"); (31, "EID"); (108, "EUI48"); (109, "EUI64"); (102, "GID"); (27, "GPOS");
    (13, "HINFO"); (55, "HIP"); (65, "HTTPS"); (45, "IPSECKEY"); (20, "ISDN"); (251, "IXFR");
    (25, "KEY"); (36, "KX"); (105, "L32"); (106, "L64"); (29, "LOC"); (107, "LP"); (254, "MAILA");
    (253, "MAILB"); (7, "MB"); (3, "MD"); (4, "MF"); (8, "MG"); (14, "MINFO"); (9, "MR"); (15, "MX");
    (35, "NAPTR"); (104, "NID"); (32, "NIMLOC"); (56, "NINFO"); (2, "NS"); (47, "NSEC");
    (50, "NSEC3"); (51, "NSEC3PARAM"); (10, "NULL"); (128, "NXNAME"); (30, "NXT"); (0, "None");
    (61, "OPENPGPKEY"); (41, "OPT"); (12, "PTR"); (26, "PX"); (57, "RKEY"); (17, "RP");
    (46, "RRSIG"); (21, "RT"); (65535, "Reserved"); (24, "SIG"); (53, "SMIMEA"); (6, "SOA");
    (99, "SPF"); (33, "SRV"); (44, "SSHFP"); (64, "SVCB"); (32768, "TA"); (58, "TALINK");
    (249, "TKEY"); (52, "TLSA"); (250, "TSIG"); (16, "TXT"); (101, "UID"); (100, "UINFO");
    (103, "UNSPEC"); (256, "URI"); (19, "X25"); (63, "ZONEMD"); (23, "NSAP-PTR")
  ].
(** [dns.TypeToString[t]]: the zero string when [t] has no mnemonic. *)
Definition TypeToString (t : Z) : string :=
  from_option snd "" (list_find (λ e, e.1 = t) TypeToString_table ≫= λ r, Some r.2).
(** [dns.StringToType[s]]. *)
Definition StringToType (s : string) : option Z :=
  list_find (λ e, e.2 = s) TypeToString_table ≫= λ r, Some r.2.1.

Lemma StringToType_A : StringToType "A" = Some TypeA.
Proof. reflexivity. Qed.
Lemma StringToType_AAAA : StringToType "AAAA" = Some TypeAAAA.
Proof. reflexivity. Qed.
Lemma StringToType_CNAME : StringToType "CNAME" = Some TypeCNAME.
Proof. reflexivity. Qed.
