(* ===== verification/Filter.v ===== *)
(** * Per-client filtering policy (internal/filter/filter.go)

    [matcher] with [buildMatcher]/[matches], the compiled policies, the
    [Store] with its operations, and the three queries the server asks of it:
    [Classify], [Allowed] and [BlockSource].

    The lock [s.mu] makes every method one atomic step on the store, so the
    operations are functions on [Store]. *)
From S2P Require Import Prelude GoStrings GoNet.
From Stdlib Require Import Ascii.

(** ** Data *)
Definition BlockAction := string.
Definition ActionNXDOMAIN : BlockAction := "nxdomain".
Definition ActionRefused : BlockAction := "refused".
Definition ActionZero : BlockAction := "zero".
Definition DefaultAction : BlockAction := ActionNXDOMAIN.

Record Policy := mkPolicy {
  p_ID : string;
  p_Networks : list string;
  p_Clients : list string;
  p_Allow : list string;
  p_Block : list string;
  p_BlockAction : BlockAction;
  p_Log : bool;
  p_Upstream : string }.

Definition policy_action (p : Policy) : BlockAction :=
  if str_eqb (p_BlockAction p) "" then DefaultAction else p_BlockAction p.

(** ** Domain matching *)
Record matcher := mkMatcher {
  mt_exact : gset string;
  mt_suffix : gset string;
  mt_subOnly : gset string }.

(** The body of the loop of [buildMatcher]. *)
Definition add_rule (m : matcher) (d : string) : matcher :=
  let d := ToLower (TrimSpace d) in
  if str_eqb d "" then m
  else if HasPrefix d "*." then
    let root := sdrop 2 d in
    if str_eqb root "" then m
    else mkMatcher (mt_exact m) (mt_suffix m) ({[root]} ∪ mt_subOnly m)
  else
    let d := TrimSuffix d "." in
    if str_eqb d "" then m
    else mkMatcher ({[d]} ∪ mt_exact m) ({[d]} ∪ mt_suffix m) (mt_subOnly m).
Definition buildMatcher (domains : list string) : matcher :=
  foldl add_rule (mkMatcher ∅ ∅ ∅) domains.

Definition normalizeName (name : string) : string := TrimSuffix (ToLower name) ".".

(** The loop of [match]: [name] is what is left from index [i]. *)
Fixpoint match_walk (m : matcher) (name : string) : bool :=
  match name with
  | "" => false
  | String c rest =>
      if negb (is_dot c) then match_walk m rest
      else if decide (rest ∈ mt_suffix m) then true
      else if decide (rest ∈ mt_subOnly m) then true
      else match_walk m rest
  end.
Definition matches (m : matcher) (name : string) : bool :=
  if str_eqb name "" then false
  else if decide (name ∈ mt_exact m) then true
  else if (0 <? size (mt_suffix m)) || (0 <? size (mt_subOnly m)) then match_walk m name
  else false.

(** ** The store *)
Record compiledPolicy := mkCompiled {
  cp_policy : Policy;
  cp_allowM : matcher;
  cp_blockM : matcher;
  cp_nets : list IPNet }.
Definition compile (p : Policy) : compiledPolicy :=
  mkCompiled p (buildMatcher (p_Allow p)) (buildMatcher (p_Block p)) [].

Record netEntry := mkNetEntry { ne_net : IPNet; ne_policy : compiledPolicy }.
Record Store := mkStore {
  st_defaults : option compiledPolicy;
  st_policies : gmap string compiledPolicy;
  st_nets : list netEntry;
  st_byClient : gmap string compiledPolicy }.

Definition NewStore (def : option Policy) : Store :=
  mkStore (compile <$> def) ∅ [] ∅.
Definition SetDefault (p : option Policy) (s : Store) : Store :=
  mkStore (compile <$> p) (st_policies s) (st_nets s) (st_byClient s).

(** Client ids of one policy, in the order [rebuildLocked] installs them. *)
Definition client_key (c : string) : string := TrimPrefix (TrimSpace c) "/dns-query/".
Definition add_clients (cp : compiledPolicy) (m : gmap string compiledPolicy)
    : gmap string compiledPolicy :=
  foldl (λ m c, let c := client_key c in if str_eqb c "" then m else <[c:=cp]> m)
    m (p_Clients (cp_policy cp)).
(** [rebuildLocked] for a given order [enum] in which [range s.policies]
    enumerates the ids. *)
Definition rebuild_with (enum : list string) (s : Store) : Store :=
  let ids := merge_sort String.le enum in
  let cps := omap (λ id, st_policies s !! id) ids in
  mkStore (st_defaults s) (st_policies s)
    (cps ≫= λ cp, (λ n, mkNetEntry n cp) <$> cp_nets cp)
    (foldl (λ m cp, add_clients cp m) ∅ cps).
Definition rebuildLocked (s : Store) : Store :=
  rebuild_with ((map_to_list (st_policies s)).*1) s.

Inductive filter_error :=
| ErrPolicyID
| NetError (net : string).

Definition parse_net (n : string) : res filter_error IPNet :=
  match ParseCIDR n with
  | Some (_, ipnet) => Ok ipnet
  | None => Err (NetError n)
  end.
(** [SetPolicy]: the new store, or the error (the store is then untouched). *)
Definition SetPolicy (p : option Policy) (s : Store) : res filter_error Store :=
  match p with
  | None => Err ErrPolicyID
  | Some p =>
      if str_eqb (p_ID p) "" then Err ErrPolicyID
      else
        nets ← res_mapM parse_net (p_Networks p);
        let cp := mkCompiled p (buildMatcher (p_Allow p)) (buildMatcher (p_Block p)) nets in
        Ok (rebuildLocked
              (mkStore (st_defaults s) (<[p_ID p:=cp]> (st_policies s)) (st_nets s) (st_byClient s)))
  end.
Definition RemovePolicy (id : string) (s : Store) : Store :=
  rebuildLocked (mkStore (st_defaults s) (delete id (st_policies s)) (st_nets s) (st_byClient s)).

Definition netsContain (nets : list IPNet) (ip : IP) : bool :=
  existsb (λ n, Contains_ip n ip) nets.
(** [All]: the default and the policies, in the order of the map. *)
Definition All (s : Store) : option Policy * list Policy :=
  (cp_policy <$> st_defaults s, cp_policy <$> (map_to_list (st_policies s)).*2).

Definition net_ones (n : IPNet) : Z := (mask_size (net_mask n)).1.
(** The longest-prefix loop of [lookup]. *)
Fixpoint best_net (ip : IP) (best : Z) (bp : option compiledPolicy) (nets : list netEntry)
    : option compiledPolicy :=
  match nets with
  | [] => bp
  | e :: nets =>
      if Contains_ip (ne_net e) ip && (best <? net_ones (ne_net e))%Z
      then best_net ip (net_ones (ne_net e)) (Some (ne_policy e)) nets
      else best_net ip best bp nets
  end.
Definition lookup_ip (s : Store) (ip : IP) : option compiledPolicy :=
  match best_net (norm4 ip) (-1) None (st_nets s) with
  | Some bp => Some bp
  | None => st_defaults s
  end.
Definition lookup_policy (s : Store) (ip : IP) (clientID : string) : option compiledPolicy :=
  if str_eqb clientID "" then lookup_ip s ip
  else match st_byClient s !! clientID with
       | Some p =>
           if (0 <? length (cp_nets p)) && netsContain (cp_nets p) (norm4 ip) then Some p
           else lookup_ip s ip
       | None => lookup_ip s ip
       end.

(** ** Queries *)
Definition Classify (s : Store) (clientIP : IP) (clientID name : string)
    : bool * BlockAction * string * bool :=
  match lookup_policy s clientIP clientID with
  | None => (false, DefaultAction, "", false)
  | Some p =>
      let pol := cp_policy p in
      let name := normalizeName name in
      if matches (cp_allowM p) name then (false, policy_action pol, p_Upstream pol, p_Log pol)
      else if matches (cp_blockM p) name then (true, policy_action pol, p_Upstream pol, p_Log pol)
      else (false, policy_action pol, p_Upstream pol, p_Log pol)
  end.
Definition Allowed (s : Store) (clientIP : IP) (clientID name : string) : bool :=
  match lookup_policy s clientIP clientID with
  | None => false
  | Some p => matches (cp_allowM p) (normalizeName name)
  end.
Definition BlockSource (s : Store) (clientIP : IP) (clientID name : string) : string :=
  match lookup_policy s clientIP clientID with
  | None => ""
  | Some p =>
      let name := normalizeName name in
      if matches (cp_allowM p) name || negb (matches (cp_blockM p) name) then ""
      else
        let id := p_ID (cp_policy p) in
        "policy:" +:+ (if str_eqb id "" then "default" else id)
  end.

(** ** Specification of domain matching

    What the documentation promises of one list entry: "ads.example.com"
    covers itself and every subdomain, "*.tracker.net" every strict subdomain. *)
Definition rule_text (d : string) : string := ToLower (TrimSpace d).
Definition covers (d name : string) : Prop :=
  (∃ root, rule_text d = "*." +:+ root ∧ root ≠ "" ∧ subdomain name root)
  ∨ (HasPrefix (rule_text d) "*." = false ∧ TrimSuffix (rule_text d) "." ≠ ""
     ∧ (name = TrimSuffix (rule_text d) "." ∨ subdomain name (TrimSuffix (rule_text d) "."))).

(** The set each rule goes to. *)
Definition rule_base (d : string) : option string :=
  if HasPrefix (rule_text d) "*." then None
  else let b := TrimSuffix (rule_text d) "." in if str_eqb b "" then None else Some b.
Definition rule_root (d : string) : option string :=
  if HasPrefix (rule_text d) "*." then
    let r := sdrop 2 (rule_text d) in if str_eqb r "" then None else Some r
  else None.

Lemma add_rule_eq m d :
  add_rule m d = match rule_base d, rule_root d with
                 | Some b, _ => mkMatcher ({[b]} ∪ mt_exact m) ({[b]} ∪ mt_suffix m) (mt_subOnly m)
                 | None, Some r => mkMatcher (mt_exact m) (mt_suffix m) ({[r]} ∪ mt_subOnly m)
                 | None, None => m
                 end.
Proof.
  unfold add_rule, rule_base, rule_root. fold (rule_text d).
  destruct (str_eqb (rule_text d) "") eqn:H0.
  - apply str_eqb_eq in H0 as ->. done.
  - destruct (HasPrefix (rule_text d) "*."); [by destruct (str_eqb (sdrop 2 _) "")|].
    by destruct (str_eqb (TrimSuffix _ _) "").
Qed.

Lemma build_from_elem ds m x :
  let m' := foldl add_rule m ds in
  (x ∈ mt_exact m' ↔ x ∈ mt_exact m ∨ ∃ d, d ∈ ds ∧ rule_base d = Some x)
  ∧ (x ∈ mt_suffix m' ↔ x ∈ mt_suffix m ∨ ∃ d, d ∈ ds ∧ rule_base d = Some x)
  ∧ (x ∈ mt_subOnly m' ↔ x ∈ mt_subOnly m ∨ ∃ d, d ∈ ds ∧ rule_base d = None ∧ rule_root d = Some x).
Proof.
  revert m. induction ds as [|d ds IH]; intros m; simpl; [set_solver|].
  destruct (IH (add_rule m d)) as (-> & -> & ->). rewrite add_rule_eq.
  destruct (rule_base d) as [b|] eqn:Hb, (rule_root d) as [r|] eqn:Hr; simpl; set_solver.
Qed.
Lemma build_elem ds x :
  (x ∈ mt_exact (buildMatcher ds) ↔ ∃ d, d ∈ ds ∧ rule_base d = Some x)
  ∧ (x ∈ mt_suffix (buildMatcher ds) ↔ ∃ d, d ∈ ds ∧ rule_base d = Some x)
  ∧ (x ∈ mt_subOnly (buildMatcher ds) ↔ ∃ d, d ∈ ds ∧ rule_base d = None ∧ rule_root d = Some x).
Proof. destruct (build_from_elem ds (mkMatcher ∅ ∅ ∅) x) as (-> & -> & ->). set_solver. Qed.

Lemma match_walk_spec m name :
  match_walk m name = true ↔ ∃ x, x ∈ parents name ∧ (x ∈ mt_suffix m ∨ x ∈ mt_subOnly m).
Proof.
  induction name as [|c name IH]; simpl; [set_solver|].
  destruct (is_dot c); simpl; [|done].
  repeat case_decide; [set_solver..|]. rewrite IH. set_solver.
Qed.
Lemma matches_sets m name :
  matches m name = true ↔
  name ≠ "" ∧ (name ∈ mt_exact m
               ∨ ∃ x, x ∈ parents name ∧ (x ∈ mt_suffix m ∨ x ∈ mt_subOnly m)).
Proof.
  unfold matches. destruct (str_eqb name "") eqn:Hn.
  { apply str_eqb_eq in Hn. naive_solver. }
  apply str_eqb_neq in Hn. case_decide; [naive_solver|].
  destruct (_ || _) eqn:Hsz.
  - rewrite match_walk_spec. naive_solver.
  - bools. split; [done|]. intros (_ & [?|(x & _ & Hx)]); [done|].
    assert (mt_suffix m = ∅ ∧ mt_subOnly m = ∅) as [He1 He2].
    { split; apply leibniz_equiv, size_empty_inv; lia. }
    set_solver.
Qed.
Lemma rule_base_covers d name b :
  rule_base d = Some b → covers d name ↔ name = b ∨ subdomain name b.
Proof.
  unfold rule_base, covers. destruct (HasPrefix (rule_text d) "*.") eqn:Hp; [done|].
  destruct (str_eqb _ "") eqn:Hb; [done|]. intros [= <-]. apply str_eqb_neq in Hb. split.
  - intros [(root & Hr & _)|?]; [|naive_solver]. by rewrite Hr, HasPrefix_app in Hp.
  - naive_solver.
Qed.
Lemma rule_root_covers d name :
  rule_base d = None → covers d name ↔ ∃ r, rule_root d = Some r ∧ subdomain name r.
Proof.
  unfold rule_base, rule_root, covers. destruct (HasPrefix (rule_text d) "*.") eqn:Hp.
  - intros _. apply HasPrefix_spec in Hp as [t Ht]. rewrite Ht.
    change (sdrop 2 ("*." +:+ t)) with (sdrop (slen "*.") ("*." +:+ t)). rewrite sdrop_app.
    destruct (str_eqb t "") eqn:He; [apply str_eqb_eq in He|apply str_eqb_neq in He].
    + split; [|by intros (? & ? & _)]. intros [(r & Hr & Hne & _)|(? & _)]; [|done].
      apply (inj (String.app "*.")) in Hr. congruence.
    + split; [|intros (r & [= <-] & ?); left; eauto].
      intros [(r & Hr & _ & ?)|(? & _)]; [|done].
      apply (inj (String.app "*.")) in Hr as ->. eauto.
  - destruct (str_eqb _ "") eqn:Hb; [|done]. intros _. apply str_eqb_eq in Hb. split.
    + intros [(r & Hr & _)|(_ & ? & _)]; [|done]. by rewrite Hr, HasPrefix_app in Hp.
    + by intros (? & ? & _).
Qed.
Lemma rule_base_nonempty d b : rule_base d = Some b → b ≠ "".
Proof.
  unfold rule_base. destruct (HasPrefix _ _); [done|].
  destruct (str_eqb _ "") eqn:H; [done|]. intros [= <-]. by apply str_eqb_neq in H.
Qed.
Lemma subdomain_nonempty x root : subdomain x root → x ≠ "".
Proof. intros [p ->]. by destruct p. Qed.
(** The matcher decides exactly what the rules of its list cover. *)
Lemma matches_covers ds name :
  matches (buildMatcher ds) name = true ↔ ∃ d, d ∈ ds ∧ covers d name.
Proof.
  rewrite matches_sets. destruct (build_elem ds name) as (-> & _).
  setoid_rewrite parents_spec. split.
  - intros [_ [(d & Hd & Hb)|(x & Hsub & Hx)]].
    + exists d. split; [done|]. rewrite (rule_base_covers _ _ name) by done. by left.
    + destruct (build_elem ds x) as (_ & Hs & Ho). destruct Hx as [Hx|Hx].
      * apply Hs in Hx as (d & ? & Hb). exists d. split; [done|].
        rewrite (rule_base_covers _ _ x) by done. by right.
      * apply Ho in Hx as (d & ? & Hb & Hr). exists d. split; [done|].
        rewrite rule_root_covers by done. eauto.
  - intros (d & Hd & Hc). destruct (rule_base d) as [b|] eqn:Hb.
    + rewrite (rule_base_covers _ _ b) in Hc by done.
      pose proof (rule_base_nonempty _ _ Hb). destruct Hc as [->|Hc].
      { split; [done|]. left. eauto. }
      split; [by eapply subdomain_nonempty|]. right. exists b. split; [done|].
      left. apply build_elem. eauto.
    + rewrite rule_root_covers in Hc by done. destruct Hc as (r & Hr & Hc).
      split; [by eapply subdomain_nonempty|]. right. exists r. split; [done|].
      right. apply build_elem. eauto.
Qed.

(** ** The store invariant

    A compiled policy is what [SetPolicy] builds from its policy, every policy
    is filed under its own non-empty id, and the two derived tables are those
    of [rebuildLocked]. *)
Definition compiled_ok (id : string) (cp : compiledPolicy) : Prop :=
  p_ID (cp_policy cp) = id ∧ id ≠ ""
  ∧ cp_allowM cp = buildMatcher (p_Allow (cp_policy cp))
  ∧ cp_blockM cp = buildMatcher (p_Block (cp_policy cp))
  ∧ res_mapM parse_net (p_Networks (cp_policy cp)) = Ok (cp_nets cp).
Definition default_ok (cp : compiledPolicy) : Prop := cp = compile (cp_policy cp).
Record store_wf (s : Store) : Prop := {
  wf_policies : map_Forall compiled_ok (st_policies s);
  wf_defaults : ∀ cp, st_defaults s = Some cp → default_ok cp;
  wf_tables : s = rebuildLocked s }.

Lemma merge_sort_perm (l k : list string) : l ≡ₚ k → merge_sort String.le l = merge_sort String.le k.
Proof.
  intros Hp. apply (StronglySorted_unique String.le); [apply StronglySorted_merge_sort; apply _..|].
  by rewrite !merge_sort_Permutation.
Qed.
(** [rebuildLocked] does not depend on the iteration order of the Go map. *)
Lemma rebuild_with_perm enum s :
  enum ≡ₚ (map_to_list (st_policies s)).*1 → rebuild_with enum s = rebuildLocked s.
Proof. intros Hp. unfold rebuildLocked, rebuild_with. by rewrite (merge_sort_perm _ _ Hp). Qed.
Lemma rebuild_idemp s : rebuildLocked (rebuildLocked s) = rebuildLocked s.
Proof. done. Qed.
Lemma rebuild_wf s :
  map_Forall compiled_ok (st_policies s) →
  (∀ cp, st_defaults s = Some cp → default_ok cp) →
  store_wf (rebuildLocked s).
Proof. intros ??. by split. Qed.

Lemma NewStore_wf def : store_wf (NewStore def).
Proof.
  split; simpl; [apply map_Forall_empty| |done].
  intros cp Hcp. destruct def as [p|]; simplify_eq/=. done.
Qed.
Lemma SetDefault_wf p s : store_wf s → store_wf (SetDefault p s).
Proof.
  intros [Hp Hd Ht]. split; simpl; [done| |].
  - intros cp Hcp. destruct p; by simplify_eq/=.
  - unfold SetDefault. rewrite Ht at 2 3. done.
Qed.
Lemma SetPolicy_inv p s s' :
  SetPolicy p s = Ok s' →
  ∃ q nets, p = Some q ∧ p_ID q ≠ "" ∧ res_mapM parse_net (p_Networks q) = Ok nets ∧
    s' = rebuildLocked (mkStore (st_defaults s)
           (<[p_ID q:=mkCompiled q (buildMatcher (p_Allow q)) (buildMatcher (p_Block q)) nets]>
              (st_policies s)) (st_nets s) (st_byClient s)).
Proof.
  unfold SetPolicy. destruct p as [q|]; [|done].
  destruct (str_eqb (p_ID q) "") eqn:Hid; [done|]. apply str_eqb_neq in Hid.
  destruct (res_mapM parse_net (p_Networks q)) as [nets|e] eqn:Hn; [|done].
  intros [= <-]. eauto 10.
Qed.
Lemma SetPolicy_wf p s s' : store_wf s → SetPolicy p s = Ok s' → store_wf s'.
Proof.
  intros [Hp Hd Ht] (q & nets & -> & Hid & Hn & ->)%SetPolicy_inv.
  apply rebuild_wf; simpl; [|done]. apply map_Forall_insert_2; [|done]. by repeat split.
Qed.
Lemma RemovePolicy_wf id s : store_wf s → store_wf (RemovePolicy id s).
Proof. intros [Hp Hd Ht]. apply rebuild_wf; simpl; [|done]. by apply map_Forall_delete. Qed.
#[export] Hint Resolve NewStore_wf SetDefault_wf SetPolicy_wf RemovePolicy_wf : blip.

(** Stores the management API can reach. *)
Inductive store_reachable : Store → Prop :=
| reach_new def : store_reachable (NewStore def)
| reach_default p s : store_reachable s → store_reachable (SetDefault p s)
| reach_set p s s' : store_reachable s → SetPolicy p s = Ok s' → store_reachable s'
| reach_remove id s : store_reachable s → store_reachable (RemovePolicy id s).
Lemma store_reachable_wf s : store_reachable s → store_wf s.
Proof. induction 1; eauto with blip. Qed.

(** ** Lookup *)
Definition candidate (s : Store) (ip : IP) (id : string) (cp : compiledPolicy) (n : IPNet) : Prop :=
  st_policies s !! id = Some cp ∧ n ∈ cp_nets cp ∧ Contains_ip n (norm4 ip) = true.

Lemma st_nets_elem s e :
  store_wf s → e ∈ st_nets s ↔
  ∃ id, st_policies s !! id = Some (ne_policy e) ∧ ne_net e ∈ cp_nets (ne_policy e).
Proof.
  intros [_ _ Ht]. rewrite Ht at 1. simpl. rewrite list_elem_of_bind. split.
  - intros (cp & He & Hcp). apply list_elem_of_fmap in He as (n & -> & Hn).
    apply list_elem_of_omap in Hcp as (id & _ & Hid). eauto.
  - intros (id & Hid & Hn). exists (ne_policy e). split.
    + apply list_elem_of_fmap. exists (ne_net e). by destruct e.
    + apply list_elem_of_omap. exists id. split; [|done].
      rewrite merge_sort_Permutation. apply list_elem_of_fmap. exists (id, ne_policy e).
      by rewrite elem_of_map_to_list.
Qed.

Lemma best_net_spec ip nets best bp :
  (∃ e, e ∈ nets ∧ Contains_ip (ne_net e) ip = true ∧ (best < net_ones (ne_net e))%Z
        ∧ best_net ip best bp nets = Some (ne_policy e)
        ∧ ∀ e', e' ∈ nets → Contains_ip (ne_net e') ip = true →
                (net_ones (ne_net e') ≤ net_ones (ne_net e))%Z)
  ∨ (best_net ip best bp nets = bp
     ∧ ∀ e', e' ∈ nets → Contains_ip (ne_net e') ip = true → (net_ones (ne_net e') ≤ best)%Z).
Proof.
  revert best bp. induction nets as [|e nets IH]; intros best bp; simpl; [right; set_solver|].
  destruct (Contains_ip (ne_net e) ip && _) eqn:Hc; bools.
  - left. destruct (IH (net_ones (ne_net e)) (Some (ne_policy e))) as
      [(e' & ? & ? & ? & -> & Hmax)|[-> Hmax]].
    + exists e'. repeat split; [by right|done|lia|].
      intros e'' [->|?]%elem_of_cons ?; [lia|eauto].
    + exists e. repeat split; [by left|done|lia|].
      intros e'' [->|?]%elem_of_cons ?; [lia|eauto].
  - assert (Contains_ip (ne_net e) ip = true → (net_ones (ne_net e) ≤ best)%Z) as Hle.
    { intros Hci. rewrite Hci in Hc. simpl in Hc. bools. lia. }
    destruct (IH best bp) as [(e' & ? & ? & ? & -> & Hmax)|[-> Hmax]].
    + left. exists e'. repeat split; [by right|done|lia|].
      intros e'' [->|?]%elem_of_cons ?; [specialize (Hle ltac:(done)); lia|eauto].
    + right. split; [done|]. intros e'' [->|?]%elem_of_cons ?; eauto.
Qed.
Lemma byte_ones_nonneg fuel v : (0 ≤ byte_ones fuel v)%Z.
Proof.
  revert v. induction fuel as [|k IH]; intros v; cbn [byte_ones]; [lia|].
  destruct (Z.testbit v 7); [|lia]. specialize (IH (Z.land (Z.shiftl v 1) 255)). lia.
Qed.
Lemma simpleMaskLength_lb m : (-1 ≤ simpleMaskLength m)%Z.
Proof.
  induction m as [|v m IH]; [simpl; lia|]. cbn [simpleMaskLength].
  pose proof (byte_ones_nonneg 8 v) as H8. set (b := byte_ones 8 v) in *. clearbody b.
  destruct (v =? 255)%Z; [destruct (simpleMaskLength m =? -1)%Z eqn:E; bools; lia|].
  cbv zeta. destruct (_ && _); lia.
Qed.
Lemma net_ones_nonneg n : (0 ≤ net_ones n)%Z.
Proof.
  unfold net_ones, mask_size. pose proof (simpleMaskLength_lb (net_mask n)).
  destruct (_ =? -1)%Z eqn:E; simpl; bools; lia.
Qed.
(** The address part of [lookup] is longest-prefix match over all policies. *)
Lemma lookup_ip_spec s ip :
  store_wf s →
  (∃ id cp n, lookup_ip s ip = Some cp ∧ candidate s ip id cp n
     ∧ ∀ id' cp' n', candidate s ip id' cp' n' → (net_ones n' ≤ net_ones n)%Z)
  ∨ (lookup_ip s ip = st_defaults s ∧ ∀ id cp n, ¬ candidate s ip id cp n).
Proof.
  intros Hwf. unfold lookup_ip.
  destruct (best_net_spec (norm4 ip) (st_nets s) (-1) None) as [(e & He & Hc & _ & -> & Hmax)|[-> Hmax]].
  - left. apply (st_nets_elem s e Hwf) in He as (id & Hid & Hn).
    exists id, (ne_policy e), (ne_net e). repeat split; [done..|].
    intros id' cp' n' (? & ? & ?). apply (Hmax (mkNetEntry n' cp')); [|done].
    apply st_nets_elem; eauto.
  - right. split; [done|]. intros id cp n (? & ? & ?).
    assert (net_ones n ≤ -1)%Z; [|pose proof (net_ones_nonneg n); lia].
    apply (Hmax (mkNetEntry n cp)); [|done]. apply st_nets_elem; eauto.
Qed.

(** ** Client ids *)
Definition lists_client (cp : compiledPolicy) (c : string) : Prop :=
  c ≠ "" ∧ c ∈ client_key <$> p_Clients (cp_policy cp).
#[export] Instance lists_client_dec cp c : Decision (lists_client cp c).
Proof. unfold lists_client. apply _. Defined.

Lemma clients_fold_lookup cp l (m : gmap string compiledPolicy) c :
  foldl (λ m x, let x := client_key x in if str_eqb x "" then m else <[x:=cp]> m) m l !! c
  = if decide (c ≠ "" ∧ c ∈ client_key <$> l) then Some cp else m !! c.
Proof.
  revert m. induction l as [|x l IH]; intros m; simpl.
  - rewrite decide_False; [done|]. set_solver.
  - rewrite IH. destruct (str_eqb (client_key x) "") eqn:Hx.
    + apply str_eqb_eq in Hx. apply decide_ext. set_solver.
    + apply str_eqb_neq in Hx. destruct (decide (client_key x = c)) as [<-|Hne].
      * rewrite lookup_insert_eq.
        transitivity (Some cp); [by case_decide|]. symmetry. apply decide_True. split; [done|by left].
      * rewrite lookup_insert_ne by done. apply decide_ext. set_solver.
Qed.
Lemma add_clients_lookup cp m c :
  add_clients cp m !! c = if decide (lists_client cp c) then Some cp else m !! c.
Proof. unfold add_clients. rewrite clients_fold_lookup. by apply decide_ext. Qed.
Lemma byClient_fold (f : string → option compiledPolicy) ids c :
  StronglySorted String.le ids →
  match foldl (λ m cp, add_clients cp m) ∅ (omap f ids) !! c with
  | Some cp => ∃ id, id ∈ ids ∧ f id = Some cp ∧ lists_client cp c
      ∧ ∀ id' cp', id' ∈ ids → f id' = Some cp' → lists_client cp' c → String.le id' id
  | None => ∀ id cp, id ∈ ids → f id = Some cp → ¬ lists_client cp c
  end.
Proof.
  induction ids as [|id ids IH] using rev_ind; intros Hs; simpl.
  { rewrite lookup_empty. by intros ?? ?%elem_of_nil. }
  apply StronglySorted_app in Hs as (Hlt & Hs & _). specialize (IH Hs).
  rewrite omap_app, foldl_app. simpl. destruct (f id) as [cp|] eqn:Hf; simpl.
  - rewrite add_clients_lookup. case_decide as Hl.
    + exists id. split_and!; [set_solver|done|done|].
      intros id' cp' [?|Hlast%list_elem_of_singleton]%elem_of_app ??; [|by subst].
      apply Hlt; [done|set_solver].
    + destruct (foldl _ _ _ !! c) as [cp'|].
      * destruct IH as (id' & ? & ? & ? & Hmax). exists id'. split_and!; [set_solver|done..|].
        intros id'' cp'' [?|Hlast%list_elem_of_singleton]%elem_of_app ??; [eauto|subst; congruence].
      * intros id' cp' [?|Hlast%list_elem_of_singleton]%elem_of_app ?; [eauto|subst; congruence].
  - destruct (foldl _ _ _ !! c) as [cp'|].
    + destruct IH as (id' & ? & ? & ? & Hmax). exists id'. split_and!; [set_solver|done..|].
      intros id'' cp'' [?|Hlast%list_elem_of_singleton]%elem_of_app ??; [eauto|subst; congruence].
    + intros id' cp' [?|Hlast%list_elem_of_singleton]%elem_of_app ?; [eauto|subst; congruence].
Qed.
Lemma byClient_spec s c :
  store_wf s →
  match st_byClient s !! c with
  | Some cp => ∃ id, st_policies s !! id = Some cp ∧ lists_client cp c
      ∧ ∀ id' cp', st_policies s !! id' = Some cp' → lists_client cp' c → String.le id' id
  | None => ∀ id cp, st_policies s !! id = Some cp → ¬ lists_client cp c
  end.
Proof.
  intros [_ _ Ht].
  assert (st_byClient s = st_byClient (rebuildLocked s)) as -> by by rewrite <-Ht. simpl.
  set (ids := merge_sort _ _).
  assert (∀ id cp, st_policies s !! id = Some cp → id ∈ ids) as Hin.
  { intros id cp Hid. subst ids. rewrite merge_sort_Permutation. apply list_elem_of_fmap.
    exists (id, cp). by rewrite elem_of_map_to_list. }
  pose proof (byClient_fold (λ id, st_policies s !! id) ids c (StronglySorted_merge_sort _ _)) as H.
  destruct (foldl _ _ _ !! c) as [cp|]; [|naive_solver].
  destruct H as (id & ? & ? & ? & Hmax). exists id. naive_solver.
Qed.

(** ** The properties *)
Lemma lookup_policy_compiled s ip cid p :
  store_wf s → lookup_policy s ip cid = Some p →
  cp_allowM p = buildMatcher (p_Allow (cp_policy p))
  ∧ cp_blockM p = buildMatcher (p_Block (cp_policy p)).
Proof.
  intros Hwf Hl.
  assert ((∃ id, st_policies s !! id = Some p) ∨ st_defaults s = Some p) as [[id Hid]|Hd].
  { unfold lookup_policy in Hl.
    assert (lookup_ip s ip = Some p → (∃ id, st_policies s !! id = Some p) ∨ st_defaults s = Some p).
    { destruct (lookup_ip_spec s ip Hwf) as [(id & cp & n & -> & (Hid & _) & _)|[-> _]]; naive_solver. }
    destruct (str_eqb cid ""); [auto|]. pose proof (byClient_spec s cid Hwf) as Hc.
    destruct (st_byClient s !! cid) as [q|]; [|auto]. destruct (_ && _); [|auto].
    injection Hl as <-. destruct Hc as (id & ? & _). eauto. }
  - by destruct (wf_policies _ Hwf _ _ Hid) as (_ & _ & ? & ? & _).
  - by rewrite (wf_defaults _ Hwf _ Hd).
Qed.

(** A sample configuration: two nested networks, one with a client id. *)
Definition demo_kids : Policy :=
  mkPolicy "kids" ["10.0.0.0/8"; "fd00::/8"] ["tablet"] ["school.example"] ["*.games.example"; "ads.net"]
    "refused" true "".
Definition demo_lab : Policy :=
  mkPolicy "lab" ["10.9.0.0/16"] ["/dns-query/probe"] [] ["example"] "" false "udp://9.9.9.9".
Definition demo_default : Policy := mkPolicy "" [] [] [] ["bad.example"] "zero" false "".
Definition demo_store : Store :=
  match SetPolicy (Some demo_kids) (NewStore (Some demo_default)) with
  | Ok s => match SetPolicy (Some demo_lab) s with Ok s' => s' | Err _ => s end
  | Err _ => NewStore None
  end.
Lemma demo_store_reachable : store_reachable demo_store.
Proof.
  apply (reach_set (Some demo_lab) (rebuildLocked (mkStore (Some (compile demo_default))
    {[ "kids" := mkCompiled demo_kids (buildMatcher (p_Allow demo_kids))
                   (buildMatcher (p_Block demo_kids))
                   [mkIPNet [10; 0; 0; 0]%Z [255; 0; 0; 0]%Z;
                    mkIPNet (253 :: replicate 15 0)%Z (255 :: replicate 15 0)%Z] ]} [] ∅))).
  - apply (reach_set (Some demo_kids) (NewStore (Some demo_default))); [apply reach_new|].
    vm_compute. reflexivity.
  - vm_compute. reflexivity.
Defined.

(** C33: In every store the management API can build, the derived tables are
    consistent with the policies (every policy compiled from its own lists and
    networks, filed under its id), and rebuilding them gives the same result
    for every order in which Go's map iteration can visit the policies. *)
Theorem filter_store_invariant s :
  store_reachable s →
  store_wf s ∧ ∀ enum, enum ≡ₚ (map_to_list (st_policies s)).*1 → rebuild_with enum s = s.
Proof.
  intros Hs%store_reachable_wf. split; [done|].
  intros enum Hp. rewrite rebuild_with_perm by done. by destruct Hs.
Qed.
Lemma filter_store_invariant_witness : store_wf demo_store.
Proof. apply (filter_store_invariant demo_store demo_store_reachable). Defined.

(** C7: A query is blocked by the policy that applies to it exactly when some
    entry of the block list covers the name and no entry of the allow list
    does; the action, upstream override and log flag are that policy's. *)
Theorem filter_classify_decides s ip cid name p :
  store_reachable s → lookup_policy s ip cid = Some p →
  ∃ b, Classify s ip cid name
       = (b, policy_action (cp_policy p), p_Upstream (cp_policy p), p_Log (cp_policy p))
    ∧ (b = true ↔ (∃ d, d ∈ p_Block (cp_policy p) ∧ covers d (normalizeName name))
                  ∧ ¬ ∃ d, d ∈ p_Allow (cp_policy p) ∧ covers d (normalizeName name)).
Proof.
  intros Hs%store_reachable_wf Hl. destruct (lookup_policy_compiled _ _ _ _ Hs Hl) as [Ha Hb].
  unfold Classify. rewrite Hl, Ha, Hb.
  pose proof (matches_covers (p_Allow (cp_policy p)) (normalizeName name)) as Ia.
  pose proof (matches_covers (p_Block (cp_policy p)) (normalizeName name)) as Ib.
  destruct (matches (buildMatcher (p_Allow _)) _), (matches (buildMatcher (p_Block _)) _);
    eexists; (split; [reflexivity|naive_solver]).
Qed.
Lemma filter_classify_decides_witness :
  ∃ b, Classify demo_store (ParseIP "10.1.1.1") "" "play.Games.example." = (b, "refused", "", true).
Proof.
  destruct (lookup_policy demo_store (ParseIP "10.1.1.1") "") as [p|] eqn:Hl; [|by vm_compute in Hl].
  destruct (filter_classify_decides demo_store (ParseIP "10.1.1.1") "" "play.Games.example." p
              demo_store_reachable Hl) as (b & Hb & _).
  exists b. rewrite Hb. vm_compute in Hl. injection Hl as <-. reflexivity.
Defined.

(** C13: Without a client id, the policy selected for an address is one whose
    network contains the address with the longest prefix among all policies'
    networks; the default policy applies exactly when no network contains it. *)
Theorem filter_longest_prefix s ip :
  store_reachable s →
  (∃ id cp n, lookup_policy s ip "" = Some cp ∧ candidate s ip id cp n
     ∧ ∀ id' cp' n', candidate s ip id' cp' n' → (net_ones n' ≤ net_ones n)%Z)
  ∨ (lookup_policy s ip "" = st_defaults s ∧ ∀ id cp n, ¬ candidate s ip id cp n).
Proof. intros Hs%store_reachable_wf. apply (lookup_ip_spec s ip Hs). Qed.
Lemma filter_longest_prefix_witness :
  p_ID ∘ cp_policy <$> lookup_policy demo_store (ParseIP "10.9.1.1") "" = Some "lab"
  ∧ ∃ id cp n, lookup_policy demo_store (ParseIP "10.9.1.1") "" = Some cp
               ∧ candidate demo_store (ParseIP "10.9.1.1") id cp n.
Proof.
  split; [vm_compute; reflexivity|].
  destruct (filter_longest_prefix demo_store (ParseIP "10.9.1.1") demo_store_reachable)
    as [(id & cp & n & ? & ? & _)|[Hd Hn]]; [eauto|].
  by vm_compute in Hd.
Defined.

(** A self-asserted DoH client id changes the selected policy only to a
    policy that lists that id and one of whose networks contains the source
    address; among several policies listing the id the greatest policy id wins. *)
Theorem filter_client_id_scoped s ip cid :
  store_reachable s →
  lookup_policy s ip cid ≠ lookup_policy s ip "" →
  ∃ id cp n, lookup_policy s ip cid = Some cp ∧ candidate s ip id cp n ∧ lists_client cp cid
    ∧ ∀ id' cp', st_policies s !! id' = Some cp' → lists_client cp' cid → String.le id' id.
Proof.
  intros Hs%store_reachable_wf Hne. unfold lookup_policy in *. simpl in Hne.
  destruct (str_eqb cid ""); [done|]. pose proof (byClient_spec s cid Hs) as Hc.
  destruct (st_byClient s !! cid) as [p|]; [|done].
  destruct (_ && netsContain _ _) eqn:Hn; [|done]. bools.
  destruct Hc as (id & Hid & Hl & Hmax).
  match goal with H : netsContain _ _ = true |- _ => apply existsb_exists in H as (n & Hin & Hcn) end.
  apply list_elem_of_In in Hin. exists id, p, n. by split_and!.
Qed.
Lemma filter_client_id_scoped_witness :
  p_ID ∘ cp_policy <$> lookup_policy demo_store (ParseIP "10.9.1.1") "" = Some "lab"
  ∧ ∃ id cp n, lookup_policy demo_store (ParseIP "10.9.1.1") "tablet" = Some cp
               ∧ candidate demo_store (ParseIP "10.9.1.1") id cp n ∧ lists_client cp "tablet".
Proof.
  split; [vm_compute; reflexivity|].
  destruct (filter_client_id_scoped demo_store (ParseIP "10.9.1.1") "tablet" demo_store_reachable)
    as (id & cp & n & ? & ? & ? & _); [|eauto 10].
  intros Heq%(f_equal (fmap (p_ID ∘ cp_policy))). by vm_compute in Heq.
Defined.

(** [SetPolicy] on every branch: it is rejected for an empty id, then for
    the first network that does not parse, and otherwise files the policy under
    its id and leaves every other policy and the default as they were. *)
Theorem filter_set_policy p s :
  match SetPolicy (Some p) s with
  | Err ErrPolicyID => p_ID p = ""
  | Err (NetError n) => p_ID p ≠ "" ∧ n ∈ p_Networks p ∧ ParseCIDR n = None
  | Ok s' =>
      p_ID p ≠ "" ∧ Forall (λ n, is_Some (ParseCIDR n)) (p_Networks p)
      ∧ cp_policy <$> st_policies s' !! p_ID p = Some p
      ∧ (∀ id, id ≠ p_ID p → st_policies s' !! id = st_policies s !! id)
      ∧ st_defaults s' = st_defaults s
  end.
Proof.
  unfold SetPolicy. destruct (str_eqb (p_ID p) "") eqn:Hid; [by apply str_eqb_eq|].
  apply str_eqb_neq in Hid. destruct (res_mapM parse_net (p_Networks p)) as [nets|e] eqn:Hn; simpl.
  - split_and!; [done| |by rewrite lookup_insert_eq| |done].
    + apply res_mapM_ok in Hn. clear -Hn. induction Hn as [|n y ns ys Hf _ IH]; constructor; [|done].
      unfold parse_net in Hf. destruct (ParseCIDR n); [eauto|done].
    + intros id Hne. by rewrite lookup_insert_ne.
  - apply res_mapM_err in Hn as (n & Hin & He). unfold parse_net in He.
    destruct (ParseCIDR n) as [[? ?]|] eqn:Hp; [done|]. injection He as <-. done.
Qed.

(** The three questions the server asks agree: an allowlisted name is never
    classified as blocked, and [BlockSource] names a rule exactly for the
    queries [Classify] blocks. *)
Theorem filter_queries_agree s ip cid name :
  let blocked := (Classify s ip cid name).1.1.1 in
  (Allowed s ip cid name = true → blocked = false)
  ∧ (BlockSource s ip cid name = "" ↔ blocked = false).
Proof.
  unfold Classify, Allowed, BlockSource. destruct (lookup_policy s ip cid) as [p|]; [|done].
  destruct (matches (cp_allowM p) _), (matches (cp_blockM p) _); done.
Qed.

(** A wildcard entry written with the root dot ("*.tracker.net.") matches
    no query name: the dot is stripped from plain entries only, so the stored
    root can not be a parent of a normalized name. *)
Theorem filter_wildcard_root_dot root name :
  HasSuffix (normalizeName name) "." = false →
  matches (buildMatcher ["*." +:+ root +:+ "."]) (normalizeName name) = false.
Proof.
  intros Hn. apply not_true_is_false. rewrite matches_covers.
  intros (d & ->%list_elem_of_singleton & Hc).
  assert (rule_text ("*." +:+ root +:+ ".") = "*." +:+ ToLower root +:+ ".") as Hr.
  { unfold rule_text.
    change ("*." +:+ root +:+ ".") with (String "*" (String dot root +:+ String dot "")).
    rewrite TrimSpace_stop by done. rewrite <-app_cons, !ToLower_app. done. }
  destruct Hc as [(r & Hrt & _ & [q Hq])|[Hp _]].
  - rewrite Hr in Hrt. apply (inj (String.app "*.")) in Hrt as <-.
    rewrite Hq in Hn. rewrite <-app_cons, <-app_assoc, HasSuffix_app in Hn. done.
  - by rewrite Hr, HasPrefix_app in Hp.
Qed.
Lemma filter_wildcard_root_dot_witness :
  matches (buildMatcher ["*.tracker.net."]) (normalizeName "x.tracker.net.") = false
  ∧ matches (buildMatcher ["*.tracker.net"]) (normalizeName "x.tracker.net.") = true.
Proof.
  split; [|vm_compute; reflexivity].
  apply (filter_wildcard_root_dot "tracker.net" "x.tracker.net."). vm_compute. reflexivity.
Defined.
