(* ===== verification/Cache.v ===== *)
(** * The response cache (internal/cache/cache.go)

    Entries live on a heap because [Get] keeps a pointer to an entry after it
    releases the lock, and [Set] refreshes an entry in place.  [items] maps a
    key to an entry pointer and [lru] is the [container/list] of entry
    pointers, front first.  An entry's [elem] is the list node that holds it,
    so a list node is named by its entry's pointer.  [container/list] corrupts
    its length when a node that is not in the list is removed after [Init]:
    [list_Remove] and [list_MoveToFront] are partial ([None]), and the theorems
    show that the cache never reaches that case.

    The clock [c.now] is an argument at each place the source reads it.  A
    message is a value, so [Msg.Copy] is the identity. *)
From S2P Require Import Prelude GoStrings GoNet Dns.
From Stdlib Require Import Ascii.
#[local] Open Scope Z_scope.

Definition promoteEvery : Z := 16.

Record Key := mkKey { k_Name : string; k_Label : string; k_QType : Z; k_QClass : Z }.
#[export] Instance Key_eq_dec : EqDecision Key.
Proof. solve_decision. Defined.
#[export] Instance Key_countable : Countable Key.
Proof.
  refine (inj_countable' (λ k, (k_Name k, k_Label k, k_QType k, k_QClass k))
            (λ '(n, l, t, c), mkKey n l t c) _).
  by intros [].
Defined.

Record entry := mkEntry { e_key : Key; e_msg : Msg; e_expire : Z; e_hits : Z }.

Record Cache := mkCache {
  c_items : gmap Key nat;
  c_heap : gmap nat entry;
  c_lru : list nat;
  c_ttlCap : Z;
  c_maxEntries : Z;
  c_next : nat }.

(** [New]: a non-positive cap means one hour. *)
Definition New (ttlCap maxEntries : Z) : Cache :=
  {| c_items := ∅; c_heap := ∅; c_lru := [];
     c_ttlCap := if ttlCap <=? 0 then hour else ttlCap;
     c_maxEntries := maxEntries; c_next := 0 |}.

(** [KeyOf]: the key of the first question. *)
Definition KeyOf (m : Msg) : Key :=
  match m_Question m with
  | [] => mkKey "" "" 0 0
  | q :: _ => mkKey (ToLower (q_Name q)) "" (q_Qtype q) (q_Qclass q)
  end.

(** [Key.String]. *)
Definition Key_String (k : Key) : string :=
  k_Name k +:+ "|" +:+ Itoa (k_QType k) +:+ "|" +:+ Itoa (k_QClass k) +:+ "|" +:+ k_Label k.

(** The loop body of [minTTL]: [None] is [seen = false]. *)
Definition min_step (acc : option Z) (rr : RR) : option Z :=
  match acc with
  | None => Some (ttl_of rr)
  | Some m => if ttl_of rr <? m then Some (ttl_of rr) else Some m
  end.
Definition minTTL (m : Msg) : Z :=
  match foldl min_step (foldl min_step None (m_Answer m)) (m_Ns m) with
  | None => 30 * second
  | Some t => (if t <? 1 then 1 else t) * second
  end.

(** [container/list] on nodes: [Remove] and [MoveToFront] of a node that is in
    the list. *)
Definition list_Remove (id : nat) (l : list nat) : option (list nat) :=
  if decide (id ∈ l) then Some (filter (λ j, j ≠ id) l) else None.
Definition list_MoveToFront (id : nat) (l : list nat) : option (list nat) :=
  l' ← list_Remove id l; Some (id :: l').

Definition with_lru (l : list nat) (c : Cache) : Cache :=
  mkCache (c_items c) (c_heap c) l (c_ttlCap c) (c_maxEntries c) (c_next c).
Definition with_entry (id : nat) (e : entry) (c : Cache) : Cache :=
  mkCache (c_items c) (<[id := e]> (c_heap c)) (c_lru c) (c_ttlCap c) (c_maxEntries c) (c_next c).
Definition with_max (n : Z) (c : Cache) : Cache :=
  mkCache (c_items c) (c_heap c) (c_lru c) (c_ttlCap c) n (c_next c).

(** [delete(c.items, k)] and [c.lru.Remove] of the node. *)
Definition drop (k : Key) (id : nat) (c : Cache) : option Cache :=
  l ← list_Remove id (c_lru c);
  Some (mkCache (delete k (c_items c)) (c_heap c) l (c_ttlCap c) (c_maxEntries c) (c_next c)).

(** ** Get

    [Get] holds the lock in up to two critical sections and copies the entry
    outside the lock: one definition per section. *)
Inductive get_next :=
| GMiss
| GExpired
| GPromote (e : nat) (now : Z)
| GHit (e : nat) (now : Z).

(** The section under [c.mu.RLock], with the atomic bump of the hit counter.
    [None] is a nil-entry dereference. *)
Definition get_lookup (k : Key) (now : Z) (c : Cache) : option (Cache * get_next) :=
  if str_eqb (k_Name k) "" then Some (c, GMiss)
  else
    match c_items c !! k with
    | None => Some (c, GMiss)
    | Some id =>
        e ← c_heap c !! id;
        if time_after now (e_expire e) then Some (c, GExpired)
        else
          let h := u64 (e_hits e + 1) in
          let c := with_entry id (mkEntry (e_key e) (e_msg e) (e_expire e) h) c in
          Some (c, if h mod promoteEvery =? 0 then GPromote id now else GHit id now)
    end.

(** The exclusive section after an expired lookup: a value refreshed in the
    meantime is used, anything else under the key is deleted. *)
Definition get_expired (k : Key) (now2 now3 : Z) (c : Cache) : option (Cache * get_next) :=
  match c_items c !! k with
  | None => Some (c, GMiss)
  | Some id =>
      e ← c_heap c !! id;
      if negb (time_after now2 (e_expire e)) then Some (c, GHit id now3)
      else c' ← drop k id c; Some (c', GMiss)
  end.

(** The exclusive section of a promotion. *)
Definition get_promote (k : Key) (id : nat) (c : Cache) : option Cache :=
  if decide (c_items c !! k = Some id)
  then l ← list_MoveToFront id (c_lru c); Some (with_lru l c)
  else Some c.

(** The code after the label [copy], from the entry's fields as read. *)
Definition served_ttl (expire now : Z) : Z :=
  let remaining := time_sub expire now in
  let ttl := u32 (Z.quot remaining second) in
  if ttl <? 1 then 1 else ttl.
Definition serve_copy (m : Msg) (expire now : Z) : Msg :=
  with_Answer (set_ttl (served_ttl expire now) <$> m_Answer m) m.
Definition get_copy (id : nat) (now : Z) (c : Cache) : option Msg :=
  e ← c_heap c !! id; Some (serve_copy (e_msg e) (e_expire e) now).

(** [Get] run without interference, with the clock readings [t1 t2 t3]. *)
Definition Get (k : Key) (t1 t2 t3 : Z) (c : Cache) : option (Cache * option Msg) :=
  '(c, n) ← get_lookup k t1 c;
  '(c, n) ← match n with GExpired => get_expired k t2 t3 c | _ => Some (c, n) end;
  match n with
  | GMiss | GExpired => Some (c, None)
  | GHit id now => m ← get_copy id now c; Some (c, Some m)
  | GPromote id now =>
      c ← get_promote k id c;
      m ← get_copy id now c; Some (c, Some m)
  end.

(** ** Set and the size limit *)
Fixpoint evict_loop (fuel : nat) (c : Cache) : option Cache :=
  match fuel with
  | O => Some c
  | S fuel =>
      if (0 <? c_maxEntries c) && (c_maxEntries c <? Z.of_nat (length (c_lru c)))
      then
        match last (c_lru c) with
        | None => Some c
        | Some id => e ← c_heap c !! id; c' ← drop (e_key e) id c; evict_loop fuel c'
        end
      else Some c
  end.
Definition evictLocked (c : Cache) : option Cache := evict_loop (length (c_lru c)) c.

Definition cacheable (m : Msg) : bool :=
  (m_Rcode m =? RcodeSuccess) || (m_Rcode m =? RcodeNameError).

(** [Set]; [om = None] is a nil message. *)
Definition store_ttl (m : Msg) (c : Cache) : Z :=
  let ttl := minTTL m in if c_ttlCap c <? ttl then c_ttlCap c else ttl.
Definition Set_ (k : Key) (om : option Msg) (now : Z) (c : Cache) : option Cache :=
  match om with
  | None => Some c
  | Some m =>
      if str_eqb (k_Name k) "" then Some c
      else if negb (cacheable m) then Some c
      else
        let expire := now + store_ttl m c in
        match c_items c !! k with
        | Some id =>
            e ← c_heap c !! id;
            l ← list_MoveToFront id (c_lru c);
            Some (with_lru l (with_entry id (mkEntry (e_key e) m expire (e_hits e)) c))
        | None =>
            let id := c_next c in
            evictLocked (mkCache (<[k := id]> (c_items c)) (<[id := mkEntry k m expire 0]> (c_heap c))
                           (id :: c_lru c) (c_ttlCap c) (c_maxEntries c) (S id))
        end
  end.

Definition SetMaxEntries (n : Z) (c : Cache) : option Cache :=
  evictLocked (with_max (if n <? 0 then 0 else n) c).

Definition Purge (c : Cache) : Cache :=
  mkCache ∅ (c_heap c) [] (c_ttlCap c) (c_maxEntries c) (c_next c).

Definition Len (c : Cache) : nat := size (c_items c).

(** ** Invariant *)
Record cache_wf (c : Cache) : Prop := {
  wf_heap : ∀ id, id ∈ c_lru c → is_Some (c_heap c !! id);
  wf_items : ∀ k id, c_items c !! k = Some id
                ↔ id ∈ c_lru c ∧ e_key <$> c_heap c !! id = Some k;
  wf_nodup : NoDup (c_lru c);
  wf_next : ∀ id, is_Some (c_heap c !! id) → (id < c_next c)%nat }.
Definition cache_bounded (c : Cache) : Prop :=
  0 < c_maxEntries c → Z.of_nat (length (c_lru c)) ≤ c_maxEntries c.

(** ** Specification: a list of bindings, most recently used first *)
Definition binding : Type := Key * Msg * Z.
Definition bkey (b : binding) : Key := b.1.1.
Definition view (c : Cache) (id : nat) : option binding :=
  (λ e, (e_key e, e_msg e, e_expire e)) <$> c_heap c !! id.
Definition abs (c : Cache) : list binding := omap (view c) (c_lru c).
Definition spec_find (k : Key) (l : list binding) : option binding :=
  list_find (λ b, bkey b = k) l ≫= λ p, Some p.2.
Definition spec_remove (k : Key) (l : list binding) : list binding :=
  filter (λ b, bkey b ≠ k) l.
Definition spec_trim (n : Z) (l : list binding) : list binding :=
  if 0 <? n then take (Z.to_nat n) l else l.
Definition spec_set (n : Z) (b : binding) (l : list binding) : list binding :=
  spec_trim n (b :: spec_remove (bkey b) l).

(** ** Lemmas: nodes and bindings *)
Section Views.
Context (c : Cache) (Hwf : cache_wf c).

Lemma wf_key_inj i j k :
  i ∈ c_lru c → j ∈ c_lru c →
  e_key <$> c_heap c !! i = Some k → e_key <$> c_heap c !! j = Some k → i = j.
Proof.
  intros Hi Hj Ki Kj.
  pose proof (proj2 (wf_items c Hwf k i) (conj Hi Ki)).
  pose proof (proj2 (wf_items c Hwf k j) (conj Hj Kj)). congruence.
Qed.

Lemma wf_item k id :
  c_items c !! k = Some id → ∃ e, c_heap c !! id = Some e ∧ e_key e = k ∧ id ∈ c_lru c.
Proof.
  intros [Hin Hk]%(wf_items c Hwf). destruct (c_heap c !! id) as [e|]; [|done].
  injection Hk as <-. eauto.
Qed.

Lemma wf_no_item k id e :
  c_items c !! k = None → id ∈ c_lru c → c_heap c !! id = Some e → e_key e ≠ k.
Proof.
  intros Hk Hin He <-.
  assert (c_items c !! e_key e = Some id) by (apply (wf_items c Hwf); by rewrite He). congruence.
Qed.

Lemma abs_remove_sub l k id :
  l ⊆ c_lru c → c_items c !! k = Some id →
  omap (view c) (filter (λ j, j ≠ id) l) = spec_remove k (omap (view c) l).
Proof.
  intros Hsub Hk. destruct (wf_item k id Hk) as (e & He & Hek & Hin).
  unfold spec_remove. induction l as [|j l IH]; [done|].
  assert (j ∈ c_lru c) as Hj by (apply Hsub; left).
  destruct (wf_heap c Hwf j Hj) as [ej Hej].
  assert (view c j = Some (e_key ej, e_msg ej, e_expire ej)) as Hv by (unfold view; by rewrite Hej).
  rewrite filter_cons. cbn [omap list_omap]. rewrite Hv, filter_cons. cbn [bkey fst].
  destruct (decide (j = id)) as [->|Hne].
  - rewrite decide_False by tauto. rewrite decide_False by (simplify_eq; tauto).
    apply IH. set_solver.
  - rewrite decide_True by done. cbn [omap list_omap]. rewrite Hv.
    rewrite decide_True.
    + f_equal. apply IH. set_solver.
    + intros Heq. apply Hne, (wf_key_inj j id k); try done; [rewrite Hej|rewrite He]; simpl; congruence.
Qed.

Lemma abs_remove k id :
  c_items c !! k = Some id →
  omap (view c) (filter (λ j, j ≠ id) (c_lru c)) = spec_remove k (abs c).
Proof. by apply abs_remove_sub. Qed.

Lemma abs_length : length (abs c) = length (c_lru c).
Proof.
  pose proof (wf_heap c Hwf) as Hh. unfold abs. induction (c_lru c) as [|j l IH]; [done|].
  destruct (Hh j) as [e He]; [left|].
  assert (view c j = Some (e_key e, e_msg e, e_expire e)) as Hv by (unfold view; by rewrite He).
  cbn [omap list_omap]. rewrite Hv. cbn [length]. f_equal. apply IH. intros i Hi. apply Hh. by right.
Qed.

Lemma spec_find_items k :
  spec_find k (abs c) = c_items c !! k ≫= view c.
Proof.
  unfold spec_find.
  destruct (list_find _ (abs c)) as [[i b]|] eqn:Hf; cbn [option_bind mbind].
  - apply list_find_Some in Hf as (Hb & Hk & _). apply list_elem_of_lookup_2 in Hb.
    unfold abs in Hb. apply list_elem_of_omap in Hb as (id & Hin & Hv).
    assert (c_items c !! k = Some id) as ->.
    { apply (wf_items c Hwf). split; [done|]. unfold view in Hv.
      destruct (c_heap c !! id); [|done]. injection Hv as <-. by rewrite <-Hk. }
    done.
  - apply list_find_None in Hf. destruct (c_items c !! k) as [id|] eqn:Hk; [|done].
    destruct (wf_item k id Hk) as (e & He & <- & Hin). exfalso.
    assert ((e_key e, e_msg e, e_expire e) ∈ abs c) as Hb.
    { apply list_elem_of_omap. exists id. split; [done|]. unfold view. by rewrite He. }
    rewrite Forall_forall in Hf. by apply (Hf _ Hb).
Qed.
End Views.

Lemma drop_spec c k id :
  cache_wf c → c_items c !! k = Some id →
  drop k id c = Some (mkCache (delete k (c_items c)) (c_heap c) (filter (λ j, j ≠ id) (c_lru c))
                       (c_ttlCap c) (c_maxEntries c) (c_next c)).
Proof.
  intros Hwf Hk. destruct (wf_item c Hwf k id Hk) as (e & ? & ? & ?).
  unfold drop, list_Remove. by rewrite decide_True.
Qed.

Lemma drop_ok c k id :
  cache_wf c → c_items c !! k = Some id →
  ∃ c', drop k id c = Some c' ∧ cache_wf c' ∧ abs c' = spec_remove k (abs c)
    ∧ c_lru c' = filter (λ j, j ≠ id) (c_lru c)
    ∧ c_maxEntries c' = c_maxEntries c ∧ c_ttlCap c' = c_ttlCap c.
Proof.
  intros Hwf Hk. rewrite drop_spec by done. eexists. split_and!; try done.
  2:{ by apply (abs_remove c Hwf). }
  destruct (wf_item c Hwf k id Hk) as (e & He & Hek & Hin).
  split; cbn [c_lru c_heap c_items c_next].
  - intros j [_ Hj]%list_elem_of_filter. by apply (wf_heap c Hwf).
  - intros k' j. rewrite lookup_delete_Some, (wf_items c Hwf), list_elem_of_filter. split.
    + intros (Hne & Hj & Hkj). split_and!; [|done..]. intros ->. rewrite He in Hkj. cbn in Hkj. congruence.
    + intros ((Hne & Hj) & Hkj). split_and!; [|done..]. intros <-.
      apply Hne, (wf_key_inj c Hwf j id k); try done. by rewrite He, <-Hek.
  - apply NoDup_filter, (wf_nodup c Hwf).
  - apply (wf_next c Hwf).
Qed.

Lemma filter_last (l : list nat) id :
  NoDup (l ++ [id]) → filter (λ j, j ≠ id) (l ++ [id]) = l.
Proof.
  intros (Hl & Hnin & _)%NoDup_app. rewrite filter_app, filter_cons_False, List.app_nil_r by tauto.
  apply filter_id. intros j Hj ->. by apply (Hnin id Hj), list_elem_of_singleton.
Qed.

Lemma evict_loop_ok fuel c :
  cache_wf c → (length (c_lru c) ≤ fuel)%nat →
  ∃ c', evict_loop fuel c = Some c' ∧ cache_wf c' ∧ cache_bounded c'
    ∧ abs c' = spec_trim (c_maxEntries c) (abs c)
    ∧ c_maxEntries c' = c_maxEntries c ∧ c_ttlCap c' = c_ttlCap c.
Proof.
  revert c. induction fuel as [|fuel IH]; intros c Hwf Hf; cbn [evict_loop].
  { exists c. assert (c_lru c = []) as Hl by (destruct (c_lru c); [done|simpl in Hf; lia]).
    unfold cache_bounded, abs, spec_trim. rewrite Hl. split_and!; try done.
    - simpl. lia.
    - destruct (_ <? _); [csimpl; by rewrite take_nil|done]. }
  unfold spec_trim. destruct (_ && _) eqn:Hc; bools; cycle 1.
  { exists c. split_and!; try done.
    - intros Hm. apply andb_false_iff in Hc as [?|?]; bools; lia.
    - destruct (_ <? _) eqn:Hm; [|done]. rewrite take_ge; [done|]. rewrite abs_length by done.
      apply andb_false_iff in Hc as [?|?]; bools; lia. }
  destruct (last (c_lru c)) as [id|] eqn:Hlast; cycle 1.
  { apply last_None in Hlast. rewrite Hlast in *. simpl in *. lia. }
  apply last_Some in Hlast as [l Hl].
  destruct (wf_heap c Hwf id) as [e He]; [rewrite Hl; set_solver|]. rewrite He. simpl.
  assert (c_items c !! e_key e = Some id) as Hk.
  { apply (wf_items c Hwf). rewrite He, Hl. split; [set_solver|done]. }
  destruct (drop_ok c _ id Hwf Hk) as (c' & -> & Hwf' & Habs & Hlru & Hmax & Hcap). simpl.
  rewrite Hl, filter_last in Hlru by (rewrite <-Hl; apply (wf_nodup c Hwf)).
  destruct (IH c' Hwf') as (c'' & -> & ? & ? & Ha & ? & ?).
  { rewrite Hlru. rewrite Hl, length_app in Hf. simpl in Hf. lia. }
  exists c''. split_and!; try done; [|congruence..].
  rewrite Ha, Hmax. unfold spec_trim. destruct (_ <? _) eqn:Hm; [|bools; lia].
  assert (abs c' = omap (view c) l) as Hl'.
  { rewrite Habs, <-(abs_remove c Hwf _ id), Hl by done. f_equal. apply filter_last.
    rewrite <-Hl. apply (wf_nodup c Hwf). }
  pose proof (abs_length c' Hwf') as Hlen. rewrite Hl' in *. unfold abs. rewrite Hl, omap_app_list, take_app_le; [done|].
  rewrite Hlen, Hlru. rewrite Hl, length_app in *. simpl in *. lia.
Qed.

Lemma evictLocked_ok c :
  cache_wf c →
  ∃ c', evictLocked c = Some c' ∧ cache_wf c' ∧ cache_bounded c'
    ∧ abs c' = spec_trim (c_maxEntries c) (abs c)
    ∧ c_maxEntries c' = c_maxEntries c ∧ c_ttlCap c' = c_ttlCap c.
Proof. intros. by apply evict_loop_ok. Qed.

(** ** Lemmas: entries written in place, nodes moved *)
Lemma view_with_entry c id e j :
  view (with_entry id e c) j
  = if decide (j = id) then Some (e_key e, e_msg e, e_expire e) else view c j.
Proof.
  unfold view, with_entry. cbn [c_heap]. destruct (decide (j = id)) as [->|Hne].
  - by rewrite lookup_insert_eq.
  - by rewrite lookup_insert_ne.
Qed.

Lemma with_entry_wf c id e e' :
  cache_wf c → c_heap c !! id = Some e → e_key e' = e_key e → cache_wf (with_entry id e' c).
Proof.
  intros Hwf He Hk.
  assert (∀ j, e_key <$> <[id := e']> (c_heap c) !! j = e_key <$> c_heap c !! j) as Hsame.
  { intros j. destruct (decide (j = id)) as [->|]; [|by rewrite lookup_insert_ne].
    rewrite lookup_insert_eq, He. cbn. by rewrite Hk. }
  assert (∀ j, is_Some (<[id := e']> (c_heap c) !! j) ↔ is_Some (c_heap c !! j)) as Hdom.
  { intros j. rewrite <-!(fmap_is_Some e_key). by rewrite Hsame. }
  split; cbn [with_entry c_lru c_heap c_items c_next].
  - intros j Hj. by apply Hdom, (wf_heap c Hwf).
  - intros k j. rewrite Hsame. apply (wf_items c Hwf).
  - apply (wf_nodup c Hwf).
  - intros j Hj. by apply (wf_next c Hwf), Hdom.
Qed.

Lemma with_entry_abs c id e e' :
  c_heap c !! id = Some e → e_key e' = e_key e → e_msg e' = e_msg e → e_expire e' = e_expire e →
  abs (with_entry id e' c) = abs c.
Proof.
  intros He Hk Hm Hx. unfold abs. cbn [with_entry c_lru]. apply omap_ext_in. intros j _.
  rewrite view_with_entry. case_decide as Hj; [|done]. subst. unfold view. rewrite He. cbn. congruence.
Qed.

Lemma move_perm id (l : list nat) :
  NoDup l → id ∈ l → list_MoveToFront id l = Some (id :: filter (λ j, j ≠ id) l)
                     ∧ id :: filter (λ j, j ≠ id) l ≡ₚ l.
Proof.
  intros Hn Hin. unfold list_MoveToFront, list_Remove. rewrite decide_True by done. split; [done|].
  apply NoDup_Permutation.
  - constructor; [|by apply NoDup_filter]. intros [? _]%list_elem_of_filter. done.
  - done.
  - intros j. rewrite elem_of_cons, list_elem_of_filter.
    destruct (decide (j = id)) as [->|]; naive_solver.
Qed.

Lemma with_lru_wf c l : cache_wf c → l ≡ₚ c_lru c → cache_wf (with_lru l c).
Proof.
  intros Hwf Hp. split; cbn [with_lru c_lru c_heap c_items c_next].
  - intros j. rewrite Hp. apply (wf_heap c Hwf).
  - intros k j. rewrite Hp. apply (wf_items c Hwf).
  - rewrite Hp. apply (wf_nodup c Hwf).
  - apply (wf_next c Hwf).
Qed.

Lemma move_ok c k id e :
  cache_wf c → c_items c !! k = Some id → c_heap c !! id = Some e →
  ∃ l, list_MoveToFront id (c_lru c) = Some l ∧ cache_wf (with_lru l c)
    ∧ length l = length (c_lru c)
    ∧ abs (with_lru l c) = (k, e_msg e, e_expire e) :: spec_remove k (abs c).
Proof.
  intros Hwf Hk He. destruct (wf_item c Hwf k id Hk) as (e' & He' & <- & Hin). simplify_eq.
  destruct (move_perm id (c_lru c) (wf_nodup c Hwf) Hin) as [Hm Hp].
  eexists. split_and!; [done|by apply with_lru_wf|by rewrite Hp|].
  assert (view c id = Some (e_key e, e_msg e, e_expire e)) as Hv by (unfold view; by rewrite He).
  rewrite <-(abs_remove c Hwf _ id Hk). unfold abs. cbn [with_lru c_lru omap list_omap].
  change (view (with_lru _ c)) with (view c). by rewrite Hv.
Qed.

Lemma spec_remove_notin k l : (∀ b, b ∈ l → bkey b ≠ k) → spec_remove k l = l.
Proof. apply filter_id. Qed.
Lemma spec_remove_bkey k l b : b ∈ spec_remove k l ↔ b ∈ l ∧ bkey b ≠ k.
Proof. unfold spec_remove. rewrite list_elem_of_filter. tauto. Qed.

Lemma abs_elem c b :
  b ∈ abs c ↔ ∃ id e, id ∈ c_lru c ∧ c_heap c !! id = Some e ∧ b = (e_key e, e_msg e, e_expire e).
Proof.
  unfold abs. rewrite list_elem_of_omap. unfold view. split.
  - intros (id & Hin & Hv). destruct (c_heap c !! id) as [e|] eqn:He; [|done].
    injection Hv as <-. eauto 10.
  - intros (id & e & Hin & He & ->). exists id. by rewrite He.
Qed.

(** The insertion of a new entry. *)
Lemma push_wf c k m x :
  cache_wf c → c_items c !! k = None →
  let c' := mkCache (<[k := c_next c]> (c_items c)) (<[c_next c := mkEntry k m x 0]> (c_heap c))
              (c_next c :: c_lru c) (c_ttlCap c) (c_maxEntries c) (S (c_next c)) in
  cache_wf c' ∧ abs c' = (k, m, x) :: spec_remove k (abs c).
Proof.
  intros Hwf Hk c'. subst c'.
  assert (∀ j, j ∈ c_lru c → j ≠ c_next c) as Hfresh.
  { intros j Hj ->. apply (wf_heap c Hwf), (wf_next c Hwf) in Hj. lia. }
  split.
  - split; cbn [c_lru c_heap c_items c_next].
    + intros j [->|Hj]%elem_of_cons; [by rewrite lookup_insert_eq|].
      rewrite lookup_insert_ne by (apply not_eq_sym; auto). by apply (wf_heap c Hwf).
    + intros k' j. rewrite elem_of_cons. destruct (decide (j = c_next c)) as [->|Hj].
      * rewrite lookup_insert_eq. cbn. split.
        -- intros H. split; [by left|]. destruct (decide (k = k')) as [->|]; [done|].
           rewrite lookup_insert_ne in H by done. apply (wf_items c Hwf) in H as [H _]. by apply Hfresh in H.
        -- intros [_ [= ->]]. by rewrite lookup_insert_eq.
      * rewrite (lookup_insert_ne (c_heap c)) by done. destruct (decide (k = k')) as [->|].
        -- rewrite lookup_insert_eq. split; [intros ?; simplify_eq|]. intros [[?|?] Hkj]; [done|].
           assert (c_items c !! k' = Some j) by (by apply (wf_items c Hwf)). congruence.
        -- rewrite lookup_insert_ne by done. rewrite (wf_items c Hwf). naive_solver.
    + constructor; [intros H; by apply Hfresh in H|apply (wf_nodup c Hwf)].
    + intros j Hj. destruct (decide (j = c_next c)) as [->|]; [lia|].
      rewrite lookup_insert_ne in Hj by done. apply (wf_next c Hwf) in Hj. lia.
  - rewrite spec_remove_notin.
    + unfold abs at 1. cbn [c_lru omap list_omap]. unfold view at 1. cbn [c_heap].
      rewrite lookup_insert_eq. cbn. f_equal. apply omap_ext_in. intros j Hj.
      unfold view. cbn [c_heap]. rewrite lookup_insert_ne by (apply not_eq_sym; auto). done.
    + intros b (id & e & Hin & He & ->)%abs_elem. cbn. by eapply wf_no_item.
Qed.

(** ** Each critical section keeps the invariant and implements the specification *)
Definition cache_inv (c : Cache) : Prop := cache_wf c ∧ cache_bounded c.

Lemma New_inv cap n : cache_inv (New cap n) ∧ abs (New cap n) = [].
Proof.
  split; [|done]. split.
  - split; cbn; [set_solver|set_solver|constructor|by intros id [? ?]].
  - unfold cache_bounded. cbn. lia.
Qed.

Lemma bounded_of_length c c' :
  cache_bounded c → c_maxEntries c' = c_maxEntries c →
  (length (c_lru c') ≤ length (c_lru c))%nat → cache_bounded c'.
Proof. unfold cache_bounded. intros Hb -> Hl Hm. specialize (Hb Hm). lia. Qed.

Lemma get_lookup_ok k now c :
  cache_inv c →
  ∃ c' n, get_lookup k now c = Some (c', n) ∧ cache_inv c' ∧ abs c' = abs c
    ∧ c_items c' = c_items c ∧ c_maxEntries c' = c_maxEntries c ∧ c_ttlCap c' = c_ttlCap c
    ∧ (∀ id, view c' id = view c id)
    ∧ match n with
      | GMiss => k_Name k = "" ∨ spec_find k (abs c) = None
      | GExpired => k_Name k ≠ "" ∧ ∃ m x, spec_find k (abs c) = Some (k, m, x) ∧ x < now
      | GPromote id t | GHit id t =>
          k_Name k ≠ "" ∧ t = now
          ∧ ∃ m x, spec_find k (abs c) = Some (k, m, x) ∧ view c id = Some (k, m, x) ∧ now ≤ x
      end.
Proof.
  intros [Hwf Hb]. unfold get_lookup. rewrite spec_find_items by done.
  destruct (str_eqb (k_Name k) "") eqn:Hn.
  { apply str_eqb_eq in Hn. exists c, GMiss. by split_and!; try left. }
  apply str_eqb_neq in Hn. destruct (c_items c !! k) as [id|] eqn:Hk; cycle 1.
  { exists c, GMiss. split_and!; try done. by right. }
  destruct (wf_item c Hwf k id Hk) as (e & He & Hek & Hin). rewrite He. cbn [mbind option_bind].
  assert (view c id = Some (k, e_msg e, e_expire e)) as Hv by (unfold view; rewrite He; cbn; by rewrite Hek).
  destruct (time_after now (e_expire e)) eqn:Hx; unfold time_after in Hx; bools.
  { exists c, GExpired. split_and!; try done. eauto. }
  set (e' := mkEntry _ _ _ _).
  assert (cache_inv (with_entry id e' c)) as Hi by (split; [by eapply with_entry_wf|done]).
  assert (abs (with_entry id e' c) = abs c) as Ha by (by eapply with_entry_abs).
  eexists _, _. split; [reflexivity|]. split_and!; try done.
  - intros j. rewrite view_with_entry. case_decide; [|done]. subst j. rewrite Hv. cbn. by rewrite Hek.
  - destruct (_ =? 0); (split_and!; [done|done|]); eexists _, _; (split_and!; [done|done|lia]).
Qed.

Lemma get_expired_ok k t2 t3 c :
  cache_inv c →
  ∃ c' n, get_expired k t2 t3 c = Some (c', n) ∧ cache_inv c'
    ∧ c_heap c' = c_heap c ∧ c_maxEntries c' = c_maxEntries c ∧ c_ttlCap c' = c_ttlCap c
    ∧ match n with
      | GMiss =>
          (∀ m x, spec_find k (abs c) = Some (k, m, x) → x < t2) ∧ abs c' = spec_remove k (abs c)
      | GHit id t => t = t3 ∧ c' = c
          ∧ ∃ m x, spec_find k (abs c) = Some (k, m, x) ∧ view c id = Some (k, m, x) ∧ t2 ≤ x
      | _ => False
      end.
Proof.
  intros [Hwf Hb]. unfold get_expired. rewrite spec_find_items by done.
  destruct (c_items c !! k) as [id|] eqn:Hk; cycle 1.
  { exists c, GMiss. split_and!; try done. symmetry. apply spec_remove_notin.
    intros b (id & e & Hin & He & ->)%abs_elem. cbn. by eapply wf_no_item. }
  destruct (wf_item c Hwf k id Hk) as (e & He & Hek & Hin). rewrite He. cbn [mbind option_bind].
  assert (view c id = Some (k, e_msg e, e_expire e)) as Hv by (unfold view; rewrite He; cbn; by rewrite Hek).
  destruct (time_after t2 (e_expire e)) eqn:Hx; unfold time_after in Hx; bools; cbn [negb].
  - destruct (drop_ok c k id Hwf Hk) as (c' & Hd & Hwf' & Ha & Hl & Hm & Hc).
    rewrite Hd. exists c', GMiss. rewrite drop_spec in Hd by done.
    split_and!; try done.
    + split; [done|]. eapply bounded_of_length; [done..|]. rewrite Hl. apply length_filter.
    + by injection Hd as <-.
    + intros m x Hf. cbn in Hf. rewrite Hv in Hf. injection Hf as <- <-. done.
  - exists c, (GHit id t3). split_and!; try done. eexists _, _. by split_and!.
Qed.

Lemma get_promote_ok k id c :
  cache_inv c →
  ∃ c', get_promote k id c = Some c' ∧ cache_inv c' ∧ c_heap c' = c_heap c
    ∧ c_maxEntries c' = c_maxEntries c ∧ c_ttlCap c' = c_ttlCap c
    ∧ (abs c' = abs c
       ∨ ∃ m x, view c id = Some (k, m, x) ∧ abs c' = (k, m, x) :: spec_remove k (abs c)).
Proof.
  intros [Hwf Hb]. unfold get_promote. case_decide as Hk; [|exists c; split_and!; try done; by left].
  destruct (wf_item c Hwf k id Hk) as (e & He & Hek & Hin).
  destruct (move_ok c k id e Hwf Hk He) as (l & -> & Hwf' & Hl & Ha).
  exists (with_lru l c). split_and!; try done.
  - split; [done|]. eapply bounded_of_length; [done..|]. cbn. lia.
  - right. eexists _, _. split; [|done]. unfold view. rewrite He. cbn. by rewrite Hek.
Qed.

Lemma spec_trim_bounded n l : (0 < n → Z.of_nat (length l) ≤ n) → spec_trim n l = l.
Proof. intros H. unfold spec_trim. destruct (_ <? _) eqn:E; [|done]. bools. apply take_ge. lia. Qed.

Definition stores (k : Key) (m : Msg) : bool := negb (str_eqb (k_Name k) "") && cacheable m.

Lemma Set_ok k m now c :
  cache_inv c →
  ∃ c', Set_ k (Some m) now c = Some c' ∧ cache_inv c'
    ∧ c_maxEntries c' = c_maxEntries c ∧ c_ttlCap c' = c_ttlCap c
    ∧ abs c' = if stores k m then spec_set (c_maxEntries c) (k, m, now + store_ttl m c) (abs c) else abs c.
Proof.
  intros [Hwf Hb]. unfold Set_, stores, spec_set.
  destruct (str_eqb (k_Name k) ""); [by exists c|].
  destruct (cacheable m); cbn [negb andb]; [|by exists c].
  destruct (c_items c !! k) as [id|] eqn:Hk.
  - destruct (wf_item c Hwf k id Hk) as (e & He & Hek & Hin). rewrite He. cbn [mbind option_bind].
    set (e' := mkEntry _ _ _ _).
    assert (cache_wf (with_entry id e' c)) as Hwf' by (by eapply with_entry_wf).
    destruct (move_ok (with_entry id e' c) k id e' Hwf' Hk) as (l & Hl & Hwf'' & Hlen & Ha).
    { cbn. by rewrite lookup_insert_eq. }
    cbn [with_entry c_lru] in Hl. rewrite Hl. eexists. split_and!; [done|split; [done|]|done|done|].
    + eapply (bounded_of_length c); [done..|]. cbn. cbn in Hlen. lia.
    + assert (spec_remove k (abs (with_entry id e' c)) = spec_remove k (abs c)) as Hrm.
      { rewrite <-(abs_remove _ Hwf' k id Hk), <-(abs_remove c Hwf k id Hk). apply omap_ext_in.
        intros j [Hj _]%list_elem_of_filter. rewrite view_with_entry. by case_decide. }
      rewrite Hrm in Ha. rewrite Ha, spec_trim_bounded; [done|]. intros Hm. specialize (Hb Hm).
      pose proof (abs_length _ Hwf'') as Hl2. rewrite Ha in Hl2. cbn in *. lia.
  - destruct (push_wf c k m (now + store_ttl m c) Hwf Hk) as [Hwf' Ha].
    destruct (evictLocked_ok _ Hwf') as (c' & -> & ? & ? & Ha' & ? & ?).
    exists c'. split_and!; try done. by rewrite Ha', Ha.
Qed.

Lemma SetMaxEntries_ok n c :
  cache_inv c →
  ∃ c', SetMaxEntries n c = Some c' ∧ cache_inv c' ∧ c_maxEntries c' = Z.max 0 n
    ∧ c_ttlCap c' = c_ttlCap c ∧ abs c' = spec_trim n (abs c).
Proof.
  intros [Hwf _]. unfold SetMaxEntries.
  destruct (evictLocked_ok (with_max (if n <? 0 then 0 else n) c)) as (c' & -> & ? & ? & Ha & Hm & ?).
  { by destruct Hwf. }
  exists c'. split_and!; try done.
  - rewrite Hm. cbn. destruct (n <? 0) eqn:E; bools; lia.
  - rewrite Ha. cbn. change (abs (with_max _ c)) with (abs c). unfold spec_trim.
    destruct (n <? 0) eqn:E, (0 <? n) eqn:E'; bools; (done || lia).
Qed.

Lemma Purge_ok c : cache_inv c → cache_inv (Purge c) ∧ abs (Purge c) = [].
Proof.
  intros [Hwf _]. split; [|done]. split.
  - split; cbn; [set_solver|set_solver|constructor|apply (wf_next c Hwf)].
  - unfold cache_bounded. cbn. lia.
Qed.

Lemma get_copy_view id now c k m x :
  view c id = Some (k, m, x) → get_copy id now c = Some (serve_copy m x now).
Proof.
  unfold view, get_copy. destruct (c_heap c !! id) as [e|]; cbn; [|done]. by intros [= _ <- <-].
Qed.

Lemma Get_ok k t1 t2 t3 c :
  cache_inv c → t1 ≤ t2 →
  ∃ c' r, Get k t1 t2 t3 c = Some (c', r) ∧ cache_inv c'
    ∧ c_maxEntries c' = c_maxEntries c ∧ c_ttlCap c' = c_ttlCap c
    ∧ match spec_find k (abs c) with
      | Some (_, m, x) =>
          if str_eqb (k_Name k) "" then r = None ∧ abs c' = abs c
          else if x <? t1 then r = None ∧ abs c' = spec_remove k (abs c)
          else r = Some (serve_copy m x t1)
               ∧ (abs c' = abs c ∨ abs c' = (k, m, x) :: spec_remove k (abs c))
      | None => r = None ∧ abs c' = abs c
      end.
Proof.
  intros Hi Ht. unfold Get.
  destruct (get_lookup_ok k t1 c Hi) as (c1 & n & -> & Hi1 & Ha1 & _ & Hm1 & Hc1 & Hv & Hn).
  cbn [mbind option_bind]. rewrite <-Ha1 in *. destruct n as [| |id t|id t]; cbn [mbind option_bind].
  - eexists _, _. split_and!; try done. destruct Hn as [Hn|Hn]; [|by rewrite Hn].
    destruct (spec_find k (abs c1)) as [[[? ?] ?]|]; [|done]. rewrite Hn. done.
  - destruct Hn as (Hn & m & x & Hf & Hx). apply str_eqb_neq in Hn.
    destruct (get_expired_ok k t2 t3 c1 Hi1) as (c2 & n2 & -> & Hi2 & _ & Hm2 & Hc2 & Hn2).
    cbn [mbind option_bind]. rewrite Hf, Hn in *. assert ((x <? t1) = true) as -> by (by apply Z.ltb_lt).
    destruct n2 as [| | |]; try done.
    + destruct Hn2 as [_ Ha2]. eexists _, _. split_and!; try done; congruence.
    + destruct Hn2 as (_ & _ & m' & x' & Hf' & _ & Hx'). simplify_eq. lia.
  - destruct Hn as (Hn & -> & m & x & Hf & Hid & Hx). apply str_eqb_neq in Hn.
    destruct (get_promote_ok k id c1 Hi1) as (c2 & -> & Hi2 & Hh & Hm2 & Hc2 & Ha2). cbn [mbind option_bind].
    rewrite <-Hv in Hid.
    assert (view c2 id = Some (k, m, x)) as Hid2 by (unfold view; by rewrite Hh).
    rewrite (get_copy_view _ _ _ _ _ _ Hid2). cbn [mbind option_bind].
    eexists _, _. split_and!; [done|done|congruence|congruence|].
    rewrite Hf, Hn. assert ((x <? t1) = false) as -> by (by apply Z.ltb_ge).
    split; [done|]. destruct Ha2 as [?|(m' & x' & Hv' & ?)]; [by left|]. right. congruence.
  - destruct Hn as (Hn & -> & m & x & Hf & Hid & Hx). apply str_eqb_neq in Hn.
    rewrite <-Hv in Hid. rewrite (get_copy_view _ _ _ _ _ _ Hid). cbn [mbind option_bind].
    eexists _, _. split_and!; [done|done|congruence|congruence|].
    rewrite Hf, Hn. assert ((x <? t1) = false) as -> by (by apply Z.ltb_ge). auto.
Qed.

(** ** The cache as a transition system *)
Inductive op :=
| OpGet (k : Key) (t1 t2 t3 : Z)
| OpSet (k : Key) (om : option Msg) (now : Z)
| OpMax (n : Z)
| OpPurge.
Definition exec (o : op) (c : Cache) : option (Cache * option Msg) :=
  match o with
  | OpGet k t1 t2 t3 => Get k t1 t2 t3 c
  | OpSet k om now => c' ← Set_ k om now c; Some (c', None)
  | OpMax n => c' ← SetMaxEntries n c; Some (c', None)
  | OpPurge => Some (Purge c, None)
  end.
(** The clock does not run backwards within one call. *)
Definition op_clock (o : op) : Prop :=
  match o with OpGet _ t1 t2 t3 => t1 ≤ t2 | _ => True end.

(** The specification's transitions on [(bindings, limit)]; [cap] is fixed. *)
Inductive spec_step (cap : Z) : list binding * Z → op → list binding * Z → option Msg → Prop :=
| sp_miss k t1 t2 t3 l n :
    spec_find k l = None ∨ k_Name k = "" →
    spec_step cap (l, n) (OpGet k t1 t2 t3) (l, n) None
| sp_expired k t1 t2 t3 l n m x :
    spec_find k l = Some (k, m, x) → k_Name k ≠ "" → x < t1 →
    spec_step cap (l, n) (OpGet k t1 t2 t3) (spec_remove k l, n) None
| sp_hit k t1 t2 t3 l l' n m x :
    spec_find k l = Some (k, m, x) → k_Name k ≠ "" → t1 ≤ x →
    l' = l ∨ l' = (k, m, x) :: spec_remove k l →
    spec_step cap (l, n) (OpGet k t1 t2 t3) (l', n) (Some (serve_copy m x t1))
| sp_set k m now l n :
    stores k m = true →
    spec_step cap (l, n) (OpSet k (Some m) now) (spec_set n (k, m, now + Z.min (minTTL m) cap) l, n) None
| sp_set_skip k om now l n :
    (∀ m, om = Some m → stores k m = false) →
    spec_step cap (l, n) (OpSet k om now) (l, n) None
| sp_max n' l n : spec_step cap (l, n) (OpMax n') (spec_trim n' l, Z.max 0 n') None
| sp_purge l n : spec_step cap (l, n) OpPurge ([], n) None.

Inductive cache_reachable (cap max : Z) : Cache → Prop :=
| cr_new : cache_reachable cap max (New cap max)
| cr_step c o c' r :
    cache_reachable cap max c → op_clock o → exec o c = Some (c', r) → cache_reachable cap max c'.

Lemma spec_find_key k l k' m x : spec_find k l = Some (k', m, x) → k' = k.
Proof.
  unfold spec_find. destruct (list_find _ l) as [[i b]|] eqn:Hf; cbn; [|done].
  apply list_find_Some in Hf as (_ & Hk & _). intros [= ->]. done.
Qed.

Lemma store_ttl_min m c : store_ttl m c = Z.min (minTTL m) (c_ttlCap c).
Proof. unfold store_ttl. destruct (_ <? _) eqn:E; bools; lia. Qed.

Lemma exec_simulates o c :
  cache_inv c → op_clock o →
  ∃ c' r, exec o c = Some (c', r) ∧ cache_inv c' ∧ c_ttlCap c' = c_ttlCap c
    ∧ spec_step (c_ttlCap c) (abs c, c_maxEntries c) o (abs c', c_maxEntries c') r.
Proof.
  intros Hi Ho. destruct o as [k t1 t2 t3|k om now|n|]; cbn [exec].
  - destruct (Get_ok k t1 t2 t3 c Hi Ho) as (c' & r & -> & Hi' & Hm & Hcap & Hs).
    exists c', r. rewrite Hm. split_and!; try done.
    destruct (spec_find k (abs c)) as [[[k' m] x]|] eqn:Hf; cycle 1.
    { destruct Hs as [-> ->]. apply sp_miss. by left. }
    pose proof (spec_find_key _ _ _ _ _ Hf) as ->.
    destruct (str_eqb (k_Name k) "") eqn:Hn.
    { apply str_eqb_eq in Hn. destruct Hs as [-> ->]. apply sp_miss. by right. }
    apply str_eqb_neq in Hn. destruct (x <? t1) eqn:Hx; bools; destruct Hs as [-> Ha].
    + rewrite Ha. by eapply sp_expired.
    + by eapply sp_hit.
  - destruct om as [m|]; cycle 1.
    { exists c, None. split_and!; try done. by apply sp_set_skip. }
    destruct (Set_ok k m now c Hi) as (c' & -> & Hi' & Hm & Hcap & Ha).
    eexists c', None. rewrite Hm, Ha. split_and!; try done. destruct (stores k m) eqn:Hst.
    + rewrite store_ttl_min. by apply sp_set.
    + apply sp_set_skip. by intros ? [= <-].
  - destruct (SetMaxEntries_ok n c Hi) as (c' & -> & Hi' & Hm & Hcap & Ha).
    eexists c', None. rewrite Hm, Ha. split_and!; try done. apply sp_max.
  - destruct (Purge_ok c Hi) as [? Ha]. eexists _, None. split_and!; try done. rewrite Ha. apply sp_purge.
Qed.

Lemma cache_reachable_inv cap max c :
  cache_reachable cap max c → cache_inv c ∧ c_ttlCap c = (if cap <=? 0 then hour else cap).
Proof.
  induction 1 as [|c o c' r _ [Hi Hc] Ho He]; [split; [apply New_inv|done]|].
  destruct (exec_simulates o c Hi Ho) as (c'' & r' & He' & ? & ? & _). split; congruence.
Qed.

(** The number of keys is the number of list nodes. *)
Lemma Len_lru c : cache_wf c → Len c = length (c_lru c).
Proof.
  intros Hwf. unfold Len. rewrite <-length_map_to_list, <-(length_fmap snd).
  apply Permutation_length, NoDup_Permutation.
  - apply NoDup_fmap_2_strong; [|apply NoDup_map_to_list].
    intros [k i] [k' i'] Hi%elem_of_map_to_list Hi'%elem_of_map_to_list. cbn. intros <-.
    apply (wf_items c Hwf) in Hi as [_ Hi], Hi' as [_ Hi']. congruence.
  - apply (wf_nodup c Hwf).
  - intros id. rewrite list_elem_of_fmap. split.
    + intros ([k i] & -> & Hi%elem_of_map_to_list). by apply (wf_items c Hwf) in Hi as [? _].
    + intros Hin. destruct (wf_heap c Hwf id Hin) as [e He]. exists (e_key e, id). split; [done|].
      apply elem_of_map_to_list, (wf_items c Hwf). by rewrite He.
Qed.

(** ** Lifetimes *)
Lemma min_step_fold l acc :
  match foldl min_step acc l with
  | None => acc = None ∧ l = []
  | Some t => (∀ a, acc = Some a → t ≤ a) ∧ (∀ rr, rr ∈ l → t ≤ ttl_of rr)
              ∧ (acc = Some t ∨ ∃ rr, rr ∈ l ∧ ttl_of rr = t)
  end.
Proof.
  revert acc. induction l as [|rr l IH]; intros acc; cbn [foldl].
  - destruct acc as [a|]; [|done]. split_and!; [by intros ? [= ->]|set_solver|by left].
  - specialize (IH (min_step acc rr)). destruct (foldl min_step (min_step acc rr) l) as [t|].
    + destruct IH as (H1 & H2 & H3). destruct acc as [a|]; cbn [min_step] in *.
      * destruct (ttl_of rr <? a) eqn:E; bools; specialize (H1 _ eq_refl);
          (split_and!; [intros ? [= <-]; lia|intros r [->|?]%elem_of_cons; [lia|auto]|]);
          destruct H3 as [[= <-]|(r & ? & ?)].
        -- right. exists rr. split; [left|done].
        -- right. exists r. split; [by right|done].
        -- by left.
        -- right. exists r. split; [by right|done].
      * specialize (H1 _ eq_refl). split_and!; [done|intros r [->|?]%elem_of_cons; [lia|auto]|].
        right. destruct H3 as [[= <-]|(r & ? & ?)]; [exists rr; split; [left|done]|].
        exists r. split; [by right|done].
    + destruct IH as [IH _]. by destruct acc; cbn in IH; [destruct (_ <? _)|].
Qed.

(** The lifetime of a message is at most each record's TTL, but never below a second. *)
Lemma minTTL_le m rr :
  rr ∈ m_Answer m → second ≤ minTTL m ≤ Z.max 1 (ttl_of rr) * second.
Proof.
  intros Hin. unfold minTTL. rewrite <-foldl_app.
  pose proof (min_step_fold (m_Answer m ++ m_Ns m) None) as H.
  destruct (foldl _ _ _) as [t|].
  - destruct H as (_ & Hall & _). specialize (Hall rr (proj2 (elem_of_app _ _ _) (or_introl Hin))).
    unfold second. destruct (t <? 1) eqn:E; bools; lia.
  - destruct H as [_ H]. apply app_nil in H as [H _]. rewrite H in Hin. set_solver.
Qed.
Lemma minTTL_pos m : second ≤ minTTL m.
Proof.
  unfold minTTL. destruct (foldl _ _ _) as [t|]; unfold second; [destruct (t <? 1) eqn:E|]; bools; lia.
Qed.

Definition ttls_ok (m : Msg) : Prop :=
  ∀ rr, rr ∈ m_Answer m ++ m_Ns m → 0 ≤ ttl_of rr < 2 ^ 32.

Lemma minTTL_u32 m : ttls_ok m → minTTL m < 2 ^ 32 * second.
Proof.
  intros Hu. unfold minTTL. rewrite <-foldl_app.
  pose proof (min_step_fold (m_Answer m ++ m_Ns m) None) as H.
  destruct (foldl _ _ _) as [t|]; [|unfold second; lia].
  destruct H as (_ & _ & [?|(rr & Hin & <-)]); [done|]. specialize (Hu rr Hin).
  unfold second. destruct (_ <? 1) eqn:E; bools; lia.
Qed.

(** No wrap-around between a stored lifetime and the TTL handed out. *)
Lemma served_ttl_exact expire now :
  0 ≤ expire - now < 2 ^ 32 * second →
  served_ttl expire now = Z.max 1 ((expire - now) / second).
Proof.
  intros H. unfold served_ttl, time_sub.
  assert (Z.max min_int64 (Z.min max_int64 (expire - now)) = expire - now) as ->
    by (unfold min_int64, max_int64, second in *; lia).
  rewrite Z.quot_div_nonneg by (unfold second; lia).
  assert (0 ≤ (expire - now) / second < 2 ^ 32).
  { split; [apply Z.div_pos; unfold second; lia|apply Z.div_lt_upper_bound; unfold second in *; lia]. }
  unfold u32. rewrite Z.mod_small by done. destruct (_ <? 1) eqn:E; bools; lia.
Qed.

Lemma spec_find_set n b l : spec_find (bkey b) (spec_set n b l) = Some b.
Proof.
  unfold spec_set, spec_trim, spec_find.
  assert (∀ l', list_find (λ b', bkey b' = bkey b) (b :: l') = Some (0%nat, b)) as H.
  { intros l'. cbn. by rewrite decide_True. }
  destruct (0 <? n) eqn:E; [|by rewrite H]. bools.
  destruct (Z.to_nat n) as [|k] eqn:Hn; [lia|]. cbn [take]. by rewrite H.
Qed.

(** Message used by the witnesses: one A record with the given TTL. *)
Definition demo_rr (ttl : Z) : RR := mkRR (mkHdr "www.example." TypeA ClassINET ttl) (RD_A [192; 0; 2; 1]).
Definition demo_msg (ttl : Z) : Msg :=
  with_Answer [demo_rr ttl] (SetReply (SetQuestion 7 "www.example." TypeA)).
Definition demo_key : Key := KeyOf (demo_msg 60).

(** ** Properties *)

(** C4: The cache (a hash map into a heap of entries threaded on a linked list)
    refines a list of bindings, most recent first: from every reachable state
    every operation runs to completion (no stale list node or entry is ever
    touched), and its effect and result are a transition of the specification,
    in which inserting keeps the limit's number of most recent bindings, a hit
    serves the stored message while its lifetime lasts and may move it to the
    front, and an expired binding is removed. *)
Theorem cache_refines_lru cap max c o :
  cache_reachable cap max c → op_clock o →
  ∃ c' r, exec o c = Some (c', r)
    ∧ spec_step (c_ttlCap c) (abs c, c_maxEntries c) o (abs c', c_maxEntries c') r.
Proof.
  intros [Hi _]%cache_reachable_inv Ho.
  destruct (exec_simulates o c Hi Ho) as (c' & r & ? & _ & _ & ?). eauto.
Qed.
Lemma cache_refines_lru_witness :
  ∃ c' r, exec (OpSet demo_key (Some (demo_msg 60)) 0) (New 0 1) = Some (c', r)
    ∧ spec_step hour ([], 1) (OpSet demo_key (Some (demo_msg 60)) 0) (abs c', c_maxEntries c') r.
Proof. apply (cache_refines_lru 0 1 (New 0 1)); [apply cr_new|done]. Defined.

(** In every reachable state the map and the list hold the same entries,
    each key once, and a positive limit is never exceeded. *)
Theorem cache_invariant cap max c :
  cache_reachable cap max c →
  (∀ k id, c_items c !! k = Some id ↔ id ∈ c_lru c ∧ e_key <$> c_heap c !! id = Some k)
  ∧ NoDup (c_lru c) ∧ Len c = length (c_lru c)
  ∧ (0 < c_maxEntries c → Z.of_nat (Len c) ≤ c_maxEntries c).
Proof.
  intros [[Hwf Hb] _]%cache_reachable_inv. rewrite (Len_lru c Hwf).
  split_and!; [apply (wf_items c Hwf)|apply (wf_nodup c Hwf)|done|done].
Qed.
Lemma cache_invariant_witness : Z.of_nat (Len (New 0 3)) ≤ 3.
Proof. destruct (cache_invariant 0 3 (New 0 3) (cr_new 0 3)) as (_ & _ & _ & H). by apply H. Defined.

(** Storing and reading back.  A cacheable answer stored at [t0] with
    lifetime [d] (the smallest record TTL, at least one second, capped) is
    returned by every lookup up to [t0 + d] with all answer TTLs set to the
    whole seconds left (at least 1, no 32-bit wrap-around): never more than a
    record's own TTL (or 1), and never beyond one second past the lifetime.
    After [t0 + d] the lookup misses and the entry is gone. *)
Theorem cache_set_get c k m t0 t1 t2 t3 :
  cache_inv c → 0 < c_ttlCap c → stores k m = true → ttls_ok m → t0 ≤ t1 ≤ t2 →
  let d := Z.min (minTTL m) (c_ttlCap c) in
  ∃ c1 c2 r, Set_ k (Some m) t0 c = Some c1 ∧ Get k t1 t2 t3 c1 = Some (c2, r)
    ∧ (t1 ≤ t0 + d →
       let ttl := Z.max 1 ((t0 + d - t1) / second) in
       r = Some (with_Answer (set_ttl ttl <$> m_Answer m) m)
       ∧ (∀ rr, rr ∈ m_Answer m → ttl ≤ Z.max 1 (ttl_of rr))
       ∧ t1 + ttl * second ≤ t0 + d + second)
    ∧ (t0 + d < t1 → r = None ∧ spec_find k (abs c2) = None).
Proof.
  intros Hi Hcap Hst Hu Ht d.
  destruct (Set_ok k m t0 c Hi) as (c1 & Hs & Hi1 & _ & _ & Ha). rewrite Hst, store_ttl_min in Ha.
  destruct (Get_ok k t1 t2 t3 c1 Hi1) as (c2 & r & Hg & _ & _ & _ & Hr); [lia|].
  rewrite Ha, (spec_find_set _ (k, m, _)) in Hr. fold d in Hr, Ha.
  unfold stores in Hst. apply andb_true_iff in Hst as [Hn%negb_true_iff _]. rewrite Hn in Hr.
  exists c1, c2, r. split_and!; [done|done|..].
  - intros Hle ttl. assert ((t0 + d <? t1) = false) as E by (by apply Z.ltb_ge). rewrite E in Hr.
    destruct Hr as [-> _]. pose proof (minTTL_u32 m Hu). pose proof (minTTL_pos m).
    assert (0 < d) by (unfold second in *; lia).
    assert ((t0 + d - t1) / second * second ≤ t0 + d - t1)
      by (rewrite Z.mul_comm; apply Z.mul_div_le; unfold second; lia).
    split_and!.
    + unfold serve_copy. rewrite served_ttl_exact by (unfold second in *; lia). done.
    + intros rr Hrr. destruct (minTTL_le m rr Hrr) as [_ Hle'].
      assert ((t0 + d - t1) / second ≤ Z.max 1 (ttl_of rr)); [|unfold ttl; lia].
      apply Z.div_le_upper_bound; [unfold second; lia|]. rewrite Z.mul_comm. lia.
    + unfold ttl, second in *. lia.
  - intros Hlt. assert ((t0 + d <? t1) = true) as E by (by apply Z.ltb_lt). rewrite E in Hr.
    destruct Hr as [-> Ha2]. split; [done|]. rewrite Ha2. unfold spec_find.
    destruct (list_find _ _) as [[i b]|] eqn:Hf; [|done]. exfalso.
    apply list_find_Some in Hf as (Hb%list_elem_of_lookup_2 & Hk & _).
    by apply spec_remove_bkey in Hb as [_ Hb].
Qed.
Lemma cache_set_get_witness :
  ∃ c1 c2, Set_ demo_key (Some (demo_msg 60)) 0 (New (45 * second) 2) = Some c1
    ∧ Get demo_key (31 * second) (31 * second) (31 * second) c1 = Some (c2, Some (demo_msg 14)).
Proof.
  destruct (cache_set_get (New (45 * second) 2) demo_key (demo_msg 60) 0 (31 * second) (31 * second) (31 * second))
    as (c1 & c2 & r & Hs & Hg & H & _).
  - apply New_inv.
  - done.
  - reflexivity.
  - intros rr Hrr. apply list_elem_of_singleton in Hrr as ->. cbn. lia.
  - cbv. done.
  - exists c1, c2. split; [done|]. rewrite Hg. destruct H as [-> _]; [by vm_compute|].
    reflexivity.
Defined.

(** A record published with TTL 0 (do not cache) is nevertheless cached:
    a lookup up to one second later is answered from the cache, and the answer
    carries TTL 1. *)
Theorem cache_ttl_zero_is_served c k m rr t0 t1 :
  cache_inv c → second ≤ c_ttlCap c → stores k m = true → ttls_ok m →
  rr ∈ m_Answer m → ttl_of rr = 0 → t0 ≤ t1 ≤ t0 + second →
  ∃ c1 c2, Set_ k (Some m) t0 c = Some c1
    ∧ Get k t1 t1 t1 c1 = Some (c2, Some (with_Answer (set_ttl 1 <$> m_Answer m) m)).
Proof.
  intros Hi Hcap Hst Hu Hin Hz Ht.
  destruct (minTTL_le m rr Hin) as [H1 H2]. rewrite Hz in H2.
  assert (minTTL m = second) as Hm by lia.
  destruct (Set_ok k m t0 c Hi) as (c1 & Hs & Hi1 & _ & _ & Ha). rewrite Hst, store_ttl_min in Ha.
  destruct (Get_ok k t1 t1 t1 c1 Hi1) as (c2 & r & Hg & _ & _ & _ & Hr); [lia|].
  rewrite Ha, (spec_find_set _ (k, m, _)), Hm, Z.min_l in Hr by done.
  unfold stores in Hst. apply andb_true_iff in Hst as [Hn%negb_true_iff _]. rewrite Hn in Hr.
  assert ((t0 + second <? t1) = false) as E by (apply Z.ltb_ge; lia). rewrite E in Hr.
  destruct Hr as [-> _]. exists c1, c2. split; [done|]. rewrite Hg. unfold serve_copy.
  rewrite served_ttl_exact by (unfold second in *; lia). do 4 f_equal.
  assert ((t0 + second - t1) / second ≤ 1); [|by rewrite Z.max_l].
  apply Z.div_le_upper_bound; unfold second in *; lia.
Qed.
Lemma cache_ttl_zero_is_served_witness :
  ∃ c1 c2, Set_ demo_key (Some (demo_msg 0)) 0 (New 0 0) = Some c1
    ∧ Get demo_key second second second c1 = Some (c2, Some (demo_msg 1)).
Proof.
  apply (cache_ttl_zero_is_served (New 0 0) demo_key (demo_msg 0) (demo_rr 0) 0 second).
  - apply New_inv.
  - by vm_compute.
  - reflexivity.
  - intros rr Hrr. apply list_elem_of_singleton in Hrr as ->. cbn. lia.
  - left.
  - done.
  - by vm_compute.
Defined.

(** The coalescing key identifies the cache key: two keys with the same
    rendering are equal, provided the partition labels contain no separator
    (the name may contain one: it is read back from the right). *)
Theorem cache_key_string_injective k k' :
  free_of "|"%char (k_Label k) = true → free_of "|"%char (k_Label k') = true →
  Key_String k = Key_String k' → k = k'.
Proof.
  destruct k as [n l t c], k' as [n' l' t' c']. unfold Key_String. cbn [k_Name k_Label k_QType k_QClass].
  intros Hl Hl' H. pose proof (λ z, Itoa_free "|"%char z ltac:(done) eq_refl) as Hd.
  assert (∀ n t c l : string, n +:+ "|" +:+ t +:+ "|" +:+ c +:+ "|" +:+ l
            = ((n +:+ String "|"%char t) +:+ String "|"%char c) +:+ String "|"%char l) as Hr.
  { intros. by rewrite !app_assoc, !app_cons, !app_nil_l. }
  rewrite !Hr in H. apply last_sep_inj in H as [H ->]; [|done..].
  apply last_sep_inj in H as [H ->%Itoa_inj]; [|apply Hd..].
  by apply last_sep_inj in H as [-> ->%Itoa_inj]; [|apply Hd..].
Qed.
Lemma cache_key_string_injective_witness :
  Key_String (mkKey "a|1." "udp://9.9.9.9" 1 1) = "a|1.|1|1|udp://9.9.9.9"
  ∧ ∀ k, k_Label k = "" → Key_String k = Key_String demo_key → k = demo_key.
Proof.
  split; [reflexivity|]. intros k Hk. apply (cache_key_string_injective k demo_key); [|reflexivity].
  by rewrite Hk.
Defined.
