(* ===== verification/CacheConc.v ===== *)
(** * Concurrent lookups and request coalescing

    [Cache.DoHit] run by any number of goroutines, interleaved between the
    critical sections of [Get], the critical sections of the vendored
    singleflight [Group.Do], the fetch, [Set] and the management operations.

    After the lock is released [Get] reads the entry's fields without it:
    first [expire], then [msg], one step each.  [Set] writes [msg] before
    [expire] under the lock; since the reader takes the fields in the opposite
    order, everything it can observe is also observed around a [Set] that is
    one step, which is how it is modelled.

    A message pointer is either the result of a fetch, named after its call
    ([fn] returns a new message each time it runs), or a copy. *)
From S2P Require Import Prelude GoStrings GoNet Dns Cache.
#[local] Open Scope Z_scope.

(** ** The steps of Get *)
Inductive get_pc :=
| PLookup
| PExpired
| PPromote (e : nat) (now : Z)
| PExpire (e : nat) (now : Z)
| PMsg (e : nat) (now expire : Z).

Definition get_goto (n : get_next) : get_pc + option Msg :=
  match n with
  | GMiss => inr None
  | GExpired => inl PExpired
  | GPromote e now => inl (PPromote e now)
  | GHit e now => inl (PExpire e now)
  end.
Definition get_step (k : Key) (p : get_pc) (t t' : Z) (c : Cache) : option (Cache * (get_pc + option Msg)) :=
  match p with
  | PLookup => '(c, n) ← get_lookup k t c; Some (c, get_goto n)
  | PExpired => '(c, n) ← get_expired k t t' c; Some (c, get_goto n)
  | PPromote e now => c ← get_promote k e c; Some (c, inl (PExpire e now))
  | PExpire e now => en ← c_heap c !! e; Some (c, inl (PMsg e now (e_expire en)))
  | PMsg e now x => en ← c_heap c !! e; Some (c, inr (Some (serve_copy (e_msg en) x now)))
  end.

(** ** DoHit and singleflight

    [call]: the fields [val]/[err] (set once), [dups], and whether the wait
    group is done. *)
Record call := mkCall { cl_key : string; cl_val : option (res string Msg); cl_dups : Z; cl_done : bool }.
Inductive pc :=
| TGet (p : get_pc)
| TJoin
| TFetch (c : nat)
| TStore (c : nat) (m : Msg)
| TPublish (c : nat)
| TReturn (c : nat)
| TWait (c : nat).
Inductive pointer := PFetched (c : nat) | PCopied (n : nat).
Inductive outcome := OHit (m : Msg) | OMsg (p : pointer) (m : Msg) | OErr (e : string).

Record conf := mkConf {
  s_cache : Cache;
  s_group : gmap string nat;
  s_calls : gmap nat call;
  s_thr : gmap nat (Key * pc);
  s_out : list (Key * outcome);
  s_fetched : list (Key * Msg);
  s_ncopy : nat;
  s_ncall : nat }.

Definition goto (i : nat) (k : Key) (p : pc) (s : conf) : conf :=
  mkConf (s_cache s) (s_group s) (s_calls s) (<[i := (k, p)]> (s_thr s)) (s_out s) (s_fetched s)
    (s_ncopy s) (s_ncall s).
Definition finish (i : nat) (k : Key) (o : outcome) (s : conf) : conf :=
  mkConf (s_cache s) (s_group s) (s_calls s) (delete i (s_thr s)) ((k, o) :: s_out s) (s_fetched s)
    (s_ncopy s) (s_ncall s).
Definition set_cache (c : Cache) (s : conf) : conf :=
  mkConf c (s_group s) (s_calls s) (s_thr s) (s_out s) (s_fetched s) (s_ncopy s) (s_ncall s).
Definition set_call (c : nat) (cl : call) (s : conf) : conf :=
  mkConf (s_cache s) (s_group s) (<[c := cl]> (s_calls s)) (s_thr s) (s_out s) (s_fetched s)
    (s_ncopy s) (s_ncall s).
Definition set_group (g : gmap string nat) (s : conf) : conf :=
  mkConf (s_cache s) g (s_calls s) (s_thr s) (s_out s) (s_fetched s) (s_ncopy s) (s_ncall s).
Definition add_fetched (k : Key) (m : Msg) (s : conf) : conf :=
  mkConf (s_cache s) (s_group s) (s_calls s) (s_thr s) (s_out s) ((k, m) :: s_fetched s)
    (s_ncopy s) (s_ncall s).

(** The first critical section of [Group.Do]. *)
Definition do_join (i : nat) (k : Key) (s : conf) : conf :=
  match s_group s !! Key_String k with
  | Some c =>
      match s_calls s !! c with
      | Some cl =>
          goto i k (TWait c) (set_call c (mkCall (cl_key cl) (cl_val cl) (cl_dups cl + 1) (cl_done cl)) s)
      | None => s
      end
  | None =>
      let c := s_ncall s in
      goto i k (TFetch c)
        (mkConf (s_cache s) (<[Key_String k := c]> (s_group s))
           (<[c := mkCall (Key_String k) None 0 false]> (s_calls s)) (s_thr s) (s_out s) (s_fetched s)
           (s_ncopy s) (S c))
  end.

(** [c.val, c.err = fn()] with the call's fields. *)
Definition set_val (c : nat) (v : res string Msg) (s : conf) : conf :=
  match s_calls s !! c with
  | Some cl => set_call c (mkCall (cl_key cl) (Some v) (cl_dups cl) (cl_done cl)) s
  | None => s
  end.

(** The last critical section of [doCall]: [wg.Done] and removal from the map. *)
Definition do_publish (i : nat) (k : Key) (c : nat) (s : conf) : conf :=
  match s_calls s !! c with
  | Some cl =>
      let g := if decide (s_group s !! Key_String k = Some c)
               then delete (Key_String k) (s_group s) else s_group s in
      goto i k (TReturn c)
        (set_group g (set_call c (mkCall (cl_key cl) (cl_val cl) (cl_dups cl) true) s))
  | None => s
  end.

(** The code of [DoHit] after [group.Do] returned [v] with [shared]. *)
Definition do_return (i : nat) (k : Key) (c : nat) (v : res string Msg) (shared : bool) (s : conf) : conf :=
  match v with
  | Err e => finish i k (OErr e) s
  | Ok m =>
      if shared then
        finish i k (OMsg (PCopied (s_ncopy s)) m)
          (mkConf (s_cache s) (s_group s) (s_calls s) (s_thr s) (s_out s) (s_fetched s)
             (S (s_ncopy s)) (s_ncall s))
      else finish i k (OMsg (PFetched c) m) s
  end.

(** One step of goroutine [i]. *)
Inductive tstep (i : nat) (s : conf) : conf → Prop :=
| ts_get k p t t' c' p' :
    s_thr s !! i = Some (k, TGet p) → get_step k p t t' (s_cache s) = Some (c', inl p') →
    tstep i s (goto i k (TGet p') (set_cache c' s))
| ts_hit k p t t' c' m :
    s_thr s !! i = Some (k, TGet p) → get_step k p t t' (s_cache s) = Some (c', inr (Some m)) →
    tstep i s (finish i k (OHit m) (set_cache c' s))
| ts_miss k p t t' c' :
    s_thr s !! i = Some (k, TGet p) → get_step k p t t' (s_cache s) = Some (c', inr None) →
    tstep i s (goto i k TJoin (set_cache c' s))
| ts_join k :
    s_thr s !! i = Some (k, TJoin) → tstep i s (do_join i k s)
| ts_fetch_ok k c m :
    s_thr s !! i = Some (k, TFetch c) → tstep i s (goto i k (TStore c m) (add_fetched k m s))
| ts_fetch_err k c e :
    s_thr s !! i = Some (k, TFetch c) → tstep i s (goto i k (TPublish c) (set_val c (Err e) s))
| ts_store k c m now c' :
    s_thr s !! i = Some (k, TStore c m) → Set_ k (Some m) now (s_cache s) = Some c' →
    tstep i s (goto i k (TPublish c) (set_val c (Ok m) (set_cache c' s)))
| ts_publish k c :
    s_thr s !! i = Some (k, TPublish c) → tstep i s (do_publish i k c s)
| ts_return k c cl v :
    s_thr s !! i = Some (k, TReturn c) → s_calls s !! c = Some cl → cl_val cl = Some v →
    tstep i s (do_return i k c v (0 <? cl_dups cl) s)
| ts_wait k c cl v :
    s_thr s !! i = Some (k, TWait c) → s_calls s !! c = Some cl → cl_done cl = true →
    cl_val cl = Some v →
    tstep i s (do_return i k c v true s).

(** Steps of the whole system: a goroutine step, a new request, management. *)
Inductive cstep (s : conf) : conf → Prop :=
| cs_thread i s' : tstep i s s' → cstep s s'
| cs_start i k : s_thr s !! i = None → cstep s (goto i k (TGet PLookup) s)
| cs_max n c' : SetMaxEntries n (s_cache s) = Some c' → cstep s (set_cache c' s)
| cs_purge : cstep s (set_cache (Purge (s_cache s)) s).

Inductive reachable (cap max : Z) : conf → Prop :=
| rc_init : reachable cap max (mkConf (New cap max) ∅ ∅ ∅ [] [] 0 0)
| rc_step s s' : reachable cap max s → cstep s s' → reachable cap max s'.

(** ** Invariant *)
Definition leads (p : pc) : option nat :=
  match p with TFetch c | TStore c _ | TPublish c => Some c | _ => None end.
Definition owns (p : pc) : option nat :=
  match p with TReturn c => Some c | _ => leads p end.
Definition holds (p : get_pc) : option nat :=
  match p with PPromote e _ | PExpire e _ | PMsg e _ _ => Some e | _ => None end.

(** What each program counter knows. *)
Definition pc_ok (s : conf) (k : Key) (p : pc) : Prop :=
  match p with
  | TGet g => ∀ e, holds g = Some e → e_key <$> c_heap (s_cache s) !! e = Some k
  | TJoin => True
  | TFetch c | TPublish c => s_group s !! Key_String k = Some c
  | TStore c m => s_group s !! Key_String k = Some c ∧ (k, m) ∈ s_fetched s
  | TReturn c => ∃ cl, s_calls s !! c = Some cl ∧ cl_key cl = Key_String k ∧ cl_done cl = true
  | TWait c => ∃ cl, s_calls s !! c = Some cl ∧ cl_key cl = Key_String k ∧ 0 < cl_dups cl
  end
  ∧ match p with
    | TPublish c | TReturn c => ∃ cl, s_calls s !! c = Some cl ∧ is_Some (cl_val cl)
    | _ => True
    end.

Definition out_ok (s : conf) (ko : Key * outcome) : Prop :=
  match ko.2 with
  | OHit m => ∃ m0 x now, (ko.1, m0) ∈ s_fetched s ∧ m = serve_copy m0 x now
  | OMsg p m =>
      (∃ k', Key_String k' = Key_String ko.1 ∧ (k', m) ∈ s_fetched s)
      ∧ match p with
        | PCopied n => (n < s_ncopy s)%nat
        | PFetched c => ∃ cl, s_calls s !! c = Some cl ∧ cl_done cl = true ∧ cl_dups cl = 0
                        ∧ ∀ i k q, s_thr s !! i = Some (k, q) → owns q ≠ Some c
        end
  | OErr e => True
  end.
Definition out_ptr (ko : Key * outcome) : option pointer :=
  match ko.2 with OMsg p _ => Some p | _ => None end.

Record conf_inv (s : conf) : Prop := {
  ci_cache : cache_inv (s_cache s);
  ci_heap : ∀ id e, c_heap (s_cache s) !! id = Some e → (e_key e, e_msg e) ∈ s_fetched s;
  ci_group : ∀ x c, s_group s !! x = Some c →
    (∃ cl, s_calls s !! c = Some cl ∧ cl_key cl = x ∧ cl_done cl = false)
    ∧ ∃ i k p, s_thr s !! i = Some (k, p) ∧ leads p = Some c ∧ Key_String k = x;
  ci_calls : ∀ c cl, s_calls s !! c = Some cl →
    (c < s_ncall s)%nat ∧ 0 ≤ cl_dups cl
    ∧ (cl_done cl = false → s_group s !! cl_key cl = Some c)
    ∧ (cl_done cl = true → is_Some (cl_val cl))
    ∧ ∀ m, cl_val cl = Some (Ok m) → ∃ k, Key_String k = cl_key cl ∧ (k, m) ∈ s_fetched s;
  ci_thr : ∀ i k p, s_thr s !! i = Some (k, p) → pc_ok s k p;
  ci_owner : ∀ i j k k' p q c, s_thr s !! i = Some (k, p) → s_thr s !! j = Some (k', q) →
    owns p = Some c → owns q = Some c → i = j;
  ci_out : Forall (out_ok s) (s_out s);
  ci_nodup : NoDup (omap out_ptr (s_out s)) }.

(** ** Effects of the cache sections on the heap

    Entries are never freed or renamed, and the messages in entries come from
    fetches. *)
Definition heap_step (F : list (Key * Msg)) (c c' : Cache) : Prop :=
  (∀ id k, e_key <$> c_heap c !! id = Some k → e_key <$> c_heap c' !! id = Some k)
  ∧ ((∀ id e, c_heap c !! id = Some e → (e_key e, e_msg e) ∈ F) →
     ∀ id e, c_heap c' !! id = Some e → (e_key e, e_msg e) ∈ F).

Lemma heap_step_eq F c c' : c_heap c' = c_heap c → heap_step F c c'.
Proof. intros H. unfold heap_step. by rewrite H. Qed.

Lemma heap_step_insert F c c' id e' :
  c_heap c' = <[id := e']> (c_heap c) →
  (∀ e, c_heap c !! id = Some e → e_key e' = e_key e) →
  (e_key e', e_msg e') ∈ F ∨ (∃ e, c_heap c !! id = Some e ∧ e_msg e' = e_msg e) →
  heap_step F c c'.
Proof.
  intros Hh Hk Hm. split; rewrite Hh.
  - intros j k Hj. destruct (decide (j = id)) as [->|]; [|by rewrite lookup_insert_ne].
    rewrite lookup_insert_eq. destruct (c_heap c !! id) as [e|]; [|done]. cbn in *. by rewrite (Hk e).
  - intros HF j e Hj. destruct (decide (j = id)) as [->|]; [|rewrite lookup_insert_ne in Hj by done; eauto].
    rewrite lookup_insert_eq in Hj. injection Hj as <-. destruct Hm as [?|(e0 & He0 & ->)]; [done|].
    rewrite (Hk e0 He0). by apply (HF id).
Qed.

Lemma evict_loop_heap fuel c c' : evict_loop fuel c = Some c' → c_heap c' = c_heap c.
Proof.
  revert c. induction fuel as [|fuel IH]; intros c; cbn [evict_loop]; [by intros [= ->]|].
  destruct (_ && _); [|by intros [= ->]]. destruct (last (c_lru c)) as [id|]; [|by intros [= ->]].
  destruct (c_heap c !! id) as [e|]; cbn; [|done]. unfold drop.
  destruct (list_Remove id (c_lru c)) as [l|]; cbn; [|done]. by intros ->%IH.
Qed.

Lemma get_step_ok F k p t t' c :
  cache_inv c → (∀ e, holds p = Some e → e_key <$> c_heap c !! e = Some k) →
  (∀ id e, c_heap c !! id = Some e → (e_key e, e_msg e) ∈ F) →
  ∃ c' r, get_step k p t t' c = Some (c', r) ∧ cache_inv c' ∧ heap_step F c c'
    ∧ match r with
      | inl p' => ∀ e, holds p' = Some e → e_key <$> c_heap c' !! e = Some k
      | inr None => True
      | inr (Some m) => ∃ m0 x now, (k, m0) ∈ F ∧ m = serve_copy m0 x now
      end.
Proof.
  intros Hi Hp HF. destruct p as [| |e now|e now|e now x]; cbn [get_step].
  - destruct (get_lookup_ok k t c Hi) as (c' & n & Hg & Hi' & _ & _ & _ & _ & Hv & Hn).
    rewrite Hg. cbn [mbind option_bind]. exists c', (get_goto n). split_and!; try done.
    + unfold get_lookup in Hg. destruct (str_eqb _ _); [injection Hg as <- _; by apply heap_step_eq|].
      destruct (c_items c !! k) as [id|]; [|injection Hg as <- _; by apply heap_step_eq].
      destruct (c_heap c !! id) as [e|] eqn:He; cbn in Hg; [|done].
      destruct (time_after _ _); injection Hg as <- _; [by apply heap_step_eq|].
      eapply heap_step_insert; [reflexivity|intros e0 ?; simplify_eq; done|]. right. by exists e.
    + assert (∀ e m x, view c e = Some (k, m, x) → e_key <$> c_heap c' !! e = Some k) as Hk.
      { intros e m x H. rewrite <-Hv in H. unfold view in H. destruct (c_heap c' !! e); [|done]. cbn in *. congruence. }
      destruct n as [| |id now|id now]; cbn; try done;
        destruct Hn as (_ & _ & m & x & _ & Hid & _); intros e [= <-]; by eapply Hk.
  - destruct (get_expired_ok k t t' c Hi) as (c' & n & Hg & Hi' & Hh & _ & _ & Hn).
    rewrite Hg. cbn [mbind option_bind]. exists c', (get_goto n). split_and!; [done|done|by apply heap_step_eq|].
    destruct n as [| |id now|id now]; cbn; try done. destruct Hn as (_ & -> & m & x & _ & Hid & _).
    intros e [= <-]. unfold view in Hid. destruct (c_heap c !! id); [|done]. cbn in *. congruence.
  - destruct (get_promote_ok k e c Hi) as (c' & -> & Hi' & Hh & _). cbn [mbind option_bind].
    eexists _, _. split_and!; [done|done|by apply heap_step_eq|]. intros e' [= <-]. rewrite Hh. by apply Hp.
  - specialize (Hp e eq_refl). destruct (c_heap c !! e) as [en|] eqn:He; [|done]. cbn [mbind option_bind].
    eexists _, _. split_and!; [done|done|by apply heap_step_eq|]. intros e' [= <-]. by rewrite He.
  - specialize (Hp e eq_refl). destruct (c_heap c !! e) as [en|] eqn:He; [|done]. cbn [mbind option_bind].
    eexists _, _. split_and!; [done|done|by apply heap_step_eq|]. apply HF in He. cbn in Hp.
    injection Hp as <-. eauto.
Qed.

Lemma Set_heap F k m now c c' :
  cache_inv c → Set_ k (Some m) now c = Some c' → (k, m) ∈ F → heap_step F c c'.
Proof.
  intros [Hwf _]. unfold Set_.
  destruct (str_eqb _ _); [intros [= ->] _; by apply heap_step_eq|].
  destruct (negb _); [intros [= ->] _; by apply heap_step_eq|].
  destruct (c_items c !! k) as [id|] eqn:Hk.
  - destruct (wf_item c Hwf k id Hk) as (e & He & Hek & _). rewrite He. cbn [mbind option_bind].
    destruct (list_MoveToFront _ _); cbn; [|done]. intros [= <-] HF.
    eapply heap_step_insert; [reflexivity|intros; simplify_eq; done|]. left. cbn. by rewrite Hek.
  - intros Hh%evict_loop_heap HF. eapply heap_step_insert; [exact Hh| |by left].
    intros e He. assert (c_next c < c_next c)%nat; [|lia]. by apply (wf_next c Hwf).
Qed.

(** ** Preservation *)
Lemma inv_set_cache s c' :
  conf_inv s → cache_inv c' → heap_step (s_fetched s) (s_cache s) c' → conf_inv (set_cache c' s).
Proof.
  intros [] Hc [Hk Hm]. split; try done.
  - by apply Hm.
  - intros i k p Hp. destruct (ci_thr0 i k p Hp) as [H1 H2]. split; [|done].
    destruct p as [g| | | | | |]; try done. intros e He. by apply Hk, H1.
Qed.

Lemma inv_goto s i k p' :
  conf_inv s → pc_ok s k p' →
  (∀ c, owns p' = Some c → ∃ k0 p, s_thr s !! i = Some (k0, p) ∧ owns p = Some c) →
  (∀ k0 p c, s_thr s !! i = Some (k0, p) → leads p = Some c → leads p' = Some c ∧ k0 = k) →
  conf_inv (goto i k p' s).
Proof.
  intros [] Hpc Hown Hlead.
  assert (∀ j k' q c, <[i := (k, p')]> (s_thr s) !! j = Some (k', q) → owns q = Some c →
            ∃ k0 p, s_thr s !! j = Some (k0, p) ∧ owns p = Some c) as Hold.
  { intros j k' q c. destruct (decide (j = i)) as [->|]; [|rewrite lookup_insert_ne by done; eauto].
    rewrite lookup_insert_eq. intros [= <- <-]. apply Hown. }
  split; try done; cbn [goto s_thr s_group s_out].
  - intros x c Hx. destruct (ci_group0 x c Hx) as [? (j & k' & q & Hj & Hq & Hk)]. split; [done|].
    destruct (decide (j = i)) as [->|]; [|exists j, k', q; by rewrite lookup_insert_ne].
    destruct (Hlead _ _ _ Hj Hq) as [? ->]. exists i, k, p'. by rewrite lookup_insert_eq.
  - intros j k' q. destruct (decide (j = i)) as [->|]; [|rewrite lookup_insert_ne by done; apply ci_thr0].
    rewrite lookup_insert_eq. by intros [= <- <-].
  - intros a b ka kb p q c Ha Hb Hp Hq.
    destruct (Hold _ _ _ _ Ha Hp) as (? & ? & ? & ?), (Hold _ _ _ _ Hb Hq) as (? & ? & ? & ?).
    by eapply ci_owner0.
  - eapply Forall_impl; [done|]. intros [ko o]. unfold out_ok. destruct o as [|[c|]|]; try done. cbn.
    intros [? (cl & ? & ? & ? & Hn)]. split; [done|]. exists cl. split_and!; try done.
    intros j k' q Hj Hq. destruct (Hold _ _ _ _ Hj Hq) as (? & ? & ? & ?). by eapply Hn.
Qed.

Lemma inv_finish s i k p o n :
  conf_inv s → s_thr s !! i = Some (k, p) → leads p = None → (s_ncopy s ≤ n)%nat →
  let s' := finish i k o (mkConf (s_cache s) (s_group s) (s_calls s) (s_thr s) (s_out s) (s_fetched s) n (s_ncall s)) in
  out_ok s' (k, o) → (∀ q, out_ptr (k, o) = Some q → q ∉ omap out_ptr (s_out s)) → conf_inv s'.
Proof.
  intros [] Hi Hl Hn s' Ho Hq.
  assert (∀ j kq, delete i (s_thr s) !! j = Some kq → s_thr s !! j = Some kq) as Hold.
  { intros j kq. rewrite lookup_delete_Some. tauto. }
  split; try done; subst s'; cbn [finish s_thr s_group s_out s_ncopy] in *.
  - intros x c Hx. destruct (ci_group0 x c Hx) as [? (j & k' & q & Hj & Hjq & Hk)]. split; [done|].
    exists j, k', q. split_and!; try done. rewrite lookup_delete_ne; [done|]. intros <-. congruence.
  - intros j k' q Hj%Hold. exact (ci_thr0 j k' q Hj).
  - intros a b ka kb pa pb c Ha%Hold Hb%Hold. by eapply ci_owner0.
  - constructor; [done|]. eapply Forall_impl; [done|]. intros [ko o']. unfold out_ok.
    destruct o' as [|[c|m]|]; try done; cbn; [|intros [? ?]; split; [done|lia]].
    intros [? (cl & ? & ? & ? & Hc)]. split; [done|]. exists cl. split_and!; try done.
    intros j k' q Hj%Hold. exact (Hc j k' q Hj).
  - cbn [omap list_omap]. destruct (out_ptr (k, o)) eqn:Hp; [|done]. constructor; auto.
Qed.

Lemma inv_set_call s c cl cl' :
  conf_inv s → s_calls s !! c = Some cl → cl_done cl = false → cl_done cl' = false →
  cl_key cl' = cl_key cl → cl_dups cl ≤ cl_dups cl' →
  (is_Some (cl_val cl) → is_Some (cl_val cl')) →
  (∀ m, cl_val cl' = Some (Ok m) → ∃ k, Key_String k = cl_key cl ∧ (k, m) ∈ s_fetched s) →
  conf_inv (set_call c cl' s).
Proof.
  intros [] Hc Hd Hd' Hk Hdup Hv Hm. split; try done; cbn [set_call s_calls s_group s_out].
  - intros x c0 Hx. destruct (ci_group0 x c0 Hx) as [(cl0 & H0 & ? & ?) ?]. split; [|done].
    destruct (decide (c0 = c)) as [->|]; [|exists cl0; by rewrite lookup_insert_ne].
    exists cl'. rewrite lookup_insert_eq. simplify_eq. done.
  - intros c0 cl0. destruct (decide (c0 = c)) as [->|]; [|rewrite lookup_insert_ne by done; apply ci_calls0].
    rewrite lookup_insert_eq. intros [= <-]. destruct (ci_calls0 c cl Hc) as (? & ? & H3 & H4 & H5).
    rewrite Hk. split_and!; try done; [lia|auto|congruence].
  - intros i k p Hp. destruct (ci_thr0 i k p Hp) as [H1 H2].
    assert (∀ c0 (P : call → Prop), (∃ cl0, s_calls s !! c0 = Some cl0 ∧ P cl0) → (P cl → P cl') →
      ∃ cl0, <[c := cl']> (s_calls s) !! c0 = Some cl0 ∧ P cl0) as Hlift.
    { intros c0 P (cl0 & H0 & HP) Himp. destruct (decide (c0 = c)) as [->|]; [|exists cl0; by rewrite lookup_insert_ne].
      exists cl'. rewrite lookup_insert_eq. simplify_eq. auto. }
    split; destruct p; cbn [set_call s_calls] in *; try done.
    + apply (Hlift c0 (λ cl, cl_key cl = Key_String k ∧ cl_done cl = true)); [done|]. rewrite Hd. by intros [].
    + apply (Hlift c0 (λ cl, cl_key cl = Key_String k ∧ 0 < cl_dups cl)); [done|]. rewrite Hk. intros [? ?]. split; [done|lia].
    + by apply (Hlift c0 (λ cl, is_Some (cl_val cl))).
    + by apply (Hlift c0 (λ cl, is_Some (cl_val cl))).
  - eapply Forall_impl; [done|]. intros [ko o']. unfold out_ok. destruct o' as [|[c0|m]|]; try done. cbn.
    intros [? (cl0 & H0 & H1 & ? & ?)]. split; [done|]. exists cl0. split_and!; try done.
    rewrite lookup_insert_ne; [done|]. intros <-. congruence.
Qed.

Lemma inv_add_fetched s k m : conf_inv s → conf_inv (add_fetched k m s).
Proof.
  intros []. split; try done; cbn [add_fetched s_fetched s_cache s_calls s_out].
  - intros id e He. right. eauto.
  - intros c cl Hc. destruct (ci_calls0 c cl Hc) as (? & ? & ? & ? & Hm). split_and!; try done.
    intros m' [k' [? ?]]%Hm. exists k'. split; [done|by right].
  - intros i k' p Hp. destruct (ci_thr0 i k' p Hp) as [H1 H2]. split; [|done].
    destruct p; try done. destruct H1. split; [done|by right].
  - eapply Forall_impl; [done|]. intros [ko o]. unfold out_ok. destruct o as [m'|q m'|]; try done; cbn.
    + intros (m0 & x & now & ? & ->). exists m0, x, now. split; [by right|done].
    + intros [(k' & ? & ?) ?]. split; [|done]. exists k'. split; [done|by right].
Qed.

(** A group entry's call, seen from the thread that leads it. *)
Lemma lead_call s k c :
  conf_inv s → s_group s !! Key_String k = Some c →
  ∃ cl, s_calls s !! c = Some cl ∧ cl_key cl = Key_String k ∧ cl_done cl = false.
Proof. intros Hs Hg. by destruct (ci_group s Hs _ _ Hg) as [? _]. Qed.

(** A new call is referred to by no thread. *)
Lemma call_fresh s c cl : conf_inv s → s_calls s !! c = Some cl → c ≠ s_ncall s.
Proof. intros Hs Hc ->. apply (ci_calls s Hs) in Hc as [Hc _]. lia. Qed.
Lemma owner_fresh s j k q :
  conf_inv s → s_thr s !! j = Some (k, q) → owns q ≠ Some (s_ncall s).
Proof.
  intros Hs Hj Hq. destruct (ci_thr s Hs j k q Hj) as [H1 _].
  destruct q; cbn in Hq; try done; injection Hq as ->;
    try (destruct (ci_group s Hs (Key_String k) (s_ncall s)) as [(cl & Hc & _) _];
         [by try destruct H1|by eapply call_fresh]).
  destruct H1 as (cl & Hc & _). by eapply call_fresh.
Qed.
(** Ownership stays unique when a thread moves on with a call nobody else owns. *)
Lemma owner_moves s i k p c :
  conf_inv s → owns p = Some c →
  (∀ j k' q, s_thr s !! j = Some (k', q) → owns q = Some c → j = i) →
  ∀ a b ka kb pa pb c0,
    <[i := (k, p)]> (s_thr s) !! a = Some (ka, pa) → <[i := (k, p)]> (s_thr s) !! b = Some (kb, pb) →
    owns pa = Some c0 → owns pb = Some c0 → a = b.
Proof.
  intros Hs Hp Hc a b ka kb pa pb c0.
  destruct (decide (a = i)) as [->|], (decide (b = i)) as [->|];
    rewrite ?lookup_insert_eq, ?lookup_insert_ne by done; try done.
  - intros [= <- <-] Hb Ha' Hq. symmetry. eapply Hc; [done|]. congruence.
  - intros Ha [= <- <-] Hq Hb'. eapply Hc; [done|]. congruence.
  - by apply (ci_owner s Hs).
Qed.
Lemma inv_lead s i k :
  conf_inv s → s_thr s !! i = Some (k, TJoin) → s_group s !! Key_String k = None →
  conf_inv (do_join i k s).
Proof.
  intros Hs Hi Hg. unfold do_join. rewrite Hg.
  set (c := s_ncall s).
  pose proof (λ c0 cl, call_fresh s c0 cl Hs) as Hfresh.
  assert (∀ c0 (P : call → Prop), (∃ cl0, s_calls s !! c0 = Some cl0 ∧ P cl0) →
      ∃ cl0, <[c := mkCall (Key_String k) None 0 false]> (s_calls s) !! c0 = Some cl0 ∧ P cl0) as Hlift.
  { intros c0 P (cl0 & H0 & HP). exists cl0. rewrite lookup_insert_ne; [done|].
    apply not_eq_sym. by eapply Hfresh. }
  pose proof (owner_moves s i k (TFetch c) c Hs eq_refl) as Howner.
  pose proof (λ j k' q, owner_fresh s j k' q Hs) as Hnew. destruct Hs as [].
  split; try done; cbn [goto s_thr s_group s_out s_calls s_ncall].
  - intros x c0. destruct (decide (x = Key_String k)) as [->|].
    + rewrite lookup_insert_eq. intros [= <-]. split; [by eexists; rewrite lookup_insert_eq|].
      exists i, k, (TFetch c). by rewrite lookup_insert_eq.
    + rewrite lookup_insert_ne by done. intros Hx. destruct (ci_group0 x c0 Hx) as [H1 (j & k' & q & Hj & ? & ?)].
      split; [by apply Hlift in H1|]. exists j, k', q. rewrite lookup_insert_ne; [done|]. intros <-. congruence.
  - intros c0 cl0. destruct (decide (c0 = c)) as [->|].
    + rewrite lookup_insert_eq. intros [= <-]. cbn. rewrite lookup_insert_eq. split_and!; (done || lia).
    + rewrite lookup_insert_ne by done. intros Hc. destruct (ci_calls0 c0 cl0 Hc) as (? & ? & H3 & ? & ?).
      split_and!; try done; [lia|]. intros Hd. specialize (H3 Hd). rewrite lookup_insert_ne; [done|]. congruence.
  - intros j k' q. destruct (decide (j = i)) as [->|].
    { rewrite lookup_insert_eq. intros [= <- <-]. split; cbn; [by rewrite lookup_insert_eq|done]. }
    rewrite lookup_insert_ne by done. intros Hj. destruct (ci_thr0 j k' q Hj) as [H1 H2].
    split; destruct q; cbn in *; try done; try by apply Hlift.
    1,3: rewrite lookup_insert_ne; [done|congruence].
    destruct H1. rewrite lookup_insert_ne; [done|congruence].
  - apply Howner. intros j k' q Hj Hq. by destruct (Hnew j k' q Hj).
  - eapply Forall_impl; [done|]. intros [ko o]. unfold out_ok. destruct o as [m'|[c0|n] m'|]; try done; cbn.
    intros [? (cl & Hc & ? & ? & Hn)]. split; [done|]. exists cl.
    pose proof (Hfresh _ _ Hc). rewrite lookup_insert_ne by done. split_and!; try done.
    intros j k' q. destruct (decide (j = i)) as [->|]; [|rewrite lookup_insert_ne by done; apply Hn].
    rewrite lookup_insert_eq. intros [= <- <-]. cbn. subst c. congruence.
Qed.

Lemma inv_publish s i k c :
  conf_inv s → s_thr s !! i = Some (k, TPublish c) → conf_inv (do_publish i k c s).
Proof.
  intros Hs Hi. destruct (ci_thr s Hs i k _ Hi) as [Hg (cl & Hc & Hv)]. cbn in Hg.
  destruct (lead_call s k c Hs Hg) as (cl' & Hc' & Hk & Hd). simplify_eq.
  unfold do_publish. rewrite Hc, decide_True by done.
  pose proof (owner_moves s i k (TReturn c) c Hs eq_refl) as Howner. destruct Hs as [].
  set (cl' := mkCall _ _ _ true).
  assert (∀ c0 (P : call → Prop), (∃ cl0, s_calls s !! c0 = Some cl0 ∧ P cl0) → (P cl → P cl') →
      ∃ cl0, <[c := cl']> (s_calls s) !! c0 = Some cl0 ∧ P cl0) as Hlift.
  { intros c0 P (cl0 & H0 & HP) Himp. destruct (decide (c0 = c)) as [->|]; [|exists cl0; by rewrite lookup_insert_ne].
    exists cl'. rewrite lookup_insert_eq. simplify_eq. auto. }
  assert (∀ j k' q c0, s_thr s !! j = Some (k', q) → j ≠ i → leads q = Some c0 →
            s_group s !! Key_String k' = Some c0 → Key_String k ≠ Key_String k') as Hne.
  { intros j k' q c0 Hj Hji Hq Hg' Hkk. rewrite <-Hkk, Hg in Hg'. injection Hg' as <-.
    apply Hji. eapply (ci_owner0 j i); [done|done| |done]. by destruct q. }
  split; try done; cbn [goto set_group set_call s_thr s_group s_out s_calls s_ncall].
  - intros x c0. rewrite lookup_delete_Some. intros [Hx Hx'].
    destruct (ci_group0 x c0 Hx') as [(cl0 & H0 & ? & ?) (j & k' & q & Hj & Hq & Hkq)]. split.
    + exists cl0. rewrite lookup_insert_ne; [done|]. intros <-. congruence.
    + exists j, k', q. rewrite lookup_insert_ne; [done|]. intros <-. congruence.
  - intros c0 cl0. destruct (decide (c0 = c)) as [->|].
    + rewrite lookup_insert_eq. intros [= <-]. destruct (ci_calls0 c cl Hc) as (? & ? & ? & ? & ?). by split_and!.
    + rewrite lookup_insert_ne by done. intros H0. destruct (ci_calls0 c0 cl0 H0) as (? & ? & H3 & ? & ?).
      split_and!; try done. intros Hd0. rewrite lookup_delete_ne; [auto|]. intros Hx.
      rewrite <-Hx in H3. specialize (H3 Hd0). congruence.
  - intros j k' q. destruct (decide (j = i)) as [->|Hji].
    { rewrite lookup_insert_eq. intros [= <- <-]. split; cbn; exists cl'; by rewrite lookup_insert_eq. }
    rewrite lookup_insert_ne by done. intros Hj. destruct (ci_thr0 j k' q Hj) as [H1 H2].
    split; destruct q; cbn in *; try done.
    + rewrite lookup_delete_ne; [done|]. by eapply Hne.
    + destruct H1. rewrite lookup_delete_ne; [done|]. by eapply Hne.
    + rewrite lookup_delete_ne; [done|]. by eapply Hne.
    + apply (Hlift c0 (λ cl, cl_key cl = Key_String k' ∧ cl_done cl = true)); [done|]. by intros [? _].
    + by apply (Hlift c0 (λ cl, cl_key cl = Key_String k' ∧ 0 < cl_dups cl)).
    + by apply (Hlift c0 (λ cl, is_Some (cl_val cl))).
    + by apply (Hlift c0 (λ cl, is_Some (cl_val cl))).
  - apply Howner. intros j k' q Hj Hq. by eapply ci_owner0.
  - eapply Forall_impl; [done|]. intros [ko o]. unfold out_ok. destruct o as [m'|[c0|n] m'|]; try done; cbn.
    intros [? (cl0 & H0 & ? & ? & Hn)]. split; [done|]. exists cl0.
    assert (c0 ≠ c) as Hcc by (intros ->; congruence). rewrite lookup_insert_ne by done. split_and!; try done.
    intros j k' q. destruct (decide (j = i)) as [->|]; [|rewrite lookup_insert_ne by done; apply Hn].
    rewrite lookup_insert_eq. intros [= <- <-]. cbn. congruence.
Qed.

Lemma out_ptr_elem s q :
  conf_inv s → q ∈ omap out_ptr (s_out s) → ∃ k m, out_ok s (k, OMsg q m).
Proof.
  intros Hs ([k o] & Hin & Hq)%list_elem_of_omap. pose proof (ci_out s Hs) as Ho.
  rewrite Forall_forall in Ho. apply Ho in Hin. destruct o; cbn in Hq; try done.
  injection Hq as <-. eauto.
Qed.

Lemma inv_return s i k p c cl v shared :
  conf_inv s → s_thr s !! i = Some (k, p) → leads p = None →
  s_calls s !! c = Some cl → cl_key cl = Key_String k → cl_val cl = Some v →
  (shared = false → p = TReturn c ∧ cl_done cl = true ∧ cl_dups cl = 0) →
  conf_inv (do_return i k c v shared s).
Proof.
  intros Hs Hi Hl Hc Hk Hv Hsh. destruct v as [m|e]; cbn [do_return]; cycle 1.
  { eapply (inv_finish s i k p (OErr e) (s_ncopy s)); done || lia. }
  destruct (ci_calls s Hs c cl Hc) as (_ & _ & _ & _ & Hm). destruct (Hm m Hv) as (k' & Hk' & Hf).
  destruct shared.
  - eapply (inv_finish s i k p _ (S (s_ncopy s))); [done|done|done|lia| |].
    + split; [exists k'; split; [cbn; congruence|done]|]. cbn. lia.
    + intros q [= <-] Hin. destruct (out_ptr_elem s _ Hs Hin) as (? & ? & _ & Hlt). cbn in Hlt. lia.
  - destruct Hsh as (-> & Hd & Hz); [done|].
    eapply (inv_finish s i k _ _ (s_ncopy s)); [done|done|done|lia| |].
    + split; [exists k'; split; [cbn; congruence|done]|]. cbn. exists cl. split_and!; try done.
      intros j kj q [Hj Hjq]%lookup_delete_Some Hq. apply Hj. by eapply (ci_owner s Hs i j).
    + intros q [= <-] Hin. destruct (out_ptr_elem s _ Hs Hin) as (? & ? & _ & Hout).
      destruct Hout as (? & _ & _ & _ & Hn). by eapply (Hn i).
Qed.

Lemma inv_set_val s k c v :
  conf_inv s → s_group s !! Key_String k = Some c →
  (∀ m, v = Ok m → (k, m) ∈ s_fetched s) →
  conf_inv (set_val c v s) ∧ ∃ cl, s_calls (set_val c v s) !! c = Some cl ∧ is_Some (cl_val cl).
Proof.
  intros Hs Hg Hm. destruct (lead_call s k c Hs Hg) as (cl & Hc & Hk & Hd).
  unfold set_val. rewrite Hc. split.
  - eapply inv_set_call; try done. intros m [= Hv]. exists k. split; [done|]. by apply Hm.
  - cbn. eexists. rewrite lookup_insert_eq. split; [done|]. cbn. eauto.
Qed.

Lemma inv_wait s i k c :
  conf_inv s → s_thr s !! i = Some (k, TJoin) → s_group s !! Key_String k = Some c →
  conf_inv (do_join i k s).
Proof.
  intros Hs Hi Hg. destruct (lead_call s k c Hs Hg) as (cl & Hc & Hk & Hd).
  destruct (ci_calls s Hs c cl Hc) as (_ & Hdup & _ & _ & Hm).
  unfold do_join. rewrite Hg, Hc. apply inv_goto.
  - eapply inv_set_call; try done. cbn. lia.
  - split; [|done]. cbn. eexists. rewrite lookup_insert_eq. split_and!; [done|done|cbn; lia].
  - done.
  - cbn. intros k0 p c0. rewrite Hi. by intros [= <- <-].
Qed.

Lemma tstep_inv s i s' : conf_inv s → tstep i s s' → conf_inv s'.
Proof.
  intros Hs Hst. destruct Hst as [k p t t' c' p' Hi Hg|k p t t' c' m Hi Hg|k p t t' c' Hi Hg|k Hi|k c m Hi
    |k c e Hi|k c m now c' Hi Hg|k c Hi|k c cl v Hi Hc Hv|k c cl v Hi Hc Hd Hv];
    pose proof (ci_thr s Hs i k _ Hi) as [Hp Hp2]; cbn in Hp.
  1-3: destruct (get_step_ok (s_fetched s) k p t t' (s_cache s) (ci_cache s Hs) Hp (ci_heap s Hs))
      as (c'' & r & Hg' & Hi' & Hh & Hr); rewrite Hg in Hg'; injection Hg' as <- <-;
      pose proof (inv_set_cache s c' Hs Hi' Hh) as Hs'.
  - apply inv_goto; [done|by split|done|]. cbn. intros k0 q c0. rewrite Hi. by intros [= <- <-].
  - by eapply (inv_finish (set_cache c' s) i k _ _ (s_ncopy s)).
  - apply inv_goto; [done|by split|done|]. cbn. intros k0 q c0. rewrite Hi. by intros [= <- <-].
  - destruct (s_group s !! Key_String k) eqn:Hg; [by eapply inv_wait|by apply inv_lead].
  - apply inv_goto; [by apply inv_add_fetched| | |].
    + split; [|done]. split; [done|left].
    + intros c0 [= <-]. cbn. eauto.
    + cbn. intros k0 q c0. rewrite Hi. by intros [= <- <-] [= <-].
  - destruct (inv_set_val s k c (Err e) Hs Hp) as [Hs' Hval]; [done|]. apply inv_goto; [done| | |].
    + split; [|done]. unfold set_val. by destruct (s_calls s !! c).
    + unfold set_val. intros c0 [= <-]. destruct (s_calls s !! c); cbn; eauto.
    + unfold set_val. intros k0 q c0. destruct (s_calls s !! c); cbn; rewrite Hi; by intros [= <- <-] [= <-].
  - destruct Hp as [Hp Hf].
    destruct (Set_ok k m now (s_cache s) (ci_cache s Hs)) as (c'' & Hg' & Hi' & _). rewrite Hg in Hg'. injection Hg' as <-.
    pose proof (inv_set_cache s c' Hs Hi' (Set_heap _ _ _ _ _ _ (ci_cache s Hs) Hg Hf)) as Hs1.
    destruct (inv_set_val (set_cache c' s) k c (Ok m) Hs1 Hp) as [Hs' Hval]; [by intros ? [= <-]|].
    unfold set_val in *. cbn [set_cache s_calls] in *. apply inv_goto; [done| | |].
    + split; [|done]. by destruct (s_calls s !! c).
    + intros c0 [= <-]. destruct (s_calls s !! c); cbn; eauto.
    + intros k0 q c0. destruct (s_calls s !! c); cbn; rewrite Hi; by intros [= <- <-] [= <-].
  - by apply inv_publish.
  - destruct Hp as (cl' & Hc' & Hk & Hd). simplify_eq.
    eapply inv_return; try done. intros Hsh. bools. split_and!; [done..|].
    destruct (ci_calls s Hs c cl Hc) as (_ & ? & _). lia.
  - destruct Hp as (cl' & Hc' & Hk & Hd'). simplify_eq. by eapply inv_return.
Qed.

Lemma reachable_inv cap max s : reachable cap max s → conf_inv s.
Proof.
  induction 1 as [|s s' _ Hs Hst].
  - split; try done; cbn.
    + apply New_inv.
    + constructor.
  - destruct Hst as [i s' Hst|i k Hi|n c' Hm|].
    + by eapply tstep_inv.
    + apply inv_goto; [done|by split|done|]. intros k0 p c. by rewrite Hi.
    + destruct (SetMaxEntries_ok n _ (ci_cache s Hs)) as (c'' & Hm' & Hi' & _). simplify_eq.
      apply inv_set_cache; [done|done|]. apply heap_step_eq.
      unfold SetMaxEntries in Hm. by apply evict_loop_heap in Hm.
    + apply inv_set_cache; [done|by apply Purge_ok, ci_cache|by apply heap_step_eq].
Qed.

(** Every goroutine can move, except one that waits for a goroutine that can. *)
Lemma leader_moves s i k p c :
  conf_inv s → s_thr s !! i = Some (k, p) → leads p = Some c → ∃ s', tstep i s s'.
Proof.
  intros Hs Hi Hl. destruct p; try done.
  - eexists. by eapply (ts_fetch_err i s k _ "").
  - destruct (Set_ok k m 0 (s_cache s) (ci_cache s Hs)) as (c' & Hg & _). eexists. by eapply ts_store.
  - eexists. by eapply ts_publish.
Qed.

Lemma thread_moves s i k p :
  conf_inv s → s_thr s !! i = Some (k, p) → ∃ j s', tstep j s s'.
Proof.
  intros Hs Hi. destruct (leads p) as [c|] eqn:Hl.
  { destruct (leader_moves s i k p c Hs Hi Hl). eauto. }
  pose proof (ci_thr s Hs i k p Hi) as [Hp Hp2]. destruct p as [g| | | | |c|c]; try done; cbn in Hp.
  - destruct (get_step_ok (s_fetched s) k g 0 0 (s_cache s) (ci_cache s Hs) Hp (ci_heap s Hs))
      as (c' & [p'|[m|]] & Hg & _); eexists i, _; [by eapply ts_get|by eapply ts_hit|by eapply ts_miss].
  - eexists i, _. by eapply ts_join.
  - destruct Hp2 as (cl & Hc & [v Hv]). eexists i, _. by eapply ts_return.
  - destruct Hp as (cl & Hc & Hk & _). destruct (ci_calls s Hs c cl Hc) as (_ & _ & Hg & Hv & _).
    destruct (cl_done cl) eqn:Hd.
    + destruct (Hv eq_refl) as [v ?]. eexists i, _. by eapply ts_wait.
    + specialize (Hg eq_refl). destruct (ci_group s Hs _ _ Hg) as [_ (j & k' & q & Hj & Hq & _)].
      destruct (leader_moves s j k' q c Hs Hj Hq). eauto.
Qed.

(** A run for the witnesses: two goroutines ask for the same key, the second
    joins the first one's fetch. *)
Ltac then_step H tac :=
  let H' := fresh in
  eassert (reachable 0 5 _) as H' by (eapply rc_step; [exact H|tac; reflexivity]);
  clear H; rename H' into H.
Lemma demo_coalesced :
  ∃ s, reachable 0 5 s
    ∧ s_out s = [(demo_key, OMsg (PCopied 1) (demo_msg 60)); (demo_key, OMsg (PCopied 0) (demo_msg 60))].
Proof.
  pose proof (rc_init 0 5) as H.
  then_step H ltac:(apply (cs_start _ 0 demo_key)).
  then_step H ltac:(apply (cs_start _ 1 demo_key)).
  then_step H ltac:(eapply (cs_thread _ 0), (ts_miss 0 _ demo_key PLookup 0 0 (New 0 5))).
  then_step H ltac:(eapply (cs_thread _ 1), (ts_miss 1 _ demo_key PLookup 0 0 (New 0 5))).
  then_step H ltac:(eapply (cs_thread _ 0), (ts_join 0 _ demo_key)).
  then_step H ltac:(eapply (cs_thread _ 1), (ts_join 1 _ demo_key)).
  then_step H ltac:(eapply (cs_thread _ 0), (ts_fetch_ok 0 _ demo_key 0 (demo_msg 60))).
  then_step H ltac:(eapply (cs_thread _ 0), (ts_store 0 _ demo_key 0 (demo_msg 60) 0)).
  then_step H ltac:(eapply (cs_thread _ 0), (ts_publish 0 _ demo_key 0)).
  then_step H ltac:(eapply (cs_thread _ 0), (ts_return 0 _ demo_key 0 _ (Ok (demo_msg 60)))).
  then_step H ltac:(eapply (cs_thread _ 1), (ts_wait 1 _ demo_key 0 _ (Ok (demo_msg 60)))).
  eexists. split; [exact H|]. reflexivity.
Qed.

(** ** Properties *)

(** C34: Lookups interleaved with stores, evictions, purges and limit changes
    are safe: no critical section of [Get] finds a freed entry or a stale list
    node, the cache invariant holds throughout, and an answer served from the
    cache for a key is a message some fetch returned for that very key, with
    only its answer TTLs rewritten. *)
Theorem cache_concurrent_get_safe cap max s :
  reachable cap max s →
  cache_inv (s_cache s)
  ∧ (∀ i k p t t', s_thr s !! i = Some (k, TGet p) → is_Some (get_step k p t t' (s_cache s)))
  ∧ (∀ k m, (k, OHit m) ∈ s_out s → ∃ m0 x now, (k, m0) ∈ s_fetched s ∧ m = serve_copy m0 x now).
Proof.
  intros Hs%reachable_inv. split_and!.
  - by apply ci_cache.
  - intros i k p t t' Hi. destruct (ci_thr s Hs i k _ Hi) as [Hp _].
    destruct (get_step_ok (s_fetched s) k p t t' _ (ci_cache s Hs) Hp (ci_heap s Hs)) as (? & ? & -> & _). eauto.
  - intros k m Hin. pose proof (ci_out s Hs) as Ho. rewrite Forall_forall in Ho. by apply Ho in Hin.
Qed.
Lemma cache_concurrent_get_safe_witness : ∃ s, reachable 0 5 s ∧ length (s_out s) = 2%nat ∧ cache_inv (s_cache s).
Proof.
  destruct demo_coalesced as (s & Hs & Ho). exists s. split_and!; [done|by rewrite Ho|].
  apply (cache_concurrent_get_safe 0 5 s Hs).
Defined.

(** C9: Coalescing: at any time at most one goroutine is fetching for a given
    coalescing key; a goroutine that receives a fetched message receives one
    fetched for its own coalescing key; and no two goroutines receive the same
    message pointer, so each may edit its answer. *)
Theorem cache_coalescing cap max s :
  reachable cap max s →
  (∀ i j k k' p q c c', s_thr s !! i = Some (k, p) → s_thr s !! j = Some (k', q) →
     leads p = Some c → leads q = Some c' → Key_String k = Key_String k' → i = j)
  ∧ (∀ k p m, (k, OMsg p m) ∈ s_out s → ∃ k', Key_String k' = Key_String k ∧ (k', m) ∈ s_fetched s)
  ∧ NoDup (omap out_ptr (s_out s)).
Proof.
  intros Hs%reachable_inv. split_and!.
  - intros i j k k' p q c c' Hi Hj Hp Hq Hk.
    assert (∀ i k p c, s_thr s !! i = Some (k, p) → leads p = Some c → s_group s !! Key_String k = Some c) as Hg.
    { intros i0 k0 p0 c0 Hi0 Hl0. destruct (ci_thr s Hs i0 k0 p0 Hi0) as [H _].
      destruct p0; cbn in Hl0; try done; injection Hl0 as ->; [done|by destruct H|done]. }
    pose proof (Hg i k p c Hi Hp) as H1. pose proof (Hg j k' q c' Hj Hq) as H2. rewrite Hk in H1. simplify_eq.
    eapply (ci_owner s Hs i j); [done|done|by destruct p|by destruct q].
  - intros k p m Hin. pose proof (ci_out s Hs) as Ho. rewrite Forall_forall in Ho. by apply Ho in Hin as [? _].
  - by apply ci_nodup.
Qed.
Lemma cache_coalescing_witness :
  ∃ s, reachable 0 5 s
    ∧ s_out s = [(demo_key, OMsg (PCopied 1) (demo_msg 60)); (demo_key, OMsg (PCopied 0) (demo_msg 60))]
    ∧ NoDup (omap out_ptr (s_out s)).
Proof.
  destruct demo_coalesced as (s & Hs & Ho). exists s. split_and!; [done|done|].
  apply (cache_coalescing 0 5 s Hs).
Defined.

(** C35: Coalescing never deadlocks: whenever a request is in progress, some
    goroutine can take a step (a waiting goroutine's fetch is still led by a
    goroutine that can move, or has already published its result). *)
Theorem cache_dohit_progress cap max s i kp :
  reachable cap max s → s_thr s !! i = Some kp → ∃ j s', tstep j s s'.
Proof. intros Hs%reachable_inv. destruct kp as [k p]. by apply thread_moves. Qed.
Lemma cache_dohit_progress_witness :
  ∃ j s', tstep j (goto 0 demo_key (TGet PLookup) (mkConf (New 0 5) ∅ ∅ ∅ [] [] 0 0)) s'.
Proof.
  apply (cache_dohit_progress 0 5 _ 0%nat (demo_key, TGet PLookup)).
  - eapply rc_step; [apply rc_init|]. by apply cs_start.
  - reflexivity.
Defined.
