(* ===== verification/RateLimit.v ===== *)
(** * The per-client rate limiter (internal/dnsserver/ratelimit.go)

    Token counts are [float64]: IEEE binary64 as specified by the Standard
    Library's [SpecFloat], which is executable.  The limiter's 16 shards are a
    list of maps from client to bucket; Go's randomised map iteration, which
    picks the idle entry that is evicted, is the argument [order] of the
    operation. *)
From S2P Require Import Prelude GoStrings.
From Stdlib Require Import Ascii SpecFloat.
#[local] Open Scope Z_scope.

(** ** float64 *)
Definition f64 : Type := spec_float.
Definition f64_add : f64 → f64 → f64 := SFadd 53 1024.
Definition f64_sub : f64 → f64 → f64 := SFsub 53 1024.
Definition f64_mul : f64 → f64 → f64 := SFmul 53 1024.
Definition f64_div : f64 → f64 → f64 := SFdiv 53 1024.
Definition f64_ltb : f64 → f64 → bool := SFltb.
Definition f64_leb : f64 → f64 → bool := SFleb.
(** The conversion [float64(n)]. *)
Definition f64_of_int (n : Z) : f64 := binary_normalize 53 1024 n 0 false.
(** [Duration.Seconds]: whole seconds plus the fraction. *)
Definition Seconds (d : Z) : f64 :=
  f64_add (f64_of_int (Z.quot d second)) (f64_div (f64_of_int (Z.rem d second)) (f64_of_int 1000000000)).

(** ** The limiter *)
Record tokenBucket := mkBucket { tb_tokens : f64; tb_last : Z }.
Definition rlShards : Z := 16.
Definition maxLiveClients : Z := Z.shiftl 1 14.
Notation rlShard := (gmap string tokenBucket).
Record rateLimiter := mkRL {
  rl_qpsVal : Z; rl_burstVal : Z; rl_shards : list rlShard; rl_off : bool }.

Definition newRateLimiter : rateLimiter := mkRL 0 0 (replicate (Z.to_nat rlShards) ∅) false.

(** [set]. *)
Definition rl_set (qps burst : Z) (rl : rateLimiter) : rateLimiter :=
  let qps := if qps <? 0 then 0 else qps in
  let burst := if burst <=? 0 then (if qps <? 1 then 1 else qps) else burst in
  mkRL qps burst ((λ _, ∅) <$> rl_shards rl) (qps =? 0).

(** [qps]. *)
Definition rl_qps (rl : rateLimiter) : Z := rl_qpsVal rl.

(** FNV-1a (32 bit) of the client's bytes. *)
Fixpoint fnv32a (h : Z) (s : string) : Z :=
  match s with
  | "" => h
  | String c s => fnv32a (u32 (Z.lxor h (Z.of_N (N_of_ascii c)) * 16777619)) s
  end.
Definition rlShardFor (client : string) : Z := Z.land (fnv32a 2166136261 client) (rlShards - 1).

(** The eviction loop: delete the first idle entry met. *)
Fixpoint evict_idle (order : list string) (now : Z) (sh : rlShard) : rlShard :=
  match order with
  | [] => sh
  | k :: order =>
      match sh !! k with
      | Some v => if minute <? time_sub now (tb_last v) then delete k sh else evict_idle order now sh
      | None => evict_idle order now sh
      end
  end.

(** Refill and spend: the code after the bucket is found. *)
Definition spend (qps : f64) (burst : Z) (now : Z) (b : tokenBucket) : tokenBucket * bool :=
  let elapsed := Seconds (time_sub now (tb_last b)) in
  let tokens := f64_add (tb_tokens b) (f64_mul elapsed qps) in
  let tokens := if f64_ltb (f64_of_int burst) tokens then f64_of_int burst else tokens in
  if f64_leb (f64_of_int 1) tokens
  then (mkBucket (f64_sub tokens (f64_of_int 1)) now, true)
  else (mkBucket tokens now, false).

(** The section under the shard's lock; [qps] and [burst] were loaded before. *)
Definition allow_locked (qps : f64) (burst : Z) (order : list string) (now : Z) (client : string)
    (sh : rlShard) : rlShard * bool :=
  let use b sh := let '(b, ok) := spend qps burst now b in (<[client := b]> sh, ok) in
  match sh !! client with
  | Some b => use b sh
  | None =>
      let fresh := mkBucket (f64_of_int burst) now in
      let limit := Z.quot maxLiveClients rlShards in
      if limit <=? Z.of_nat (size sh) then
        let sh := evict_idle order now sh in
        if limit <=? Z.of_nat (size sh) then (sh, true) else use fresh sh
      else use fresh sh
  end.

Definition allow (order : list string) (now : Z) (client : string) (rl : rateLimiter) : rateLimiter * bool :=
  if str_eqb client "" || rl_off rl then (rl, true)
  else
    let qps := f64_of_int (rl_qpsVal rl) in
    if f64_leb qps (f64_of_int 0) then (rl, true)
    else
      let i := Z.to_nat (rlShardFor client) in
      match rl_shards rl !! i with
      | None => (rl, true)
      | Some sh =>
          let '(sh, ok) := allow_locked qps (rl_burstVal rl) order now client sh in
          (mkRL (rl_qpsVal rl) (rl_burstVal rl) (<[i := sh]> (rl_shards rl)) (rl_off rl), ok)
      end.

Example rl_demo :
  let rl := rl_set 2 3 newRateLimiter in
  let q t rl := allow [] t "192.0.2.1" rl in
  let '(rl, a) := q 0 rl in let '(rl, b) := q 0 rl in let '(rl, c) := q 0 rl in
  let '(rl, d) := q 0 rl in let '(rl, e) := q (second / 2) rl in let '(rl, f) := q (second / 2) rl in
  [a; b; c; d; e; f] = [true; true; true; false; true; false].
Proof. vm_compute. reflexivity. Qed.

(** ** Small integers are exact in binary64 *)
Lemma iter_xO m p : Zpos (Pos.iter xO m p) = Zpos m * 2 ^ Zpos p.
Proof.
  induction p as [|p IHp] using Pos.peano_ind; [simpl; lia|].
  rewrite Pos.iter_succ. change (Zpos (Pos.iter xO m p)~0) with (2 * Zpos (Pos.iter xO m p)).
  rewrite IHp, Pos2Z.inj_succ, Z.pow_succ_r by lia. lia.
Qed.

Lemma digits_bounds p : 2 ^ (Zpos (digits2_pos p) - 1) ≤ Zpos p < 2 ^ Zpos (digits2_pos p).
Proof.
  assert (∀ d p, Zpos (Pos.succ d) - 1 = Z.succ (Zpos d - 1) ∧ 2 ^ Zpos (Pos.succ d) = 2 * 2 ^ Zpos d
            ∧ 2 ^ (Z.succ (Zpos d - 1)) = 2 * 2 ^ (Zpos d - 1) ∧ Zpos p~1 = 2 * Zpos p + 1 ∧ Zpos p~0 = 2 * Zpos p) as H.
  { intros d q. rewrite !Pos2Z.inj_succ, !Z.pow_succ_r by lia. lia. }
  induction p as [p IH|p IH|]; cbn [digits2_pos]; [| |simpl; lia];
    destruct (H (digits2_pos p) p) as (-> & -> & -> & E1 & E2); rewrite ?E1, ?E2; lia.
Qed.

Lemma digits_unique p d : 2 ^ (d - 1) ≤ Zpos p < 2 ^ d → Zpos (digits2_pos p) = d.
Proof.
  intros [H1 H2]. pose proof (digits_bounds p) as [H3 H4].
  destruct (Z.le_gt_cases d 0) as [Hd|Hd].
  { assert (2 ^ d ≤ 1) by (apply (Z.pow_le_mono_r 2 d 0); lia). lia. }
  assert (Zpos (digits2_pos p) - 1 < d) by (apply (Z.pow_lt_mono_r_iff 2); lia).
  assert (d - 1 < Zpos (digits2_pos p)) by (apply (Z.pow_lt_mono_r_iff 2); lia). lia.
Qed.

Lemma iter_pos_Pos_iter {A} (f : A → A) p x : iter_pos f p x = Pos.iter f x p.
Proof.
  revert x. induction p as [p IH|p IH|]; intros x; cbn [iter_pos Pos.iter]; [| |done]; rewrite !IH; [|done].
  by rewrite <-!Pos.iter_swap.
Qed.

Lemma shr_exact m p :
  iter_pos shr_1 p (Build_shr_record (Zpos m * 2 ^ Zpos p) false false) = Build_shr_record (Zpos m) false false.
Proof.
  rewrite iter_pos_Pos_iter. induction p as [|p IHp] using Pos.peano_ind.
  - simpl. by rewrite Pos.mul_comm.
  - rewrite Pos.iter_succ_r. rewrite Pos2Z.inj_succ, Z.pow_succ_r by lia.
    replace (Zpos m * (2 * 2 ^ Zpos p)) with (2 * (Zpos m * 2 ^ Zpos p)) by lia.
    destruct (Zpos m * 2 ^ Zpos p) as [|q|q] eqn:E; [lia| |lia]. cbn [Z.mul Pos.mul shr_1 orb]. done.
Qed.

Lemma round_aux_exact M M' e' p :
  0 ≤ p → Zpos M' = Zpos M * 2 ^ p → Zpos (digits2_pos M) = 53 → -1074 ≤ e' + p ≤ 971 →
  binary_round_aux 53 1024 false (Zpos M') e' loc_Exact = S754_finite false M (e' + p).
Proof.
  intros Hp HM Hd He.
  assert (∀ e, -1074 ≤ e → shr_fexp 53 1024 (Zpos M) e loc_Exact = (Build_shr_record (Zpos M) false false, e)) as H0.
  { intros e Hle. unfold shr_fexp, fexp, emin. cbn [Zdigits2]. rewrite Hd.
    replace (Z.max (53 + e - 53) (3 - 1024 - 53) - e) with 0 by lia. done. }
  assert (shr_fexp 53 1024 (Zpos M') e' loc_Exact = (Build_shr_record (Zpos M) false false, e' + p)) as H1.
  { unfold shr_fexp, fexp, emin. cbn [Zdigits2].
    assert (Zpos (digits2_pos M') = 53 + p) as ->.
    { apply digits_unique. pose proof (digits_bounds M) as Hb. rewrite Hd in Hb. rewrite HM.
      replace (53 + p - 1) with (52 + p) by lia. rewrite !Z.pow_add_r by lia.
      change (53 - 1) with 52 in Hb. nia. }
    replace (Z.max (53 + p + e' - 53) (3 - 1024 - 53) - e') with p by lia.
    destruct p as [|p|p]; [|cbn [shr shr_record_of_loc]; by rewrite HM, shr_exact|lia].
    rewrite Z.add_0_r. cbn. rewrite HM. by rewrite Z.mul_1_r. }
  unfold binary_round_aux. rewrite H1. cbn [shr_m loc_of_shr_record round_nearest_even].
  rewrite H0 by lia. cbn [shr_m]. assert ((e' + p <=? 1024 - 53) = true) as -> by (apply Z.leb_le; lia). done.
Qed.

(** The canonical representation of a positive integer below 2^53. *)
Definition norm_ok (n : Z) (f : f64) : Prop :=
  ∃ m d M, n = Zpos m ∧ Zpos (digits2_pos m) = d ∧ d ≤ 53 ∧ f = S754_finite false M (d - 53)
    ∧ Zpos M = n * 2 ^ (53 - d).

Lemma digits_le_53 m : Zpos m < 2 ^ 53 → Zpos (digits2_pos m) ≤ 53.
Proof.
  intros H. pose proof (digits_bounds m) as [H1 _].
  assert (Zpos (digits2_pos m) - 1 < 53); [|lia]. apply (Z.pow_lt_mono_r_iff 2); lia.
Qed.

Lemma norm_digits m M d :
  Zpos (digits2_pos m) = d → d ≤ 53 → Zpos M = Zpos m * 2 ^ (53 - d) → Zpos (digits2_pos M) = 53.
Proof.
  intros Hd Hle HM. apply digits_unique. pose proof (digits_bounds m) as Hb. rewrite Hd in Hb. rewrite HM.
  assert (2 ^ (53 - 1) = 2 ^ (d - 1) * 2 ^ (53 - d)) as ->.
  { rewrite <-Z.pow_add_r by lia. f_equal. lia. }
  assert (2 ^ 53 = 2 ^ d * 2 ^ (53 - d)) as ->.
  { rewrite <-Z.pow_add_r by lia. f_equal. lia. }
  assert (0 < 2 ^ (53 - d)) by (apply Z.pow_pos_nonneg; lia). nia.
Qed.

(** Rounding [m * 2^j] with exponent [-j] gives the canonical form of [m]. *)
Lemma round_norm m j M' :
  0 ≤ j → Zpos m < 2 ^ 53 → 0 ≤ Zpos (digits2_pos m) - 53 + j ∨ j = 0 → Zpos M' = Zpos m * 2 ^ j → j ≤ 1000 →
  norm_ok (Zpos m) (binary_round 53 1024 false M' (- j)).
Proof.
  intros Hj Hm Hcase HM' Hj2. set (d := Zpos (digits2_pos m)).
  pose proof (digits_le_53 m Hm) as Hd. fold d in Hd.
  destruct (Zpos m * 2 ^ (53 - d)) as [|M|M] eqn:HM.
  1,3: assert (0 < 2 ^ (53 - d)) by (apply Z.pow_pos_nonneg; lia); nia.
  pose proof (norm_digits m M d eq_refl Hd (eq_sym HM)) as HdM.
  assert (Zpos (digits2_pos M') = d + j) as HdM'.
  { apply digits_unique. pose proof (digits_bounds m) as Hb. fold d in Hb. rewrite HM'.
    replace (d + j - 1) with ((d - 1) + j) by lia. rewrite !Z.pow_add_r by lia. nia. }
  exists m, d, M. split_and!; try done. unfold binary_round. rewrite HdM'.
  unfold fexp, emin. replace (Z.max (d + j + - j - 53) (3 - 1024 - 53)) with (d - 53) by lia.
  unfold shl_align. replace (d - 53 - - j) with (d - 53 + j) by lia.
  destruct (d - 53 + j) as [|q|q] eqn:Hq.
  - rewrite (round_aux_exact M M' (- j) 0); [f_equal; lia|lia| |done|lia].
    rewrite <-HM, HM'. replace (53 - d) with j by lia. lia.
  - rewrite (round_aux_exact M M' (- j) (Zpos q)); [f_equal; lia|lia| |done|lia].
    rewrite <-HM, HM', <-Z.mul_assoc, <-Z.pow_add_r by lia. do 2 f_equal. lia.
  - destruct Hcase as [?|Hj0]; [lia|]. subst j. assert (M' = m) as -> by (injection HM'; lia).
    rewrite (round_aux_exact M (Pos.iter xO m q) (d - 53) 0); [f_equal; lia|lia| |done|lia].
    rewrite iter_xO, <-HM. replace (53 - d) with (Zpos q) by lia. lia.
Qed.

Lemma norm_unique n f g : norm_ok n f → norm_ok n g → f = g.
Proof.
  intros (m & d & M & -> & <- & Hle & -> & HM) (m' & d' & M' & [= <-] & <- & Hle' & -> & HM').
  rewrite <-HM' in HM. congruence.
Qed.

Lemma f64_of_int_norm n : 0 < n < 2 ^ 53 → norm_ok n (f64_of_int n).
Proof.
  intros Hn. destruct n as [|m|m]; [lia| |lia]. unfold f64_of_int, binary_normalize.
  apply (round_norm m 0); [lia|lia|by right|lia|lia].
Qed.

Lemma f64_sub_one n : 0 < n < 2 ^ 53 → f64_sub (f64_of_int n) (f64_of_int 1) = f64_of_int (n - 1).
Proof.
  intros Hn. destruct (f64_of_int_norm n Hn) as (m & d & M & -> & Hd & Hle & -> & HM).
  change (f64_of_int 1) with (S754_finite false (2 ^ 52)%positive (-52)).
  unfold f64_sub, SFsub. assert (1 ≤ d) by (rewrite <-Hd; lia).
  replace (Z.min (d - 53) (-52)) with (-52) by lia.
  assert (Zpos (shl_align M (d - 53) (-52)).1 = Zpos m * 2 ^ 52) as Hal.
  { unfold shl_align. destruct (-52 - (d - 53)) as [|q|q] eqn:Hq; cbn [fst].
    - rewrite HM. do 2 f_equal. lia.
    - lia.
    - rewrite iter_xO, HM, <-Z.mul_assoc, <-Z.pow_add_r by lia. do 2 f_equal. lia. }
  rewrite Hal. cbn [cond_Zopp].
  change (Zpos (shl_align (2 ^ 52) (-52) (-52)).1) with (2 ^ 52).
  replace (Zpos m * 2 ^ 52 - 2 ^ 52) with ((Zpos m - 1) * 2 ^ 52) by lia.
  destruct (Zpos m - 1) as [|k|k] eqn:Hk; [reflexivity| |lia].
  destruct (Zpos k * 2 ^ 52) as [|M'|M'] eqn:HM'; [lia| |lia].
  unfold f64_of_int, binary_normalize. apply (norm_unique (Zpos k)).
  - apply (round_norm k 52); lia.
  - apply (round_norm k 0); [lia|lia|by right|lia|lia].
Qed.

Lemma f64_compare a b :
  0 < a < 2 ^ 53 → 0 < b < 2 ^ 53 → SFcompare (f64_of_int a) (f64_of_int b) = Some (a ?= b).
Proof.
  intros Ha Hb. destruct (f64_of_int_norm a Ha) as (m & d & M & -> & Hd & Hle & -> & HM).
  destruct (f64_of_int_norm b Hb) as (m' & d' & M' & -> & Hd' & Hle' & -> & HM').
  cbn [SFcompare]. f_equal.
  pose proof (digits_bounds m) as B1. pose proof (digits_bounds m') as B2. rewrite Hd in B1. rewrite Hd' in B2.
  destruct (Z.compare_spec (d - 53) (d' - 53)) as [E|E|E].
  - assert (d = d') as <- by lia. change (Pos.compare_cont Eq M M') with (Zpos M ?= Zpos M').
    rewrite HM, HM'. assert (0 < 2 ^ (53 - d)) as Hpos by (apply Z.pow_pos_nonneg; lia).
    symmetry. rewrite (Z.mul_comm (Zpos m)), (Z.mul_comm (Zpos m')).
    destruct (Z.compare_spec (Zpos m) (Zpos m')); symmetry;
      [apply Z.compare_eq_iff|apply Z.compare_lt_iff|apply Z.compare_gt_iff]; nia.
  - symmetry. apply Z.compare_lt_iff. assert (2 ^ d ≤ 2 ^ (d' - 1)) by (apply Z.pow_le_mono_r; lia). lia.
  - symmetry. apply Z.compare_gt_iff. assert (2 ^ d' ≤ 2 ^ (d - 1)) by (apply Z.pow_le_mono_r; lia). lia.
Qed.

Lemma f64_of_int_add_zero n : 0 ≤ n < 2 ^ 53 → f64_add (f64_of_int n) (S754_zero false) = f64_of_int n.
Proof.
  intros Hn. destruct (decide (n = 0)) as [->|]; [reflexivity|].
  destruct (f64_of_int_norm n) as (m & d & M & _ & _ & _ & -> & _); [lia|]. done.
Qed.

(** A query at the instant of the previous one: no refill. *)
Lemma spend_same q burst now n :
  0 < q < 2 ^ 53 → 0 < burst < 2 ^ 53 → 0 ≤ n ≤ burst →
  spend (f64_of_int q) burst now (mkBucket (f64_of_int n) now)
  = if 1 <=? n then (mkBucket (f64_of_int (n - 1)) now, true) else (mkBucket (f64_of_int n) now, false).
Proof.
  intros Hq Hb Hn. unfold spend. cbn [tb_last tb_tokens].
  assert (f64_mul (Seconds (time_sub now now)) (f64_of_int q) = S754_zero false) as ->.
  { unfold time_sub. rewrite Z.sub_diag. change (Z.max min_int64 (Z.min max_int64 0)) with 0.
    change (Seconds 0) with (S754_zero false).
    destruct (f64_of_int_norm q Hq) as (m & d & M & _ & _ & _ & -> & _). done. }
  rewrite f64_of_int_add_zero by lia. unfold f64_ltb, SFltb, f64_leb, SFleb.
  destruct (decide (n = 0)) as [->|Hn0].
  - destruct (f64_of_int_norm burst Hb) as (m & d & M & _ & _ & _ & -> & _). done.
  - rewrite !f64_compare by lia.
    assert ((1 <=? n) = true) as -> by (apply Z.leb_le; lia). rewrite <-f64_sub_one by lia.
    destruct (Z.compare_spec burst n); [|lia|]; rewrite f64_compare by lia;
      (destruct (Z.compare_spec 1 n); [| |lia]); done.
Qed.

(** ** Invariant *)
Definition shard_limit : Z := Z.quot maxLiveClients rlShards.
Record rl_wf (rl : rateLimiter) : Prop := {
  rl_len : length (rl_shards rl) = Z.to_nat rlShards;
  rl_size : ∀ sh, sh ∈ rl_shards rl → Z.of_nat (size sh) ≤ shard_limit;
  rl_home : ∀ i sh c, rl_shards rl !! i = Some sh → is_Some (sh !! c) → Z.of_nat i = rlShardFor c }.

Inductive rl_reachable : rateLimiter → Prop :=
| rlr_new : rl_reachable newRateLimiter
| rlr_set q b rl : rl_reachable rl → rl_reachable (rl_set q b rl)
| rlr_allow order now c rl : rl_reachable rl → rl_reachable (allow order now c rl).1.

Lemma fnv32a_nonneg h s : 0 ≤ h → 0 ≤ fnv32a h s.
Proof.
  revert h. induction s as [|c s IH]; intros h Hh; cbn [fnv32a]; [done|]. apply IH. apply u32_bound.
Qed.
Lemma rlShardFor_bound c : 0 ≤ rlShardFor c < rlShards.
Proof.
  unfold rlShardFor. pose proof (fnv32a_nonneg 2166136261 c ltac:(lia)).
  change (rlShards - 1) with (Z.ones 4). rewrite Z.land_ones by lia. apply Z.mod_pos_bound. done.
Qed.

Lemma evict_idle_cases order now sh :
  evict_idle order now sh = sh
  ∨ ∃ k v, sh !! k = Some v ∧ minute < time_sub now (tb_last v) ∧ evict_idle order now sh = delete k sh.
Proof.
  induction order as [|k order IH]; cbn [evict_idle]; [by left|].
  destruct (sh !! k) as [v|] eqn:Hk; [|done]. destruct (_ <? _) eqn:E; [|done]. bools. right. eauto.
Qed.

Lemma evict_idle_sub order now sh c : is_Some (evict_idle order now sh !! c) → is_Some (sh !! c).
Proof.
  destruct (evict_idle_cases order now sh) as [->|(k & v & _ & _ & ->)]; [done|].
  intros [b Hb]. apply lookup_delete_Some in Hb as [_ Hb]. eauto.
Qed.

Lemma spend_insert_size (sh : rlShard) c b :
  Z.of_nat (size sh) < shard_limit ∨ (is_Some (sh !! c) ∧ Z.of_nat (size sh) ≤ shard_limit) →
  Z.of_nat (size (<[c := b]> sh)) ≤ shard_limit.
Proof.
  rewrite map_size_insert. intros [Hs|[[v Hv] Hs]]; [destruct (sh !! c)|rewrite Hv]; cbn; lia.
Qed.

(** What a query of [c] may do to its shard. *)
Definition kept (now : Z) (c : string) (sh sh' : rlShard) : Prop :=
  ∀ c' v, c' ≠ c → sh !! c' = Some v → sh' !! c' = Some v ∨ minute < time_sub now (tb_last v).
Record locked_post (now : Z) (c : string) (sh : rlShard) (r : rlShard * bool) : Prop := {
  lp_size : Z.of_nat (size r.1) ≤ shard_limit;
  lp_dom : ∀ c', is_Some (r.1 !! c') → c' = c ∨ is_Some (sh !! c');
  lp_kept : kept now c sh r.1;
  lp_denied : r.2 = false → is_Some (r.1 !! c) }.

Lemma allow_locked_ok qps burst order now c (sh : rlShard) :
  Z.of_nat (size sh) ≤ shard_limit → locked_post now c sh (allow_locked qps burst order now c sh).
Proof.
  intros Hsz. unfold allow_locked. fold shard_limit.
  assert (∀ b (sh1 : rlShard),
    Z.of_nat (size sh1) < shard_limit ∨ (is_Some (sh1 !! c) ∧ Z.of_nat (size sh1) ≤ shard_limit) →
    (∀ c', is_Some (sh1 !! c') → is_Some (sh !! c')) → kept now c sh sh1 →
    locked_post now c sh (let '(b, ok) := spend qps burst now b in (<[c := b]> sh1, ok))) as Huse.
  { intros b sh1 Hs1 Hsub Hkeep. destruct (spend qps burst now b) as [b' ok]. split; cbn [fst snd].
    - by apply spend_insert_size.
    - intros c' Hc'. destruct (decide (c' = c)); [by left|]. rewrite lookup_insert_ne in Hc' by done. auto.
    - intros c' v Hne Hv. rewrite lookup_insert_ne by done. auto.
    - intros _. by rewrite lookup_insert_eq. }
  assert (kept now c sh sh) as Hid by (intros c' v _ Hv; by left).
  assert (kept now c sh (evict_idle order now sh)) as Hev.
  { intros c' v _ Hv. destruct (evict_idle_cases order now sh) as [->|(k & v' & Hk & Hm & ->)]; [by left|].
    destruct (decide (c' = k)) as [->|]; [right; congruence|left; by rewrite lookup_delete_ne]. }
  destruct (sh !! c) as [b|] eqn:Hc; [apply Huse; rewrite ?Hc; eauto|].
  destruct (shard_limit <=? _) eqn:E; bools; [|apply Huse; eauto].
  destruct (shard_limit <=? Z.of_nat (size (evict_idle order now sh))) eqn:E2; bools.
  - split; cbn [fst snd]; [|intros c' ?%evict_idle_sub; by right|done|done].
    destruct (evict_idle_cases order now sh) as [->|(k & v' & Hk & Hm & ->)]; [done|].
    rewrite map_size_delete, Hk. lia.
  - apply Huse; [by left|apply evict_idle_sub|done].
Qed.

Lemma rl_reachable_wf rl : rl_reachable rl → rl_wf rl.
Proof.
  induction 1 as [|q b rl _ [Hl Hs Hh]|order now c rl _ [Hl Hs Hh]].
  - split; [done| |].
    + intros sh [-> _]%elem_of_replicate. by vm_compute.
    + intros i sh c [-> _]%lookup_replicate [? ?]. done.
  - split; cbn [rl_set rl_shards].
    + by rewrite length_fmap.
    + intros sh (? & -> & _)%list_elem_of_fmap. by vm_compute.
    + intros i sh c. rewrite list_lookup_fmap_Some. intros (? & -> & _) [? ?]. done.
  - unfold allow. destruct (_ || _); [done|]. destruct (f64_leb _ _); [done|].
    destruct (rl_shards rl !! _) as [sh|] eqn:Hsh; [|done].
    pose proof (allow_locked_ok (f64_of_int (rl_qpsVal rl)) (rl_burstVal rl) order now c sh) as H.
    destruct (allow_locked _ _ _ _ _ _) as [sh' ok].
    destruct H as [Hsz Hsub _ _]; [by eapply Hs, list_elem_of_lookup_2|]. cbn [fst] in *.
    split; cbn [fst rl_shards].
    + by rewrite length_insert.
    + intros sh0 [i Hi]%list_elem_of_lookup_1. apply list_lookup_insert_Some in Hi as [(_ & <- & _)|[_ Hi]]; [done|].
      by eapply Hs, list_elem_of_lookup_2.
    + intros i sh0 c' Hi Hc'. apply list_lookup_insert_Some in Hi as [(<- & <- & _)|[_ Hi]]; [|by eapply Hh].
      destruct (Hsub c' Hc') as [->|?]; [|by eapply Hh]. pose proof (rlShardFor_bound c). lia.
Qed.

Lemma rl_set_reset q b rl sh c : sh ∈ rl_shards (rl_set q b rl) → sh !! c = None.
Proof. cbn. by intros (? & -> & _)%list_elem_of_fmap. Qed.

(** ** Bursts *)
Fixpoint burst_run (order : list string) (now : Z) (c : string) (n : nat) (rl : rateLimiter) : list bool :=
  match n with
  | O => []
  | S n => let '(rl, ok) := allow order now c rl in ok :: burst_run order now c n rl
  end.

Lemma burst_run_tracked order now c n rl sh t :
  c ≠ "" → rl_off rl = false → 0 < rl_qpsVal rl < 2 ^ 53 → 0 < rl_burstVal rl < 2 ^ 53 →
  0 ≤ t ≤ rl_burstVal rl →
  rl_shards rl !! Z.to_nat (rlShardFor c) = Some sh → sh !! c = Some (mkBucket (f64_of_int t) now) →
  burst_run order now c n rl = replicate (n `min` Z.to_nat t) true ++ replicate (n - Z.to_nat t) false.
Proof.
  intros Hc Hoff Hq Hb Ht Hsh Hbk. revert rl t sh Hoff Hq Hb Ht Hsh Hbk.
  induction n as [|n IH]; intros rl t sh Hoff Hq Hb Ht Hsh Hbk; [done|]. cbn [burst_run].
  assert (f64_leb (f64_of_int (rl_qpsVal rl)) (f64_of_int 0) = false) as Hle.
  { destruct (f64_of_int_norm (rl_qpsVal rl) Hq) as (m & d & M & _ & _ & _ & -> & _). done. }
  unfold allow at 1. apply str_eqb_neq in Hc as Hc'. rewrite Hc', Hoff, Hle, Hsh. cbn [orb].
  unfold allow_locked. rewrite Hbk, spend_same by done.
  assert (Z.to_nat (rlShardFor c) < length (rl_shards rl))%nat as Hlt by (by eapply lookup_lt_Some).
  destruct (1 <=? t) eqn:Et; bools.
  - rewrite (IH _ (t - 1) (<[c := mkBucket (f64_of_int (t - 1)) now]> sh)); cbn; try done; try lia.
    + destruct (Z.to_nat t) as [|k] eqn:Ek; [lia|]. replace (Z.to_nat (t - 1)) with k by lia. done.
    + by rewrite list_lookup_insert_eq.
    + by rewrite lookup_insert_eq.
  - rewrite (IH _ t (<[c := mkBucket (f64_of_int t) now]> sh)); cbn; try done.
    + replace (Z.to_nat t) with 0%nat by lia. rewrite !Nat.min_0_r, Nat.sub_0_r. done.
    + by rewrite list_lookup_insert_eq.
    + by rewrite lookup_insert_eq.
Qed.

(** ** Properties *)

(** C39: After the limit is set, a client that sends any number of queries at
    one instant gets exactly its burst: the first [b] are answered and every
    further one is refused (token arithmetic is exact in binary64 for limits
    below 2^53). *)
Theorem ratelimit_burst rl q b order now c n :
  rl_reachable rl → 0 < q < 2 ^ 53 → 0 < b < 2 ^ 53 → c ≠ "" →
  burst_run order now c n (rl_set q b rl)
  = replicate (n `min` Z.to_nat b) true ++ replicate (n - Z.to_nat b) false.
Proof.
  intros Hrl Hq Hb Hc. destruct n as [|n]; [done|].
  pose proof (rl_reachable_wf _ (rlr_set q b rl Hrl)) as Hwf.
  assert (rl_qpsVal (rl_set q b rl) = q ∧ rl_burstVal (rl_set q b rl) = b ∧ rl_off (rl_set q b rl) = false)
    as (Eq & Eb & Eo).
  { unfold rl_set. cbn [rl_qpsVal rl_burstVal rl_off]. destruct (Z.ltb_spec q 0); [lia|].
    destruct (Z.leb_spec b 0); [lia|]. split_and!; [done|done|]. apply Z.eqb_neq. lia. }
  destruct (lookup_lt_is_Some_2 (rl_shards (rl_set q b rl)) (Z.to_nat (rlShardFor c))) as [sh Hsh].
  { rewrite (rl_len _ Hwf). pose proof (rlShardFor_bound c). lia. }
  pose proof (rl_set_reset q b rl sh) as Hempty. apply list_elem_of_lookup_2 in Hsh as Hin.
  assert (sh = ∅) as -> by (apply map_empty; intros; by apply Hempty).
  remember (rl_set q b rl) as rl1. cbn [burst_run].
  assert (f64_leb (f64_of_int q) (f64_of_int 0) = false) as Hle.
  { destruct (f64_of_int_norm q Hq) as (m & d & M & _ & _ & _ & -> & _). done. }
  unfold allow at 1. apply str_eqb_neq in Hc as Hc'. rewrite Hc', Eo, Eq, Eb, Hle, Hsh. cbn [orb].
  unfold allow_locked. rewrite lookup_empty, map_size_empty, spend_same by lia.
  change (Z.quot maxLiveClients rlShards <=? Z.of_nat 0) with false.
  assert ((1 <=? b) = true) as -> by (apply Z.leb_le; lia). cbn iota beta zeta.
  rewrite (burst_run_tracked order now c n _ {[c := mkBucket (f64_of_int (b - 1)) now]} (b - 1));
    cbn [rl_off rl_qpsVal rl_burstVal rl_shards]; try done; try lia.
  - destruct (Z.to_nat b) as [|k] eqn:Ek; [lia|]. replace (Z.to_nat (b - 1)) with k by lia. done.
  - by rewrite list_lookup_insert_eq by (by eapply lookup_lt_Some).
  - by rewrite lookup_singleton_eq.
Qed.
Lemma ratelimit_burst_witness :
  burst_run [] 0 "192.0.2.7" 5 (rl_set 50 3 newRateLimiter) = [true; true; true; false; false].
Proof. apply (ratelimit_burst newRateLimiter 50 3 [] 0 "192.0.2.7" 5); [apply rlr_new|lia|lia|done]. Defined.

(** In every reachable limiter no shard tracks more than 1024 clients and
    every client is filed in the shard of its hash.  A query of one client
    never changes another client's bucket, except that it may drop one that was
    idle for more than a minute; it is refused only if the limiter is enabled
    and the client itself is tracked (a saturated limiter lets it through). *)
Theorem ratelimit_isolation rl order now c :
  rl_reachable rl →
  (∀ i sh, rl_shards rl !! i = Some sh →
     Z.of_nat (size sh) ≤ 1024 ∧ ∀ c', is_Some (sh !! c') → Z.of_nat i = rlShardFor c')
  ∧ (∀ i sh, rl_shards rl !! i = Some sh →
       ∃ sh', rl_shards (allow order now c rl).1 !! i = Some sh' ∧ kept now c sh sh')
  ∧ ((allow order now c rl).2 = false →
       rl_off rl = false ∧ c ≠ ""
       ∧ ∃ sh, rl_shards (allow order now c rl).1 !! Z.to_nat (rlShardFor c) = Some sh ∧ is_Some (sh !! c)).
Proof.
  intros Hrl%rl_reachable_wf. split_and!.
  - intros i sh Hi. split; [by apply (rl_size rl Hrl), (list_elem_of_lookup_2 _ i)|].
    intros c'. by apply (rl_home rl Hrl i sh).
  - intros i sh Hi. assert (kept now c sh sh) as Hid by (intros ???; by left).
    unfold allow. destruct (_ || _); [by exists sh|]. destruct (f64_leb _ _); [by exists sh|].
    destruct (rl_shards rl !! Z.to_nat _) as [sh0|] eqn:H0; [|by exists sh].
    pose proof (allow_locked_ok (f64_of_int (rl_qpsVal rl)) (rl_burstVal rl) order now c sh0) as Hok.
    destruct (allow_locked _ _ _ _ _ _) as [sh' ok]. cbn [fst rl_shards].
    destruct (decide (i = Z.to_nat (rlShardFor c))) as [->|].
    + exists sh'. simplify_eq. rewrite list_lookup_insert_eq by (by eapply lookup_lt_Some). split; [done|].
      apply Hok, (rl_size rl Hrl). by eapply list_elem_of_lookup_2.
    + exists sh. by rewrite list_lookup_insert_ne.
  - unfold allow. destruct (str_eqb c "") eqn:Hc; [done|]. apply str_eqb_neq in Hc.
    destruct (rl_off rl); [done|]. cbn [orb]. destruct (f64_leb _ _); [done|].
    destruct (rl_shards rl !! Z.to_nat _) as [sh0|] eqn:H0; [|done].
    pose proof (allow_locked_ok (f64_of_int (rl_qpsVal rl)) (rl_burstVal rl) order now c sh0) as Hok.
    destruct (allow_locked _ _ _ _ _ _) as [sh' ok]. cbn [fst snd rl_shards]. intros ->. split_and!; [done|done|].
    exists sh'. rewrite list_lookup_insert_eq by (by eapply lookup_lt_Some). split; [done|].
    destruct Hok as [_ _ _ H]; [|by apply H]. apply (rl_size rl Hrl). by eapply list_elem_of_lookup_2.
Qed.
Lemma ratelimit_isolation_witness :
  let rl := (allow [] 0 "192.0.2.7" (rl_set 1 1 newRateLimiter)).1 in
  (allow [] 0 "192.0.2.7" rl).2 = false
  ∧ ∃ sh, rl_shards (allow [] 0 "192.0.2.7" rl).1 !! Z.to_nat (rlShardFor "192.0.2.7") = Some sh
          ∧ is_Some (sh !! "192.0.2.7").
Proof.
  intros rl. split; [vm_compute; reflexivity|].
  apply (ratelimit_isolation rl [] 0 "192.0.2.7"); [|vm_compute; reflexivity].
  apply rlr_allow, rlr_set, rlr_new.
Defined.
