(* ===== verification/Records.v ===== *)
(** * Local records (internal/dnsserver/records.go)

    The static A/AAAA/CNAME records an instance answers itself, the PTR answers
    synthesised from them, and the checksum by which the controller decides
    whether to push them again (RecordsHash of internal/control/server.go,
    maybePushRecords of internal/controller/fleet.go).

    Go visits a map in an unspecified order: where the source ranges over a
    map, the order is the argument [enum], an enumeration of the keys. *)
From S2P Require Import Prelude GoStrings GoNet Dns.
From Stdlib Require Import Ascii.
#[local] Open Scope Z_scope.

Definition defaultRecordTTL : Z := 60.
Definition maxRecordTTL : Z := 7 * 24 * 3600.

Record RecordEntry := mkRec { r_Domain : string; r_Type : string; r_Value : string; r_TTL : Z }.
#[export] Instance RecordEntry_eq_dec : EqDecision RecordEntry.
Proof. solve_decision. Defined.

Record RecordStore := mkRS {
  rs_records : gmap string (list RecordEntry);
  rs_wildcards : gmap string (list RecordEntry) }.
Definition NewRecordStore : RecordStore := mkRS ∅ ∅.

(** The body of the loop of [SetRecords]. *)
Definition append_rec (k : string) (r : RecordEntry) (m : gmap string (list RecordEntry)) :=
  <[k := default [] (m !! k) ++ [r]]> m.
Definition rec_key (r : RecordEntry) : string := ToLower (TrimSuffix (r_Domain r) ".").
Definition add_record (rs : RecordStore) (r : RecordEntry) : RecordStore :=
  let key := rec_key r in
  if str_eqb key "" then rs
  else if HasPrefix key "*." then
    let parent := sdrop 2 key in
    if str_eqb parent "" then rs
    else mkRS (rs_records rs) (append_rec parent r (rs_wildcards rs))
  else mkRS (append_rec key r (rs_records rs)) (rs_wildcards rs).
Definition SetRecords (records : list RecordEntry) (rs : RecordStore) : RecordStore :=
  foldl add_record NewRecordStore records.

(** The concatenated lists of a map, its keys visited in the order [enum]. *)
Definition flatten (m : gmap string (list RecordEntry)) (enum : list string) : list RecordEntry :=
  concat ((λ k, default [] (m !! k)) <$> enum).
Definition GetRecords (enum_r enum_w : list string) (rs : RecordStore) : list RecordEntry :=
  flatten (rs_records rs) enum_r ++ flatten (rs_wildcards rs) enum_w.

(** ** Lookup *)
(** The search loop over [labels[i:]]. *)
Fixpoint find_wild (m : gmap string (list RecordEntry)) (labels : list string) (js : list nat)
    : list RecordEntry :=
  match js with
  | [] => []
  | i :: js =>
      match m !! Join (drop i labels) "." with
      | Some w => w
      | None => find_wild m labels js
      end
  end.
Definition records_for (domain : string) (rs : RecordStore) : list RecordEntry :=
  let recs := default [] (rs_records rs !! domain) in
  match recs with
  | [] => let labels := Split domain dot in
          find_wild (rs_wildcards rs) labels (seq 1 (length labels - 1))
  | _ => recs
  end.
Definition rec_ttl (t : Z) : Z :=
  let ttl := u32 t in
  if t <=? 0 then defaultRecordTTL else if maxRecordTTL <? ttl then maxRecordTTL else ttl.
(** The body of the answer loop: (answers, matched, nameKnown). *)
Definition answer_step (q : Question) (acc : list RR * bool * bool) (r : RecordEntry) : list RR * bool * bool :=
  let '(ans, matched, known) := acc in
  match StringToType (ToUpper (r_Type r)) with
  | None => acc
  | Some t =>
      if negb (t =? TypeA) && negb (t =? TypeAAAA) && negb (t =? TypeCNAME) then acc
      else if negb (t =? q_Qtype q) then (ans, matched, true)
      else
        let hdr := mkHdr (q_Name q) t ClassINET (rec_ttl (r_TTL r)) in
        if t =? TypeA then
          match ParseIP_opt (r_Value r) with
          | None => (ans, matched, true)
          | Some ip => (ans ++ [mkRR hdr (RD_A (default [] (To4 ip)))], true, true)
          end
        else if t =? TypeAAAA then
          match ParseIP_opt (r_Value r) with
          | None => (ans, matched, true)
          | Some ip => (ans ++ [mkRR hdr (RD_AAAA (default [] (To16 ip)))], true, true)
          end
        else (ans ++ [mkRR hdr (RD_CNAME (Fqdn (r_Value r)))], true, true)
  end.
Definition local_reply (req : Msg) (ans : list RR) : Msg :=
  with_Answer ans (with_RecursionAvailable true (with_Authoritative true (SetReply req))).

(** [ptrIPFromArpa]. *)
Definition group4 (n : list string) (i : nat) : string := Join (take 4 (drop (4 * i) n)) "".
Definition ptrIPFromArpa (name : string) : option IP :=
  let n := ToLower (TrimSuffix name ".") in
  match CutSuffix n ".in-addr.arpa" with
  | Some rest =>
      let parts := Split rest dot in
      if negb (length parts =? 4)%nat then None
      else match ParseIP_opt (Join (reverse parts) ".") with
           | Some ip => if bool_decide (is_Some (To4 ip)) then Some ip else None
           | None => None
           end
  | None =>
      match CutSuffix n ".ip6.arpa" with
      | Some rest =>
          let nibbles := Split rest dot in
          if negb (length nibbles =? 32)%nat then None
          else ParseIP_opt (Join (group4 (reverse nibbles) <$> seq 0 8) ":")
      | None => None
      end
  end.

(** The record a PTR answer is made of, if [r] is about [ip]. *)
Definition ptr_answer (qname : string) (ip : IP) (r : RecordEntry) : option RR :=
  let t := ToUpper (r_Type r) in
  if negb (str_eqb t "A") && negb (str_eqb t "AAAA") then None
  else match ParseIP_opt (r_Value r) with
       | None => None
       | Some rip =>
           if negb (ip_equal rip ip) then None
           else
             let ttl := if 0 <? r_TTL r
                        then (let t := u32 (r_TTL r) in if maxRecordTTL <? t then maxRecordTTL else t)
                        else defaultRecordTTL in
             Some (mkRR (mkHdr qname TypePTR ClassINET ttl)
                     (RD_PTR (Fqdn (ToLower (TrimSuffix (r_Domain r) ".")))))
       end.
Definition lookupPTR (enum : list string) (req : Msg) (qname : string) (rs : RecordStore) : option Msg :=
  match ptrIPFromArpa qname with
  | None => None
  | Some ip =>
      match omap (ptr_answer qname ip) (flatten (rs_records rs) enum) with
      | [] => None
      | ans => Some (local_reply req ans)
      end
  end.

Definition Lookup (enum : list string) (req : Msg) (rs : RecordStore) : option Msg :=
  match m_Question req with
  | [] => None
  | q :: _ =>
      let domain := ToLower (TrimSuffix (q_Name q) ".") in
      if str_eqb domain "" then None
      else if q_Qtype q =? TypePTR then lookupPTR enum req (q_Name q) rs
      else
        match records_for domain rs with
        | [] => None
        | recs =>
            let '(ans, matched, known) := foldl (answer_step q) ([], false, false) recs in
            if matched then Some (local_reply req ans)
            else if known then Some (local_reply req ans) else None
        end
  end.

(** ** Checksum *)
Definition str_ltb (s t : string) : bool := String.ltb s t.
Definition rec_less (a b : RecordEntry) : bool :=
  if negb (str_eqb (r_Domain a) (r_Domain b)) then str_ltb (r_Domain a) (r_Domain b)
  else if negb (str_eqb (r_Type a) (r_Type b)) then str_ltb (r_Type a) (r_Type b)
  else if negb (str_eqb (r_Value a) (r_Value b)) then str_ltb (r_Value a) (r_Value b)
  else r_TTL a <? r_TTL b.
Definition rec_le (a b : RecordEntry) : Prop := rec_less b a = false.
#[export] Instance rec_le_dec : RelDecision rec_le.
Proof. intros a b. unfold rec_le. apply _. Defined.

(** FNV-1 (64 bit). *)
Fixpoint fnv64 (h : Z) (s : string) : Z :=
  match s with
  | "" => h
  | String c s => fnv64 (Z.lxor (u64 (h * 1099511628211)) (Z.of_N (N_of_ascii c))) s
  end.
Definition nul : string := String (ascii_of_N 0) "".
Definition rec_bytes (r : RecordEntry) : string :=
  r_Domain r +:+ nul +:+ r_Type r +:+ nul +:+ r_Value r +:+ nul +:+ Itoa (r_TTL r) +:+ nul.
Definition RecordsHash (records : list RecordEntry) : Z :=
  foldl (λ h r, fnv64 h (rec_bytes r)) 14695981039346656037 (merge_sort rec_le records).
Definition Hash (enum_r enum_w : list string) (rs : RecordStore) : Z :=
  RecordsHash (GetRecords enum_r enum_w rs).

(** ** Reconciliation (controller side)

    [effectiveRecords] and the decision of [maybePushRecords]: [None] is no
    push, [Some l] pushes [l].  [reported] is the hash in the instance's last
    statistics, [None] when it reported none. *)
Definition effectiveRecords (fleet : list RecordEntry) (override : option (list RecordEntry)) : list RecordEntry :=
  match override with Some o => o | None => fleet end.
Definition recordsHash (fleet : list RecordEntry) : Z := RecordsHash fleet.
Definition maybePushRecords (fleet : list RecordEntry) (override : option (list RecordEntry))
    (hasToken : bool) (reported : option Z) : option (list RecordEntry) :=
  let wantHash := recordsHash fleet in
  let repHash := default 0 reported in
  if (repHash =? wantHash) || negb hasToken then None
  else Some (effectiveRecords fleet override).

(** ** The comparator is a total order *)
Lemma str_ltb_false s t : str_ltb t s = false ↔ String.le s t.
Proof.
  unfold str_ltb, String.ltb, String.le, String.leb. rewrite (String.compare_antisym t s).
  destruct (s ?= t)%string; simpl; naive_solver.
Qed.

Definition ttl_le (a b : RecordEntry) : Prop := r_TTL a ≤ r_TTL b.
Definition rec_lex : relation RecordEntry :=
  lex String.le r_Domain (lex String.le r_Type (lex String.le r_Value ttl_le)).

Lemma rec_le_lex a b : rec_le a b ↔ rec_lex a b.
Proof.
  unfold rec_le, rec_less, rec_lex, lex, ttl_le.
  assert (∀ s t : string, negb (str_eqb t s) = if decide (s = t) then false else true) as H.
  { intros s t. case_decide as E; [subst; by rewrite str_eqb_refl|].
    apply negb_true_iff, str_eqb_neq. congruence. }
  rewrite !H. repeat case_decide; rewrite ?str_ltb_false; try done. rewrite Z.ltb_ge. done.
Qed.

#[export] Instance ttl_le_total : Total ttl_le.
Proof. intros a b. unfold ttl_le. lia. Qed.
#[export] Instance ttl_le_trans : Transitive ttl_le.
Proof. intros a b c. unfold ttl_le. lia. Qed.
#[export] Instance rec_le_total : Total rec_le.
Proof. intros a b. rewrite !rec_le_lex. unfold rec_lex. apply (total _). Qed.
#[export] Instance rec_le_trans : Transitive rec_le.
Proof. intros a b c. rewrite !rec_le_lex. unfold rec_lex. apply transitivity. Qed.
#[export] Instance rec_le_anti : AntiSymm (=) rec_le.
Proof.
  intros a b. rewrite !rec_le_lex. unfold rec_lex. intros H1 H2.
  destruct (lex_anti_symm _ _ _ _ _ H1 H2) as (E1 & H3 & H4).
  destruct (lex_anti_symm _ _ _ _ _ H3 H4) as (E2 & H5 & H6).
  destruct (lex_anti_symm _ _ _ _ _ H5 H6) as (E3 & H7 & H8).
  unfold ttl_le in *. destruct a, b. cbn in *. f_equal; [done..|lia].
Qed.

Lemma RecordsHash_perm l k : l ≡ₚ k → RecordsHash l = RecordsHash k.
Proof. intros H. unfold RecordsHash. by rewrite (merge_sort_unique rec_le l k H). Qed.

(** ** What SetRecords keeps *)
Definition exact_for (d : string) (r : RecordEntry) : Prop :=
  rec_key r = d ∧ d ≠ "" ∧ HasPrefix d "*." = false.
Definition wild_for (p : string) (r : RecordEntry) : Prop := rec_key r = "*." +:+ p ∧ p ≠ "".
Definition kept_record (r : RecordEntry) : Prop := rec_key r ≠ "" ∧ rec_key r ≠ "*.".
#[export] Instance exact_for_dec d r : Decision (exact_for d r).
Proof. unfold exact_for. apply _. Defined.
#[export] Instance wild_for_dec p r : Decision (wild_for p r).
Proof. unfold wild_for. apply _. Defined.
#[export] Instance kept_record_dec r : Decision (kept_record r).
Proof. unfold kept_record. apply _. Defined.

(** A map of nonempty lists is read as the function from keys to lists. *)
Definition lists (m : gmap string (list RecordEntry)) (k : string) : list RecordEntry := default [] (m !! k).

Lemma append_lists k r m k' :
  lists (append_rec k r m) k' = lists m k' ++ (if decide (k' = k) then [r] else []).
Proof.
  unfold lists, append_rec. destruct (decide (k' = k)) as [->|].
  - by rewrite lookup_insert_eq.
  - by rewrite lookup_insert_ne, List.app_nil_r.
Qed.

Lemma wild_key p : "*." +:+ p = String "*" (String dot p).
Proof. done. Qed.

(** Every record goes to at most one list. *)
Lemma add_record_lists rs r d :
  lists (rs_records (add_record rs r)) d = lists (rs_records rs) d ++ filter (exact_for d) [r]
  ∧ lists (rs_wildcards (add_record rs r)) d = lists (rs_wildcards rs) d ++ filter (wild_for d) [r].
Proof.
  unfold add_record. rewrite !filter_cons, !filter_nil.
  destruct (str_eqb (rec_key r) "") eqn:E0.
  { apply str_eqb_eq in E0. rewrite !decide_False, !List.app_nil_r; [done|..]; unfold exact_for, wild_for; rewrite E0.
    - rewrite wild_key. by intros [? _].
    - by intros (<- & ? & _). }
  apply str_eqb_neq in E0. destruct (HasPrefix (rec_key r) "*.") eqn:E1.
  - apply HasPrefix_spec in E1 as [p Hp].
    rewrite (decide_False (P := exact_for d r)), List.app_nil_r; cycle 1.
    { intros (<- & _ & H). rewrite Hp, HasPrefix_app in H. done. }
    assert (sdrop 2 (rec_key r) = p) as -> by (rewrite Hp; apply (sdrop_app "*.")).
    assert (wild_for d r ↔ d = p ∧ p ≠ "") as Hw.
    { unfold wild_for. rewrite Hp. split.
      - intros [H ?]. apply (inj (String.app "*.")) in H as <-. done.
      - by intros [-> ?]. }
    destruct (str_eqb p "") eqn:E2.
    + apply str_eqb_eq in E2. split; [done|]. rewrite decide_False, List.app_nil_r; [done|]. rewrite Hw. by intros [_ ?].
    + apply str_eqb_neq in E2. cbn [rs_records rs_wildcards]. split; [done|]. rewrite append_lists. f_equal.
      destruct (decide (d = p)); [by rewrite decide_True by (by apply Hw)|].
      rewrite decide_False; [done|]. rewrite Hw. by intros [? _].
  - assert (exact_for d r ↔ d = rec_key r) as He by (unfold exact_for; split; [by intros [-> _]|by intros ->]).
    cbn [rs_records rs_wildcards]. split.
    + rewrite append_lists. f_equal.
      destruct (decide (d = rec_key r)); [by rewrite decide_True by (by apply He)|].
      rewrite decide_False; [done|]. by rewrite He.
    + rewrite decide_False, List.app_nil_r; [done|]. intros [H ?]. rewrite H, HasPrefix_app in E1. done.
Qed.

Lemma SetRecords_lists l rs d :
  lists (rs_records (SetRecords l rs)) d = filter (exact_for d) l
  ∧ lists (rs_wildcards (SetRecords l rs)) d = filter (wild_for d) l.
Proof.
  unfold SetRecords. induction l as [|r l [IH1 IH2]] using rev_ind; [done|].
  rewrite foldl_app. cbn [foldl]. destruct (add_record_lists (foldl add_record NewRecordStore l) r d) as [-> ->].
  rewrite IH1, IH2, !filter_app. done.
Qed.

(** ** Enumerations of the store *)
Definition enumerates (enum : list string) (m : gmap string (list RecordEntry)) : Prop :=
  enum ≡ₚ (map_to_list m).*1.
Definition all_of (m : gmap string (list RecordEntry)) : list RecordEntry := concat (map_to_list m).*2.

Lemma concat_perm {A} (l k : list (list A)) : l ≡ₚ k → concat l ≡ₚ concat k.
Proof.
  induction 1 as [|x l k _ IH|x y l|l k j _ IH1 _ IH2]; cbn [concat].
  - done.
  - by rewrite IH.
  - rewrite !(assoc_L (++)). by rewrite (Permutation_app_comm x y).
  - by rewrite IH1, IH2.
Qed.

Lemma flatten_all m enum : enumerates enum m → flatten m enum ≡ₚ all_of m.
Proof.
  intros He. unfold flatten, all_of. apply concat_perm. rewrite He.
  rewrite <-list_fmap_compose. apply Permutation_refl', Forall_fmap_ext.
  rewrite Forall_forall. intros [k l] Hk%elem_of_map_to_list. cbn. by rewrite Hk.
Qed.

Lemma all_of_append k r m : all_of (append_rec k r m) ≡ₚ all_of m ++ [r].
Proof.
  unfold all_of, append_rec. destruct (m !! k) as [l|] eqn:Hk; cbn [default].
  - rewrite <-insert_delete_eq. rewrite map_to_list_insert by apply lookup_delete_eq.
    rewrite <-(insert_delete_id m k l Hk) at 2. rewrite map_to_list_insert by apply lookup_delete_eq.
    cbn. rewrite <-!(assoc_L (++)). apply Permutation_app_head, Permutation_app_comm.
  - rewrite map_to_list_insert by done. cbn. apply (Permutation_app_comm [r]).
Qed.

Lemma SetRecords_all l rs :
  all_of (rs_records (SetRecords l rs)) ++ all_of (rs_wildcards (SetRecords l rs)) ≡ₚ filter kept_record l.
Proof.
  unfold SetRecords. induction l as [|r l IH] using rev_ind; [done|].
  rewrite foldl_app, filter_app, <-IH. cbn [foldl]. set (rs' := foldl add_record NewRecordStore l).
  rewrite filter_cons, filter_nil. unfold add_record.
  destruct (str_eqb (rec_key r) "") eqn:E0.
  { apply str_eqb_eq in E0. rewrite decide_False, List.app_nil_r; [done|]. by intros [? _]. }
  apply str_eqb_neq in E0. destruct (HasPrefix (rec_key r) "*.") eqn:E1.
  - apply HasPrefix_spec in E1 as [p Hp].
    assert (sdrop 2 (rec_key r) = p) as -> by (rewrite Hp; apply (sdrop_app "*.")).
    destruct (str_eqb p "") eqn:E2.
    + apply str_eqb_eq in E2 as ->. rewrite decide_False, List.app_nil_r; [done|]. by intros [_ ?].
    + apply str_eqb_neq in E2. rewrite decide_True.
      * cbn [rs_records rs_wildcards]. rewrite all_of_append. by rewrite (assoc_L (++)).
      * split; [done|]. rewrite Hp. intros H. by apply (inj (String.app "*.")) in H.
  - rewrite decide_True.
    + cbn [rs_records rs_wildcards]. rewrite all_of_append, <-!(assoc_L (++)).
      apply Permutation_app_head, Permutation_app_comm.
    + split; [done|]. intros H. by rewrite H in E1.
Qed.

(** ** The wildcard search *)
Definition filled (m : gmap string (list RecordEntry)) : Prop := ∀ k, m !! k ≠ Some [].
Fixpoint first_filled (f : string → list RecordEntry) (ps : list string) : list RecordEntry :=
  match ps with [] => [] | p :: ps => match f p with [] => first_filled f ps | w => w end end.

Lemma add_record_filled rs r :
  filled (rs_records rs) ∧ filled (rs_wildcards rs) →
  filled (rs_records (add_record rs r)) ∧ filled (rs_wildcards (add_record rs r)).
Proof.
  assert (∀ m k, filled m → filled (append_rec k r m)) as H.
  { intros m k Hm k'. unfold append_rec. destruct (decide (k' = k)) as [->|]; [|by rewrite lookup_insert_ne].
    rewrite lookup_insert_eq. intros [= E]. by apply (app_cons_not_nil _ _ _ (eq_sym E)). }
  intros [H1 H2]. unfold add_record. destruct (str_eqb _ _); [done|].
  destruct (HasPrefix _ _); [destruct (str_eqb _ _); [done|]|]; cbn; auto.
Qed.
Lemma SetRecords_filled l rs :
  filled (rs_records (SetRecords l rs)) ∧ filled (rs_wildcards (SetRecords l rs)).
Proof.
  unfold SetRecords. induction l as [|r l IH] using rev_ind; [done|].
  rewrite foldl_app. by apply add_record_filled.
Qed.

Lemma find_wild_first m labels js :
  filled m → find_wild m labels js = first_filled (lists m) ((λ i, Join (drop i labels) ".") <$> js).
Proof.
  intros Hm. induction js as [|i js IH]; [done|]. cbn [find_wild fmap list_fmap first_filled].
  unfold lists at 1. destruct (m !! Join (drop i labels) ".") as [w|] eqn:E; cbn [default]; [|done].
  destruct w; [by apply Hm in E|done].
Qed.

Lemma first_filled_spec f s :
  (∃ p, subdomain s p ∧ f p ≠ [] ∧ first_filled f (parents s) = f p
        ∧ ∀ p', subdomain s p' → f p' ≠ [] → (slen p' ≤ slen p)%nat)
  ∨ (first_filled f (parents s) = [] ∧ ∀ p, subdomain s p → f p = []).
Proof.
  setoid_rewrite <-parents_spec. induction s as [|c s IH]; [right; split; [done|set_solver]|].
  cbn [parents]. destruct (is_dot c); [|done]. cbn [first_filled].
  destruct (f s) as [|w ws] eqn:Hs.
  - destruct IH as [(p & Hp & Hf & He & Hmax)|[He Hn]].
    + left. exists p. split_and!; [by right|done|done|]. intros p' [->|?]%elem_of_cons; [done|auto].
    + right. split; [done|]. intros p [->|?]%elem_of_cons; auto.
  - left. exists s. rewrite Hs. split_and!; [left|done|done|].
    intros p' [->|Hp']%elem_of_cons _; [done|]. apply parents_slen in Hp'. lia.
Qed.

Lemma records_for_spec d l rs :
  records_for d (SetRecords l rs)
  = match filter (exact_for d) l with
    | [] => first_filled (λ p, filter (wild_for p) l) (parents d)
    | recs => recs
    end.
Proof.
  unfold records_for. destruct (SetRecords_lists l rs d) as [Hr _]. unfold lists in Hr at 1. rewrite Hr.
  destruct (filter (exact_for d) l); [|done].
  destruct (SetRecords_filled l rs) as [_ Hf]. rewrite find_wild_first, label_loop by done.
  induction (parents d) as [|p ps IH]; [done|]. cbn [first_filled].
  destruct (SetRecords_lists l rs p) as [_ ->]. by rewrite IH.
Qed.

(** ** The answer loop *)
Definition local_type (r : RecordEntry) : option Z :=
  t ← StringToType (ToUpper (r_Type r));
  if (t =? TypeA) || (t =? TypeAAAA) || (t =? TypeCNAME) then Some t else None.
Definition record_data (t : Z) (v : string) : option RData :=
  if t =? TypeA then ip ← ParseIP_opt v; Some (RD_A (default [] (To4 ip)))
  else if t =? TypeAAAA then ip ← ParseIP_opt v; Some (RD_AAAA (default [] (To16 ip)))
  else Some (RD_CNAME (Fqdn v)).
(** The answer one record contributes to question [q]. *)
Definition record_answer (q : Question) (r : RecordEntry) : option RR :=
  t ← local_type r;
  if t =? q_Qtype q then
    d ← record_data t (r_Value r); Some (mkRR (mkHdr (q_Name q) t ClassINET (rec_ttl (r_TTL r))) d)
  else None.

Lemma answer_step_spec q ans m k r :
  answer_step q (ans, m, k) r
  = (ans ++ option_list (record_answer q r), m || bool_decide (is_Some (record_answer q r)),
     k || bool_decide (is_Some (local_type r))).
Proof.
  unfold answer_step, record_answer, local_type.
  destruct (StringToType (ToUpper (r_Type r))) as [t|]; cbn [mbind option_bind]; cycle 1.
  { by rewrite List.app_nil_r, !orb_false_r. }
  rewrite <-!negb_orb. destruct ((t =? TypeA) || (t =? TypeAAAA) || (t =? TypeCNAME)) eqn:Et; cbn [negb mbind option_bind]; cycle 1.
  { by rewrite List.app_nil_r, !orb_false_r. }
  destruct (t =? q_Qtype q); cbn [negb]; cycle 1.
  { rewrite List.app_nil_r, !orb_false_r, orb_true_r. done. }
  unfold record_data. destruct (t =? TypeA).
  - destruct (ParseIP_opt (r_Value r)); cbn; rewrite ?List.app_nil_r, ?orb_false_r, ?orb_true_r; done.
  - destruct (t =? TypeAAAA); [|cbn; by rewrite !orb_true_r].
    destruct (ParseIP_opt (r_Value r)); cbn; rewrite ?List.app_nil_r, ?orb_false_r, ?orb_true_r; done.
Qed.

Lemma answer_loop q recs ans m k :
  foldl (answer_step q) (ans, m, k) recs
  = (ans ++ omap (record_answer q) recs, m || existsb (λ r, bool_decide (is_Some (record_answer q r))) recs,
     k || existsb (λ r, bool_decide (is_Some (local_type r))) recs).
Proof.
  revert ans m k. induction recs as [|r recs IH]; intros ans m k.
  { cbn. by rewrite List.app_nil_r, !orb_false_r. }
  cbn [foldl]. rewrite answer_step_spec, IH. cbn [existsb omap list_omap].
  rewrite !orb_assoc. do 2 f_equal. rewrite <-(assoc_L (++)). f_equal. by destruct (record_answer q r).
Qed.

Lemma answer_known q recs :
  existsb (λ r, bool_decide (is_Some (record_answer q r))) recs = true →
  existsb (λ r, bool_decide (is_Some (local_type r))) recs = true.
Proof.
  rewrite !existsb_exists. intros (r & Hr & H). exists r. split; [done|].
  rewrite bool_decide_eq_true in *. unfold record_answer in H. destruct (local_type r); [eauto|].
  by destruct H.
Qed.

Lemma rec_ttl_bounds t : 0 ≤ rec_ttl t ≤ maxRecordTTL.
Proof.
  unfold rec_ttl. pose proof (u32_bound t). unfold defaultRecordTTL, maxRecordTTL in *.
  destruct (t <=? 0); [lia|]. destruct (_ <? u32 t) eqn:E; bools; lia.
Qed.

(** ** Reverse names *)
Definition arpa4 (a b c d : Z) : string := ipv4_string [d; c; b; a] +:+ ".in-addr.arpa".

Lemma ToLower_ipv4 l : ToLower (ipv4_string l) = ipv4_string l.
Proof.
  unfold ipv4_string. induction l as [|x l IH]; [done|]. destruct l as [|y l]; [apply ToLower_Itoa|].
  cbn [fmap list_fmap] in *. rewrite Join_cons, !ToLower_app, ToLower_Itoa by done.
  rewrite IH. done.
Qed.

Lemma ptrIPFromArpa_v4 a b c d :
  is_byte a → is_byte b → is_byte c → is_byte d →
  ptrIPFromArpa (arpa4 a b c d +:+ ".") = Some (v4InV6Prefix ++ [a; b; c; d]).
Proof.
  intros Ha Hb Hc Hd. unfold ptrIPFromArpa, arpa4.
  rewrite TrimSuffix_app, ToLower_app, ToLower_ipv4, CutSuffix_app.
  assert (Split (ipv4_string [d; c; b; a]) dot = Itoa <$> [d; c; b; a]) as ->.
  { apply Split_Join; [done|]. repeat constructor; apply Itoa_free; done. }
  cbn [fmap list_fmap length Nat.eqb negb reverse rev_append].
  change (Join [Itoa a; Itoa b; Itoa c; Itoa d] ".") with (ipv4_string [a; b; c; d]).
  rewrite ParseIP_ipv4_string by done. rewrite bool_decide_true; [done|]. unfold To4. cbn. eauto.
Qed.

Lemma flatten_exact l rs enum r :
  enumerates enum (rs_records (SetRecords l rs)) →
  r ∈ flatten (rs_records (SetRecords l rs)) enum ↔ r ∈ l ∧ exact_for (rec_key r) r.
Proof.
  intros He. rewrite (flatten_all _ _ He). unfold all_of. rewrite elem_of_list_concat || rewrite list_elem_of_In, in_concat.
  split.
  - intros (recs & Hrecs & Hr). apply list_elem_of_In, list_elem_of_fmap in Hrecs as ([k recs'] & -> & Hk%elem_of_map_to_list).
    apply list_elem_of_In in Hr. cbn in Hr. destruct (SetRecords_lists l rs k) as [H _]. unfold lists in H. rewrite Hk in H.
    cbn in H. rewrite H in Hr. apply list_elem_of_filter in Hr as [Hx ?]. destruct Hx as (<- & ? & ?). done.
  - intros [Hr Hx]. destruct (SetRecords_lists l rs (rec_key r)) as [H _]. unfold lists in H.
    assert (r ∈ filter (exact_for (rec_key r)) l) as Hin by (by apply list_elem_of_filter).
    destruct (rs_records (SetRecords l rs) !! rec_key r) as [recs|] eqn:Hk; cbn in H; rewrite <-H in Hin; [|set_solver].
    exists recs. split; [|by apply list_elem_of_In]. apply list_elem_of_In, list_elem_of_fmap.
    exists (rec_key r, recs). by rewrite elem_of_map_to_list.
Qed.

(** A sample record set for the witnesses. *)
Definition demo_records : list RecordEntry :=
  [mkRec "NAS.lan." "a" "192.168.30.4" 300; mkRec "*.lan" "A" "192.168.30.1" 0;
   mkRec "*.dev.lan" "CNAME" "nas.lan" 0; mkRec "nas.lan" "AAAA" "fd00::4" 9999999].
Definition demo_query (name : string) (t : Z) : Msg := SetQuestion 5 name t.

(** ** Properties *)

(** C40: A query that is not a reverse lookup is answered from the pushed record
    list [l] by the records of exactly its name if there are any, otherwise by
    those of the deepest wildcard above it, otherwise not at all; the answer
    holds one resource record per entry of the asked type whose value parses,
    in the order of [l], named as in the question and with a TTL of at most a
    week, and is an empty NOERROR reply when the name is known with other
    types only. *)
Theorem records_lookup l rs enum req q qs :
  m_Question req = q :: qs → q_Qtype q ≠ TypePTR →
  let d := ToLower (TrimSuffix (q_Name q) ".") in
  d ≠ "" →
  ∃ recs,
    Lookup enum req (SetRecords l rs)
    = (if existsb (λ r, bool_decide (is_Some (local_type r))) recs
       then Some (local_reply req (omap (record_answer q) recs)) else None)
    ∧ (filter (exact_for d) l ≠ [] → recs = filter (exact_for d) l)
    ∧ (filter (exact_for d) l = [] →
       (∃ p, subdomain d p ∧ filter (wild_for p) l ≠ [] ∧ recs = filter (wild_for p) l
          ∧ ∀ p', subdomain d p' → filter (wild_for p') l ≠ [] → (slen p' ≤ slen p)%nat)
       ∨ (recs = [] ∧ ∀ p, subdomain d p → filter (wild_for p) l = []))
    ∧ ∀ rr, rr ∈ omap (record_answer q) recs →
        h_Name (rr_hdr rr) = q_Name q ∧ h_Rrtype (rr_hdr rr) = q_Qtype q ∧ 0 ≤ ttl_of rr ≤ maxRecordTTL.
Proof.
  intros Hq Ht d Hd. exists (records_for d (SetRecords l rs)). split_and!.
  - unfold Lookup. rewrite Hq. fold d. apply str_eqb_neq in Hd. rewrite Hd. apply Z.eqb_neq in Ht. rewrite Ht.
    destruct (records_for d (SetRecords l rs)) as [|r recs] eqn:Hr; [done|].
    rewrite answer_loop, !orb_false_l. pose proof (answer_known q (r :: recs)) as Hk.
    destruct (existsb _ _); [by rewrite Hk|done].
  - rewrite records_for_spec. by destruct (filter (exact_for d) l).
  - intros He. rewrite records_for_spec, He. clear He.
    destruct (first_filled_spec (λ p, filter (wild_for p) l) d) as [(p & ? & ? & ? & ?)|?]; [left; eauto|by right].
  - intros rr (r & _ & Hr)%list_elem_of_omap. unfold record_answer in Hr.
    destruct (local_type r) as [t|]; cbn in Hr; [|done]. destruct (t =? q_Qtype q) eqn:Et; [|done]. bools.
    destruct (record_data t (r_Value r)); cbn in Hr; [|done]. injection Hr as <-. cbn.
    split_and!; [done|done|apply rec_ttl_bounds..].
Qed.
Lemma records_lookup_witness :
  ∃ recs, Lookup [] (demo_query "x.dev.LAN." TypeA) (SetRecords demo_records NewRecordStore)
          = (if existsb (λ r, bool_decide (is_Some (local_type r))) recs
             then Some (local_reply (demo_query "x.dev.LAN." TypeA)
                          (omap (record_answer (mkQuestion "x.dev.LAN." TypeA ClassINET)) recs)) else None)
    ∧ Lookup [] (demo_query "x.dev.LAN." TypeA) (SetRecords demo_records NewRecordStore)
      = Some (local_reply (demo_query "x.dev.LAN." TypeA) []).
Proof.
  destruct (records_lookup demo_records NewRecordStore [] (demo_query "x.dev.LAN." TypeA)
              (mkQuestion "x.dev.LAN." TypeA ClassINET) []) as (recs & H & _); [reflexivity|done|done|].
  exists recs. split; [exact H|vm_compute; reflexivity].
Defined.

(** Forward and reverse agree: if the pushed list holds an A record for an
    exact name with the value a.b.c.d, then the PTR query for
    d.c.b.a.in-addr.arpa is answered locally, in whatever order the map is
    visited, and the name is among the answers; every answer names an exact
    record with that address. *)
Theorem records_reverse l rs enum req q qs r a b c d :
  m_Question req = q :: qs → q_Qtype q = TypePTR → q_Name q = arpa4 a b c d +:+ "." →
  enumerates enum (rs_records (SetRecords l rs)) →
  is_byte a → is_byte b → is_byte c → is_byte d →
  r ∈ l → exact_for (rec_key r) r → ToUpper (r_Type r) = "A" → r_Value r = ipv4_string [a; b; c; d] →
  ∃ m, Lookup enum req (SetRecords l rs) = Some m
    ∧ RD_PTR (Fqdn (rec_key r)) ∈ rr_data <$> m_Answer m
    ∧ ∀ rr, rr ∈ m_Answer m → ∃ r', r' ∈ l ∧ exact_for (rec_key r') r'
        ∧ rr_data rr = RD_PTR (Fqdn (rec_key r'))
        ∧ ∃ rip, ParseIP_opt (r_Value r') = Some rip ∧ ip_equal rip (v4InV6Prefix ++ [a; b; c; d]) = true.
Proof.
  intros Hq Ht Hn He Ha Hb Hc Hd Hr Hx Hty Hv. unfold Lookup. rewrite Hq.
  assert (str_eqb (ToLower (TrimSuffix (q_Name q) ".")) "" = false) as ->.
  { apply str_eqb_neq. rewrite Hn, TrimSuffix_app. unfold arpa4. rewrite ToLower_app.
    intros [_ H]%app_eq_nil. done. }
  rewrite Ht, Z.eqb_refl. unfold lookupPTR. rewrite Hn, ptrIPFromArpa_v4 by done. rewrite <-Hn.
  set (ip := v4InV6Prefix ++ [a; b; c; d]). set (recs := flatten _ _).
  assert (∃ rr, ptr_answer (q_Name q) ip r = Some rr ∧ rr_data rr = RD_PTR (Fqdn (rec_key r))) as (rr & Hrr & Hdata).
  { unfold ptr_answer. rewrite Hty, Hv, ParseIP_ipv4_string by done. fold ip. cbn [str_eqb String.eqb Ascii.eqb negb andb].
    unfold ip_equal at 1. rewrite Nat.eqb_refl, bool_decide_true by done. cbn [negb]. eauto. }
  assert (rr ∈ omap (ptr_answer (q_Name q) ip) recs) as Hin.
  { apply list_elem_of_omap. exists r. split; [|done]. by apply flatten_exact. }
  destruct (omap (ptr_answer (q_Name q) ip) recs) as [|x ans] eqn:Hans; [set_solver|].
  eexists. split; [done|]. cbn [local_reply with_Answer m_Answer]. rewrite <-Hans in *. split.
  - apply list_elem_of_fmap. eauto.
  - intros rr' (r' & Hr' & Hp)%list_elem_of_omap. apply flatten_exact in Hr' as [? ?]; [|done].
    exists r'. unfold ptr_answer in Hp. destruct (_ && _); [done|].
    destruct (ParseIP_opt (r_Value r')) as [rip|] eqn:Hrip; [|done].
    destruct (ip_equal rip ip) eqn:Heq; cbn [negb] in Hp; [|done]. injection Hp as <-. eauto 10.
Qed.
Lemma records_reverse_witness :
  ∃ m, Lookup ["nas.lan"] (demo_query "4.30.168.192.in-addr.arpa." TypePTR) (SetRecords demo_records NewRecordStore)
       = Some m ∧ RD_PTR "nas.lan." ∈ rr_data <$> m_Answer m.
Proof.
  destruct (records_reverse demo_records NewRecordStore ["nas.lan"] (demo_query "4.30.168.192.in-addr.arpa." TypePTR)
              (mkQuestion "4.30.168.192.in-addr.arpa." TypePTR ClassINET) [] (mkRec "NAS.lan." "a" "192.168.30.4" 300)
              192 168 30 4) as (m & ? & ? & _); try reflexivity; try (unfold is_byte; lia); try by left.
  - unfold enumerates. vm_compute. done.
  - by_decision.
  - by exists m.
Defined.

(** Reconciliation converges for the fleet-wide set: whatever order the maps
    are visited in, an instance that was sent [l], all of whose records have a
    usable name, reports the checksum of [l] and gives back a permutation of
    [l], and the controller does not push again. *)
Theorem records_hash_converges l rs enum_r enum_w token :
  Forall kept_record l →
  enumerates enum_r (rs_records (SetRecords l rs)) → enumerates enum_w (rs_wildcards (SetRecords l rs)) →
  GetRecords enum_r enum_w (SetRecords l rs) ≡ₚ l
  ∧ Hash enum_r enum_w (SetRecords l rs) = RecordsHash l
  ∧ maybePushRecords l None token (Some (Hash enum_r enum_w (SetRecords l rs))) = None.
Proof.
  intros Hl Hr Hw.
  assert (GetRecords enum_r enum_w (SetRecords l rs) ≡ₚ l) as Hp.
  { unfold GetRecords. rewrite (flatten_all _ _ Hr), (flatten_all _ _ Hw), SetRecords_all.
    rewrite filter_id; [done|]. by rewrite Forall_forall in Hl. }
  assert (Hash enum_r enum_w (SetRecords l rs) = RecordsHash l) as Hh by (by apply RecordsHash_perm).
  split_and!; [done|done|]. unfold maybePushRecords, recordsHash. cbn [default]. rewrite Hh, Z.eqb_refl. done.
Qed.
Lemma records_hash_converges_witness :
  Hash ["nas.lan"] ["lan"; "dev.lan"] (SetRecords demo_records NewRecordStore) = RecordsHash demo_records.
Proof.
  apply (records_hash_converges demo_records NewRecordStore ["nas.lan"] ["lan"; "dev.lan"] true).
  - by_decision.
  - unfold enumerates. vm_compute. done.
  - unfold enumerates. by_decision.
Defined.

(** A record without a usable name is dropped by the instance, so the checksums
    never agree and the set is pushed at every poll. *)
Example unusable_record_repushed :
  let l := [mkRec "" "A" "10.0.0.1" 0; mkRec "nas.lan" "A" "10.0.0.2" 0] in
  let rs := SetRecords l NewRecordStore in
  GetRecords ["nas.lan"] [] rs = [mkRec "nas.lan" "A" "10.0.0.2" 0]
  ∧ maybePushRecords l None true (Some (Hash ["nas.lan"] [] rs)) = Some l.
Proof. vm_compute. auto. Qed.

(** An instance with its own record override never converges: it holds
    exactly its override, yet the controller compares its checksum with the
    fleet-wide one and pushes the override again at every poll (unless the two
    checksums coincide). *)
Theorem records_override_repushed fleet o rs enum_r enum_w :
  Forall kept_record o → RecordsHash o ≠ RecordsHash fleet →
  enumerates enum_r (rs_records (SetRecords o rs)) → enumerates enum_w (rs_wildcards (SetRecords o rs)) →
  GetRecords enum_r enum_w (SetRecords o rs) ≡ₚ effectiveRecords fleet (Some o)
  ∧ maybePushRecords fleet (Some o) true (Some (Hash enum_r enum_w (SetRecords o rs))) = Some o.
Proof.
  intros Ho Hne Hr Hw.
  assert (GetRecords enum_r enum_w (SetRecords o rs) ≡ₚ o) as Hp.
  { unfold GetRecords. rewrite (flatten_all _ _ Hr), (flatten_all _ _ Hw), SetRecords_all.
    rewrite filter_id; [done|]. by rewrite Forall_forall in Ho. }
  split; [done|]. unfold maybePushRecords, recordsHash, Hash. cbn [from_option id].
  rewrite (RecordsHash_perm _ _ Hp). apply Z.eqb_neq in Hne. by rewrite Hne.
Qed.
Lemma records_override_repushed_witness :
  maybePushRecords demo_records (Some [mkRec "a.lan" "A" "10.0.0.1" 0]) true
    (Some (Hash ["a.lan"] [] (SetRecords [mkRec "a.lan" "A" "10.0.0.1" 0] NewRecordStore)))
  = Some [mkRec "a.lan" "A" "10.0.0.1" 0].
Proof.
  apply (records_override_repushed demo_records [mkRec "a.lan" "A" "10.0.0.1" 0] NewRecordStore ["a.lan"] []).
  - by_decision.
  - vm_compute. done.
  - vm_compute. done.
  - vm_compute. done.
Defined.
