(* ===== verification/Blocklist.v ===== *)
(** * The global blocklist (internal/blocklist/blocklist.go)

    Block and allow sets with incrementally maintained count and checksum, the
    ancestor walk of a lookup, the list-line parser, source fetching and
    merging, and the on-disk snapshot.  A Go set ([map[string]struct{}]) is a
    [gset string]; ranging over one visits it in the order of an enumeration
    argument.  HTTP, the file system and JSON coding are arguments. *)
From S2P Require Import Prelude GoStrings GoNet GoUrl.
From Stdlib Require Import Ascii.
#[local] Open Scope Z_scope.

Definition maxSourceBytes : Z := Z.shiftl 256 20.
Definition maxLineLen : Z := 64 * 1024.

(** ** Addresses a source may not live at *)
Definition cgnatNet : IPNet := mkIPNet [100; 64; 0; 0] [255; 192; 0; 0].
Definition isPrivateIP (ip : IP) : bool :=
  if bool_decide (ip = []) then true
  else negb (IsGlobalUnicast ip) || IsPrivate ip || Contains_ip cgnatNet ip.

Inductive url_error := UrlSyntax | UrlScheme (s : string) | UrlHost | UrlPrivate.
(** [validateSourceURL]: [None] is acceptance. *)
Definition validateSourceURL (ssrfEnabled : bool) (rawURL : string) : option url_error :=
  match url_Parse rawURL with
  | None => Some UrlSyntax
  | Some u =>
      if negb (str_eqb (u_Scheme u) "http") && negb (str_eqb (u_Scheme u) "https") then Some (UrlScheme (u_Scheme u))
      else if str_eqb (u_Host u) "" then Some UrlHost
      else if ssrfEnabled then
        let h := TrimPrefix (Hostname u) "[" in
        if negb (bool_decide (ParseIP h = [])) && isPrivateIP (ParseIP h) then Some UrlPrivate else None
      else None
  end.

(** The dial check of [safeBlocklistTransport]: the resolved addresses that may
    be connected to, in order. *)
Definition dial_candidates (ips : list string) : list string :=
  filter (λ ip, isPrivateIP (ParseIP ip) = false) ips.

(** ** The set *)
Record Blocklist := mkBL {
  bl_exact : gset string;
  bl_wild : gset string;
  bl_blockSum : Z;
  bl_allowSum : Z;
  bl_count : Z;
  bl_allowExact : gset string;
  bl_allowWild : gset string }.
Definition New : Blocklist := mkBL ∅ ∅ 0 0 0 ∅ ∅.

(** [hashString]: FNV-1a, 32 bit. *)
Fixpoint hash_loop (h : Z) (s : string) : Z :=
  match s with
  | "" => h
  | String c s => hash_loop (u32 (Z.lxor h (Z.of_N (N_of_ascii c)) * 16777619)) s
  end.
Definition hashString (s : string) : Z := hash_loop 2166136261 s.

(** The loop of [normalizeDomain]: [None] is an early return of "". *)
Fixpoint dot_scan (s : string) (dots : Z) (prevDot : bool) : option (Z * bool) :=
  match s with
  | "" => Some (dots, prevDot)
  | String c s =>
      if is_dot c then (if prevDot then None else dot_scan s (dots + 1) true)
      else dot_scan s dots false
  end.
Definition normalizeDomain (s : string) : string :=
  let s := TrimSpace s in
  if str_eqb s "" then ""
  else
    let s := TrimSuffix (ToLower s) "." in
    match dot_scan s 0 true with
    | None => ""
    | Some (dots, prevDot) => if prevDot || (dots <? 1) then "" else s
    end.
Definition NormalizeDomain (s : string) : string := normalizeDomain s.

(** [addEntry]: the new sets and the canonical form to hash, "" if none. *)
Definition addEntry (d : string) (exact wild : gset string) : gset string * gset string * string :=
  let d := TrimSpace d in
  if str_eqb d "" then (exact, wild, "")
  else if HasPrefix d "*." then
    let root := normalizeDomain (sdrop 2 d) in
    if str_eqb root "" then (exact, wild, "")
    else if bool_decide (root ∈ wild) then (exact, wild, "")
    else (exact, {[root]} ∪ wild, "*." +:+ root)
  else
    let h := normalizeDomain d in
    if str_eqb h "" then (exact, wild, "")
    else if bool_decide (h ∈ exact) then (exact, wild, "")
    else ({[h]} ∪ exact, wild, h).

(** The loading loop shared by [FromDomainsMap] and [SetAllowed]; [pre] is
    what the checksum prepends to an entry. *)
Definition load_step (pre : string) (acc : gset string * gset string * Z) (d : string) :=
  let '(exact, wild, sum) := acc in
  let '(exact, wild, k) := addEntry d exact wild in
  (exact, wild, if str_eqb k "" then sum else u64 (sum + hashString (pre +:+ k))).
Definition swap (exact wild : gset string) (sum : Z) (b : Blocklist) : Blocklist :=
  mkBL exact wild sum (bl_allowSum b) (Z.of_nat (size exact) + Z.of_nat (size wild))
    (bl_allowExact b) (bl_allowWild b).
(** [FromDomainsMap], the set visited in the order [enum]. *)
Definition FromDomainsMap (enum : list string) (b : Blocklist) : Blocklist :=
  let '(exact, wild, sum) := foldl (load_step "") (∅, ∅, 0) enum in swap exact wild sum b.
(** [FromDomains]: the list is first put in a set. *)
Definition FromDomains (list : list string) (b : Blocklist) : Blocklist :=
  FromDomainsMap (elements (list_to_set list : gset string)) b.
Definition SetAllowed (list : list string) (b : Blocklist) : Blocklist :=
  let '(exact, wild, sum) := foldl (load_step "allow:") (∅, ∅, 0) list in
  mkBL (bl_exact b) (bl_wild b) (bl_blockSum b) sum (bl_count b) exact wild.

Definition Add (domain : string) (b : Blocklist) : Blocklist :=
  let d := normalizeDomain domain in
  if str_eqb d "" then b
  else if bool_decide (d ∈ bl_exact b) then b
  else mkBL ({[d]} ∪ bl_exact b) (bl_wild b) (u64 (bl_blockSum b + hashString d)) (bl_allowSum b)
         (bl_count b + 1) (bl_allowExact b) (bl_allowWild b).
Definition Remove (domain : string) (b : Blocklist) : Blocklist :=
  let d := normalizeDomain domain in
  if str_eqb d "" then b
  else if bool_decide (d ∈ bl_exact b)
  then mkBL (bl_exact b ∖ {[d]}) (bl_wild b) (u64 (bl_blockSum b - hashString d)) (bl_allowSum b)
         (bl_count b - 1) (bl_allowExact b) (bl_allowWild b)
  else b.
Definition AddAllowed (domain : string) (b : Blocklist) : Blocklist :=
  let d := normalizeDomain domain in
  if str_eqb d "" then b
  else if bool_decide (d ∈ bl_allowExact b) then b
  else mkBL (bl_exact b) (bl_wild b) (bl_blockSum b) (u64 (bl_allowSum b + hashString ("allow:" +:+ d)))
         (bl_count b) ({[d]} ∪ bl_allowExact b) (bl_allowWild b).
Definition RemoveAllowed (domain : string) (b : Blocklist) : Blocklist :=
  let d := normalizeDomain domain in
  if str_eqb d "" then b
  else if bool_decide (d ∈ bl_allowExact b)
  then mkBL (bl_exact b) (bl_wild b) (bl_blockSum b) (u64 (bl_allowSum b - hashString ("allow:" +:+ d)))
         (bl_count b) (bl_allowExact b ∖ {[d]}) (bl_allowWild b)
  else b.

Definition star (r : string) : string := "*." +:+ r.
(** [Allowed] and [List], the sets visited in the orders [e] and [w]. *)
Definition Allowed (e w : list string) : list string := e ++ (star <$> w).
Definition List (e w : list string) : list string := e ++ (star <$> w).
Definition Count (b : Blocklist) : Z := bl_count b.
Definition Checksum (b : Blocklist) : Z := u64 (bl_blockSum b + bl_allowSum b).

(** ** Lookup *)
(** The loop of [allowMatchLocked] from candidate [a] on. *)
Fixpoint allow_walk (fuel : nat) (exact wild : gset string) (a : string) : bool :=
  match fuel with
  | O => false
  | S fuel =>
      match IndexByte a "." with
      | None => false
      | Some i =>
          let a := sdrop (S i) a in
          if bool_decide (a ∈ wild) then true
          else if bool_decide (a ∈ exact) then true
          else allow_walk fuel exact wild a
      end
  end.
Definition allowMatchLocked (exact wild : gset string) (h : string) : bool :=
  if bool_decide (h ∈ exact) then true else allow_walk (S (slen h)) exact wild h.

(** The loop of [IsBlocked]. *)
Fixpoint block_walk (fuel : nat) (exact wild : gset string) (h a : string) : bool :=
  match fuel with
  | O => false
  | S fuel =>
      if bool_decide (a ∈ exact) then true
      else if negb (str_eqb a h) && bool_decide (a ∈ wild) then true
      else match IndexByte a "." with
           | None => false
           | Some i => block_walk fuel exact wild h (sdrop (S i) a)
           end
  end.
Definition IsBlocked (host : string) (b : Blocklist) : bool :=
  if str_eqb host "" then false
  else
    let h := ToLower (TrimSuffix host ".") in
    if str_eqb h "" then false
    else if allowMatchLocked (bl_allowExact b) (bl_allowWild b) h then false
    else block_walk (S (slen h)) (bl_exact b) (bl_wild b) h h.

(** ** List lines *)
Definition tab : ascii := ascii_of_N 9.
Definition blanks : string := String " " (String tab "").
Definition isHostsIP (line : string) : bool :=
  match line with
  | "" => false
  | String c _ =>
      let ip := match IndexAny line blanks with Some i => stake i line | None => line end in
      if existsb (str_eqb ip) ["0.0.0.0"; "127.0.0.1"; "::"; "::1"; "255.255.255.255"; "localhost"] then true
      else if is_digit c || ascii_eqb c ":" then negb (bool_decide (ParseIP ip = [])) else false
  end.
(** [parseLine]: the entry the line adds to the set, if any (the source's
    result is whether there is one). *)
Definition entry_of (d : string) : option string := if str_eqb d "" then None else Some d.
Definition cut_at (line : string) (i : option nat) : string :=
  match i with Some i => TrimRight (stake i line) blanks | None => line end.
(** [parseLine] after the first [TrimSpace]; [c] is [line[0]]. *)
Definition parse_trimmed (c : ascii) (line : string) : option string :=
  if ascii_eqb c "!" || ascii_eqb c "#" then None
  else if isHostsIP line then
    match Fields line with
    | _ :: f :: _ => entry_of (normalizeDomain (TrimSuffix f "."))
    | _ => None
    end
  else
    let line := cut_at line (IndexAny line "!#") in
    if str_eqb line "" then None
    else
    let line := cut_at line (IndexByte line "$") in
    if str_eqb line "" then None
    else
      let hasDoublePipe := HasPrefix line "||" in
      let line := TrimLeft line "|" in
      let line := match IndexByte line "^" with Some i => stake i line | None => line end in
      let line := TrimSpace line in
      if str_eqb line "" then None
      else if Contains line "://" then
        match url_Parse line with
        | Some u => if str_eqb (Hostname u) "" then None else entry_of (normalizeDomain (Hostname u))
        | None => None
        end
      else if hasDoublePipe then entry_of (normalizeDomain line)
      else if HasPrefix line "*." then
        star <$> entry_of (normalizeDomain (sdrop 2 line))
      else entry_of (normalizeDomain line).
Definition parseLine (line : string) : option string :=
  let line := TrimSpace line in
  match line with "" => None | String c _ => parse_trimmed c line end.

(** ** Fetching *)
Record Validators := mkVal { v_ETag : string; v_LastModified : string }.
Record FetchResult := mkFetch { fr_Domains : gset string; fr_Validators : Validators; fr_NotModified : bool }.
(** What the HTTP client returned: status, the two headers, the body and
    whether reading it failed at its end. *)
Record http_response := mkResp {
  hr_status : Z; hr_etag : string; hr_lastmod : string; hr_body : string; hr_readErr : bool }.
Inductive fetch_error := FE_url (e : url_error) | FE_http | FE_status (n : Z) | FE_tooLong | FE_read | FE_ctx.

Definition newline : ascii := ascii_of_N 10.
Definition drop_cr (s : string) : string := TrimSuffix s (String (ascii_of_N 13) "").
(** [bufio.Scanner] with [ScanLines] over the body cut at [maxSourceBytes]:
    [None] when a line does not fit the buffer. *)
Definition body_lines (body : string) : list string :=
  let l := Split (stake (Z.to_nat maxSourceBytes) body) newline in
  match last l with Some "" => take (length l - 1) l | _ => l end.
Definition scan_body (body : string) : option (list string) :=
  let l := body_lines body in
  if forallb (λ s, Z.of_nat (slen s) <? maxLineLen) l then Some (drop_cr <$> l) else None.
Definition parse_lines (lines : list string) : gset string := list_to_set (omap parseLine lines).

(** [FetchSource]; [http url etag lastmod] is the request sent, [cancelled]
    whether the context ends before the last line is parsed. *)
Definition FetchSource (ssrfEnabled : bool) (http : string → string → string → option http_response)
    (cancelled : bool) (rawURL : string) (v : Validators) : res fetch_error FetchResult :=
  match validateSourceURL ssrfEnabled rawURL with
  | Some e => Err (FE_url e)
  | None =>
      match http rawURL (v_ETag v) (v_LastModified v) with
      | None => Err FE_http
      | Some r =>
          let vals := mkVal (hr_etag r) (hr_lastmod r) in
          if hr_status r =? 304 then Ok (mkFetch ∅ vals true)
          else if negb (hr_status r =? 200) then Err (FE_status (hr_status r))
          else match scan_body (hr_body r) with
               | None => if cancelled then Err FE_ctx else Err FE_tooLong
               | Some lines =>
                   if cancelled then Err FE_ctx
                   else if hr_readErr r then Err FE_read
                   else Ok (mkFetch (parse_lines lines) vals false)
               end
      end
  end.

(** ** Merging the sources

    [LoadResult.Errors] renders the [Err] fields of [PerSource] in the same
    order, and the progress callback reports the loop's own counters: neither
    is kept separately. *)
Record SourceResult := mkSrc { sr_URL : string; sr_Domains : Z; sr_Err : option fetch_error }.
Record LoadResult := mkLoad { lr_Domains : Z; lr_Sources : Z; lr_Failed : Z; lr_PerSource : list SourceResult }.
Inductive load_error := LE_noSources | LE_badURL (u : string) | LE_ctx | LE_empty.

(** The assembly loop: [fetched] holds the outcome of each source in order
    (an empty set for a 304), [ctxDone i] whether the context has ended after
    source [i]. *)
Fixpoint merge_sources (i : nat) (ctxDone : nat → bool) (fetched : list (string * res fetch_error (gset string)))
    (merged : gset string) (failed : Z) (per : list SourceResult) : option (gset string * Z * list SourceResult) :=
  match fetched with
  | [] => Some (merged, failed, per)
  | (u, r) :: rest =>
      let '(merged, failed, src) :=
        match r with
        | Err e => (merged, failed + 1, mkSrc u 0 (Some e))
        | Ok set => (merged ∪ set, failed, mkSrc u (Z.of_nat (size set)) None)
        end in
      if ctxDone i then None
      else merge_sources (S i) ctxDone rest merged failed (per ++ [src])
  end.
Definition source_set (r : res fetch_error FetchResult) : res fetch_error (gset string) :=
  match r with
  | Err e => Err e
  | Ok fr => Ok (if fr_NotModified fr then ∅ else fr_Domains fr)
  end.
Definition LoadFromURLs (fetch : nat → string → res fetch_error FetchResult) (ctxDone : nat → bool)
    (urls : list string) (b : Blocklist) : Blocklist * option LoadResult * option load_error :=
  match urls with
  | [] => (b, None, Some LE_noSources)
  | _ =>
      match list_find (λ u, url_ParseRequestURI u = None) urls with
      | Some (_, u) => (b, None, Some (LE_badURL u))
      | None =>
          match merge_sources 0 ctxDone (imap (λ i u, (u, source_set (fetch i u))) urls) ∅ 0 [] with
          | None => (b, None, Some LE_ctx)
          | Some (merged, failed, per) =>
              let n := Z.of_nat (size merged) in
              let total := Z.of_nat (length urls) in
              if n =? 0 then (b, Some (mkLoad 0 total failed per), Some LE_empty)
              else (FromDomainsMap (elements merged) b, Some (mkLoad n total failed per), None)
          end
      end
  end.
Definition LoadFromURL (fetch : nat → string → res fetch_error FetchResult) (ctxDone : nat → bool)
    (rawURL : string) (b : Blocklist) : Blocklist * option load_error :=
  let '(b, _, e) := LoadFromURLs fetch ctxDone [rawURL] b in (b, e).

(** ** Snapshot on disk *)
Record cacheFile := mkCacheFile { cf_Domains : list string; cf_Allowed : list string }.
Section Snapshot.
Context {D : Type} (marshal : cacheFile → D)
  (unmarshal : D → option cacheFile) (unmarshal_list : D → option (list string)).

(** The file system states [SaveCache] goes through: [partial] is what a crash
    may leave of the temporary file. *)
Notation fs := (gmap string D).
Definition SaveCache_states (path : string) (partial : D) (e w ae aw : list string) (f : fs) : list fs :=
  let data := marshal (mkCacheFile (List e w) (Allowed ae aw)) in
  let tmp := path +:+ ".tmp" in
  [f; <[tmp := partial]> f; <[tmp := data]> f; delete tmp (<[path := data]> (<[tmp := data]> f))].
Definition SaveCache (path : string) (e w ae aw : list string) (f : fs) : fs :=
  let data := marshal (mkCacheFile (List e w) (Allowed ae aw)) in
  let tmp := path +:+ ".tmp" in
  delete tmp (<[path := data]> (<[tmp := data]> f)).

(** [LoadCache]: [Ok None] when there is no file, [Err] for a corrupt one. *)
Definition LoadCache (path : string) (f : fs) : res unit (option Blocklist) :=
  match f !! path with
  | None => Ok None
  | Some data =>
      let restore cf := Ok (Some (SetAllowed (cf_Allowed cf) (FromDomains (cf_Domains cf) New))) in
      match unmarshal data with
      | Some cf => restore cf
      | None =>
          match unmarshal_list data with
          | Some l => restore (mkCacheFile l [])
          | None => Err tt
          end
      end
  end.
End Snapshot.

Example parse_demo :
  parseLine <$> ["0.0.0.0 Ads.Example.com. # x"; "||track.net^$third-party"; "*.cdn.io"; "! note"; "# c";
                 "http://a.b.c/path"; "plain.org  # why"; "nodot"; "127.0.0.2	evil.com"; "::1 localhost"]
  = [Some "ads.example.com"; Some "track.net"; Some "*.cdn.io"; None; None; Some "a.b.c"; Some "plain.org"; None;
     Some "evil.com"; None].
Proof. vm_compute. reflexivity. Qed.

(** ** Checksums are sums over the sets *)
Definition sum_hash (f : string → string) (X : gset string) : Z :=
  foldr (λ x acc, hashString (f x) + acc) 0 (elements X).

Lemma foldr_sum_perm (g : string → Z) l k :
  l ≡ₚ k → foldr (λ x acc, g x + acc) 0 l = foldr (λ x acc, g x + acc) 0 k.
Proof. induction 1; simpl; lia. Qed.
Lemma sum_hash_insert f x (X : gset string) :
  x ∉ X → sum_hash f ({[x]} ∪ X) = hashString (f x) + sum_hash f X.
Proof.
  intros Hx. unfold sum_hash.
  by rewrite (foldr_sum_perm _ _ (x :: elements X)) by (by apply elements_union_singleton).
Qed.
Lemma sum_hash_delete f x (X : gset string) :
  x ∈ X → sum_hash f (X ∖ {[x]}) = sum_hash f X - hashString (f x).
Proof.
  intros Hx. assert (X = {[x]} ∪ X ∖ {[x]}) as HX by (by apply union_difference_singleton_L).
  rewrite HX at 2. rewrite sum_hash_insert by set_solver. lia.
Qed.
Lemma size_insert (x : string) (X : gset string) :
  x ∉ X → Z.of_nat (size ({[x]} ∪ X)) = Z.of_nat (size X) + 1.
Proof. intros Hx. rewrite size_union, size_singleton by set_solver. lia. Qed.
Lemma size_delete (x : string) (X : gset string) :
  x ∈ X → Z.of_nat (size (X ∖ {[x]})) = Z.of_nat (size X) - 1.
Proof.
  intros Hx. assert (X = {[x]} ∪ X ∖ {[x]}) as HX by (by apply union_difference_singleton_L).
  rewrite HX at 2. rewrite size_insert by set_solver. lia.
Qed.

(** The value both checksums must have. *)
Definition set_sum (pre : string) (exact wild : gset string) : Z :=
  sum_hash (λ d, pre +:+ d) exact + sum_hash (λ d, pre +:+ star d) wild.
Record bl_inv (b : Blocklist) : Prop := {
  inv_block : bl_blockSum b = u64 (set_sum "" (bl_exact b) (bl_wild b));
  inv_allow : bl_allowSum b = u64 (set_sum "allow:" (bl_allowExact b) (bl_allowWild b));
  inv_count : bl_count b = Z.of_nat (size (bl_exact b)) + Z.of_nat (size (bl_wild b)) }.

(** What one list entry denotes. *)
Inductive entry := EExact (d : string) | EWild (root : string) | ENone.
Definition classify (d : string) : entry :=
  let d := TrimSpace d in
  if str_eqb d "" then ENone
  else if HasPrefix d "*." then
    (let root := normalizeDomain (sdrop 2 d) in if str_eqb root "" then ENone else EWild root)
  else (let h := normalizeDomain d in if str_eqb h "" then ENone else EExact h).
Definition exacts (l : list string) : gset string :=
  list_to_set (omap (λ d, match classify d with EExact h => Some h | _ => None end) l).
Definition wilds (l : list string) : gset string :=
  list_to_set (omap (λ d, match classify d with EWild h => Some h | _ => None end) l).

Lemma addEntry_spec d exact wild :
  addEntry d exact wild
  = match classify d with
    | ENone => (exact, wild, "")
    | EWild r => if bool_decide (r ∈ wild) then (exact, wild, "") else (exact, {[r]} ∪ wild, star r)
    | EExact h => if bool_decide (h ∈ exact) then (exact, wild, "") else ({[h]} ∪ exact, wild, h)
    end.
Proof.
  unfold addEntry, classify. destruct (str_eqb (TrimSpace d) ""); [done|].
  destruct (HasPrefix _ _); destruct (str_eqb (normalizeDomain _) ""); done.
Qed.

Lemma classify_exact_nonempty d h : classify d = EExact h → str_eqb h "" = false.
Proof.
  unfold classify. destruct (str_eqb (TrimSpace d) ""); [done|]. destruct (HasPrefix _ _).
  - by destruct (str_eqb (normalizeDomain _) "").
  - destruct (str_eqb (normalizeDomain _) "") eqn:E; [done|]. by intros [= <-].
Qed.

Lemma load_step_spec pre exact wild d :
  load_step pre (exact, wild, u64 (set_sum pre exact wild)) d
  = (exacts [d] ∪ exact, wilds [d] ∪ wild, u64 (set_sum pre (exacts [d] ∪ exact) (wilds [d] ∪ wild))).
Proof.
  unfold load_step, exacts, wilds. rewrite addEntry_spec. cbn [omap list_omap list_to_set].
  pose proof (classify_exact_nonempty d) as Hne. destruct (classify d) as [h|r|]; cbn [list_to_set].
  - rewrite (right_id_L ∅ (∪)), (left_id_L ∅ (∪)). case_bool_decide as Hh.
    + by rewrite (subseteq_union_1_L {[h]} exact) by set_solver.
    + rewrite (Hne h eq_refl). unfold set_sum. rewrite sum_hash_insert by done. rewrite u64_add_l.
      do 2 f_equal. lia.
  - rewrite (right_id_L ∅ (∪)), (left_id_L ∅ (∪)). case_bool_decide as Hh.
    + by rewrite (subseteq_union_1_L {[r]} wild) by set_solver.
    + cbn [str_eqb String.eqb star]. unfold set_sum. rewrite sum_hash_insert by done. rewrite u64_add_l.
      change (str_eqb (star r) "") with false. do 2 f_equal. lia.
  - by rewrite !(left_id_L ∅ (∪)).
Qed.

Lemma load_spec pre l :
  foldl (load_step pre) (∅, ∅, 0) l = (exacts l, wilds l, u64 (set_sum pre (exacts l) (wilds l))).
Proof.
  change 0 with (u64 (set_sum pre ∅ ∅)). induction l as [|d l IH] using rev_ind; [done|].
  rewrite foldl_app, IH. cbn [foldl]. rewrite load_step_spec. unfold exacts, wilds.
  rewrite !omap_app_list, !list_to_set_app_L. by rewrite !(comm_L (∪) (list_to_set (omap _ l))).
Qed.

Lemma FromDomainsMap_spec enum b :
  FromDomainsMap enum b
  = mkBL (exacts enum) (wilds enum) (u64 (set_sum "" (exacts enum) (wilds enum))) (bl_allowSum b)
      (Z.of_nat (size (exacts enum)) + Z.of_nat (size (wilds enum))) (bl_allowExact b) (bl_allowWild b).
Proof. unfold FromDomainsMap. by rewrite load_spec. Qed.

Lemma SetAllowed_spec l b :
  SetAllowed l b
  = mkBL (bl_exact b) (bl_wild b) (bl_blockSum b) (u64 (set_sum "allow:" (exacts l) (wilds l))) (bl_count b)
      (exacts l) (wilds l).
Proof. unfold SetAllowed. by rewrite load_spec. Qed.

(** The order and repetitions of the input do not matter. *)
Lemma exacts_set_eq l k : (∀ x, x ∈ l ↔ x ∈ k) → exacts l = exacts k ∧ wilds l = wilds k.
Proof.
  intros H. unfold exacts, wilds.
  split; apply set_eq; intros x; rewrite !elem_of_list_to_set, !list_elem_of_omap; by setoid_rewrite H.
Qed.
Lemma FromDomains_sets l b :
  bl_exact (FromDomains l b) = exacts l ∧ bl_wild (FromDomains l b) = wilds l.
Proof.
  unfold FromDomains. rewrite FromDomainsMap_spec. cbn.
  apply exacts_set_eq. intros x. by rewrite elem_of_elements, elem_of_list_to_set.
Qed.

Lemma FromDomainsMap_inv enum b : bl_inv b → bl_inv (FromDomainsMap enum b).
Proof. intros []. rewrite FromDomainsMap_spec. by split. Qed.
Lemma SetAllowed_inv l b : bl_inv b → bl_inv (SetAllowed l b).
Proof. intros []. rewrite SetAllowed_spec. by split. Qed.

Lemma set_sum_insert pre x exact wild :
  x ∉ exact → set_sum pre ({[x]} ∪ exact) wild = set_sum pre exact wild + hashString (pre +:+ x).
Proof. intros. unfold set_sum. rewrite sum_hash_insert by done. lia. Qed.
Lemma set_sum_delete pre x exact wild :
  x ∈ exact → set_sum pre (exact ∖ {[x]}) wild = set_sum pre exact wild - hashString (pre +:+ x).
Proof. intros. unfold set_sum. rewrite sum_hash_delete by done. lia. Qed.

Lemma Add_inv d b : bl_inv b → bl_inv (Add d b).
Proof.
  intros [Hb Ha Hc]. unfold Add. destruct (str_eqb _ _); [done|]. case_bool_decide as Hin; [done|].
  split; cbn; [|done|].
  - by rewrite Hb, u64_add_l, set_sum_insert.
  - rewrite Hc, size_insert by done. lia.
Qed.
Lemma Remove_inv d b : bl_inv b → bl_inv (Remove d b).
Proof.
  intros [Hb Ha Hc]. unfold Remove. destruct (str_eqb _ _); [done|]. case_bool_decide as Hin; [|done].
  split; cbn; [|done|].
  - by rewrite Hb, u64_sub_l, set_sum_delete.
  - rewrite Hc, size_delete by done. lia.
Qed.
Lemma AddAllowed_inv d b : bl_inv b → bl_inv (AddAllowed d b).
Proof.
  intros [Hb Ha Hc]. unfold AddAllowed. destruct (str_eqb _ _); [done|]. case_bool_decide as Hin; [done|].
  split; cbn; [done| |done]. by rewrite Ha, u64_add_l, set_sum_insert.
Qed.
Lemma RemoveAllowed_inv d b : bl_inv b → bl_inv (RemoveAllowed d b).
Proof.
  intros [Hb Ha Hc]. unfold RemoveAllowed. destruct (str_eqb _ _); [done|]. case_bool_decide as Hin; [|done].
  split; cbn; [done| |done]. by rewrite Ha, u64_sub_l, set_sum_delete.
Qed.

(** Everything the callers can do with a list. *)
Inductive bl_op :=
| OpFromMap (enum : list string) | OpFrom (l : list string) | OpAdd (d : string) | OpRemove (d : string)
| OpSetAllowed (l : list string) | OpAddAllowed (d : string) | OpRemoveAllowed (d : string).
Definition bl_exec (o : bl_op) (b : Blocklist) : Blocklist :=
  match o with
  | OpFromMap e => FromDomainsMap e b | OpFrom l => FromDomains l b
  | OpAdd d => Add d b | OpRemove d => Remove d b
  | OpSetAllowed l => SetAllowed l b | OpAddAllowed d => AddAllowed d b | OpRemoveAllowed d => RemoveAllowed d b
  end.
Inductive bl_reachable : Blocklist → Prop :=
| blr_new : bl_reachable New
| blr_step o b : bl_reachable b → bl_reachable (bl_exec o b).

#[export] Hint Resolve FromDomainsMap_inv SetAllowed_inv Add_inv Remove_inv AddAllowed_inv RemoveAllowed_inv : blip.
Lemma bl_reachable_inv b : bl_reachable b → bl_inv b.
Proof. induction 1 as [|o b _ IH]; [by split|]. destruct o; cbn [bl_exec]; unfold FromDomains; auto with blip. Qed.

(** ** The ancestor walks *)
Lemma allow_walk_spec fuel exact wild a :
  (slen a < fuel)%nat →
  allow_walk fuel exact wild a = true ↔ ∃ p, subdomain a p ∧ (p ∈ wild ∨ p ∈ exact).
Proof.
  revert a. induction fuel as [|fuel IH]; intros a Hf; [lia|]. cbn [allow_walk].
  setoid_rewrite <-parents_spec. rewrite parents_next_label. change "."%char with dot. unfold next_label.
  destruct (IndexByte a dot) as [i|] eqn:Hi; [|set_solver].
  assert (next_label a = Some (sdrop (S i) a)) as Hn by (unfold next_label; by rewrite Hi).
  apply next_label_slen in Hn. set (b := sdrop (S i) a) in *.
  case_bool_decide as Hw; [split; [intros _; exists b; split; [left|by left]|done]|].
  case_bool_decide as He; [split; [intros _; exists b; split; [left|by right]|done]|].
  rewrite IH by lia. setoid_rewrite <-parents_spec. set_solver.
Qed.

Lemma block_walk_spec fuel exact wild h a :
  (slen a < fuel)%nat →
  block_walk fuel exact wild h a = true
  ↔ ∃ p, (p = a ∨ subdomain a p) ∧ (p ∈ exact ∨ (p ≠ h ∧ p ∈ wild)).
Proof.
  revert a. induction fuel as [|fuel IH]; intros a Hf; [lia|]. cbn [block_walk].
  case_bool_decide as He; [split; [intros _; exists a; auto|done]|].
  destruct (negb (str_eqb a h) && bool_decide (a ∈ wild)) eqn:Hw.
  { bools. match goal with H : str_eqb _ _ = false |- _ => apply str_eqb_neq in H end. naive_solver. }
  assert (¬ (a ≠ h ∧ a ∈ wild)) as Hno.
  { intros [Hne%str_eqb_neq Hin]. by rewrite Hne, bool_decide_true in Hw. }
  setoid_rewrite <-parents_spec. rewrite parents_next_label. change "."%char with dot. unfold next_label.
  destruct (IndexByte a dot) as [i|] eqn:Hi; [|split; [done|]; set_solver].
  assert (next_label a = Some (sdrop (S i) a)) as Hn by (unfold next_label; by rewrite Hi).
  apply next_label_slen in Hn. rewrite IH by lia. setoid_rewrite <-parents_spec. set_solver.
Qed.

(** [h] is covered by a list entry. *)
Definition covered_by (e : entry) (h : string) : Prop :=
  match e with
  | EExact n => h = n ∨ subdomain h n
  | EWild r => subdomain h r
  | ENone => False
  end.
Definition covered (l : list string) (h : string) : Prop := ∃ d, d ∈ l ∧ covered_by (classify d) h.

Lemma elem_exacts l n : n ∈ exacts l ↔ ∃ d, d ∈ l ∧ classify d = EExact n.
Proof.
  unfold exacts. rewrite elem_of_list_to_set, list_elem_of_omap.
  split; intros (d & ? & H); exists d; (split; [done|]); by destruct (classify d); simplify_eq.
Qed.
Lemma elem_wilds l n : n ∈ wilds l ↔ ∃ d, d ∈ l ∧ classify d = EWild n.
Proof.
  unfold wilds. rewrite elem_of_list_to_set, list_elem_of_omap.
  split; intros (d & ? & H); exists d; (split; [done|]); by destruct (classify d); simplify_eq.
Qed.

Lemma covered_sets l h :
  covered l h ↔ ∃ p, (p = h ∨ subdomain h p) ∧ (p ∈ exacts l ∨ (p ≠ h ∧ p ∈ wilds l)).
Proof.
  unfold covered. setoid_rewrite elem_exacts. setoid_rewrite elem_wilds. split.
  - intros (d & Hd & Hc). destruct (classify d) as [n|r|] eqn:E; cbn in Hc; [| |done].
    + exists n. split; [destruct Hc as [->|?]; auto|]. left. eauto.
    + exists r. split; [by right|]. right. split; [|eauto]. intros ->. by apply subdomain_irrefl in Hc.
  - intros (p & Hp & [(d & Hd & E)|(Hne & d & Hd & E)]); exists d; rewrite E; (split; [done|]); cbn; naive_solver.
Qed.

Lemma allowMatch_covered l h :
  allowMatchLocked (exacts l) (wilds l) h = true ↔ covered l h.
Proof.
  rewrite covered_sets. unfold allowMatchLocked. case_bool_decide as Hh.
  { split; [intros _; exists h; auto|done]. }
  rewrite allow_walk_spec by lia. split.
  - intros (p & Hp & Hin). exists p. split; [by right|]. destruct Hin; [right; split; [|done]|by left].
    intros ->. by apply subdomain_irrefl in Hp.
  - intros (p & [->|Hp] & [?|[? ?]]); try done; eauto.
Qed.

(** ** Canonical entries *)
Definition no_space (s : string) : bool := sforall (λ c, negb (is_space c)) s.

Lemma dot_scan_end s dots prev n :
  dot_scan s dots prev = Some (n, false) → s = "" ∨ HasSuffix s "." = false.
Proof.
  intros H. destruct (HasSuffix s ".") eqn:E; [|by right]. apply HasSuffix_spec in E as [t ->].
  exfalso. revert dots prev H. induction t as [|c t IH]; intros dots prev.
  - rewrite app_nil_l. cbn. by destruct prev.
  - rewrite app_cons. cbn [dot_scan]. destruct (is_dot c); [destruct prev; [done|]|]; apply IH.
Qed.

Lemma sforall_smap p f s : (∀ c, p (f c) = p c) → sforall p (smap f s) = sforall p s.
Proof. intros H. induction s as [|c s IH]; [done|]. cbn [smap sforall]. by rewrite H, IH. Qed.
Lemma no_space_lower s : no_space (ToLower s) = no_space s.
Proof. apply sforall_smap. intros c. by rewrite is_space_lower. Qed.
Lemma no_space_trim s : no_space s = true → no_space (TrimSuffix s ".") = true.
Proof.
  intros H. destruct (TrimSuffix_cases s ".") as [[_ ->]|(t & -> & ->)]; [done|].
  unfold no_space in H. rewrite sforall_app in H. by apply andb_true_iff in H as [? _].
Qed.

Lemma normalizeDomain_nonempty s n :
  normalizeDomain s = n → n ≠ "" →
  n = TrimSuffix (ToLower (TrimSpace s)) "." ∧ ∃ k, dot_scan n 0 true = Some (k, false) ∧ 1 ≤ k.
Proof.
  unfold normalizeDomain. destruct (str_eqb (TrimSpace s) ""); [by intros <-|].
  destruct (dot_scan _ 0 true) as [[k prev]|] eqn:E; [|by intros <-].
  destruct (prev || (k <? 1)) eqn:Ep; [by intros <-|]. bools. intros <- _. subst prev. eauto.
Qed.

Lemma ToLower_TrimSuffix_idem s : ToLower (TrimSuffix (ToLower s) ".") = TrimSuffix (ToLower s) ".".
Proof. by rewrite <-TrimSuffix_dot_lower, ToLower_idemp. Qed.

(** A normalized entry without white space is its own normal form. *)
Lemma normalizeDomain_idem s n :
  normalizeDomain s = n → n ≠ "" → no_space (TrimSpace s) = true → normalizeDomain n = n ∧ no_space n = true.
Proof.
  intros Hs Hne Hsp. destruct (normalizeDomain_nonempty s n Hs Hne) as (Hn & k & Hk & Hk1).
  assert (no_space n = true) as Hnsp by (rewrite Hn; apply no_space_trim; by rewrite no_space_lower).
  split; [|done]. unfold normalizeDomain. rewrite TrimSpace_id by done.
  pose proof (proj2 (str_eqb_neq n "") Hne) as Hb. rewrite Hb.
  assert (ToLower n = n) as -> by (rewrite Hn; apply ToLower_TrimSuffix_idem).
  assert (TrimSuffix n "." = n) as ->.
  { destruct (dot_scan_end _ _ _ _ Hk) as [?|Hsuf]; [done|]. unfold TrimSuffix. by rewrite Hsuf. }
  rewrite Hk. cbn [orb]. destruct (Z.ltb_spec k 1); [lia|done].
Qed.

Lemma lower_star c : lower_ascii c = "*"%char → c = "*"%char.
Proof. destruct c as [[] [] [] [] [] [] [] []]; cbn; (done || (intros H; discriminate H)). Qed.
Lemma wild_prefix_lower s : HasPrefix (TrimSuffix (ToLower s) ".") "*." = true → HasPrefix s "*." = true.
Proof.
  intros [t Ht]%HasPrefix_spec.
  assert (∃ u, ToLower s = "*." +:+ u) as [u Hu].
  { destruct (TrimSuffix_cases (ToLower s) ".") as [[_ E]|(t' & E & E')]; [exists t; congruence|].
    rewrite E' in Ht. exists (t +:+ "."). by rewrite E, Ht, app_assoc. }
  destruct s as [|c1 [|c2 s]]; try done. cbn [ToLower smap] in Hu.
  change ("*." +:+ u) with (String "*" (String dot u)) in Hu. injection Hu as H1 H2 _.
  apply lower_star in H1 as ->. apply lower_dot in H2 as ->. apply (HasPrefix_app "*." s).
Qed.

(** Entries without inner white space are stored in a form that reads back. *)
Lemma classify_stable d :
  no_space (TrimSpace d) = true →
  match classify d with
  | EExact h => classify h = EExact h
  | EWild r => classify (star r) = EWild r
  | ENone => True
  end.
Proof.
  intros Hsp. unfold classify at 1. destruct (str_eqb (TrimSpace d) "") eqn:E0; [done|].
  destruct (HasPrefix (TrimSpace d) "*.") eqn:E1.
  - apply HasPrefix_spec in E1 as [t Ht].
    assert (sdrop 2 (TrimSpace d) = t) as -> by (rewrite Ht; apply (sdrop_app "*.")).
    destruct (str_eqb (normalizeDomain t) "") eqn:E2; [done|]. apply str_eqb_neq in E2.
    assert (no_space t = true) as Ht'.
    { unfold no_space in *. rewrite Ht, sforall_app in Hsp. by apply andb_true_iff in Hsp as [_ ?]. }
    destruct (normalizeDomain_idem t _ eq_refl E2) as [Hid Hn]; [by rewrite TrimSpace_id|].
    set (r := normalizeDomain t) in *. unfold classify.
    rewrite TrimSpace_id by (unfold star; rewrite sforall_app; by rewrite andb_true_r || exact Hn).
    change (str_eqb (star r) "") with false. unfold star. rewrite HasPrefix_app.
    rewrite (sdrop_app "*."). rewrite Hid. apply str_eqb_neq in E2. by rewrite E2.
  - destruct (str_eqb (normalizeDomain (TrimSpace d)) "") eqn:E2; [done|]. apply str_eqb_neq in E2.
    assert (TrimSpace (TrimSpace d) = TrimSpace d) as Htt by (by apply TrimSpace_id).
    destruct (normalizeDomain_idem (TrimSpace d) _ eq_refl E2) as [Hid Hn]; [by rewrite Htt|].
    destruct (normalizeDomain_nonempty (TrimSpace d) _ eq_refl E2) as (Hform & _). rewrite Htt in Hform.
    set (h := normalizeDomain (TrimSpace d)) in *. unfold classify. rewrite TrimSpace_id by done.
    apply str_eqb_neq in E2. rewrite E2.
    destruct (HasPrefix h "*.") eqn:E3; [|by rewrite Hid, E2].
    rewrite Hform in E3. apply wild_prefix_lower in E3. congruence.
Qed.

Definition tidy (l : list string) : Prop := Forall (λ d, no_space (TrimSpace d) = true) l.

(** Listing the sets built from a tidy list and loading them again. *)
Lemma sets_reload l e w k :
  tidy l → e ≡ₚ elements (exacts l) → w ≡ₚ elements (wilds l) → (∀ x, x ∈ k ↔ x ∈ e ++ (star <$> w)) →
  exacts k = exacts l ∧ wilds k = wilds l.
Proof.
  intros Ht He Hw Hk. unfold tidy in Ht. rewrite Forall_forall in Ht.
  assert (∀ h, h ∈ e → h ∈ exacts l ∧ classify h = EExact h) as HE.
  { intros h. rewrite He, elem_of_elements. intros Hh. split; [done|].
    apply elem_exacts in Hh as (d & Hd & Hc). pose proof (classify_stable d (Ht d Hd)) as H. by rewrite Hc in H. }
  assert (∀ r, r ∈ w → r ∈ wilds l ∧ classify (star r) = EWild r) as HW.
  { intros r. rewrite Hw, elem_of_elements. intros Hr. split; [done|].
    apply elem_wilds in Hr as (d & Hd & Hc). pose proof (classify_stable d (Ht d Hd)) as H. by rewrite Hc in H. }
  split; apply set_eq; intros x; rewrite ?elem_exacts, ?elem_wilds; setoid_rewrite Hk;
    setoid_rewrite elem_of_app; setoid_rewrite list_elem_of_fmap.
  - split.
    + intros (d & [Hd|(r & -> & Hr)] & Hc).
      * destruct (HE d Hd) as [Hin Hd']. rewrite Hd' in Hc. injection Hc as <-. by apply elem_exacts.
      * destruct (HW r Hr) as [_ Hr']. congruence.
    + intros Hx. apply elem_exacts in Hx. exists x. rewrite He, elem_of_elements.
      assert (x ∈ e) as Hin by (by rewrite He, elem_of_elements). by destruct (HE x Hin) as [? ?]; auto.
  - split.
    + intros (d & [Hd|(r & -> & Hr)] & Hc).
      * destruct (HE d Hd) as [_ Hd']. congruence.
      * destruct (HW r Hr) as [Hin Hr']. rewrite Hr' in Hc. injection Hc as <-. by apply elem_wilds.
    + intros Hx. apply elem_wilds in Hx. exists (star x).
      assert (x ∈ w) as Hin by (by rewrite Hw, elem_of_elements). destruct (HW x Hin) as [? ?]. eauto.
Qed.

(** ** List lines in the common formats *)
Definition domain_char (c : ascii) : bool :=
  in_range 97 122 c || is_digit c || str_mem c "-_.".
Definition plain (d : string) : Prop := sforall domain_char d = true ∧ normalizeDomain d = d ∧ d ≠ "".

Ltac by_chars := intros [[] [] [] [] [] [] [] []]; vm_compute; (done || (intros H; discriminate H)).
Lemma dc_space c : domain_char c = true → negb (is_space c) = true.
Proof. revert c. by_chars. Qed.
Lemma dc_blank c : domain_char c = true → negb (str_mem c blanks) = true.
Proof. revert c. by_chars. Qed.
Lemma dc_note c : domain_char c = true → negb (str_mem c "!#") = true.
Proof. revert c. by_chars. Qed.
Lemma dc_special c : domain_char c = true → negb (ascii_eqb "$" c) = true ∧ negb (ascii_eqb "^" c) = true
  ∧ negb (ascii_eqb c ":") = true ∧ negb (str_mem c "|") = true ∧ ascii_eqb c "!" || ascii_eqb c "#" = false.
Proof. revert c. intros [[] [] [] [] [] [] [] []]; vm_compute; (intros H; (discriminate H || by split_and!)). Qed.

Section Plain.
Context (d : string) (Hd : plain d).

Lemma plain_all p : (∀ c, domain_char c = true → p c = true) → sforall p d = true.
Proof. intros Hp. destruct Hd as [H _]. by eapply sforall_impl. Qed.
Lemma plain_entry : entry_of (normalizeDomain d) = Some d.
Proof. destruct Hd as (_ & -> & Hne). unfold entry_of. apply str_eqb_neq in Hne. by rewrite Hne. Qed.
Lemma plain_trim : TrimSpace d = d.
Proof. apply TrimSpace_id, plain_all, dc_space. Qed.
Lemma plain_nonempty : str_eqb d "" = false.
Proof. destruct Hd as (_ & _ & ?). by apply str_eqb_neq. Qed.
Lemma plain_no_caret : IndexByte d "^" = None.
Proof. apply IndexFunc_none, plain_all. intros c Hc. by apply (dc_special c) in Hc as (_ & ? & _). Qed.
Lemma plain_no_dollar : IndexByte d "$" = None.
Proof. apply IndexFunc_none, plain_all. intros c Hc. by apply (dc_special c) in Hc as (? & _). Qed.
Lemma plain_no_url : Contains d "://" = false.
Proof. apply (Contains_free ":"), plain_all. intros c Hc. by apply (dc_special c) in Hc as (_ & _ & ? & _). Qed.
Lemma plain_no_note : IndexAny d "!#" = None.
Proof. apply IndexFunc_none, plain_all, dc_note. Qed.
Lemma plain_no_blank : IndexAny d blanks = None.
Proof. apply IndexFunc_none, plain_all, dc_blank. Qed.
Lemma plain_no_bar : TrimLeft d "|" = d.
Proof. apply TrimLeft_id, plain_all. intros c Hc. by apply (dc_special c) in Hc as (_ & _ & _ & ? & _). Qed.

Lemma parseLine_trimmed line c s :
  line = String c s → TrimSpace line = line → parseLine line = parse_trimmed c line.
Proof. intros -> H. unfold parseLine. by rewrite H. Qed.

(** "d", when it is not an address literal. *)
Lemma parse_plain : ParseIP d = [] → parseLine d = Some d.
Proof.
  intros Hip. pose proof Hd as (Hall & Hn & Hne).
  assert (∃ c s, d = String c s ∧ domain_char c = true) as (c & s & Ed & Hc).
  { clear Hip Hn. destruct d as [|c s]; [done|]. cbn [sforall] in Hall. apply andb_true_iff in Hall as [? _]. eauto. }
  rewrite (parseLine_trimmed d c s Ed plain_trim). unfold parse_trimmed.
  destruct (dc_special c Hc) as (_ & _ & _ & _ & ->).
  assert (isHostsIP d = false) as ->.
  { unfold isHostsIP. rewrite plain_no_blank, Hip, bool_decide_true, Ed by done. rewrite <-Ed.
    destruct (existsb _ _) eqn:Ex; [|by destruct (_ || _)]. exfalso.
    apply existsb_exists in Ex as (x & Hx & Heq%str_eqb_eq). subst x. cbn in Hx.
    decompose [or] Hx; try done; match goal with H : _ = d |- _ => rewrite <-H in Hip, Hn; vm_compute in Hip, Hn; done end. }
  rewrite plain_no_note. cbn [cut_at]. rewrite plain_nonempty, plain_no_dollar. cbn [cut_at].
  rewrite plain_nonempty, plain_no_bar, plain_no_caret, plain_trim, plain_nonempty, plain_no_url.
  assert (∀ x t, domain_char x = false → HasPrefix d (String x t) = false) as Hpre.
  { intros x t Hx. rewrite Ed. unfold HasPrefix. cbn [String.prefix]. destruct (ascii_dec x c) as [->|]; [congruence|done]. }
  rewrite !Hpre by done. apply plain_entry.
Qed.

(** "||d^". *)
Lemma parse_abp : parseLine ("||" +:+ d +:+ "^") = Some d.
Proof.
  rewrite (parseLine_trimmed _ "|" (String "|" (d +:+ "^"))) by
    (done || (apply TrimSpace_id; rewrite !sforall_app, plain_all by apply dc_space; done)).
  unfold parse_trimmed. set (line := "||" +:+ d +:+ "^").
  assert (isHostsIP line = false) as ->.
  { assert (IndexAny line blanks = None) as H.
    { apply IndexFunc_none. unfold line. rewrite !sforall_app, plain_all by apply dc_blank. done. }
    unfold isHostsIP. rewrite H. done. }
  assert (IndexAny line "!#" = None) as ->.
  { apply IndexFunc_none. unfold line. rewrite !sforall_app, plain_all by apply dc_note. done. }
  assert (IndexByte line "$" = None) as Hdollar.
  { apply IndexFunc_none. unfold line. rewrite !sforall_app, plain_all; [done|].
    intros c Hc. by apply (dc_special c) in Hc as (? & _). }
  cbn [cut_at]. rewrite Hdollar. cbn [cut_at]. change (str_eqb line "") with false.
  assert (HasPrefix line "||" = true) as -> by apply HasPrefix_app.
  assert (TrimLeft line "|" = d +:+ "^") as ->.
  { change (TrimLeft line "|") with (TrimLeft (d +:+ "^") "|").
    apply TrimLeft_id. rewrite sforall_app, plain_all; [done|].
    intros c Hc. by apply (dc_special c) in Hc as (_ & _ & _ & ? & _). }
  assert (IndexByte (d +:+ "^") "^" = Some (slen d)) as ->.
  { apply IndexFunc_app; [|done]. apply plain_all. intros c Hc. by apply (dc_special c) in Hc as (_ & ? & _). }
  cbn [ascii_eqb Ascii.eqb Bool.eqb orb]. rewrite stake_app, plain_trim, plain_nonempty, plain_no_url. apply plain_entry.
Qed.

(** "0.0.0.0 d". *)
Lemma parse_hosts : HasSuffix d "." = false → parseLine ("0.0.0.0 " +:+ d) = Some d.
Proof.
  intros Hdot. pose proof Hd as (_ & _ & Hne). set (line := "0.0.0.0 " +:+ d).
  rewrite (parseLine_trimmed line "0" (".0.0.0 " +:+ d)); [|done|].
  2:{ unfold TrimSpace. change line with (String "0" (".0.0.0 " +:+ d)) at 1. rewrite TrimLeft_stop by done.
      change (String "0" (".0.0.0 " +:+ d)) with ("0.0.0.0 " +:+ d).
      apply TrimRight_app_id; [done|]. apply plain_all, dc_space. }
  unfold parse_trimmed. assert (isHostsIP line = true) as -> by done.
  assert (Fields line = ["0.0.0.0"; d]) as ->.
  { change (Fields line) with ("0.0.0.0" :: fields_go is_space "" d).
    rewrite fields_go_plain; [done| |done]. apply plain_all, dc_space. }
  assert (TrimSuffix d "." = d) as -> by (unfold TrimSuffix; by rewrite Hdot). apply plain_entry.
Qed.

(** "*.d". *)
Lemma parse_wild : parseLine (star d) = Some (star d).
Proof.
  set (line := star d).
  assert (TrimSpace line = line) as Ht.
  { apply TrimSpace_id. unfold line, star. rewrite sforall_app, plain_all by apply dc_space. done. }
  rewrite (parseLine_trimmed line "*" (String "." d) eq_refl Ht). unfold parse_trimmed.
  assert (isHostsIP line = false) as ->.
  { assert (IndexAny line blanks = None) as H.
    { apply IndexFunc_none. unfold line, star. rewrite sforall_app, plain_all by apply dc_blank. done. }
    unfold isHostsIP. rewrite H. done. }
  assert (IndexAny line "!#" = None) as ->.
  { apply IndexFunc_none. unfold line, star. rewrite sforall_app, plain_all by apply dc_note. done. }
  assert (∀ x, x = "$"%char ∨ x = "^"%char → IndexByte line x = None) as Hx.
  { intros x Hx. apply IndexFunc_none. unfold line, star. rewrite sforall_app, plain_all; [by destruct Hx as [->| ->]|].
    intros c Hc. apply (dc_special c) in Hc as (? & ? & _). by destruct Hx as [->| ->]. }
  cbn [cut_at]. rewrite Hx by auto. cbn [cut_at]. change (str_eqb line "") with false.
  change (HasPrefix line "||") with false. change (TrimLeft line "|") with line. rewrite Hx by auto. rewrite Ht.
  change (str_eqb line "") with false.
  assert (Contains line "://" = false) as ->.
  { apply (Contains_free ":"). unfold free_of, line, star. rewrite sforall_app, plain_all; [done|].
    intros c Hc. by apply (dc_special c) in Hc as (_ & _ & ? & _). }
  cbn [ascii_eqb Ascii.eqb Bool.eqb orb]. unfold line, star. rewrite HasPrefix_app, (sdrop_app "*."), plain_entry. done.
Qed.
End Plain.

(** ** Sources *)
Fixpoint ok_union (fetched : list (string * res fetch_error (gset string))) : gset string :=
  match fetched with
  | [] => ∅
  | (_, Ok s) :: rest => s ∪ ok_union rest
  | (_, Err _) :: rest => ok_union rest
  end.
Definition failures (fetched : list (string * res fetch_error (gset string))) : Z :=
  Z.of_nat (length (filter (λ ur, is_ok ur.2 = false) fetched)).

Lemma merge_sources_spec i ctx fetched merged failed per out :
  merge_sources i ctx fetched merged failed per = Some out →
  out.1.1 = merged ∪ ok_union fetched ∧ out.1.2 = failed + failures fetched
  ∧ sr_URL <$> out.2 = (sr_URL <$> per) ++ fetched.*1.
Proof.
  unfold failures. revert i merged failed per. induction fetched as [|[u r] rest IH]; intros i merged failed per; cbn [merge_sources].
  - intros [= <-]. cbn. rewrite (right_id_L ∅ (∪)), List.app_nil_r. split_and!; [done|lia|done].
  - destruct r as [s|e]; destruct (ctx i); try done; intros H; apply IH in H as (-> & -> & ->);
      rewrite ?filter_cons_True, ?filter_cons_False by done; rewrite fmap_app, <-!(assoc_L (++)); cbn [fmap list_fmap ok_union length fst snd].
    + rewrite (assoc_L (∪)). by split_and!.
    + split_and!; [done|cbn; lia|done].
Qed.

Lemma imap_fst {A B} (g : nat → A → B) (l : list A) : (imap (λ i u, (u, g i u)) l).*1 = l.
Proof. revert g. induction l as [|u l IH]; intros g; [done|]. cbn. f_equal. apply (IH (λ i, g (S i))). Qed.

(** A demonstration list for the witnesses. *)
Definition demo_block : list string := ["Ads.Example."; "*.Track.net"; "bad"; " evil.org "; "ads.example"].
Definition demo_allow : list string := ["good.evil.org"; "*.ok.ads.example"].
Definition demo_list : Blocklist := SetAllowed demo_allow (FromDomains demo_block New).

(** A hand-added wildcard is stored as an exact name: it blocks nothing, while
    the checksum is that of the list in which it is a wildcard. *)
Example add_wildcard_inert :
  IsBlocked "x.ads.com" (Add "*.ads.com" New) = false
  ∧ IsBlocked "x.ads.com" (FromDomains ["*.ads.com"] New) = true
  ∧ Checksum (Add "*.ads.com" New) = Checksum (FromDomains ["*.ads.com"] New).
Proof. vm_compute. done. Qed.

(** ** Properties *)

(** C8: A host is blocked exactly when an entry of the block list covers it (an
    entry covers its own name and every subdomain, a wildcard entry only the
    strict subdomains) and no entry of the allow list does; the order and the
    repetitions of the lists do not matter. *)
Theorem blocklist_decides l al b host :
  let h := ToLower (TrimSuffix host ".") in
  IsBlocked host (SetAllowed al (FromDomains l b)) = true ↔ h ≠ "" ∧ covered l h ∧ ¬ covered al h.
Proof.
  intros h. unfold IsBlocked. fold h. rewrite SetAllowed_spec. destruct (FromDomains_sets l b) as [He Hw].
  cbn [bl_exact bl_wild bl_allowExact bl_allowWild]. rewrite He, Hw.
  destruct (str_eqb host "") eqn:E0.
  { apply str_eqb_eq in E0. unfold h. rewrite E0. naive_solver. }
  destruct (str_eqb h "") eqn:E1; [apply str_eqb_eq in E1; naive_solver|]. apply str_eqb_neq in E1.
  pose proof (allowMatch_covered al h) as Ha. destruct (allowMatchLocked _ _ h); [naive_solver|].
  rewrite block_walk_spec by lia. rewrite (covered_sets l). naive_solver.
Qed.

(** The incrementally maintained count and checksum are those of the sets
    they summarise after any sequence of operations, so two lists with the same
    entries have the same checksum whatever their histories. *)
Theorem blocklist_checksum b :
  bl_reachable b →
  Count b = Z.of_nat (size (bl_exact b)) + Z.of_nat (size (bl_wild b))
  ∧ Checksum b = u64 (set_sum "" (bl_exact b) (bl_wild b) + set_sum "allow:" (bl_allowExact b) (bl_allowWild b)).
Proof.
  intros [Hb Ha Hc]%bl_reachable_inv. split; [done|]. unfold Checksum. by rewrite Hb, Ha, u64_add_l, u64_add_r.
Qed.
Lemma blocklist_checksum_witness : Count (Remove "evil.org" demo_list) = 2 ∧ Count demo_list = 3.
Proof.
  destruct (blocklist_checksum (Remove "evil.org" demo_list)) as [H _].
  { apply (blr_step (OpRemove "evil.org")), (blr_step (OpSetAllowed demo_allow)), (blr_step (OpFrom demo_block)), blr_new. }
  rewrite H. split; vm_compute; reflexivity.
Defined.

(** Saving and loading the snapshot gives back the same list (sets, count
    and checksum), for lists whose entries contain no inner white space; at
    every point of a save the file holds the old or the complete new snapshot. *)
Theorem blocklist_snapshot {D} (marshal : cacheFile → D) unmarshal unmarshal_list
    (Hjson : ∀ cf, unmarshal (marshal cf) = Some cf) l al path (f : gmap string D) partial e w ae aw :
  tidy l → tidy al →
  e ≡ₚ elements (exacts l) → w ≡ₚ elements (wilds l) →
  ae ≡ₚ elements (exacts al) → aw ≡ₚ elements (wilds al) →
  LoadCache unmarshal unmarshal_list path (SaveCache marshal path e w ae aw f)
  = Ok (Some (SetAllowed al (FromDomains l New)))
  ∧ ∀ g, g ∈ SaveCache_states marshal path partial e w ae aw f →
      g !! path = f !! path ∨ g !! path = Some (marshal (mkCacheFile (List e w) (Allowed ae aw))).
Proof.
  intros Hl Hal He Hw Hae Haw.
  assert (path ≠ path +:+ ".tmp") as Hne.
  { intros H. apply (f_equal slen) in H. rewrite slen_app in H. cbn in H. lia. }
  split.
  - unfold LoadCache, SaveCache. rewrite lookup_delete_ne, lookup_insert_eq, Hjson by done.
    cbn [cf_Allowed cf_Domains]. do 2 f_equal. unfold FromDomains. rewrite !FromDomainsMap_spec, !SetAllowed_spec.
    destruct (sets_reload l e w (elements (list_to_set (List e w) : gset string)) Hl He Hw) as [-> ->].
    { intros x. by rewrite elem_of_elements, elem_of_list_to_set. }
    destruct (sets_reload al ae aw (Allowed ae aw) Hal Hae Haw) as [-> ->]; [done|].
    destruct (exacts_set_eq (elements (list_to_set l : gset string)) l) as [-> ->]; [|done].
    intros x. by rewrite elem_of_elements, elem_of_list_to_set.
  - intros g Hg. unfold SaveCache_states in Hg. rewrite !elem_of_cons, elem_of_nil in Hg.
    destruct Hg as [->|[->|[->|[->|[]]]]]; rewrite ?lookup_delete_ne, ?lookup_insert_eq, ?lookup_insert_ne by done; auto.
Qed.
Lemma blocklist_snapshot_witness :
  LoadCache (D := cacheFile) Some (λ _, None) "/var/blip.json"
    (SaveCache id "/var/blip.json" ["evil.org"; "ads.example"] ["track.net"] ["good.evil.org"] ["ok.ads.example"] ∅)
  = Ok (Some demo_list).
Proof.
  apply (blocklist_snapshot id Some (λ _, None) (λ cf, eq_refl) demo_block demo_allow "/var/blip.json" ∅
           (mkCacheFile [] [])); unfold tidy; by_decision.
Defined.

(** The list parser reads a domain written plainly, in AdBlock form, in
    hosts form and as a wildcard, and gives exactly that entry. *)
Theorem blocklist_line_formats d :
  plain d → HasSuffix d "." = false → ParseIP d = [] →
  parseLine d = Some d ∧ parseLine ("||" +:+ d +:+ "^") = Some d
  ∧ parseLine ("0.0.0.0 " +:+ d) = Some d ∧ parseLine ("*." +:+ d) = Some ("*." +:+ d).
Proof.
  intros Hd Hs Hip. split_and!; [by apply parse_plain|by apply parse_abp|by apply parse_hosts|by apply (parse_wild d)].
Qed.
Lemma blocklist_line_formats_witness : parseLine "||ads.example.com^" = Some "ads.example.com".
Proof.
  apply (blocklist_line_formats "ads.example.com"); [|vm_compute; reflexivity|vm_compute; reflexivity].
  split_and!; vm_compute; done.
Defined.

(** Loading sources: on an error the list is left as it was; otherwise the
    new list is built from the union of the sources that could be fetched (a
    failing source is counted and does not abort the others), which is not
    empty, and the outcome of every source is reported in the configured
    order. *)
Theorem blocklist_load_sources fetch ctx urls b :
  match LoadFromURLs fetch ctx urls b with
  | (b', _, Some _) => b' = b
  | (b', r, None) =>
      let fetched := imap (λ i u, (u, source_set (fetch i u))) urls in
      ok_union fetched ≠ ∅
      ∧ bl_exact b' = exacts (elements (ok_union fetched)) ∧ bl_wild b' = wilds (elements (ok_union fetched))
      ∧ bl_allowExact b' = bl_allowExact b ∧ bl_allowWild b' = bl_allowWild b
      ∧ ∃ lr, r = Some lr ∧ lr_Domains lr = Z.of_nat (size (ok_union fetched))
          ∧ lr_Failed lr = failures fetched ∧ sr_URL <$> lr_PerSource lr = urls
  end.
Proof.
  unfold LoadFromURLs. destruct urls as [|u0 us]; [done|]. set (urls := u0 :: us).
  destruct (list_find _ urls) as [[? ?]|]; [done|].
  destruct (merge_sources _ _ _ _ _ _) as [[[merged failed] per]|] eqn:Hm; [|done].
  apply merge_sources_spec in Hm as (Hu & Hf & Hp). cbn [fst snd] in Hu, Hf, Hp.
  rewrite (left_id_L ∅ (∪)) in Hu. subst merged failed.
  destruct (Z.of_nat (size _) =? 0) eqn:Hz; [done|]. bools. rewrite FromDomainsMap_spec.
  cbn [bl_exact bl_wild bl_allowExact bl_allowWild]. split_and!; try done.
  - intros E. apply Hz. fold urls. rewrite E. by rewrite size_empty.
  - eexists. split_and!; [done|done|cbn; lia|]. cbn. rewrite Hp. cbn [fmap list_fmap app].
    apply imap_fst.
Qed.

(** The source guard: an accepted URL is http or https with a host, and if
    the host is an address literal it is public; the dialer connects only to
    public addresses, where public excludes every loopback, link-local,
    multicast, unspecified, private-use and carrier-grade NAT address. *)
Theorem blocklist_source_guard rawURL ips :
  (validateSourceURL true rawURL = None →
   ∃ u, url_Parse rawURL = Some u ∧ (u_Scheme u = "http" ∨ u_Scheme u = "https") ∧ u_Host u ≠ ""
     ∧ (ParseIP (TrimPrefix (Hostname u) "[") ≠ [] → isPrivateIP (ParseIP (TrimPrefix (Hostname u) "[")) = false))
  ∧ (∀ ip, ip ∈ dial_candidates ips →
       let a := ParseIP ip in
       a ≠ [] ∧ IsLoopback a = false ∧ IsLinkLocalUnicast a = false ∧ IsMulticast a = false
       ∧ IsUnspecified a = false ∧ IsPrivate a = false ∧ Contains_ip cgnatNet a = false).
Proof.
  split.
  - unfold validateSourceURL. destruct (url_Parse rawURL) as [u|]; [|done]. intros H. exists u. split; [done|].
    destruct (str_eqb (u_Scheme u) "http") eqn:E1; destruct (str_eqb (u_Scheme u) "https") eqn:E2; cbn [negb andb] in H; try done;
      (split; [rewrite str_eqb_eq in *; auto|]);
      (destruct (str_eqb (u_Host u) "") eqn:E3; [done|]; apply str_eqb_neq in E3; split; [done|]);
      intros Hip; rewrite bool_decide_false in H by done; cbn [negb andb] in H; by destruct (isPrivateIP _).
  - intros ip [Hp _]%list_elem_of_filter a. fold a in Hp. unfold isPrivateIP in Hp.
    case_bool_decide as Ha; [done|]. bools. unfold IsGlobalUnicast in *. bools.
    by split_and!.
Qed.
Lemma blocklist_source_guard_witness :
  validateSourceURL true "https://lists.example/x" = None
  ∧ validateSourceURL true "http://169.254.169.254/" = Some UrlPrivate
  ∧ ∃ u, url_Parse "https://lists.example/x" = Some u ∧ u_Host u ≠ "".
Proof.
  split_and!; [vm_compute; reflexivity|vm_compute; reflexivity|].
  destruct (blocklist_source_guard "https://lists.example/x" []) as [H _].
  destruct H as (u & ? & _ & ? & _); [vm_compute; reflexivity|eauto].
Defined.
