(* ===== verification/Upstream.v ===== *)
(** * Upstream resolvers (internal/upstream: upstream.go, routing.go, probe.go)

    Spec strings, the resolver pool with its failover rotation and routes, the
    failover state machine, the three transports, error texts and the probe.

    A resolver value records how it was built.  Go compares resolvers by
    pointer in [LabelFor]: [r_id] stands for the pointer of a pool's resolver
    (the position of a named server plus one; 0 for the rotation's own
    object).  A nil [Resolver] is [None].  What the network answers is an
    argument of the operations. *)
From S2P Require Import Prelude GoStrings GoNet GoUrl Dns.
From Stdlib Require Import Ascii.
#[local] Open Scope Z_scope.

(** ** Errors *)
Record up_error := mkErr { ue_addr : option string; ue_msg : string }.
Definition plain_err (msg : string) : up_error := mkErr None msg.
Definition errUpstream (addr msg : string) : up_error := mkErr (Some addr) msg.

Definition socket_phrases : list string :=
  ["read udp "; "write udp "; "read tcp "; "write tcp "; "dial udp "; "dial tcp "].
Fixpoint strip_phrases (ps : list string) (head tail_ : string) : option string :=
  match ps with
  | [] => None
  | p :: ps => match LastIndex head p with
               | Some i => Some (stake i head +:+ tail_)
               | None => strip_phrases ps head tail_
               end
  end.
(** [stripLocalSocket]: [None] when nothing was stripped. *)
Definition stripLocalSocket (msg : string) : option string :=
  match Index msg "->" with
  | None => None
  | Some arrow => strip_phrases socket_phrases (stake arrow msg) (sdrop (arrow + 2) msg)
  end.
(** [upErr.Error]; an unlabelled error is its message. *)
Definition upErr_Error (e : up_error) : string :=
  match ue_addr e with
  | None => ue_msg e
  | Some addr =>
      match stripLocalSocket (ue_msg e) with
      | Some cleaned => cleaned
      | None => if str_eqb addr "" || Contains (ue_msg e) addr then ue_msg e else addr +:+ ": " +:+ ue_msg e
      end
  end.

(** ** Spec strings *)
Record Spec := mkSpec { s_Type : string; s_Address : string; s_Priority : Z }.
Inductive spec_error := SE_empty | SE_unrecognized (tok : string) | SE_blocked (tok : string) (ip : IP)
| SE_count (n : Z).

Definition splitSpec (spec : string) : list string :=
  FieldsFunc spec (λ c, ascii_eqb c " " || ascii_eqb c "," || ascii_eqb c (ascii_of_N 10) || ascii_eqb c (ascii_of_N 9)).
Definition splitPriority (tok : string) : string * Z :=
  match LastIndex tok "|" with
  | Some (S i) =>
      match Atoi (sdrop (S (S i)) tok) with
      | Some p => (stake (S i) tok, p)
      | None => (tok, 0)
      end
  | _ => (tok, 0)
  end.
Definition unbracket (s : string) : string := TrimSuffix (TrimPrefix s "[") "]".
Definition ensurePort (addr defaultPort : string) : string :=
  if str_eqb addr "" then addr
  else match SplitHostPort addr with
       | Some _ => addr
       | None => JoinHostPort (unbracket addr) defaultPort
       end.
Definition isBareUDP (tok : string) : bool :=
  match SplitHostPort tok with
  | Some (host, port) => match Atoi port with None => false | Some _ => negb (str_eqb host "") end
  | None => negb (bool_decide (ParseIP (unbracket tok) = []))
  end.
Definition specHost (addr : string) : string :=
  let addr := match IndexByte addr "/" with Some i => stake i addr | None => addr end in
  match SplitHostPort addr with Some (host, _) => host | None => unbracket addr end.
Definition blockedUpstreamIP (ip : IP) : bool :=
  IsLinkLocalUnicast ip || IsLinkLocalMulticast ip || IsUnspecified ip.

(** One iteration of the loop of [ParseSpec], for the token at position [i]. *)
Definition parse_token (i : nat) (tok : string) : res spec_error Spec :=
  let '(raw, prio) := splitPriority tok in
  let prio := if prio <=? 0 then Z.of_nat i + 1 else prio in
  let s :=
    if HasPrefix raw "udp://" then Some (mkSpec "udp" (ensurePort (sdrop 6 raw) "53") prio)
    else if HasPrefix raw "tls://" then Some (mkSpec "tls" (ensurePort (sdrop 6 raw) "853") prio)
    else if HasPrefix raw "doh://" then Some (mkSpec "doh" (sdrop 6 raw) prio)
    else if HasPrefix raw "https://" then Some (mkSpec "doh" (sdrop 8 raw) prio)
    else if isBareUDP raw then Some (mkSpec "udp" (ensurePort raw "53") prio)
    else None in
  match s with
  | None => Err (SE_unrecognized tok)
  | Some s =>
      let ip := ParseIP (specHost (s_Address s)) in
      if negb (bool_decide (ip = [])) && blockedUpstreamIP ip then Err (SE_blocked tok ip) else Ok s
  end.
Definition prio_less (a b : Spec) : bool := s_Priority a <? s_Priority b.
Definition ParseSpec (spec : string) : res spec_error (list Spec) :=
  let tokens := splitSpec spec in
  match tokens with
  | [] => Err SE_empty
  | _ =>
      match res_mapM (λ '(i, tok), parse_token i tok) (imap pair tokens) with
      | Err e => Err e
      | Ok out => Ok (stable_sort prio_less out)
      end
  end.

(** ** Resolvers *)
Inductive kind :=
| KUDP (addr : string) (timeout : Z)
| KTLS (addr : string) (timeout : Z)
| KDoH (endpoint : string) (timeout : Z) (bootstrap : option resolver)
| KMulti (rs : list (option resolver))
| KStatic (host : string) (ips : list IP)
with resolver := mkR (id : nat) (k : kind).
Definition r_id (r : resolver) : nat := match r with mkR i _ => i end.
Definition r_kind (r : resolver) : kind := match r with mkR _ k => k end.

Definition default_timeout (t : Z) : Z := if t <=? 0 then 5 * second else t.
Definition NewUDP (addr : string) (t : Z) : kind := KUDP addr (default_timeout t).
Definition NewTLS (addr : string) (t : Z) : kind := KTLS addr (default_timeout t).
Definition NewDoHWithBootstrap (endpoint : string) (t : Z) (b : option resolver) : kind :=
  KDoH endpoint (default_timeout t) b.
Definition NewDoH (endpoint : string) (t : Z) : kind := NewDoHWithBootstrap endpoint t None.
Definition build_spec (t : Z) (b : option resolver) (s : Spec) : option kind :=
  if str_eqb (s_Type s) "udp" then Some (NewUDP (s_Address s) t)
  else if str_eqb (s_Type s) "tls" then Some (NewTLS (s_Address s) t)
  else if str_eqb (s_Type s) "doh" then Some (NewDoHWithBootstrap ("https://" +:+ s_Address s) t b)
  else None.
(** [FromSpec]; a [Spec] of no known type would leave a nil resolver. *)
Definition FromSpec (spec : string) : res spec_error (option resolver) :=
  match ParseSpec spec with
  | Err e => Err e
  | Ok specs =>
      let rs := (λ s, mkR 0 <$> build_spec 0 None s) <$> specs in
      match rs with
      | [r] => Ok r
      | _ => Ok (Some (mkR 0 (KMulti rs)))
      end
  end.

Record UpstreamServer := mkServer { sv_Name : string; sv_Address : string; sv_Priority : Z; sv_TimeoutSec : Z }.
Record UpstreamRoute := mkRoute {
  rt_Name : string; rt_QnameSuffix : string; rt_Server : string; rt_ClientCIDR : string; rt_Disabled : bool }.
Record routeRule := mkRule { rr_suffix : string; rr_network : option IPNet; rr_server : string }.
Record ResolverPool := mkPool {
  p_named : gmap string resolver;
  p_auto : option resolver;
  p_rules : list routeRule;
  p_servers : list UpstreamServer;
  p_routes : list UpstreamRoute;
  p_bootstrap : list UpstreamServer }.

Definition timeoutForServer (s : UpstreamServer) : Z :=
  if 0 <? sv_TimeoutSec s then sv_TimeoutSec s * second else 5 * second.
Definition fromServerSpecWithBootstrap (spec : string) (t : Z) (b : option resolver) : res spec_error kind :=
  match ParseSpec spec with
  | Err e => Err e
  | Ok [s] => match build_spec t b s with Some k => Ok k | None => Err (SE_unrecognized spec) end
  | Ok specs => Err (SE_count (Z.of_nat (length specs)))
  end.
Definition fromServerSpec (spec : string) (t : Z) : res spec_error kind := fromServerSpecWithBootstrap spec t None.

Inductive pool_error :=
| PE_bootstrap (addr : string) (e : spec_error)
| PE_duplicate (name : string)
| PE_server (name : string) (e : spec_error)
| PE_default (spec : string) (e : spec_error)
| PE_routeServer (name : string)
| PE_routeUnknown (name server : string)
| PE_routeSuffix (name : string)
| PE_routeCIDR (name cidr : string).

Definition BuildBootstrapResolver (bootstrap : list UpstreamServer) : res pool_error (option resolver) :=
  match res_mapM (λ sv, match fromServerSpec (sv_Address sv) (timeoutForServer sv) with
                        | Ok k => Ok (mkR 0 k)
                        | Err e => Err (PE_bootstrap (sv_Address sv) e)
                        end) bootstrap with
  | Err e => Err e
  | Ok [] => Ok None
  | Ok [r] => Ok (Some r)
  | Ok rs => Ok (Some (mkR 0 (KMulti (Some <$> rs))))
  end.

(** The loop that fills [named]; [i] counts the servers. *)
Definition effective_name (sv : UpstreamServer) : string :=
  if str_eqb (sv_Name sv) "" then "server#" +:+ sv_Address sv else sv_Name sv.
Fixpoint add_servers (i : nat) (b : option resolver) (servers : list UpstreamServer) (named : gmap string resolver)
    : res pool_error (gmap string resolver) :=
  match servers with
  | [] => Ok named
  | sv :: rest =>
      let name := effective_name sv in
      match named !! name with
      | Some _ => Err (PE_duplicate name)
      | None =>
          match fromServerSpecWithBootstrap (sv_Address sv) (timeoutForServer sv) b with
          | Err e => Err (PE_server name e)
          | Ok k => add_servers (S i) b rest (<[name := mkR (S i) k]> named)
          end
      end
  end.
Definition serverPriority (servers : list UpstreamServer) (name : string) : Z :=
  match list_find (λ sv, sv_Name sv = name ∨ (sv_Name sv = "" ∧ "server#" +:+ sv_Address sv = name)) servers with
  | Some (_, sv) => sv_Priority sv
  | None => 0
  end.
Definition order_less (servers : list UpstreamServer) (a b : string) : bool :=
  let pi := serverPriority servers a in
  let pj := serverPriority servers b in
  if pi =? pj then String.ltb a b else pi <? pj.
Definition rotation (servers : list UpstreamServer) : list string :=
  stable_sort (order_less servers) (sv_Name <$> filter (λ sv, 0 < sv_Priority sv) servers).
Definition build_auto (named : gmap string resolver) (servers : list UpstreamServer) (legacyUp : string)
    : res pool_error (option resolver) :=
  let autos := (λ name, named !! name) <$> rotation servers in
  match autos with
  | [] => if str_eqb legacyUp "" then Ok None
          else match FromSpec legacyUp with Ok r => Ok r | Err e => Err (PE_default legacyUp e) end
  | [r] => Ok r
  | _ => Ok (Some (mkR 0 (KMulti autos)))
  end.

(** [fqdn]. *)
Definition route_fqdn (s : string) : string :=
  let s := ToLower (TrimSpace s) in
  if str_eqb s "" then "." else if HasSuffix s "." then s else s +:+ ".".
Definition makeRouteRule (rt : UpstreamRoute) (named : gmap string resolver) : res pool_error routeRule :=
  if str_eqb (rt_Server rt) "" then Err (PE_routeServer (rt_Name rt))
  else match named !! rt_Server rt with
  | None => Err (PE_routeUnknown (rt_Name rt) (rt_Server rt))
  | Some _ =>
      if str_eqb (rt_QnameSuffix rt) "" then Err (PE_routeSuffix (rt_Name rt))
      else
        let suffix := route_fqdn (rt_QnameSuffix rt) in
        if negb (str_eqb (rt_ClientCIDR rt) "") && negb (str_eqb (rt_ClientCIDR rt) "0.0.0.0/0") then
          match ParseCIDR (rt_ClientCIDR rt) with
          | None => Err (PE_routeCIDR (rt_Name rt) (rt_ClientCIDR rt))
          | Some (_, n) => Ok (mkRule suffix (Some n) (rt_Server rt))
          end
        else Ok (mkRule suffix None (rt_Server rt))
  end.

Definition NewPoolWithBootstrap (servers : list UpstreamServer) (routes : list UpstreamRoute) (legacyUp : string)
    (bootstrap : list UpstreamServer) : res pool_error ResolverPool :=
  b ← BuildBootstrapResolver bootstrap;
  named ← add_servers 0 b servers ∅;
  auto ← build_auto named servers legacyUp;
  rules ← res_mapM (λ rt, makeRouteRule rt named) (filter (λ rt, rt_Disabled rt = false) routes);
  Ok (mkPool named auto rules servers routes bootstrap).
Definition NewPool (servers : list UpstreamServer) (routes : list UpstreamRoute) (legacyUp : string) :=
  NewPoolWithBootstrap servers routes legacyUp [].
Definition NewPoolWithAuto (r : option resolver) : ResolverPool := mkPool ∅ r [] [] [] [].

Definition Auto (p : ResolverPool) : option resolver := p_auto p.
Definition Servers (p : ResolverPool) : list UpstreamServer := p_servers p.
Definition Routes (p : ResolverPool) : list UpstreamRoute := p_routes p.
Definition Bootstrap (p : ResolverPool) : list UpstreamServer := p_bootstrap p.

(** [Match]. *)
Definition rule_matches (q : string) (client : IP) (rt : routeRule) : bool :=
  HasSuffix q (rr_suffix rt)
  && match rr_network rt with
     | Some n => if bool_decide (client = []) then true else Contains_ip n client
     | None => true
     end.
Definition better_rule (q : string) (client : IP) (best : option routeRule) (rt : routeRule) : option routeRule :=
  if rule_matches q client rt then
    match best with
    | None => Some rt
    | Some b => if (slen (rr_suffix b) <? slen (rr_suffix rt))%nat then Some rt else best
    end
  else best.
Definition best_rule (qname : string) (client : IP) (rules : list routeRule) : option routeRule :=
  foldl (better_rule (route_fqdn qname) client) None rules.
Definition Match (qname : string) (client : IP) (p : ResolverPool) : option resolver :=
  match best_rule qname client (p_rules p) with
  | None => None
  | Some b => p_named p !! rr_server b
  end.

(** [LabelFor]. *)
Definition same_resolver (a b : option resolver) : bool :=
  match a, b with
  | Some a, Some b => (r_id a =? r_id b)%nat
  | None, None => true
  | _, _ => false
  end.
Definition LabelFor (r : option resolver) (p : ResolverPool) : string :=
  match r with
  | None => ""
  | Some _ =>
      if same_resolver r (p_auto p) then
        match sv_Name <$> filter (λ sv, 0 < sv_Priority sv) (p_servers p) with
        | [] => "auto"
        | names => "auto (" +:+ Join names ", " +:+ ")"
        end
      else
        match list_find (λ sv, sv_Name sv ≠ "" ∧ same_resolver (p_named p !! sv_Name sv) r = true) (p_servers p) with
        | Some (_, sv) =>
            if str_eqb (sv_Address sv) "" then sv_Name sv else sv_Name sv +:+ " (" +:+ sv_Address sv +:+ ")"
        | None => ""
        end
  end.

(** ** Transports *)
(** [UDPResolver.Resolve]: what the UDP and (on truncation) TCP exchanges give. *)
Definition udp_resolve (addr : string) (udp tcp : res string Msg) : res up_error Msg :=
  match udp with
  | Err e => Err (errUpstream addr e)
  | Ok resp =>
      if m_Truncated resp then
        match tcp with Err e => Err (errUpstream addr e) | Ok resp => Ok resp end
      else Ok resp
  end.

(** [TLSResolver.Resolve]: [conn] says whether a connection is open; [dial]
    and [exchange] give the outcome of each attempt. *)
Fixpoint tls_attempts (addr : string) (attempts : list nat) (dial : nat → option string)
    (exchange : nat → res string Msg) (conn : bool) (err : string) : bool * res up_error Msg :=
  match attempts with
  | [] => (conn, Err (errUpstream addr err))
  | a :: rest =>
      match (if conn then None else dial a) with
      | Some e => (false, Err (errUpstream addr e))
      | None =>
          match exchange a with
          | Ok resp => (true, Ok resp)
          | Err e => tls_attempts addr rest dial exchange false e
          end
      end
  end.
Definition tls_resolve (addr : string) (dial : nat → option string) (exchange : nat → res string Msg) (conn : bool) :=
  tls_attempts addr [0; 1]%nat dial exchange conn "".

(** [DoHResolver.Resolve]: [pack] packs the query, [do] is the HTTP exchange
    (status, body and whether reading the body failed), [unpack] parses it. *)
Definition maxDNSResponseBytes : Z := 65535.
Record doh_response := mkDoH { dr_status : Z; dr_body : list Z; dr_readErr : option string }.
Definition doh_resolve (endpoint : string) (pack : Msg → res string (list Z)) (do_ : list Z → res string doh_response)
    (unpack : list Z → res string Msg) (q : Msg) : res up_error Msg :=
  match pack q with
  | Err e => Err (plain_err e)
  | Ok buf =>
      match do_ buf with
      | Err e => Err (errUpstream endpoint e)
      | Ok resp =>
          let body := take (Z.to_nat (maxDNSResponseBytes + 1)) (dr_body resp) in
          match dr_readErr resp with
          | Some e => Err (errUpstream endpoint e)
          | None =>
              if maxDNSResponseBytes <? Z.of_nat (length body)
              then Err (errUpstream endpoint "doh: upstream response too large")
              else if negb (dr_status resp =? 200)
              then Err (errUpstream endpoint ("doh: upstream returned " +:+ Itoa (dr_status resp)))
              else match unpack body with
                   | Err e => Err (errUpstream endpoint ("doh: unpack response: " +:+ e))
                   | Ok m => Ok m
                   end
          end
      end
  end.

(** ** Failover *)
Record MultiResolver := mkMulti { mr_downUntil : list Z; mr_cooldown : Z }.
Definition NewMulti (n : nat) : MultiResolver := mkMulti (replicate n 0) (15 * second).

(** The loop over [order]: [ask i] is what resolver [i] answers. *)
Fixpoint try_order (order : list nat) (ask : nat → res up_error Msg) (mark : Z) (down : list Z)
    (firstErr : option up_error) : list Z * res (option up_error) Msg :=
  match order with
  | [] => (down, Err firstErr)
  | i :: rest =>
      match ask i with
      | Ok resp => (<[i := 0]> down, Ok resp)
      | Err e =>
          let firstErr := match firstErr with None => Some e | Some _ => firstErr end in
          try_order rest ask mark (<[i := mark]> down) firstErr
      end
  end.
(** Which resolvers are asked, and the stamps before asking. *)
Definition is_up (now : Z) (down : list Z) (i : nat) : bool :=
  match down !! i with Some d => d <=? now | None => false end.
Definition multi_order (now : Z) (down : list Z) : list nat * list Z :=
  let all := seq 0 (length down) in
  let order := filter (λ i, is_up now down i = true) all in
  match order with
  | [] => (all, (λ _, 0) <$> down)
  | _ => (order, down)
  end.
Definition no_resolvers : up_error := plain_err "upstream: no resolvers configured".
Definition multi_resolve (now : Z) (ask : nat → res up_error Msg) (m : MultiResolver)
    : MultiResolver * res up_error Msg :=
  let '(order, down) := multi_order now (mr_downUntil m) in
  let '(down, r) := try_order order ask (now + mr_cooldown m) down None in
  (mkMulti down (mr_cooldown m),
   match r with
   | Ok resp => Ok resp
   | Err (Some e) => Err e
   | Err None => Err no_resolvers
   end).

(** ** Bootstrap and probe *)
(** The addresses in an answer section. *)
Definition rr_ip (rr : RR) : option IP :=
  match rr_data rr with RD_A a => Some a | RD_AAAA a => Some a | _ => None end.
(** [bootstrapLookupIP]; [id] numbers the queries. *)
Definition bootstrapLookupIP (ask : Msg → res up_error Msg) (id : Z) (host : string) : list IP :=
  concat ((λ t, match ask (SetQuestion id (Fqdn host) t) with
                | Err _ => []
                | Ok resp => omap rr_ip (m_Answer resp)
                end) <$> [TypeA; TypeAAAA]).

(** [bootstrapDialContext]: the addresses dialled, in order, or a refusal. *)
Inductive dial_error := DE_addr | DE_blocked (host : string) | DE_none (host : string).
Definition dial_plan (lookup : string → list IP) (addr : string) : res dial_error (list string) :=
  match SplitHostPort addr with
  | None => Err DE_addr
  | Some (host, port) =>
      let ip := ParseIP host in
      if negb (bool_decide (ip = [])) then
        if blockedUpstreamIP ip then Err (DE_blocked host) else Ok [addr]
      else
        match lookup host with
        | [] => Err (DE_none host)
        | ips => Ok ((λ ip, JoinHostPort (ip_string ip) port) <$> filter (λ ip, blockedUpstreamIP ip = false) ips)
        end
  end.

(** [staticResolver.Resolve]. *)
Definition static_answer (q : Question) (ip : IP) : option RR :=
  let hdr := mkHdr (q_Name q) (q_Qtype q) ClassINET 60 in
  if q_Qtype q =? TypeA then
    match To4 ip with Some ip4 => Some (mkRR hdr (RD_A ip4)) | None => None end
  else if q_Qtype q =? TypeAAAA then
    match To4 ip with None => Some (mkRR hdr (RD_AAAA ip)) | Some _ => None end
  else None.
Definition static_resolve (host : string) (ips : list IP) (q : Msg) : res up_error Msg :=
  let m := SetReply q in
  match m_Question q with
  | [qu] => if str_eqb (q_Name qu) (Fqdn host) then Ok (with_Answer (omap (static_answer qu) ips) m) else Ok m
  | _ => Ok m
  end.

Definition isConnReset (e : up_error) : bool := Contains (upErr_Error e) "connection reset by peer".
(** [resolveWithRetry]: [ask 0] and, after a reset, [ask 1]; [id] numbers the queries. *)
Definition resolveWithRetry (ask : nat → Msg → res up_error Msg) (id : nat → Z) (fqdn : string) : res up_error Msg :=
  match ask 0%nat (SetQuestion (id 0%nat) fqdn TypeA) with
  | Err e => if isConnReset e then ask 1%nat (SetQuestion (id 1%nat) fqdn TypeA) else Err e
  | Ok resp => Ok resp
  end.
Definition endpointHost (endpoint : string) : string :=
  match url_Parse endpoint with None => "" | Some u => Hostname u end.

(** [warmDoHEndpoint]: the pinned resolver, [Ok None] when the warm-up found
    nothing, an error when the caller's context is dead. *)
Definition warmDoHEndpoint (lookup : string → list IP) (ctxErr : option string) (endpoint : string) (t : Z) (host : string)
    : res string (option kind) :=
  match lookup host with
  | [] => match ctxErr with
          | Some e => Err ("bootstrap resolve " +:+ host +:+ ": " +:+ e)
          | None => Ok None
          end
  | ips => Ok (Some (NewDoHWithBootstrap endpoint t (Some (mkR 0 (KStatic host ips)))))
  end.

Record ProbeResult := mkProbe {
  pr_Name : string; pr_Address : string; pr_OK : bool; pr_LatencyMs : Z; pr_Answers : list RR;
  pr_Rcode : option Z; pr_Error : option string }.
(** [ProbeServerWithBootstrap]: [valid] is [dns.IsDomainName], [lookup] the
    bootstrap's address lookup, [run k] the retried query through the resolver
    built as [k] with its latency. *)
Definition ProbeServerWithBootstrap (valid : string → bool) (lookup : string → list IP) (ctxErr : option string)
    (run : kind → string → res up_error (option Msg) * Z) (sv : UpstreamServer) (qname : string)
    (bootstrap : option resolver) : ProbeResult :=
  let fail msg := mkProbe (sv_Name sv) (sv_Address sv) false 0 [] None (Some msg) in
  let fqdn := Fqdn (TrimSpace qname) in
  if negb (valid fqdn) then fail ("invalid domain " +:+ qname)
  else
    let t := timeoutForServer sv in
    match fromServerSpecWithBootstrap (sv_Address sv) t bootstrap with
    | Err _ => fail "bad address"
    | Ok k =>
        let k' :=
          match k with
          | KDoH endpoint _ (Some _) =>
              let host := endpointHost endpoint in
              if negb (str_eqb host "") && bool_decide (ParseIP host = [])
              then match warmDoHEndpoint lookup ctxErr endpoint t host with
                   | Err e => Err e
                   | Ok None => Ok k
                   | Ok (Some pinned) => Ok pinned
                   end
              else Ok k
          | _ => Ok k
          end in
        match k' with
        | Err e => fail e
        | Ok k' =>
            let '(r, ms) := run k' fqdn in
            match r with
            | Err e => mkProbe (sv_Name sv) (sv_Address sv) false ms [] None (Some (upErr_Error e))
            | Ok None => mkProbe (sv_Name sv) (sv_Address sv) false ms [] None (Some "empty response")
            | Ok (Some resp) =>
                mkProbe (sv_Name sv) (sv_Address sv) true ms (m_Answer resp) (Some (m_Rcode resp)) None
            end
        end
    end.
Definition ProbeServer (valid : string → bool) (ctxErr : option string)
    (run : kind → string → res up_error (option Msg) * Z) (sv : UpstreamServer) (qname : string) : ProbeResult :=
  ProbeServerWithBootstrap valid (λ _, []) ctxErr run sv qname None.

Example spec_demo :
  (λ r, match r with Ok l => (λ s, (s_Type s, s_Address s, s_Priority s)) <$> l | Err _ => [] end)
    (ParseSpec "udp://9.9.9.9|7, tls://[2620:fe::fe] https://dns.google/dns-query|1 192.168.1.1")
  = [("doh", "dns.google/dns-query", 1); ("tls", "[2620:fe::fe]:853", 2); ("udp", "192.168.1.1:53", 4);
     ("udp", "9.9.9.9:53", 7)].
Proof. vm_compute. reflexivity. Qed.
Example strip_demo :
  stripLocalSocket "read udp 127.0.0.1:50791->127.0.0.1:1: read: connection refused"
  = Some "127.0.0.1:1: read: connection refused".
Proof. vm_compute. reflexivity. Qed.

(** ** Lemmas: specs *)
Lemma imap_pair_elem {A} (l : list A) i x : (i, x) ∈ imap pair l → x ∈ l.
Proof. intros [j Hj]%list_elem_of_lookup_1. apply list_lookup_imap_Some in Hj as (y & Hy & [= -> ->]). by eapply list_elem_of_lookup_2. Qed.

Lemma parse_token_ok i tok s :
  parse_token i tok = Ok s →
  (s_Type s = "udp" ∨ s_Type s = "tls" ∨ s_Type s = "doh") ∧ 1 ≤ s_Priority s
  ∧ (ParseIP (specHost (s_Address s)) ≠ [] → blockedUpstreamIP (ParseIP (specHost (s_Address s))) = false).
Proof.
  unfold parse_token. destruct (splitPriority tok) as [raw prio].
  set (p := if prio <=? 0 then _ else _).
  assert (1 ≤ p) as Hp by (unfold p; destruct (Z.leb_spec prio 0); lia). clearbody p.
  set (o := if HasPrefix raw "udp://" then _ else _).
  assert (∀ s', o = Some s' → (s_Type s' = "udp" ∨ s_Type s' = "tls" ∨ s_Type s' = "doh") ∧ s_Priority s' = p) as Ho.
  { unfold o. intros s'. repeat (destruct (HasPrefix raw _); [by intros [= <-]; auto|]).
    destruct (isBareUDP raw); [|done]. intros [= <-]; auto. }
  clearbody o. destruct o as [s'|]; [|done]. destruct (Ho s' eq_refl) as [Ht Hpr].
  destruct (negb _ && _) eqn:E; [done|]. intros [= <-]. split_and!; [done|lia|].
  intros Hne. apply andb_false_iff in E as [E|E]; [|done]. apply negb_false_iff, bool_decide_eq_true in E. done.
Qed.

(** ** Lemmas: failover *)
Definition fails (ask : nat → res up_error Msg) (i : nat) : Prop := is_ok (ask i) = false.

Lemma try_order_spec order ask mark down fe :
  NoDup order → (∀ i, i ∈ order → (i < length down)%nat) →
  let '(down', r) := try_order order ask mark down fe in
  length down' = length down
  ∧ (∀ i, i ∉ order → down' !! i = down !! i)
  ∧ match r with
    | Ok resp => ∃ pre i post, order = pre ++ i :: post ∧ ask i = Ok resp ∧ Forall (fails ask) pre
        ∧ down' !! i = Some 0 ∧ (∀ j, j ∈ pre → down' !! j = Some mark)
        ∧ (∀ j, j ∈ post → down' !! j = down !! j)
    | Err e => Forall (fails ask) order ∧ (∀ j, j ∈ order → down' !! j = Some mark)
        ∧ e = match fe with Some x => Some x | None => match order with i :: _ => match ask i with Err x => Some x | _ => None end | [] => None end end
    end.
Proof.
  revert down fe. induction order as [|i order IH]; intros down fe Hnd Hlt; cbn [try_order].
  { split_and!; [done|done|constructor|set_solver|by destruct fe]. }
  apply NoDup_cons in Hnd as [Hi Hnd].
  destruct (ask i) as [resp|e] eqn:Ha.
  - split_and!; [by rewrite length_insert| |].
    + intros j Hj. rewrite list_lookup_insert_ne; [done|set_solver].
    + exists [], i, order. split_and!; [done|done|constructor| |set_solver|].
      * rewrite list_lookup_insert_eq; [done|]. apply Hlt. left.
      * intros j Hj. rewrite list_lookup_insert_ne; [done|]. intros ->. done.
  - set (fe' := match fe with None => Some e | Some _ => fe end).
    specialize (IH (<[i := mark]> down) fe' Hnd).
    destruct (try_order order ask mark (<[i := mark]> down) fe') as [down' r].
    destruct IH as (Hl & Hout & Hr).
    { intros j Hj. rewrite length_insert. apply Hlt. by right. }
    rewrite length_insert in Hl.
    assert (down' !! i = Some mark) as Hmi.
    { rewrite Hout by done. apply list_lookup_insert_eq, Hlt. left. }
    split_and!; [done| |].
    + intros j Hj. rewrite Hout by set_solver. rewrite list_lookup_insert_ne; [done|set_solver].
    + destruct r as [resp|e'].
      * destruct Hr as (pre & k & post & -> & Hk & Hpre & H0 & Hm & Hpost). exists (i :: pre), k, post.
        split_and!; [done|done| |done| |].
        -- constructor; [unfold fails; by rewrite Ha|done].
        -- intros j [->|Hj]%elem_of_cons; auto.
        -- intros j Hj. rewrite Hpost by done. rewrite list_lookup_insert_ne; [done|]. intros ->. set_solver.
      * destruct Hr as (Hall & Hm & ->). split_and!.
        -- constructor; [unfold fails; by rewrite Ha|done].
        -- intros j [->|Hj]%elem_of_cons; auto.
        -- unfold fe'. by destruct fe.
Qed.

(** The resolvers that may be asked: those whose cooldown is over, or all if
    none is. *)
Definition askable (now : Z) (down : list Z) (i : nat) : Prop :=
  ∃ d, down !! i = Some d ∧ (d ≤ now ∨ Forall (λ d', now < d') down).
Lemma seq_sorted a n : StronglySorted lt (seq a n).
Proof.
  revert a. induction n as [|n IH]; intros a; cbn; constructor; [apply IH|].
  apply List.Forall_forall. intros x Hx%in_seq. lia.
Qed.
Lemma filter_sorted {A} (R : A → A → Prop) (P : A → Prop) `{∀ x, Decision (P x)} l : StronglySorted R l → StronglySorted R (filter P l).
Proof.
  induction 1 as [|x l Hl IH Hx]; [constructor|]. rewrite filter_cons. case_decide; [|done]. constructor; [done|].
  rewrite Forall_forall in Hx |- *. intros y [_ Hy]%list_elem_of_filter. auto.
Qed.
Lemma sorted_NoDup l : StronglySorted lt l → NoDup l.
Proof.
  induction 1 as [|x l Hl IH Hx]; constructor; [|done]. intros Hin. rewrite Forall_forall in Hx. specialize (Hx _ Hin). lia.
Qed.
Lemma multi_order_spec now down :
  StronglySorted lt (multi_order now down).1
  ∧ (∀ i, i ∈ (multi_order now down).1 ↔ askable now down i)
  ∧ length (multi_order now down).2 = length down
  ∧ ∀ i, (multi_order now down).2 !! i = if decide (Forall (λ d', now < d') down) then (λ _, 0) <$> down !! i else down !! i.
Proof.
  unfold multi_order. set (order := filter _ _).
  assert (∀ i, i ∈ order ↔ ∃ d, down !! i = Some d ∧ d ≤ now) as Ho.
  { intros i. unfold order. rewrite list_elem_of_filter, list_elem_of_In, in_seq. unfold is_up.
    destruct (down !! i) as [d|] eqn:Hd.
    - pose proof (lookup_lt_Some _ _ _ Hd). split.
      + intros [Hle _]. bools. eauto.
      + intros (d' & [= <-] & Hle). split; [by apply Z.leb_le|lia].
    - split; [by intros [? _]|naive_solver]. }
  assert (StronglySorted lt order) as Hsort by apply filter_sorted, seq_sorted.
  destruct order as [|i0 o0] eqn:E; cbn [fst snd].
  - assert (Forall (λ d', now < d') down) as Hall.
    { apply Forall_lookup. intros i d Hd. apply Z.nle_gt. intros Hle. assert (i ∈ @nil nat) by (apply Ho; eauto). set_solver. }
    split_and!; [apply seq_sorted| |by rewrite length_fmap|].
    + intros i. rewrite list_elem_of_In, in_seq. unfold askable. split; [|intros (d & Hd%lookup_lt_Some & _); lia].
      intros [_ Hi]. destruct (lookup_lt_is_Some_2 down i ltac:(lia)) as [d Hd]. eauto.
    + intros i. by rewrite decide_True, list_lookup_fmap by done.
  - assert (¬ Forall (λ d', now < d') down) as Hsome.
    { intros Hall. assert (i0 ∈ i0 :: o0) as H by left. apply Ho in H as (d & Hd & Hle).
      eapply Forall_lookup_1 in Hall; [|exact Hd]. cbn in Hall. lia. }
    split_and!; [done| |done|intros i; by rewrite decide_False by done].
    intros i. rewrite Ho. unfold askable. naive_solver.
Qed.

(** ** Lemmas: pool *)
Lemma res_bind_ok {E A B} (f : A → res E B) (r : res E A) b :
  (r ≫= f) = Ok b → ∃ a, r = Ok a ∧ f a = Ok b.
Proof. destruct r; [|done]. eauto. Qed.

(** The best rule is the first one of the longest suffix. *)
Lemma best_rule_spec q client rules best0 :
  match foldl (better_rule q client) best0 rules with
  | None => best0 = None ∧ ∀ rt, rt ∈ rules → rule_matches q client rt = false
  | Some b =>
      (best0 = Some b ∧ (∀ rt, rt ∈ rules → rule_matches q client rt = true → (slen (rr_suffix rt) ≤ slen (rr_suffix b))%nat))
      ∨ ∃ pre post, rules = pre ++ b :: post ∧ rule_matches q client b = true
          ∧ (∀ b0, best0 = Some b0 → (slen (rr_suffix b0) < slen (rr_suffix b))%nat)
          ∧ (∀ rt, rt ∈ pre → rule_matches q client rt = true → (slen (rr_suffix rt) < slen (rr_suffix b))%nat)
          ∧ (∀ rt, rt ∈ post → rule_matches q client rt = true → (slen (rr_suffix rt) ≤ slen (rr_suffix b))%nat)
  end.
Proof.
  revert best0. induction rules as [|rt rules IH]; intros best0; cbn [foldl].
  { destruct best0 as [b|]; [left|]; (split; [done|set_solver]). }
  specialize (IH (better_rule q client best0 rt)).
  assert (better_rule q client best0 rt = Some rt ∧ rule_matches q client rt = true
            ∧ (∀ b0, best0 = Some b0 → (slen (rr_suffix b0) < slen (rr_suffix rt))%nat)
          ∨ better_rule q client best0 rt = best0
            ∧ (rule_matches q client rt = true → ∃ b0, best0 = Some b0 ∧ (slen (rr_suffix rt) ≤ slen (rr_suffix b0))%nat)) as Hb.
  { unfold better_rule. destruct (rule_matches q client rt); [|by right]. destruct best0 as [b0|]; [|by left].
    destruct (_ <? _)%nat eqn:E; bools; [left|right; eauto]. split_and!; [done|done|]. intros ? [= <-]. lia. }
  destruct (foldl _ _ rules) as [b|].
  - destruct Hb as [(Hb & Hm & Hlt)|[Hb Hle]]; rewrite Hb in IH.
    + right. destruct IH as [[[= ->] H]|(pre & post & -> & H1 & H2 & H3 & H4)].
      * exists [], rules. split_and!; [done|done|done|set_solver|done].
      * specialize (H2 _ eq_refl). exists (rt :: pre), post. split_and!; [done|done| | |done].
        -- intros b0 H0. specialize (Hlt b0 H0). lia.
        -- intros x [->|Hx]%elem_of_cons; [done|auto].
    + destruct IH as [[-> H]|(pre & post & -> & H1 & H2 & H3 & H4)].
      * left. split; [done|]. intros x [->|Hx]%elem_of_cons; [|auto]. intros Hm. destruct (Hle Hm) as (b0 & [= <-] & ?). done.
      * right. exists (rt :: pre), post. split_and!; [done|done|done| |done].
        intros x [->|Hx]%elem_of_cons; [|auto]. intros Hm. destruct (Hle Hm) as (b0 & H0 & ?). specialize (H2 b0 H0). lia.
  - destruct IH as [H1 H2]. destruct Hb as [(Hb & _)|[Hb Hle]]; rewrite Hb in H1; [done|]. split; [done|].
    intros x [->|Hx]%elem_of_cons; [|auto]. subst best0. destruct (rule_matches q client rt); [|done]. by destruct Hle as (? & ? & _).
Qed.
(** A route of the configuration that applies to a query: its suffix matches,
    and its client network, if it has one that is not 0.0.0.0/0, contains the
    client; a query without a client address passes every network. *)
Definition applies (q : string) (client : IP) (rt : UpstreamRoute) : Prop :=
  HasSuffix q (route_fqdn (rt_QnameSuffix rt)) = true
  ∧ (rt_ClientCIDR rt = "" ∨ rt_ClientCIDR rt = "0.0.0.0/0" ∨ client = []
     ∨ ∃ ip n, ParseCIDR (rt_ClientCIDR rt) = Some (ip, n) ∧ Contains_ip n client = true).
Lemma makeRouteRule_ok rt named rule q client : makeRouteRule rt named = Ok rule →
  (rule_matches q client rule = true ↔ applies q client rt) ∧ rr_suffix rule = route_fqdn (rt_QnameSuffix rt)
  ∧ rr_server rule = rt_Server rt ∧ is_Some (named !! rt_Server rt).
Proof.
  unfold makeRouteRule, applies, rule_matches. destruct (str_eqb (rt_Server rt) ""); [done|].
  destruct (named !! rt_Server rt) as [r|] eqn:Hn; [|done]. destruct (str_eqb (rt_QnameSuffix rt) ""); [done|].
  destruct (negb (str_eqb (rt_ClientCIDR rt) "") && _) eqn:E.
  - apply andb_true_iff in E as [E1%negb_true_iff%str_eqb_neq E2%negb_true_iff%str_eqb_neq].
    destruct (ParseCIDR _) as [[ip n]|] eqn:Hc; [|done]. intros [= <-]. cbn. split_and!; [|done|done|by eexists].
    rewrite andb_true_iff. case_bool_decide as Hcl; [naive_solver|]. split; intros [H1 H2]; (split; [done|]); [right; right; right; by exists ip, n|].
    destruct H2 as [?|[?|[?|(ip' & n' & [= <- <-] & ?)]]]; done.
  - intros [= <-]. cbn. split_and!; [|done|done|by eexists]. rewrite andb_true_r. split; [|by intros [? _]]. intros H. split; [done|].
    apply andb_false_iff in E as [E|E]; apply negb_false_iff, str_eqb_eq in E; auto.
Qed.

(** ** Lemmas: error texts *)
Lemma HasPrefix_mem s p c : HasPrefix s p = true → str_mem c p = true → str_mem c s = true.
Proof. intros [t ->]%HasPrefix_spec H. by rewrite str_mem_app, H. Qed.
Lemma str_mem_cons_false c d s : str_mem c (String d s) = false → str_mem c s = false.
Proof. cbn [str_mem]. by intros [_ ?]%orb_false_iff. Qed.
(** A phrase with a space does not occur in text without one. *)
Lemma LastIndex_mem c s p : str_mem c p = true → str_mem c s = false → LastIndex s p = None.
Proof.
  intros Hp. induction s as [|d s IH]; intros Hs.
  - cbn [LastIndex]. destruct (HasPrefix "" p) eqn:E; [|done]. apply (HasPrefix_mem _ _ c) in E; done.
  - cbn [LastIndex]. rewrite IH by (by eapply str_mem_cons_false).
    destruct (HasPrefix (String d s) p) eqn:E; [|done]. apply (HasPrefix_mem _ _ c) in E; [congruence|done].
Qed.
Lemma LastIndex_cons d s p :
  LastIndex (String d s) p
  = match LastIndex s p with Some i => Some (S i) | None => if HasPrefix (String d s) p then Some 0%nat else None end.
Proof. done. Qed.
(** The first arrow is found after text without a dash. *)
Lemma Index_arrow s t : free_of "-" s = true → Index (s +:+ "->" +:+ t) "->" = Some (slen s).
Proof.
  unfold Index. induction s as [|d s IH]; intros H.
  - destruct t; reflexivity.
  - apply free_of_cons in H as [Hd Hs]. rewrite app_cons. cbn [String.index].
    assert (String.prefix "->" (String d (s +:+ "->" +:+ t)) = false) as ->.
    { cbn [String.prefix]. by destruct (ascii_dec "-" d) as [<-|]. }
    by rewrite IH.
Qed.

(** A local socket address: no blank and no dash. *)
Definition socket_text (s : string) : Prop := str_mem " " s = false ∧ free_of "-" s = true.

Lemma strip_head p local rest :
  p ∈ socket_phrases → str_mem " " local = false → strip_phrases socket_phrases (p +:+ local) rest = Some rest.
Proof.
  intros Hp Hl.
  assert (∀ q, q ∈ socket_phrases → LastIndex local q = None) as Hq.
  { intros q Hq. apply (LastIndex_mem " "); [|done]. unfold socket_phrases in Hq. set_unfold. naive_solver. }
  unfold socket_phrases in Hp |- *.
  rewrite !elem_of_cons, elem_of_nil in Hp. cbn [strip_phrases].
  destruct Hp as [->|[->|[->|[->|[->|[->|[]]]]]]];
    rewrite ?app_cons, ?app_nil_l; rewrite !LastIndex_cons, ?Hq by (unfold socket_phrases; set_solver);
    destruct local; reflexivity.
Qed.

(** Witness data. *)
Definition demo_servers : list UpstreamServer :=
  [mkServer "backup" "udp://9.9.9.9" 2 0; mkServer "main" "https://dns.google/dns-query" 1 3; mkServer "lan" "192.168.1.1" 0 0].
Definition demo_routes : list UpstreamRoute :=
  [mkRoute "rev" ".in-addr.arpa" "lan" "" false; mkRoute "corp" "corp.example." "lan" "10.0.0.0/8" false;
   mkRoute "off" "example" "backup" "" true].
Definition demo_pool : ResolverPool :=
  match NewPoolWithBootstrap demo_servers demo_routes "" [mkServer "" "1.1.1.1" 0 0] with Ok p => p | Err _ => NewPoolWithAuto None end.

(** ** Properties *)

(** Parsing an upstream spec gives one entry per token, each a UDP, DoT or
    DoH endpoint with a positive priority, ordered by priority with equal
    priorities in the order written; an endpoint given as an address literal is
    never link-local, link-local multicast or unspecified (where metadata
    services live). *)
Theorem upstream_parse_spec spec l :
  ParseSpec spec = Ok l →
  (∃ specs, Forall2 (λ '(i, tok) s, parse_token i tok = Ok s) (imap pair (splitSpec spec)) specs
     ∧ l ≡ₚ specs ∧ ∀ k, filter (λ s, s_Priority s = k) l = filter (λ s, s_Priority s = k) specs)
  ∧ StronglySorted (λ a b, s_Priority a ≤ s_Priority b) l
  ∧ ∀ s, s ∈ l →
      (s_Type s = "udp" ∨ s_Type s = "tls" ∨ s_Type s = "doh") ∧ 1 ≤ s_Priority s
      ∧ (ParseIP (specHost (s_Address s)) ≠ [] → blockedUpstreamIP (ParseIP (specHost (s_Address s))) = false).
Proof.
  unfold ParseSpec. destruct (splitSpec spec) as [|t0 ts]; [done|]. set (toks := t0 :: ts).
  destruct (res_mapM _ _) as [out|] eqn:Hm; [|done]. intros [= <-]. apply res_mapM_ok in Hm.
  pose proof (stable_sort_perm prio_less out) as Hp. split_and!.
  - exists out. split_and!; [|done|].
    + eapply Forall2_impl; [exact Hm|]. by intros [i tok] s.
    + intros k. by apply (stable_sort_filter prio_less s_Priority).
  - by apply (stable_sort_sorted prio_less s_Priority).
  - intros s. rewrite Hp. intros Hs. apply list_elem_of_lookup_1 in Hs as [j Hj].
    destruct (Forall2_lookup_r _ _ _ _ _ Hm Hj) as ([i tok] & _ & Ht). by eapply parse_token_ok.
Qed.
Lemma upstream_parse_spec_witness :
  ∃ l, ParseSpec "udp://9.9.9.9|7 192.168.1.1" = Ok l ∧ StronglySorted (λ a b, s_Priority a ≤ s_Priority b) l
       ∧ length l = 2%nat.
Proof.
  destruct (ParseSpec "udp://9.9.9.9|7 192.168.1.1") as [l|] eqn:E; [|by vm_compute in E].
  exists l. split_and!; [done|apply (upstream_parse_spec _ _ E)|]. vm_compute in E. by injection E as <-.
Defined.

(** C31: Failover.  The resolvers whose cooldown is over, or all of them if every
    one is cooling down, are asked in the order of the list; no other is asked.  The first answer is returned; it
    clears that resolver's mark, every resolver that failed before it is marked
    for the cooldown, and those that were not asked keep their mark (when every
    one was cooling down, the marks were cleared first).  Only when every asked
    resolver failed is there an error: that of the first one asked. *)
Theorem upstream_failover now ask m :
  let down := mr_downUntil m in
  let kept j := if decide (Forall (λ d, now < d) down) then (λ _, 0) <$> down !! j else down !! j in
  let '(m', r) := multi_resolve now ask m in
  ∃ order, StronglySorted lt order ∧ (∀ i, i ∈ order ↔ askable now down i)
  ∧ length (mr_downUntil m') = length down
  ∧ (∀ j, j ∉ order → mr_downUntil m' !! j = kept j)
  ∧ match r with
    | Ok resp => ∃ pre i post, order = pre ++ i :: post ∧ ask i = Ok resp ∧ Forall (fails ask) pre
        ∧ mr_downUntil m' !! i = Some 0 ∧ (∀ j, j ∈ pre → mr_downUntil m' !! j = Some (now + mr_cooldown m))
        ∧ ∀ j, j ∈ post → mr_downUntil m' !! j = kept j
    | Err e => Forall (fails ask) order ∧ (∀ j, j ∈ order → mr_downUntil m' !! j = Some (now + mr_cooldown m))
        ∧ match order with [] => e = no_resolvers | i :: _ => ask i = Err e end
    end.
Proof.
  intros down0 kept. unfold multi_resolve. destruct (multi_order_spec now down0) as (Hs & Ho & Hl & Hk). subst down0.
  destruct (multi_order now (mr_downUntil m)) as [order down]. cbn [fst snd] in *.
  pose proof (try_order_spec order ask (now + mr_cooldown m) down None (sorted_NoDup _ Hs)) as H.
  destruct (try_order _ _ _ _ _) as [down' r].
  destruct H as (Hl' & Hout & Hr); [intros i (d & Hd & _)%Ho; rewrite Hl; by eapply lookup_lt_Some|].
  exists order. split_and!; [done|done|cbn; congruence|intros j Hj; rewrite Hout by done; apply Hk|]. destruct r as [resp|e].
  - destruct Hr as (pre & i & post & ? & ? & ? & ? & ? & Hpost). exists pre, i, post. split_and!; [done..|].
    intros j Hj. rewrite Hpost by done. apply Hk.
  - destruct Hr as (Hf & Hm & He). destruct order as [|i order]; [by subst e|].
    apply Forall_cons in Hf as [Hi Hf]. unfold fails in Hi. destruct (ask i) as [|x] eqn:Ha; [done|]. subst e.
    split_and!; [constructor; [unfold fails; by rewrite Ha|done]|done|done].
Qed.

(** C32: Conditional forwarding.  In a pool built from a configuration, a query
    goes to the server of the first of the enabled routes with the longest
    suffix among those that apply to it: whose suffix the name has and whose
    client network contains the client (no network, 0.0.0.0/0 and a query
    without a client address always pass).  The server of that name is in the
    pool.  [Match] gives none exactly when no enabled route applies. *)
Theorem upstream_route_longest servers routes legacy bootstrap p qname client :
  NewPoolWithBootstrap servers routes legacy bootstrap = Ok p →
  let q := route_fqdn qname in
  let enabled := filter (λ rt, rt_Disabled rt = false) routes in
  let suffix rt := slen (route_fqdn (rt_QnameSuffix rt)) in
  match Match qname client p with
  | None => ∀ rt, rt ∈ enabled → ¬ applies q client rt
  | Some r => ∃ pre rt post, enabled = pre ++ rt :: post ∧ applies q client rt ∧ p_named p !! rt_Server rt = Some r
      ∧ (∀ rt', rt' ∈ pre → applies q client rt' → (suffix rt' < suffix rt)%nat)
      ∧ (∀ rt', rt' ∈ post → applies q client rt' → (suffix rt' ≤ suffix rt)%nat)
  end.
Proof.
  intros Hp q enabled suffix. unfold NewPoolWithBootstrap in Hp.
  apply res_bind_ok in Hp as (b & _ & Hp). apply res_bind_ok in Hp as (named & _ & Hp).
  apply res_bind_ok in Hp as (auto & _ & Hp). apply res_bind_ok in Hp as (rules & Hr & [= <-]).
  apply res_mapM_ok in Hr. fold enabled in Hr. unfold Match, best_rule. cbn [p_rules p_named]. fold q.
  assert (∀ l l', Forall2 (λ rt rule, makeRouteRule rt named = Ok rule) l l' → ∀ rt, rt ∈ l → applies q client rt →
    ∃ rule, rule ∈ l' ∧ rule_matches q client rule = true ∧ slen (rr_suffix rule) = suffix rt) as Hin.
  { intros l l' Hl rt Hrt Ha. apply list_elem_of_lookup_1 in Hrt as [j Hj]. destruct (Forall2_lookup_l _ _ _ _ _ Hl Hj) as (rule & Hj' & Hm).
    destruct (makeRouteRule_ok _ _ _ q client Hm) as (H1 & H2 & _). exists rule. rewrite H2. split; [by eapply list_elem_of_lookup_2|]. by rewrite H1. }
  pose proof (best_rule_spec q client rules None) as Hb. destruct (foldl (better_rule q client) None rules) as [best|].
  - destruct Hb as [[? _]|(pre & post & -> & Hm & _ & Hpre & Hpost)]; [done|].
    apply Forall2_app_inv_r in Hr as (pre' & rest & Hr1 & Hr2 & He). apply Forall2_cons_inv_r in Hr2 as (rt & post' & Hrt & Hr2 & ->).
    destruct (makeRouteRule_ok _ _ _ q client Hrt) as (H1 & H2 & -> & [r Hs]). rewrite Hs. exists pre', rt, post'. split_and!; [done|by apply H1|done|..].
    + intros rt' Hin' Ha. destruct (Hin _ _ Hr1 rt' Hin' Ha) as (rule & Hrule & Hmr & <-). unfold suffix. rewrite <-H2. by apply Hpre.
    + intros rt' Hin' Ha. destruct (Hin _ _ Hr2 rt' Hin' Ha) as (rule & Hrule & Hmr & <-). unfold suffix. rewrite <-H2. by apply Hpost.
  - intros rt Hrt Ha. destruct (Hin _ _ Hr rt Hrt Ha) as (rule & Hrule & Hmr & _). destruct Hb as [_ Hb]. by rewrite (Hb _ Hrule) in Hmr.
Qed.
Lemma upstream_route_longest_witness :
  r_kind <$> Match "Host.Corp.example" (ParseIP "10.2.3.4") demo_pool = Some (KUDP "192.168.1.1:53" (5 * second))
  ∧ Match "host.corp.example" (ParseIP "192.0.2.1") demo_pool = None
  ∧ ¬ applies (route_fqdn "host.corp.example") (ParseIP "192.0.2.1") (mkRoute "corp" "corp.example." "lan" "10.0.0.0/8" false).
Proof.
  split_and!; [vm_compute; reflexivity|vm_compute; reflexivity|].
  assert (NewPoolWithBootstrap demo_servers demo_routes "" [mkServer "" "1.1.1.1" 0 0] = Ok demo_pool) as Hp
    by (vm_compute; reflexivity).
  pose proof (upstream_route_longest _ _ _ _ _ "host.corp.example" (ParseIP "192.0.2.1") Hp) as H. cbv zeta in H.
  destruct (Match "host.corp.example" (ParseIP "192.0.2.1") demo_pool) eqn:E; [by vm_compute in E|]. apply H. right. left.
Defined.

(** A server without a name drops out of the rotation: it is stored under a
    made-up name but looked up under the empty one, so a pool whose only
    automatic server has no name is accepted and has no automatic resolver. *)
Theorem upstream_unnamed_server_lost addr prio tmo k :
  0 < prio → fromServerSpecWithBootstrap addr (timeoutForServer (mkServer "" addr prio tmo)) None = Ok k →
  ∃ p, NewPool [mkServer "" addr prio tmo] [] "" = Ok p ∧ Auto p = None
    ∧ p_named p !! ("server#" +:+ addr) = Some (mkR 1 k).
Proof.
  intros Hp Hk. unfold NewPool, NewPoolWithBootstrap. cbn [BuildBootstrapResolver res_mapM mbind res_mbind res_bind].
  cbn [add_servers]. unfold effective_name. cbn [sv_Name sv_Address]. rewrite str_eqb_refl.
  rewrite lookup_empty. rewrite Hk. cbn [mbind res_mbind res_bind].
  assert (rotation [mkServer "" addr prio tmo] = [""]) as Hrot.
  { unfold rotation. rewrite filter_cons_True by done. by rewrite filter_nil. }
  unfold build_auto. rewrite Hrot. cbn [fmap list_fmap].
  assert (∀ r, (<["server#" +:+ addr := r]> (∅ : gmap string resolver)) !! "" = None) as Hnone.
  { intros r. by rewrite lookup_insert_ne. }
  rewrite Hnone. cbn [mbind res_mbind res_bind].
  eexists. split; [done|]. split; [done|]. cbn. by rewrite lookup_insert_eq.
Qed.
Lemma upstream_unnamed_server_lost_witness :
  ∃ p, NewPool [mkServer "" "udp://9.9.9.9" 1 0] [] "" = Ok p ∧ Auto p = None.
Proof.
  destruct (upstream_unnamed_server_lost "udp://9.9.9.9" 1 0 (KUDP "9.9.9.9:53" (5 * second))) as (p & ? & ? & _);
    [lia|vm_compute; reflexivity|eauto].
Defined.

(** Upstream failures group: the text of a transport error that names a
    local socket does not depend on that socket, whatever the operation and
    the remote part. *)
Theorem upstream_error_grouping addr p local rest :
  p ∈ socket_phrases → socket_text local →
  upErr_Error (errUpstream addr (p +:+ local +:+ "->" +:+ rest)) = rest.
Proof.
  intros Hp [Hsp Hd]. unfold upErr_Error, errUpstream, stripLocalSocket. cbn [ue_addr ue_msg].
  assert (free_of "-" (p +:+ local) = true) as Hfree.
  { unfold free_of. rewrite sforall_app. unfold free_of in Hd. rewrite Hd, andb_true_r.
    unfold socket_phrases in Hp. rewrite !elem_of_cons, elem_of_nil in Hp.
    destruct Hp as [->|[->|[->|[->|[->|[->|[]]]]]]]; reflexivity. }
  assert (p +:+ local +:+ "->" +:+ rest = (p +:+ local) +:+ "->" +:+ rest) as -> by (by rewrite app_assoc).
  rewrite Index_arrow by done. rewrite stake_app.
  assert (sdrop (slen (p +:+ local) + 2) ((p +:+ local) +:+ "->" +:+ rest) = rest) as ->.
  { rewrite <-app_assoc. replace (slen (p +:+ local) + 2)%nat with (slen ((p +:+ local) +:+ "->"))
      by (rewrite slen_app; done). apply sdrop_app. }
  by rewrite strip_head.
Qed.
Lemma upstream_error_grouping_witness :
  upErr_Error (errUpstream "9.9.9.9:53" "read udp 10.0.0.7:41833->9.9.9.9:53: i/o timeout") = "9.9.9.9:53: i/o timeout".
Proof.
  apply (upstream_error_grouping "9.9.9.9:53" "read udp " "10.0.0.7:41833" "9.9.9.9:53: i/o timeout").
  - left.
  - split; vm_compute; reflexivity.
Defined.

(** A DoH endpoint is only ever dialled at an address that is not
    link-local, link-local multicast or unspecified: a literal is refused, and
    blocked addresses in a bootstrap answer are skipped; and a resolver pinned
    to probed addresses gives back exactly those addresses, IPv4 first. *)
Theorem upstream_dial_guard lookup addr host ips id :
  match dial_plan lookup addr with
  | Err _ => True
  | Ok plan => ∃ h port, SplitHostPort addr = Some (h, port) ∧
      ((ParseIP h ≠ [] ∧ blockedUpstreamIP (ParseIP h) = false ∧ plan = [addr])
       ∨ (ParseIP h = [] ∧ ∀ a, a ∈ plan → ∃ ip, ip ∈ lookup h ∧ blockedUpstreamIP ip = false
                                              ∧ a = JoinHostPort (ip_string ip) port))
  end
  ∧ bootstrapLookupIP (static_resolve host ips) id host = omap To4 ips ++ filter (λ ip, To4 ip = None) ips.
Proof.
  split.
  - unfold dial_plan. destruct (SplitHostPort addr) as [[h port]|]; [|done].
    case_bool_decide as Hip; cbn [negb].
    + destruct (lookup h) as [|i0 is0] eqn:Hl; [done|]. rewrite <-Hl. exists h, port. split; [done|]. right. split; [done|].
      intros a (ip & -> & [? ?]%list_elem_of_filter)%list_elem_of_fmap. eauto.
    + destruct (blockedUpstreamIP (ParseIP h)) eqn:Hb; [done|]. exists h, port. split; [done|]. by left.
  - unfold bootstrapLookupIP, static_resolve. cbn [fmap list_fmap SetQuestion m_Question q_Name].
    rewrite !str_eqb_refl. cbn [with_Answer SetReply m_Answer concat]. rewrite List.app_nil_r. f_equal.
    + induction ips as [|ip ips IH]; [done|]. cbn [omap list_omap]. unfold static_answer at 1. cbn [q_Qtype].
      destruct (To4 ip); cbn; [by rewrite IH|done].
    + induction ips as [|ip ips IH]; [done|]. rewrite filter_cons. cbn [omap list_omap]. unfold static_answer at 1. cbn [q_Qtype].
      destruct (To4 ip); cbn; [done|by rewrite IH].
Qed.
