(* ===== verification/Stats.v ===== *)
(** * Counters and the event stream

    internal/control/stats.go (the counters of an instance), the event types
    of internal/control/types.go, and the part of internal/control/server.go
    that delivers events to the connected watchers. *)
From S2P Require Import Prelude GoStrings Records Upstream.
#[local] Open Scope Z_scope.

(** ** Counters: atomic 64-bit words *)
Record Counters := mkCnt {
  n_queries : Z;
  n_blocked : Z;
  n_upErr : Z;
  n_rateLimited : Z;
  n_durNs : Z }.
Definition zero_counters : Counters := mkCnt 0 0 0 0 0.
(** [uint64(d)] of a negative duration wraps. *)
Definition AddDuration (d : Z) (c : Counters) : Counters :=
  mkCnt (n_queries c) (n_blocked c) (n_upErr c) (n_rateLimited c) (u64 (n_durNs c + u64 d)).
Definition AddQuery (c : Counters) : Counters :=
  mkCnt (u64 (n_queries c + 1)) (n_blocked c) (n_upErr c) (n_rateLimited c) (n_durNs c).
Definition AddBlocked (c : Counters) : Counters :=
  mkCnt (n_queries c) (u64 (n_blocked c + 1)) (n_upErr c) (n_rateLimited c) (n_durNs c).
Definition AddUpErr (c : Counters) : Counters :=
  mkCnt (n_queries c) (n_blocked c) (u64 (n_upErr c + 1)) (n_rateLimited c) (n_durNs c).
Definition AddRateLimited (c : Counters) : Counters :=
  mkCnt (n_queries c) (n_blocked c) (n_upErr c) (u64 (n_rateLimited c + 1)) (n_durNs c).
Definition RateLimited (c : Counters) : Z := n_rateLimited c.

Record StatsResponse := mkStats {
  st_Cached : Z;
  st_QueriesTotal : Z;
  st_BlockedTotal : Z;
  st_UpstreamErr : Z;
  st_Upstream : string;
  st_BlocklistCount : Z;
  st_BlocklistHash : Z;
  st_DohHTTPAddr : string;
  st_RateLimitQPS : Z;
  st_RateLimited : Z;
  st_DurationTotalUs : Z;
  st_CacheSize : Z;
  st_UpstreamServers : list UpstreamServer;
  st_UpstreamRoutes : list UpstreamRoute;
  st_BootstrapServers : list UpstreamServer;
  st_RecordsHash : Z }.
Definition microsecond : Z := 1000.
(** [Counters.Stats]: the fields of the counters, the zero value elsewhere. *)
Definition Stats (c : Counters) : StatsResponse :=
  {| st_Cached := 0; st_QueriesTotal := n_queries c; st_BlockedTotal := n_blocked c;
     st_UpstreamErr := n_upErr c; st_Upstream := ""; st_BlocklistCount := 0; st_BlocklistHash := 0;
     st_DohHTTPAddr := ""; st_RateLimitQPS := 0; st_RateLimited := n_rateLimited c;
     st_DurationTotalUs := n_durNs c / microsecond; st_CacheSize := 0; st_UpstreamServers := [];
     st_UpstreamRoutes := []; st_BootstrapServers := []; st_RecordsHash := 0 |}.

(** ** Events *)
Record Answer := mkAnswer { an_Type : string; an_Data : string; an_TTL : Z }.
Record WatchEvent := mkEvent {
  ev_Type : string;
  ev_At : Z;
  ev_Stats : option StatsResponse;
  ev_Client : string;
  ev_Domain : string;
  ev_Proto : string;
  ev_QType : string;
  ev_IPs : list string;
  ev_Answers : list Answer;
  ev_Msg : string;
  ev_DurationUs : Z;
  ev_Cached : bool;
  ev_Upstream : string;
  ev_BlockList : string }.
Definition ProtoDNS : string := "dns".
Definition ProtoDoH : string := "doh".

(** ** Delivery

    Each watcher is a channel with a bounded buffer; [w_chans] is the set of
    registered channels with what is buffered in them. *)
Definition watchBuffer : nat := 4096.
Record Watch := mkWatch {
  w_chans : gmap nat (list WatchEvent);
  w_count : Z;
  w_dropped : Z;
  w_next : nat }.
Definition no_watch : Watch := mkWatch ∅ 0 0 0.
Definition HasWatchers (w : Watch) : bool := 0 <? w_count w.
(** The non-blocking send to one channel: the buffer and the drops it adds. *)
Definition try_send (e : WatchEvent) (buf : list WatchEvent) : list WatchEvent * Z :=
  if (length buf <? watchBuffer)%nat then (buf ++ [e], 0) else (buf, 1).
Definition Notify (e : WatchEvent) (w : Watch) : Watch :=
  if negb (HasWatchers w) then w
  else mkWatch ((λ buf, (try_send e buf).1) <$> w_chans w) (w_count w)
         (w_dropped w + map_fold (λ _ buf n, (try_send e buf).2 + n) 0 (w_chans w)) (w_next w).
(** [handleWatch]: registering a channel, taking an event from it, leaving. *)
Definition watch_open (w : Watch) : Watch :=
  let ch := <[w_next w := []]> (w_chans w) in
  mkWatch ch (Z.of_nat (size ch)) (w_dropped w) (S (w_next w)).
Definition watch_recv (ch : nat) (w : Watch) : option (WatchEvent * Watch) :=
  match w_chans w !! ch with
  | Some (e :: buf) => Some (e, mkWatch (<[ch := buf]> (w_chans w)) (w_count w) (w_dropped w) (w_next w))
  | _ => None
  end.
Definition watch_close (ch : nat) (w : Watch) : Watch :=
  let chs := delete ch (w_chans w) in
  mkWatch chs (Z.of_nat (size chs)) (w_dropped w) (w_next w).

(** The registered channels and their count agree, no buffer overflows. *)
Record watch_wf (w : Watch) : Prop := {
  ww_count : w_count w = Z.of_nat (size (w_chans w));
  ww_buf : map_Forall (λ _ buf, (length buf ≤ watchBuffer)%nat) (w_chans w);
  ww_next : ∀ ch, is_Some (w_chans w !! ch) → (ch < w_next w)%nat }.

Lemma try_send_cases e buf :
  (length buf ≤ watchBuffer)%nat →
  (length (try_send e buf).1 ≤ watchBuffer)%nat ∧
  ((try_send e buf).1 = buf ++ [e] ∧ (try_send e buf).2 = 0
   ∨ length buf = watchBuffer ∧ (try_send e buf).1 = buf ∧ (try_send e buf).2 = 1).
Proof.
  intros Hb. unfold try_send. destruct (length buf <? watchBuffer)%nat eqn:E; bools; cbn [fst snd].
  - rewrite length_app. cbn [length]. split; [lia|by left].
  - split; [done|]. right. split_and!; [lia|done|done].
Qed.

Lemma no_watch_wf : watch_wf no_watch.
Proof. split; [done|apply map_Forall_empty|]. intros ch []. done. Qed.
Lemma Notify_wf e w : watch_wf w → watch_wf (Notify e w).
Proof.
  intros [Hc Hb Hn]. unfold Notify. destruct (negb (HasWatchers w)); [done|]. split; cbn.
  - by rewrite map_size_fmap.
  - intros ch buf. rewrite lookup_fmap. intros (b & Hl & ->)%fmap_Some. apply try_send_cases. by apply (Hb ch).
  - intros ch. rewrite lookup_fmap, fmap_is_Some. apply Hn.
Qed.
Lemma watch_open_wf w : watch_wf w → watch_wf (watch_open w).
Proof.
  intros [Hc Hb Hn]. split; cbn; [done| |].
  - apply map_Forall_insert_2; [cbn; lia|done].
  - intros ch [b [[<- _]|[_ Hl]]%lookup_insert_Some]; [lia|]. specialize (Hn ch ltac:(eauto)). lia.
Qed.
Lemma watch_close_wf ch w : watch_wf w → watch_wf (watch_close ch w).
Proof.
  intros [Hc Hb Hn]. split; cbn; [done|by apply map_Forall_delete|].
  intros c [b [_ Hl]%lookup_delete_Some]. apply Hn. eauto.
Qed.
Lemma watch_recv_wf ch e w w' : watch_wf w → watch_recv ch w = Some (e, w') → watch_wf w'.
Proof.
  intros [Hc Hb Hn]. unfold watch_recv. destruct (w_chans w !! ch) as [[|e' buf]|] eqn:El; [done| |done]. intros [= -> <-]. split; cbn.
  - rewrite map_size_insert_Some; [done|]. by eexists.
  - apply map_Forall_insert_2; [|done]. specialize (Hb _ _ El). cbn in Hb |- *. lia.
  - intros c [b [[<- _]|[_ Hl]]%lookup_insert_Some]; apply Hn; eauto.
Qed.
#[export] Hint Resolve no_watch_wf Notify_wf watch_open_wf watch_close_wf watch_recv_wf : blip.

(** ** A watcher that leaves during a delivery

    [Notify] walks the watchers under [s.mu] while [handleWatch] unregisters
    under [s.watchMu], so their steps interleave: the walk has reached a
    channel ([nr_at]) but not sent yet, the watcher's goroutine deletes the
    channel and closes it, and the send panics. *)
Record notify_race := mkRace {
  nr_registered : gset nat;
  nr_closed : gset nat;
  nr_at : option nat;
  nr_panicked : bool }.
Inductive race_step : notify_race → notify_race → Prop :=
| rs_reach ch r c p : ch ∈ r → race_step (mkRace r c None p) (mkRace r c (Some ch) p)
| rs_send ch r c p : race_step (mkRace r c (Some ch) p) (mkRace r c None (p || bool_decide (ch ∈ c)))
| rs_delete ch r c a p : race_step (mkRace r c a p) (mkRace (r ∖ {[ch]}) c a p)
| rs_close ch r c a p : ch ∉ r → race_step (mkRace r c a p) (mkRace r ({[ch]} ∪ c) a p).
Example notify_can_panic :
  ∃ s, rtc race_step (mkRace {[0%nat]} ∅ None false) s ∧ nr_panicked s = true.
Proof.
  eexists. split.
  - eapply rtc_l; [apply (rs_reach 0); set_solver|]. eapply rtc_l; [apply (rs_delete 0)|].
    eapply rtc_l; [apply (rs_close 0); set_solver|]. eapply rtc_l; [apply (rs_send 0)|]. apply rtc_refl.
  - by vm_compute.
Qed.
