(* ===== verification/Server.v ===== *)
(** * The DNS and DoH server

    internal/dnsserver/server.go, helper.go and upstream_ctrl.go: the query
    path shared by classic DNS and DNS-over-HTTPS, the HTTP front end, and the
    runtime configuration the management API drives.

    [Server] is the state of one instance: the fields of the Go struct and the
    contents of the objects it shares by pointer with the management server
    (policy store, cache, counters, blocklist, watchers).  Code that changes
    it is written in the state monad [M]; [None] is a Go panic.  The DNS
    network, the wire codec of the vendored dns package, the clock and the
    iteration order of maps are arguments, gathered in [env]. *)
From S2P Require Import Prelude GoStrings GoNet Dns Filter Cache RateLimit Records Blocklist Upstream Stats.
From Stdlib Require Import Ascii.
#[local] Open Scope Z_scope.

Definition maxDNSQueryParam : nat := 8192.
Definition maxDoHMessage : Z := 65535.

(** [Config], without the shared objects and the TLS material. *)
Record Config := mkConfig {
  cfg_DoHHTTPAddr : string;
  cfg_RateLimitQPS : Z;
  cfg_RateLimitBurst : Z;
  cfg_Upstream : string;
  cfg_UpstreamServers : list UpstreamServer;
  cfg_UpstreamRoutes : list UpstreamRoute;
  cfg_UpstreamBootstrap : list UpstreamServer;
  cfg_CacheCap : Z;
  cfg_CacheSize : Z;
  cfg_Version : string;
  cfg_BlockAction : BlockAction;
  cfg_TrustedProxies : list string }.

Record Server := mkServer_ {
  s_cfg : Config;
  s_store : Store;
  s_blocklist : option Blocklist;
  s_cache : Cache;
  s_cnt : Counters;
  s_watch : Watch;
  s_pool : option ResolverPool;
  s_log : option (list (string * string));   (* [logfn]: nil, or what it was called with *)
  s_dohPlain : option string;                (* the running plain-HTTP listener *)
  s_dohPlainAddr : string;
  s_rl : rateLimiter;
  s_rec : RecordStore;
  s_overrides : gmap string (option resolver);
  s_cacheSize : Z;
  s_trustedProxies : list IPNet }.

(** ** The state monad, and the assignments to one field *)
Definition M (A : Type) : Type := Server → option (Server * A).
#[export] Instance M_ret : MRet M := λ A a s, Some (s, a).
#[export] Instance M_bind : MBind M := λ A B f m s, '(s', a) ← m s; f a s'.
Definition get : M Server := λ s, Some (s, s).
Definition modify (f : Server → Server) : M unit := λ s, Some (f s, tt).
Definition set_store (v : Store) (s : Server) : Server :=
  mkServer_ (s_cfg s) v (s_blocklist s) (s_cache s) (s_cnt s) (s_watch s) (s_pool s) (s_log s)
    (s_dohPlain s) (s_dohPlainAddr s) (s_rl s) (s_rec s) (s_overrides s) (s_cacheSize s) (s_trustedProxies s).
Definition set_blocklist (v : option Blocklist) (s : Server) : Server :=
  mkServer_ (s_cfg s) (s_store s) v (s_cache s) (s_cnt s) (s_watch s) (s_pool s) (s_log s)
    (s_dohPlain s) (s_dohPlainAddr s) (s_rl s) (s_rec s) (s_overrides s) (s_cacheSize s) (s_trustedProxies s).
Definition set_cache (v : Cache) (s : Server) : Server :=
  mkServer_ (s_cfg s) (s_store s) (s_blocklist s) v (s_cnt s) (s_watch s) (s_pool s) (s_log s)
    (s_dohPlain s) (s_dohPlainAddr s) (s_rl s) (s_rec s) (s_overrides s) (s_cacheSize s) (s_trustedProxies s).
Definition set_cnt (v : Counters) (s : Server) : Server :=
  mkServer_ (s_cfg s) (s_store s) (s_blocklist s) (s_cache s) v (s_watch s) (s_pool s) (s_log s)
    (s_dohPlain s) (s_dohPlainAddr s) (s_rl s) (s_rec s) (s_overrides s) (s_cacheSize s) (s_trustedProxies s).
Definition set_watch (v : Watch) (s : Server) : Server :=
  mkServer_ (s_cfg s) (s_store s) (s_blocklist s) (s_cache s) (s_cnt s) v (s_pool s) (s_log s)
    (s_dohPlain s) (s_dohPlainAddr s) (s_rl s) (s_rec s) (s_overrides s) (s_cacheSize s) (s_trustedProxies s).
Definition set_pool (v : option ResolverPool) (s : Server) : Server :=
  mkServer_ (s_cfg s) (s_store s) (s_blocklist s) (s_cache s) (s_cnt s) (s_watch s) v (s_log s)
    (s_dohPlain s) (s_dohPlainAddr s) (s_rl s) (s_rec s) (s_overrides s) (s_cacheSize s) (s_trustedProxies s).
Definition set_log (v : option (list (string * string))) (s : Server) : Server :=
  mkServer_ (s_cfg s) (s_store s) (s_blocklist s) (s_cache s) (s_cnt s) (s_watch s) (s_pool s) v
    (s_dohPlain s) (s_dohPlainAddr s) (s_rl s) (s_rec s) (s_overrides s) (s_cacheSize s) (s_trustedProxies s).
Definition set_plain (p : option string) (a : string) (s : Server) : Server :=
  mkServer_ (s_cfg s) (s_store s) (s_blocklist s) (s_cache s) (s_cnt s) (s_watch s) (s_pool s) (s_log s)
    p a (s_rl s) (s_rec s) (s_overrides s) (s_cacheSize s) (s_trustedProxies s).
Definition set_rl (v : rateLimiter) (s : Server) : Server :=
  mkServer_ (s_cfg s) (s_store s) (s_blocklist s) (s_cache s) (s_cnt s) (s_watch s) (s_pool s) (s_log s)
    (s_dohPlain s) (s_dohPlainAddr s) v (s_rec s) (s_overrides s) (s_cacheSize s) (s_trustedProxies s).
Definition set_rec (v : RecordStore) (s : Server) : Server :=
  mkServer_ (s_cfg s) (s_store s) (s_blocklist s) (s_cache s) (s_cnt s) (s_watch s) (s_pool s) (s_log s)
    (s_dohPlain s) (s_dohPlainAddr s) (s_rl s) v (s_overrides s) (s_cacheSize s) (s_trustedProxies s).
Definition set_overrides (v : gmap string (option resolver)) (s : Server) : Server :=
  mkServer_ (s_cfg s) (s_store s) (s_blocklist s) (s_cache s) (s_cnt s) (s_watch s) (s_pool s) (s_log s)
    (s_dohPlain s) (s_dohPlainAddr s) (s_rl s) (s_rec s) v (s_cacheSize s) (s_trustedProxies s).
Definition set_size (v : Z) (s : Server) : Server :=
  mkServer_ (s_cfg s) (s_store s) (s_blocklist s) (s_cache s) (s_cnt s) (s_watch s) (s_pool s) (s_log s)
    (s_dohPlain s) (s_dohPlainAddr s) (s_rl s) (s_rec s) (s_overrides s) v (s_trustedProxies s).
Definition count (f : Counters → Counters) : M unit := modify (λ s, set_cnt (f (s_cnt s)) s).
Definition notify (e : WatchEvent) : M unit := modify (λ s, set_watch (Notify e (s_watch s)) s).
(** [s.logfn(client, domain)], when it is set. *)
Definition logq (client domain : string) : M unit :=
  modify (λ s, set_log ((λ l, l ++ [(client, domain)]) <$> s_log s) s).

(** ** helper.go: who is asking *)
Record http_request := mkReq {
  rq_Method : string;
  rq_Path : string;
  rq_RemoteAddr : string;
  rq_Header : string → string;               (* [r.Header.Get] *)
  rq_dns : string;                           (* [r.URL.Query().Get("dns")] *)
  rq_body : list Z;
  rq_bodyErr : bool;                         (* the body ends in a read error *)
  rq_TLS : bool }.

Definition clientIDFromPath (p : string) : string :=
  let p := Trim (TrimPrefix p "/dns-query") "/" in
  if str_eqb p "" || (64 <? slen p)%nat || ContainsAny p ("/?# " +:+ String (ascii_of_N 9) "") then "" else p.
Definition firstToken (s : string) : string :=
  match IndexAny s ", " with Some i => stake i s | None => s end.
Definition isTrustedPeer (r : http_request) (trusted : list IPNet) : bool :=
  match SplitHostPort (rq_RemoteAddr r) with
  | None => false
  | Some (host, _) =>
      match ParseIP_opt host with
      | None => false
      | Some peer => existsb (λ n, Contains_ip n peer) trusted
      end
  end.
(** The address a forwarding header names, if it is set and parses. *)
Definition header_ip (r : http_request) (h : string) : option IP :=
  let v := rq_Header r h in
  if str_eqb v "" then None else ParseIP_opt (firstToken v).
Definition peer_ip (r : http_request) : IP :=
  match SplitHostPort (rq_RemoteAddr r) with
  | None => ParseIP (rq_RemoteAddr r)
  | Some (host, _) => ParseIP host
  end.
Definition clientIPFromReq (r : http_request) (trusted : list IPNet) : IP :=
  if isTrustedPeer r trusted then
    match header_ip r "CF-Connecting-IP" with
    | Some ip => ip
    | None => match header_ip r "X-Forwarded-For" with Some ip => ip | None => peer_ip r end
    end
  else peer_ip r.
Definition parse_proxy (value : string) : res string (option IPNet) :=
  let value := TrimSpace value in
  if str_eqb value "" then Ok None
  else if negb (Contains value "/") then
    match ParseIP_opt value with
    | None => Err value
    | Some ip =>
        match To4 ip with
        | Some ip4 => Ok (Some (mkIPNet ip4 (CIDRMask 32 32)))
        | None => Ok (Some (mkIPNet ip (CIDRMask 128 128)))
        end
    end
  else match ParseCIDR value with
       | None => Err value
       | Some (_, n) => Ok (Some n)
       end.
(** The error carries the offending value. *)
Definition parseTrustedProxies (values : list string) : res string (list IPNet) :=
  match res_mapM parse_proxy values with
  | Ok l => Ok (omap id l)
  | Err v => Err v
  end.

(** ** upstream_ctrl.go: choosing a resolver *)
Definition safePool (s : Server) : option ResolverPool := s_pool s.
Definition upstreamAuto (s : Server) : option resolver :=
  match safePool s with None => None | Some p => Auto p end.
Definition upstreamFor (name : string) (clientIP : IP) (s : Server) : option resolver * bool :=
  match safePool s with
  | Some p =>
      match Match name clientIP p with
      | Some m => (Some m, true)
      | None => (upstreamAuto s, false)
      end
  | None => (upstreamAuto s, false)
  end.
(** [overrideResolver]: memoized per spec string. *)
Definition overrideResolver (spec : string) : M (res spec_error (option resolver)) :=
  s ← get;
  match s_overrides s !! spec with
  | Some r => mret (Ok r)
  | None =>
      match FromSpec spec with
      | Err e => mret (Err e)
      | Ok r => modify (λ s, set_overrides (<[spec := r]> (s_overrides s)) s);; mret (Ok r)
      end
  end.
Definition upstreamLabel (r : option resolver) (matchedRoute : bool) (override : string) (s : Server) : string :=
  if negb matchedRoute && negb (str_eqb override "") then "override: " +:+ override
  else match safePool s with
       | Some p => let l := LabelFor r p in if str_eqb l "" then "upstream" else l
       | None => "upstream"
       end.
Definition SetUpstream (servers : list UpstreamServer) (routes : list UpstreamRoute) (bootstrap : list UpstreamServer)
    : M (option pool_error) :=
  s ← get;
  match NewPoolWithBootstrap servers routes (cfg_Upstream (s_cfg s)) bootstrap with
  | Err e => mret (Some e)
  | Ok pool => modify (set_pool (Some pool));; mret None
  end.
Definition Upstream (s : Server) : list UpstreamServer * list UpstreamRoute * list UpstreamServer :=
  match safePool s with
  | None => ([], [], [])
  | Some p => (Servers p, Routes p, Bootstrap p)
  end.

(** ** What a query is served with

    The clock readings of one query, the iteration orders of the maps it
    walks, the answers of the network, and the vendored dns package's codec. *)
Record env := mkEnv {
  e_start : Z;                               (* time.Now() on entry *)
  e_allow : Z;                               (* in the rate limiter *)
  e_get1 : Z; e_get2 : Z; e_get3 : Z;        (* in Cache.Get *)
  e_set : Z;                                 (* in Cache.Set *)
  e_at : Z; e_since : Z;                     (* an event's At, and time.Since(start) for it *)
  e_done : Z;                                (* time.Now() of the deferred AddDuration *)
  e_order : list string;                     (* order of the rate limiter's map *)
  e_enum : list string;                      (* order of the record map *)
  e_resolve : resolver → Msg → res up_error Msg;
  e_timeout : up_error → bool;               (* a deadline or net.Error timeout *)
  e_rrString : RR → string;                  (* RR.String *)
  e_unpack : list Z → option Msg;
  e_pack : Msg → option (list Z) }.

Definition with_resolve (f : resolver → Msg → res up_error Msg) (e : env) : env :=
  mkEnv (e_start e) (e_allow e) (e_get1 e) (e_get2 e) (e_get3 e) (e_set e) (e_at e) (e_since e) (e_done e) (e_order e)
    (e_enum e) f (e_timeout e) (e_rrString e) (e_unpack e) (e_pack e).

(** ** Rendering for the query log *)
Definition qType (req : Msg) : string :=
  match m_Question req with [] => "" | q :: _ => TypeToString (q_Qtype q) end.
Definition isAddressType (t : string) : bool := str_eqb t "A" || str_eqb t "AAAA".
Definition answer_of (e : env) (rr : RR) : Answer :=
  let ttl := ttl_of rr in
  match rr_data rr with
  | RD_A a => mkAnswer "A" (ip_string a) ttl
  | RD_AAAA a => mkAnswer "AAAA" (ip_string a) ttl
  | RD_CNAME target => mkAnswer "CNAME" target ttl
  | RD_TXT txt => mkAnswer "TXT" (Join txt "") ttl
  | RD_MX mx pref => mkAnswer "MX" (mx +:+ " " +:+ Itoa pref) ttl
  | RD_SRV prio weight port target =>
      mkAnswer "SRV" (Itoa prio +:+ " " +:+ Itoa weight +:+ " " +:+ Itoa port +:+ " " +:+ target) ttl
  | RD_PTR _ | RD_other _ => mkAnswer (TypeToString (h_Rrtype (rr_hdr rr))) (e_rrString e rr) ttl
  end.
Definition answersFor (e : env) (resp : Msg) : list Answer := answer_of e <$> m_Answer resp.
(** The texts of [ParseSpec]'s errors. *)
Definition spec_error_text (e : spec_error) : string :=
  match e with
  | SE_empty => "upstream: empty spec"
  | SE_unrecognized tok => "upstream: unrecognized spec " +:+ Quote tok
  | SE_blocked tok ip => "upstream: " +:+ tok +:+ ": refusing link-local/metadata address " +:+ ip_string ip
  | SE_count _ => ""                         (* of a server's address, never of [FromSpec] *)
  end.
Definition upstreamErrText (e : env) (upstream : string) (err : up_error) : string :=
  if e_timeout e err then
    if negb (str_eqb upstream "") then "timeout talking to " +:+ upstream else "upstream timeout"
  else upErr_Error err.

(** ** Events *)
Definition durationUs (e : env) : Z := Z.quot (time_sub (e_since e) (e_start e)) microsecond.
Definition notifyBlock (e : env) (req resp : Msg) (client domain list_ proto : string) : M unit :=
  s ← get;
  if negb (HasWatchers (s_watch s)) then mret tt
  else notify (mkEvent "block" (e_at e) None client domain proto (qType req) [] (answersFor e resp) ""
                 (durationUs e) false "" list_).
Definition notifyPass (e : env) (req out : Msg) (client domain proto upstream : string) (ips : list string)
    (cached : bool) : M unit :=
  s ← get;
  if negb (HasWatchers (s_watch s)) then mret tt
  else notify (mkEvent "pass" (e_at e) None client domain proto (qType req) ips (answersFor e out) ""
                 (durationUs e) cached upstream "").
Definition notifyUpstreamError (e : env) (client domain msg : string) : M unit :=
  notify (mkEvent "error" (e_at e) None client domain "" "" [] [] msg 0 false "" "").

(** ** Blocked queries *)
Definition applyBlockAction (resp : Msg) (q : Question) (action : BlockAction) : Msg :=
  if str_eqb action ActionRefused then with_Rcode RcodeRefused resp
  else if str_eqb action ActionZero then
    let resp := with_Rcode RcodeSuccess resp in
    if q_Qtype q =? TypeA then
      with_Answer [mkRR (mkHdr (q_Name q) TypeA ClassINET 60) (RD_A (default [] (To4 IPv4zero)))] resp
    else if q_Qtype q =? TypeAAAA then
      with_Answer [mkRR (mkHdr (q_Name q) TypeAAAA ClassINET 60) (RD_AAAA IPv6zero)] resp
    else resp
  else with_Rcode RcodeNameError resp.

(** ** The query path *)
(** [Cache.DoHit] for one goroutine at a time: a hit, or the fetch and the store.
    The interleaved version is in CacheConc.v. *)
Definition DoHit (e : env) (k : Key) (fetch : res up_error Msg) : M (res up_error (Msg * bool)) := λ s,
  '(c, hit) ← Get k (e_get1 e) (e_get2 e) (e_get3 e) (s_cache s);
  match hit with
  | Some m => Some (set_cache c s, Ok (m, true))
  | None =>
      match fetch with
      | Err err => Some (set_cache c s, Err err)
      | Ok m => c ← Set_ k (Some m) (e_set e) c; Some (set_cache c s, Ok (m, false))
      end
  end.
Definition allow_m (e : env) (key : string) : M bool := λ s,
  let '(rl, ok) := allow (e_order e) (e_allow e) key (s_rl s) in Some (set_rl rl s, ok).
Definition base_reply (req : Msg) : Msg := with_RecursionAvailable true (SetReply req).
Definition upstream_failure (e : env) (req : Msg) (client domain msg : string) : M Msg :=
  count AddUpErr;;
  notifyUpstreamError e client domain msg;;
  mret (with_Rcode RcodeServerFailure (base_reply req)).
(** From the cache on: the resolver [r] is chosen. *)
Definition relay (e : env) (req : Msg) (client domain proto : string) (r : resolver) (label : string) : M Msg :=
  let key := KeyOf req in
  let key := if str_eqb label "" then key else mkKey (k_Name key) label (k_QType key) (k_QClass key) in
  o ← DoHit e key (e_resolve e r req);
  match o with
  | Err err => upstream_failure e req client domain (upstreamErrText e label err)
  | Ok (m, cached) =>
      let out := with_Question (m_Question req) (with_Id (m_Id req) m) in
      let ips := an_Data <$> filter (λ a, isAddressType (an_Type a) = true) (answersFor e out) in
      notifyPass e req out client domain proto label ips cached;;
      mret out
  end.
(** From the choice of the resolver on. *)
Definition private_ptr (q : Question) (matchedRoute : bool) (override : string) : bool :=
  (q_Qtype q =? TypePTR) && negb matchedRoute && str_eqb override "" &&
  match ptrIPFromArpa (q_Name q) with Some ip => negb (IsGlobalUnicast ip) | None => false end.
Definition forward (e : env) (clientIP : IP) (req : Msg) (q : Question) (client domain proto override : string) : M Msg :=
  s ← get;
  let '(r, matchedRoute) := upstreamFor (q_Name q) clientIP s in
  if private_ptr q matchedRoute override then mret (with_Rcode RcodeNameError (base_reply req))
  else
    r ← (if negb (str_eqb override "") && negb matchedRoute then overrideResolver override else mret (Ok r));
    match r with
    | Err err =>
        upstream_failure e req client domain
          ("invalid upstream override " +:+ Quote override +:+ ": " +:+ spec_error_text err)
    | Ok None => upstream_failure e req client domain "no upstream configured"
    | Ok (Some r) => relay e req client domain proto r (upstreamLabel (Some r) matchedRoute override s)
    end.
Definition global_blocked (s : Server) (clientIP : IP) (clientID domain : string) : bool :=
  match s_blocklist s with
  | Some b => IsBlocked domain b && negb (Filter.Allowed (s_store s) clientIP clientID domain)
  | None => false
  end.
(** From the first question on: filter, local records, upstream. *)
Definition serve_question (e : env) (clientIP : IP) (clientID proto client : string) (req : Msg) (q : Question) : M Msg :=
  let resp := base_reply req in
  if q_Qclass q =? ClassCHAOS then mret (with_Rcode RcodeRefused resp)
  else
    let domain := TrimSuffix (q_Name q) "." in
    s ← get;
    if global_blocked s clientIP clientID domain then
      count AddBlocked;;
      notifyBlock e req resp client domain "global" proto;;
      logq client domain;;
      mret (applyBlockAction resp q (cfg_BlockAction (s_cfg s)))
    else
      let '(blocked, action, override, log) := Classify (s_store s) clientIP clientID domain in
      if blocked then
        count AddBlocked;;
        notifyBlock e req resp client domain (BlockSource (s_store s) clientIP clientID domain) proto;;
        (if log then logq client domain else mret tt);;
        mret (applyBlockAction resp q action)
      else
        (if log then logq client domain else mret tt);;
        match Lookup (e_enum e) req (s_rec s) with
        | Some out => notifyPass e req out client domain proto "local" [] false;; mret out
        | None => forward e clientIP req q client domain proto override
        end.
Definition serve (e : env) (clientIP : IP) (clientID proto : string) (req : Msg) : M Msg :=
  let client := if str_eqb clientID "" then ip_string clientIP else clientID in
  let rlKey := if negb (str_eqb clientID "") then ip_string clientIP else client in
  ok ← allow_m e rlKey;
  if negb ok then
    count AddRateLimited;;
    mret (with_Rcode RcodeRefused (base_reply req))
  else
    count AddQuery;;
    out ← match m_Question req with
          | [] => mret (with_Rcode RcodeFormatError (base_reply req))
          | q :: _ => serve_question e clientIP clientID proto client req q
          end;
    count (AddDuration (time_sub (e_done e) (e_start e)));;
    mret out.
(** [ServeDNS]: the reply written for a packet from [remoteAddr]. *)
Definition ServeDNS (e : env) (remoteAddr : string) (req : Msg) : M Msg :=
  let clientIP := match SplitHostPort remoteAddr with Some (h, _) => h | None => "" end in
  serve e (ParseIP clientIP) "" ProtoDNS req.

(** ** The HTTP front end *)
(** base64.RawURLEncoding: line breaks are skipped, padding is refused, the
    spare bits of the last group are ignored. *)
Definition b64_val (c : ascii) : option Z :=
  let z := code c in
  if in_range 65 90 c then Some (z - 65)
  else if in_range 97 122 c then Some (z - 71)
  else if in_range 48 57 c then Some (z + 4)
  else if z =? 45 then Some 62 else if z =? 95 then Some 63 else None.
Fixpoint b64_digits (s : string) : option (list Z) :=
  match s with
  | "" => Some []
  | String c s =>
      if (code c =? 10) || (code c =? 13) then b64_digits s
      else v ← b64_val c; l ← b64_digits s; Some (v :: l)
  end.
Fixpoint b64_groups (l : list Z) : option (list Z) :=
  match l with
  | a :: b :: c :: d :: l =>
      rest ← b64_groups l;
      Some (a * 4 + b / 16 :: b mod 16 * 16 + c / 4 :: c mod 4 * 64 + d :: rest)
  | [a; b; c] => Some [a * 4 + b / 16; b mod 16 * 16 + c / 4]
  | [a; b] => Some [a * 4 + b / 16]
  | [_] => None
  | [] => Some []
  end.
Definition RawURL_DecodeString (s : string) : option (list Z) := b64_digits s ≫= b64_groups.

Record http_response := mkResp { rs_status : Z; rs_header : gmap string string; rs_body : string + list Z }.
(** [http.Error]; the body is the text and a line break. *)
Definition http_Error (h : gmap string string) (msg : string) (code : Z) : http_response :=
  mkResp code (<["Content-Type" := "text/plain; charset=utf-8"]> h) (inl msg).
Definition SecurityHeaders (tls : bool) : gmap string string :=
  let h := <["X-Content-Type-Options" := "nosniff"]> (<["X-Frame-Options" := "DENY"]>
           (<["Referrer-Policy" := "no-referrer"]>
           {["Content-Security-Policy" := "default-src 'none'; frame-ancestors 'none'"]})) in
  if tls then <["Strict-Transport-Security" := "max-age=31536000"]> h else h.

(** [io.ReadAll(io.LimitReader(body, n))]: an error past the limit is not seen. *)
Definition read_limited (n : Z) (r : http_request) : option (list Z) :=
  if Z.of_nat (length (rq_body r)) <? n
  then if rq_bodyErr r then None else Some (rq_body r)
  else Some (take (Z.to_nat n) (rq_body r)).
(** The message of a request, or the status and text it is refused with. *)
Definition doh_message (e : env) (r : http_request) : res (Z * string) Msg :=
  if str_eqb (rq_Method r) "GET" then
    let v := rq_dns r in
    if str_eqb v "" then Err (400, "missing dns parameter")
    else if (maxDNSQueryParam <? slen v)%nat then Err (414, "dns parameter too large")
    else match RawURL_DecodeString v with
         | None => Err (400, "bad dns parameter")
         | Some b => match e_unpack e b with None => Err (400, "bad dns message") | Some m => Ok m end
         end
  else if str_eqb (rq_Method r) "POST" then
    if negb (str_eqb (rq_Header r "Content-Type") "application/dns-message") then Err (415, "unsupported content type")
    else match read_limited (maxDoHMessage + 1) r with
         | None => Err (400, "read error")
         | Some b =>
             if maxDoHMessage <? Z.of_nat (length b) then Err (413, "request body too large")
             else match e_unpack e b with None => Err (400, "bad dns message") | Some m => Ok m end
         end
  else Err (405, "method not allowed").
Definition doh_client (r : http_request) : string :=
  let id := clientIDFromPath (rq_Path r) in
  if str_eqb id "" then clientIDFromPath ("/dns-query/" +:+ rq_Header r "X-Device-ID") else id.
Definition dohMaxAge (resp : Msg) : Z := default 0 (foldl min_step None (m_Answer resp ++ m_Ns resp)).
(** [handleDoH], behind [SecurityHeaders]. *)
Definition handleDoH (e : env) (r : http_request) : M http_response :=
  let h := SecurityHeaders (rq_TLS r) in
  match doh_message e r with
  | Err (code, msg) => mret (http_Error (if code =? 405 then <["Allow" := "GET, POST"]> h else h) msg code)
  | Ok req =>
      s ← get;
      resp ← serve e (clientIPFromReq r (s_trustedProxies s)) (doh_client r) ProtoDoH req;
      match e_pack e resp with
      | None => mret (http_Error h "pack error" 500)
      | Some buf =>
          let age := dohMaxAge resp in
          let cc := if 0 <? age then "max-age=" +:+ Itoa age +:+ ", private" else "no-store" in
          mret (mkResp 200 (<["Cache-Control" := cc]> (<["Content-Type" := "application/dns-message"]> h)) (inr buf))
      end
  end.

(** ** Construction and runtime configuration *)
Definition SetRateLimit (qps burst : Z) (s : Server) : Server := set_rl (rl_set qps burst (s_rl s)) s.
Definition RateLimitQPS (s : Server) : Z := rl_qps (s_rl s).
Inductive new_error := NE_upstream (e : pool_error) | NE_proxy (v : string).
Definition NewServer (cfg : Config) (store : option Store) (bl : option Blocklist) : res new_error Server :=
  let store := match store with Some st => st | None => NewStore None end in
  match NewPoolWithBootstrap (cfg_UpstreamServers cfg) (cfg_UpstreamRoutes cfg) (cfg_Upstream cfg)
          (cfg_UpstreamBootstrap cfg) with
  | Err e => Err (NE_upstream e)
  | Ok up =>
      match parseTrustedProxies (cfg_TrustedProxies cfg) with
      | Err v => Err (NE_proxy v)
      | Ok trusted =>
          let s := mkServer_ cfg store bl (Cache.New (cfg_CacheCap cfg) (cfg_CacheSize cfg)) zero_counters no_watch
                     (Some up) None None "" newRateLimiter NewRecordStore ∅ (cfg_CacheSize cfg) trusted in
          Ok (if 0 <? cfg_RateLimitQPS cfg then SetRateLimit (cfg_RateLimitQPS cfg) (cfg_RateLimitBurst cfg) s else s)
      end
  end.
Definition SetBlockLogger : M unit := modify (set_log (Some [])).
(** The error of a negative size leaves the server as it is. *)
Definition SetCacheConfig (size : Z) : M bool := λ s,
  if size <? 0 then Some (s, false)
  else c ← SetMaxEntries size (s_cache s); Some (set_cache c (set_size size s), true).
Definition CacheSize (s : Server) : Z := s_cacheSize s.
Definition PurgeCache : M unit := modify (λ s, set_cache (Purge (s_cache s)) s).
Definition srv_SetRecords (records : list RecordEntry) : M unit :=
  modify (λ s, set_rec (SetRecords records (s_rec s)) s).
Definition srv_GetRecords (enum_r enum_w : list string) (s : Server) : list RecordEntry :=
  GetRecords enum_r enum_w (s_rec s).
Definition srv_RecordsHash (enum_r enum_w : list string) (s : Server) : Z := Hash enum_r enum_w (s_rec s).

(** The plain-HTTP DoH listener; [listen] is what binding the address says. *)
Definition stopDoHPlainLocked : M unit := modify (set_plain None "").
Inductive doh_error := DoHBadAddr (addr : string) | DoHListen (addr err : string).
Definition SetDoHHTTPAddr (listen : string → option string) (addr : string) : M (option doh_error) :=
  s ← get;
  if str_eqb addr (s_dohPlainAddr s) then mret None
  else
    stopDoHPlainLocked;;
    if str_eqb addr "" then mret None
    else
      let bad := match SplitHostPort addr with Some (_, port) => str_eqb port "" | None => true end in
      if bad then mret (Some (DoHBadAddr addr))
      else match listen addr with
           | Some err => mret (Some (DoHListen addr err))
           | None => modify (set_plain (Some addr) addr);; mret None
           end.
Definition DoHHTTPAddr (s : Server) : string := s_dohPlainAddr s.

(** ** Reasoning about the monad: total weakest preconditions *)
Definition wp {A} (m : M A) (Q : Server → A → Prop) (s : Server) : Prop :=
  ∃ s' a, m s = Some (s', a) ∧ Q s' a.
Lemma wp_ret {A} (a : A) (Q : Server → A → Prop) s : Q s a → wp (mret a) Q s.
Proof. intros H. by exists s, a. Qed.
Lemma wp_bind {A B} (m : M A) (f : A → M B) Q s :
  wp m (λ s' a, wp (f a) Q s') s → wp (m ≫= f) Q s.
Proof.
  intros (s1 & a & Hm & s2 & b & Hf & HQ). exists s2, b. split; [|done].
  unfold mbind, M_bind. by rewrite Hm.
Qed.
Lemma wp_get (Q : Server → Server → Prop) s : Q s s → wp get Q s.
Proof. intros H. by exists s, s. Qed.
Lemma run_get {A} (f : Server → M A) s : (get ≫= f) s = f s s.
Proof. reflexivity. Qed.
Lemma wp_modify f (Q : Server → unit → Prop) s : Q (f s) tt → wp (modify f) Q s.
Proof. intros H. by exists (f s), tt. Qed.
Lemma wp_mono {A} (m : M A) (Q R : Server → A → Prop) s : wp m Q s → (∀ s' a, Q s' a → R s' a) → wp m R s.
Proof. intros (s' & a & Hm & HQ) H. exists s', a. auto. Qed.
Lemma wp_run {A} (m : M A) Q s s' a : wp m Q s → m s = Some (s', a) → Q s' a.
Proof. intros (s1 & b & Hm & HQ) H. rewrite Hm in H. by injection H as <- <-. Qed.

(** ** What a query does, without its effects

    The decision taken for a query that passed the rate limiter. *)
Inductive decision :=
| DReply (m : Msg)                           (* answered here *)
| DBlock (m : Msg)                           (* blocked *)
| DFail (m : Msg)                            (* no usable upstream *)
| DRelay (r : resolver) (label : string).    (* cache, then this resolver *)

Definition block_action (s : Server) (ip : IP) (id domain : string) : option BlockAction :=
  if global_blocked s ip id domain then Some (cfg_BlockAction (s_cfg s))
  else let '(blocked, action, _, _) := Classify (s_store s) ip id domain in
       if blocked then Some action else None.
Definition override_of (s : Server) (ip : IP) (id domain : string) : string :=
  let '(_, _, override, _) := Classify (s_store s) ip id domain in override.
Definition pick_override (spec : string) (s : Server) : res spec_error (option resolver) :=
  match s_overrides s !! spec with Some r => Ok r | None => FromSpec spec end.
Definition pick (req : Msg) (q : Question) (ip : IP) (override : string) (s : Server) : decision :=
  let '(r, route) := upstreamFor (q_Name q) ip s in
  if private_ptr q route override then DReply (with_Rcode RcodeNameError (base_reply req))
  else match (if negb (str_eqb override "") && negb route then pick_override override s else Ok r) with
       | Ok (Some r) => DRelay r (upstreamLabel (Some r) route override s)
       | _ => DFail (with_Rcode RcodeServerFailure (base_reply req))
       end.
Definition decision_of (e : env) (ip : IP) (id : string) (req : Msg) (s : Server) : decision :=
  match m_Question req with
  | [] => DReply (with_Rcode RcodeFormatError (base_reply req))
  | q :: _ =>
      if q_Qclass q =? ClassCHAOS then DReply (with_Rcode RcodeRefused (base_reply req))
      else
        let domain := TrimSuffix (q_Name q) "." in
        match block_action s ip id domain with
        | Some a => DBlock (applyBlockAction (base_reply req) q a)
        | None =>
            match Lookup (e_enum e) req (s_rec s) with
            | Some m => DReply m
            | None => pick req q ip (override_of s ip id domain) s
            end
        end
  end.
Definition label_key (label : string) (req : Msg) : Key :=
  let k := KeyOf req in mkKey (k_Name k) label (k_QType k) (k_QClass k).
Definition adopt (req m : Msg) : Msg := with_Question (m_Question req) (with_Id (m_Id req) m).

(** What serving a decision does to the cache and the counters, and its reply. *)
Definition relayed (e : env) (req : Msg) (r : resolver) (label : string) (c c' : Cache) (n n' : Counters) (out : Msg) : Prop :=
  ∃ c1 hit, Get (label_key label req) (e_get1 e) (e_get2 e) (e_get3 e) c = Some (c1, hit) ∧
    match hit, e_resolve e r req with
    | Some m, _ => out = adopt req m ∧ c' = c1 ∧ n' = n
    | None, Ok m => out = adopt req m ∧ Set_ (label_key label req) (Some m) (e_set e) c1 = Some c' ∧ n' = n
    | None, Err _ => out = with_Rcode RcodeServerFailure (base_reply req) ∧ c' = c1 ∧ n' = AddUpErr n
    end.
Definition outcome (e : env) (req : Msg) (d : decision) (c c' : Cache) (n n' : Counters) (out : Msg) : Prop :=
  match d with
  | DReply m => out = m ∧ c' = c ∧ n' = n
  | DBlock m => out = m ∧ c' = c ∧ n' = AddBlocked n
  | DFail m => out = m ∧ c' = c ∧ n' = AddUpErr n
  | DRelay r label => relayed e req r label c c' n n' out
  end.

(** Serving a query leaves the configuration alone. *)
Record frame (s s' : Server) : Prop := {
  fr_cfg : s_cfg s' = s_cfg s;
  fr_store : s_store s' = s_store s;
  fr_bl : s_blocklist s' = s_blocklist s;
  fr_pool : s_pool s' = s_pool s;
  fr_plain : s_dohPlain s' = s_dohPlain s ∧ s_dohPlainAddr s' = s_dohPlainAddr s;
  fr_rec : s_rec s' = s_rec s;
  fr_size : s_cacheSize s' = s_cacheSize s;
  fr_max : c_maxEntries (s_cache s') = c_maxEntries (s_cache s);
  fr_trusted : s_trustedProxies s' = s_trustedProxies s }.
(** The memoized resolvers are the ones their spec denotes. *)
Definition overrides_ok (o : gmap string (option resolver)) : Prop :=
  ∀ spec r, o !! spec = Some r → FromSpec spec = Ok r.
Record srv_inv (s : Server) : Prop := {
  si_cache : cache_inv (s_cache s);
  si_size : c_maxEntries (s_cache s) = s_cacheSize s;
  si_rl : rl_reachable (s_rl s);
  si_watch : watch_wf (s_watch s);
  si_store : store_reachable (s_store s);
  si_bl : ∀ b, s_blocklist s = Some b → bl_reachable b;
  si_over : overrides_ok (s_overrides s);
  si_plain : s_dohPlainAddr s = default "" (s_dohPlain s) }.

(** Events and logging change the watchers and the log only. *)
Record quiet (s s' : Server) : Prop := {
  qu_frame : frame s s';
  qu_cache : s_cache s' = s_cache s;
  qu_cnt : s_cnt s' = s_cnt s;
  qu_rl : s_rl s' = s_rl s;
  qu_over : s_overrides s' = s_overrides s;
  qu_watch : watch_wf (s_watch s) → watch_wf (s_watch s') }.
#[export] Instance frame_po : PreOrder frame.
Proof.
  split; [by intros s; split|]. intros s1 s2 s3 [] []. split; try congruence.
  split; destruct_and!; congruence.
Qed.
#[export] Instance quiet_po : PreOrder quiet.
Proof.
  split; [by intros s; split|]. intros s1 s2 s3 [] []. split; try congruence; [by etrans|auto].
Qed.
Lemma quiet_notify ev s : quiet s (set_watch (Notify ev (s_watch s)) s).
Proof. split; try done. cbn. auto with blip. Qed.
Lemma quiet_log l s : quiet s (set_log l s).
Proof. split; done. Qed.

Lemma wp_notifyBlock e req resp client domain l proto s (Q : Server → unit → Prop) :
  (∀ s', quiet s s' → Q s' tt) → wp (notifyBlock e req resp client domain l proto) Q s.
Proof.
  intros H. apply wp_bind, wp_get. destruct (negb _); [by apply wp_ret, H|].
  apply wp_modify, H, quiet_notify.
Qed.
Lemma wp_notifyPass e req out client domain proto up ips cached s (Q : Server → unit → Prop) :
  (∀ s', quiet s s' → Q s' tt) → wp (notifyPass e req out client domain proto up ips cached) Q s.
Proof.
  intros H. apply wp_bind, wp_get. destruct (negb _); [by apply wp_ret, H|].
  apply wp_modify, H, quiet_notify.
Qed.
Lemma wp_logq client domain s (Q : Server → unit → Prop) :
  (∀ s', quiet s s' → Q s' tt) → wp (logq client domain) Q s.
Proof. intros H. apply wp_modify, H, quiet_log. Qed.
Lemma wp_maybe_log (b : bool) client domain s (Q : Server → unit → Prop) :
  (∀ s', quiet s s' → Q s' tt) → wp (if b then logq client domain else mret tt) Q s.
Proof. intros H. destruct b; [by apply wp_logq|by apply wp_ret, H]. Qed.

(** The effect of one piece of the query path: the decision's outcome, and nothing else. *)
Record effect (e : env) (req : Msg) (d : decision) (s s' : Server) (out : Msg) : Prop := {
  ef_out : outcome e req d (s_cache s) (s_cache s') (s_cnt s) (s_cnt s') out;
  ef_frame : frame s s';
  ef_cache : cache_inv (s_cache s');
  ef_rl : s_rl s' = s_rl s;
  ef_over : overrides_ok (s_overrides s');
  ef_watch : watch_wf (s_watch s') }.
(** The parts of the invariant the query path touches. *)
Record live (s : Server) : Prop := {
  lv_cache : cache_inv (s_cache s);
  lv_over : overrides_ok (s_overrides s);
  lv_watch : watch_wf (s_watch s) }.
(** The clock does not run backwards between two readings of one lookup. *)
Definition clock_ok (e : env) : Prop := e_get1 e ≤ e_get2 e.

Lemma DoHit_ok e k fetch s :
  cache_inv (s_cache s) → clock_ok e →
  wp (DoHit e k fetch) (λ s' o,
    ∃ c' c1 hit, s' = set_cache c' s ∧ cache_inv c' ∧ c_maxEntries c' = c_maxEntries (s_cache s)
      ∧ Get k (e_get1 e) (e_get2 e) (e_get3 e) (s_cache s) = Some (c1, hit)
      ∧ match hit, fetch with
        | Some m, _ => o = Ok (m, true) ∧ c' = c1
        | None, Ok m => o = Ok (m, false) ∧ Set_ k (Some m) (e_set e) c1 = Some c'
        | None, Err err => o = Err err ∧ c' = c1
        end) s.
Proof.
  intros Hi Hc. unfold wp, DoHit.
  destruct (Get_ok k (e_get1 e) (e_get2 e) (e_get3 e) (s_cache s) Hi Hc) as (c1 & hit & Hg & Hi1 & Hm & _ & _).
  rewrite Hg. cbn [mbind option_bind]. destruct hit as [m|]; [by eexists _, _; split; [done|]; eexists c1, c1, _|].
  destruct fetch as [m|err]; [|by eexists _, _; split; [done|]; eexists c1, c1, _].
  destruct (Set_ok k m (e_set e) c1 Hi1) as (c2 & Hs & Hi2 & Hm2 & _). rewrite Hs. cbn.
  eexists _, _. split; [done|]. exists c2, c1, None. split_and!; try done. congruence.
Qed.

Lemma wp_failure e req client domain msg m s :
  m = with_Rcode RcodeServerFailure (base_reply req) →
  wp (upstream_failure e req client domain msg) (λ s' out, out = m ∧
    quiet (set_cnt (AddUpErr (s_cnt s)) s) s') s.
Proof.
  intros ->. apply wp_bind, wp_modify, wp_bind, wp_modify, wp_ret. split; [done|].
  apply quiet_notify.
Qed.

(** An effect after, and before, quiet steps. *)
Lemma effect_quiet e req d s s1 s' out : effect e req d s s1 out → quiet s1 s' → effect e req d s s' out.
Proof.
  intros [] [? Hc Hn Hr Ho Hw]. split; rewrite ?Hc, ?Hn, ?Hr, ?Ho; auto. by etrans.
Qed.
Lemma quiet_effect e req d s s1 s' out : quiet s s1 → effect e req d s1 s' out → effect e req d s s' out.
Proof.
  intros [? Hc Hn Hr Ho Hw] []. split; rewrite <-?Hc, <-?Hn, <-?Hr; auto. by etrans.
Qed.
Lemma live_quiet s s' : live s → quiet s s' → live s'.
Proof. intros [] [? Hc _ _ Ho Hw]. split; rewrite ?Hc, ?Ho; auto. Qed.

Lemma relay_ok e req client domain proto r label s :
  live s → clock_ok e →
  wp (relay e req client domain proto r label) (effect e req (DRelay r label) s) s.
Proof.
  intros [Hc Ho Hw] Hk. unfold relay.
  assert ((if str_eqb label "" then KeyOf req else
             mkKey (k_Name (KeyOf req)) label (k_QType (KeyOf req)) (k_QClass (KeyOf req))) = label_key label req) as ->.
  { unfold label_key. destruct (str_eqb label "") eqn:E; [|done]. apply str_eqb_eq in E as ->.
    unfold KeyOf. by destruct (m_Question req). }
  apply wp_bind. eapply wp_mono; [apply DoHit_ok; done|].
  intros s1 o (c' & c1 & hit & -> & Hi & Hmax & Hg & Hcase).
  assert (frame s (set_cache c' s)) as Hf by (split; try done).
  assert (∀ m b, o = Ok (m, b) → outcome e req (DRelay r label) (s_cache s) c' (s_cnt s) (s_cnt s) (adopt req m)) as Hok.
  { intros m b ->. exists c1, hit. split; [done|].
    destruct hit as [m1|], (e_resolve e r req) as [m2|err2]; destruct Hcase as [Heq ?]; by simplify_eq. }
  destruct o as [[m b]|err].
  - apply wp_bind, wp_notifyPass. intros s' Hq. apply wp_ret.
    eapply effect_quiet; [|exact Hq]. split; try done. by eapply Hok.
  - eapply wp_mono; [by apply wp_failure|]. intros s' out [-> Hq]. eapply effect_quiet; [|exact Hq].
    split; try done. exists c1, hit. split; [done|].
    destruct hit as [m1|], (e_resolve e r req) as [m2|err2]; destruct Hcase as [Heq ?]; by simplify_eq.
Qed.

Lemma failure_effect e req client domain msg m s :
  live s → m = with_Rcode RcodeServerFailure (base_reply req) →
  wp (upstream_failure e req client domain msg) (effect e req (DFail m) s) s.
Proof.
  intros [Hc Ho Hw] Hm. eapply wp_mono; [by apply wp_failure|]. intros s' out [-> Hq].
  eapply effect_quiet; [|exact Hq]. split; try done.
Qed.

Lemma overrideResolver_ok spec s :
  overrides_ok (s_overrides s) →
  wp (overrideResolver spec) (λ s' r, r = pick_override spec s ∧
    ∃ o, s' = set_overrides o s ∧ overrides_ok o) s.
Proof.
  intros Ho. apply wp_bind, wp_get. unfold pick_override. destruct (s_overrides s !! spec) as [r|] eqn:Hs.
  - apply wp_ret. split; [done|]. exists (s_overrides s). split; [by destruct s|done].
  - destruct (FromSpec spec) as [r|err] eqn:Hf.
    + apply wp_bind, wp_modify, wp_ret. split; [done|]. eexists. split; [done|].
      intros sp r' [[<- <-]|[_ ?]]%lookup_insert_Some; [done|by apply Ho].
    + apply wp_ret. split; [done|]. exists (s_overrides s). split; [by destruct s|done].
Qed.
Lemma effect_overrides e req d s o s' out :
  effect e req d (set_overrides o s) s' out → effect e req d s s' out.
Proof. intros [? [] ? ? ? ?]. split; try done. Qed.

Lemma forward_ok e ip req q client domain proto override s :
  live s → clock_ok e →
  wp (forward e ip req q client domain proto override) (effect e req (pick req q ip override s) s) s.
Proof.
  intros Hl Hk. pose proof Hl as [Hc Ho Hw]. apply wp_bind, wp_get. unfold pick.
  destruct (upstreamFor (q_Name q) ip s) as [r route] eqn:Hu.
  destruct (private_ptr q route override); [by apply wp_ret|].
  apply wp_bind. destruct (negb (str_eqb override "") && negb route) eqn:Hov.
  - eapply wp_mono; [by apply overrideResolver_ok|]. intros s1 r1 (-> & o & -> & Ho').
    assert (live (set_overrides o s)) as Hl' by done.
    destruct (pick_override override s) as [[r1|]|err].
    + eapply wp_mono; [by apply relay_ok|]. intros s' out He. by eapply effect_overrides.
    + eapply wp_mono; [by apply failure_effect|]. intros s' out He. by eapply effect_overrides.
    + eapply wp_mono; [by apply failure_effect|]. intros s' out He. by eapply effect_overrides.
  - apply wp_ret. destruct r as [r1|]; [by apply relay_ok|by apply failure_effect].
Qed.

Lemma block_effect e req m s s' :
  live s → quiet (set_cnt (AddBlocked (s_cnt s)) s) s' → effect e req (DBlock m) s s' m.
Proof. intros [] Hq. eapply effect_quiet; [|exact Hq]. split; try done. Qed.

(** The decisions inside [pick] do not depend on the events already sent. *)
Lemma pick_quiet req q ip override s s' : quiet s s' → pick req q ip override s' = pick req q ip override s.
Proof.
  intros [[] _ _ _ Ho _]. unfold pick, upstreamFor, upstreamAuto, safePool, upstreamLabel, pick_override, safePool.
  by rewrite fr_pool0, Ho.
Qed.

Lemma serve_question_ok e ip id proto client req q rest s :
  live s → clock_ok e → m_Question req = q :: rest →
  wp (serve_question e ip id proto client req q) (effect e req (decision_of e ip id req s) s) s.
Proof.
  intros Hl Hk Hq. unfold serve_question, decision_of, block_action, override_of. rewrite Hq.
  destruct (q_Qclass q =? ClassCHAOS); [destruct Hl; by apply wp_ret|].
  apply wp_bind, wp_get. set (domain := TrimSuffix (q_Name q) ".").
  destruct (global_blocked s ip id domain).
  { apply wp_bind, wp_modify, wp_bind, wp_notifyBlock. intros s1 H1. apply wp_bind, wp_logq. intros s2 H2.
    apply wp_ret, block_effect; [done|]. by etrans. }
  destruct (Classify (s_store s) ip id domain) as [[[blocked action] override] log]. destruct blocked.
  { apply wp_bind, wp_modify, wp_bind, wp_notifyBlock. intros s1 H1. apply wp_bind, wp_maybe_log. intros s2 H2.
    apply wp_ret, block_effect; [done|]. by etrans. }
  apply wp_bind, wp_maybe_log. intros s1 H1. pose proof (live_quiet _ _ Hl H1) as Hl1.
  destruct (Lookup (e_enum e) req (s_rec s)) as [m|].
  - apply wp_bind, wp_notifyPass. intros s2 H2. apply wp_ret. eapply quiet_effect; [exact H1|].
    destruct Hl1. eapply effect_quiet; [|exact H2]. by split.
  - rewrite <-(pick_quiet _ _ _ _ _ _ H1). eapply wp_mono; [by apply forward_ok|].
    intros s' out He. by eapply quiet_effect.
Qed.

(** ** Serving one query *)
Definition verdict (e : env) (ip : IP) (s : Server) : rateLimiter * bool :=
  allow (e_order e) (e_allow e) (ip_string ip) (s_rl s).
Record served (e : env) (ip : IP) (id : string) (req : Msg) (s s' : Server) (out : Msg) : Prop := {
  sd_inv : srv_inv s';
  sd_frame : frame s s';
  sd_rl : s_rl s' = (verdict e ip s).1;
  sd_out :
    if (verdict e ip s).2 then
      ∃ n, outcome e req (decision_of e ip id req s) (s_cache s) (s_cache s') (AddQuery (s_cnt s)) n out
           ∧ s_cnt s' = AddDuration (time_sub (e_done e) (e_start e)) n
    else out = with_Rcode RcodeRefused (base_reply req) ∧ s_cache s' = s_cache s
         ∧ s_cnt s' = AddRateLimited (s_cnt s) }.

Lemma srv_inv_step s s' :
  srv_inv s → frame s s' → cache_inv (s_cache s') → rl_reachable (s_rl s') → watch_wf (s_watch s') →
  overrides_ok (s_overrides s') → srv_inv s'.
Proof.
  intros [] [? Hst Hb ? [Hp Ha] ? Hs Hm ?] ? ? ? ?.
  split; rewrite ?Hst, ?Hb, ?Hp, ?Ha, ?Hs, ?Hm; done.
Qed.

Lemma serve_ok e ip id proto req s :
  srv_inv s → clock_ok e → wp (serve e ip id proto req) (served e ip id req s) s.
Proof.
  intros Hi Hk. unfold serve.
  assert ((if negb (str_eqb id "") then ip_string ip else if str_eqb id "" then ip_string ip else id) = ip_string ip)
    as -> by by destruct (str_eqb id "").
  set (client := if str_eqb id "" then ip_string ip else id).
  pose proof (rlr_allow (e_order e) (e_allow e) (ip_string ip) _ (si_rl s Hi)) as Hrl.
  apply wp_bind. unfold wp, allow_m at 1. destruct (verdict e ip s) as [rl ok] eqn:Hv.
  pose proof Hv as Hv'. unfold verdict in Hv'. rewrite Hv' in *. eexists _, _. split; [done|]. cbn [fst] in Hrl.
  destruct ok; cbn [negb].
  - apply wp_bind, wp_modify, wp_bind. set (s1 := set_cnt _ _).
    assert (live s1) as Hl by (destruct Hi; done).
    assert (wp (match m_Question req with
                | [] => mret (with_Rcode RcodeFormatError (base_reply req))
                | q :: _ => serve_question e ip id proto client req q
                end) (effect e req (decision_of e ip id req s1) s1) s1) as Hw.
    { destruct (m_Question req) as [|q rest] eqn:Hq; [|by eapply serve_question_ok].
      unfold decision_of. rewrite Hq. destruct Hl. by apply wp_ret. }
    eapply wp_mono; [exact Hw|]. intros s2 out [Ho Hf Hc Hr Hov Hwf].
    apply wp_bind, wp_modify, wp_ret.
    assert (frame s (set_cnt (AddDuration (time_sub (e_done e) (e_start e)) (s_cnt s2)) s2)) as Hf'
      by (destruct Hf; by split).
    split; rewrite ?Hv; cbn; try done; [|by exists (s_cnt s2)].
    eapply srv_inv_step; try done. cbn. by rewrite Hr.
  - apply wp_bind, wp_modify, wp_ret. split; rewrite ?Hv; cbn; try done.
    eapply srv_inv_step; try done; destruct Hi; done.
Qed.

(** ** Replies belong to their query *)
Definition answers_query (req out : Msg) : Prop :=
  m_Id out = m_Id req ∧ take 1 (m_Question out) = take 1 (m_Question req).
Lemma answers_base req : answers_query req (base_reply req).
Proof.
  unfold answers_query, base_reply, SetReply. destruct req; cbn. split; [done|]. by rewrite take_take.
Qed.
Lemma answers_Rcode req v m : answers_query req m → answers_query req (with_Rcode v m).
Proof. by destruct m. Qed.
Lemma answers_Answer req v m : answers_query req m → answers_query req (with_Answer v m).
Proof. by destruct m. Qed.
Lemma answers_adopt req m : answers_query req (adopt req m).
Proof. unfold answers_query, adopt. by destruct m. Qed.
#[export] Hint Resolve answers_base answers_Rcode answers_Answer answers_adopt : blip.
Lemma answers_block req q a : answers_query req (applyBlockAction (base_reply req) q a).
Proof. unfold applyBlockAction. repeat case_match; auto 6 with blip. Qed.
Lemma answers_local req ans : answers_query req (local_reply req ans).
Proof. unfold answers_query, local_reply, SetReply. destruct req; cbn. split; [done|]. by rewrite take_take. Qed.
Lemma Lookup_reply enum req rs m : Lookup enum req rs = Some m → ∃ ans, m = local_reply req ans.
Proof.
  unfold Lookup, lookupPTR. intros H. repeat case_match; simplify_eq/=; eauto.
Qed.

Lemma decision_answers e ip id req s :
  match decision_of e ip id req s with
  | DReply m | DBlock m | DFail m => answers_query req m
  | DRelay _ _ => True
  end.
Proof.
  unfold decision_of, pick. destruct (m_Question req) as [|q rest]; [auto with blip|].
  destruct (q_Qclass q =? ClassCHAOS); [auto with blip|].
  destruct (block_action s ip id _); [apply answers_block|].
  destruct (Lookup _ _ _) as [m|] eqn:Hl.
  - apply Lookup_reply in Hl as [ans ->]. apply answers_local.
  - destruct (upstreamFor _ _ _) as [r route]. destruct (private_ptr _ _ _); [auto with blip|].
    destruct (if _ : bool then _ else _) as [[r'|]|]; auto with blip.
Qed.

Lemma served_answers e ip id req s s' out : served e ip id req s s' out → answers_query req out.
Proof.
  intros [_ _ _ Ho]. destruct (verdict e ip s) as [rl []]; cbn [snd] in Ho.
  - destruct Ho as (n & Ho & _). pose proof (decision_answers e ip id req s) as Hd.
    destruct (decision_of e ip id req s); cbn [outcome] in Ho; try (by destruct Ho as [-> _]).
    destruct Ho as (c1 & hit & _ & Hr).
    destruct hit as [m1|], (e_resolve e r req) as [m2|err]; destruct Hr as [-> _]; auto with blip.
  - destruct Ho as [-> _]. auto with blip.
Qed.

(** ** The instance as a transition system

    Queries, the calls of the management API, and watchers coming and going. *)
Inductive srv_step (s : Server) : Server → Prop :=
| ss_query e ip id proto req s' out :
    clock_ok e → serve e ip id proto req s = Some (s', out) → srv_step s s'
| ss_doh e r s' out : clock_ok e → handleDoH e r s = Some (s', out) → srv_step s s'
| ss_upstream sv rt b s' err : SetUpstream sv rt b s = Some (s', err) → srv_step s s'
| ss_cache n s' ok : SetCacheConfig n s = Some (s', ok) → srv_step s s'
| ss_purge s' u : PurgeCache s = Some (s', u) → srv_step s s'
| ss_records recs s' u : srv_SetRecords recs s = Some (s', u) → srv_step s s'
| ss_rate qps burst : srv_step s (SetRateLimit qps burst s)
| ss_plain listen addr s' err : SetDoHHTTPAddr listen addr s = Some (s', err) → srv_step s s'
| ss_logger s' u : SetBlockLogger s = Some (s', u) → srv_step s s'
| ss_policies st : store_reachable st → srv_step s (set_store st s)
| ss_blocklist b : bl_reachable b → srv_step s (set_blocklist (Some b) s)
| ss_watch_open : srv_step s (set_watch (watch_open (s_watch s)) s)
| ss_watch_recv ch ev w : watch_recv ch (s_watch s) = Some (ev, w) → srv_step s (set_watch w s)
| ss_watch_close ch : srv_step s (set_watch (watch_close ch (s_watch s)) s).
Inductive srv_reachable : Server → Prop :=
| sr_new cfg st bl s :
    (∀ st', st = Some st' → store_reachable st') → (∀ b, bl = Some b → bl_reachable b) →
    NewServer cfg st bl = Ok s → srv_reachable s
| sr_step s s' : srv_reachable s → srv_step s s' → srv_reachable s'.

Lemma NewServer_inv cfg st bl s :
  (∀ st', st = Some st' → store_reachable st') → (∀ b, bl = Some b → bl_reachable b) →
  NewServer cfg st bl = Ok s → srv_inv s.
Proof.
  intros Hst Hbl. unfold NewServer. destruct (NewPoolWithBootstrap _ _ _ _) as [up|]; [|done].
  destruct (parseTrustedProxies _) as [tr|]; [|done]. intros [= <-].
  assert (∀ rl, rl_reachable rl → srv_inv (mkServer_ cfg
    match st with Some st => st | None => NewStore None end bl (Cache.New (cfg_CacheCap cfg) (cfg_CacheSize cfg))
    zero_counters no_watch (Some up) None None "" rl NewRecordStore ∅ (cfg_CacheSize cfg) tr)) as H.
  { intros rl Hrl. split; cbn; try done.
    - apply New_inv.
    - auto with blip.
    - destruct st; [by apply Hst|constructor]. }
  destruct (0 <? _); [apply (H (rl_set _ _ newRateLimiter))|apply H]; repeat constructor.
Qed.

(** What [handleDoH] does: a refused request changes nothing, any other is served. *)
Lemma handleDoH_ok e r s :
  srv_inv s → clock_ok e →
  wp (handleDoH e r) (λ s' resp,
    match doh_message e r with
    | Err (code, _) => s' = s ∧ rs_status resp = code
    | Ok req => ∃ out, served e (clientIPFromReq r (s_trustedProxies s)) (doh_client r) req s s' out
        ∧ match e_pack e out with
          | None => rs_status resp = 500
          | Some buf => rs_status resp = 200 ∧ rs_body resp = inr buf
              ∧ rs_header resp !! "Cache-Control"
                = Some (if 0 <? dohMaxAge out then "max-age=" +:+ Itoa (dohMaxAge out) +:+ ", private" else "no-store")
          end
    end) s.
Proof.
  intros Hi Hk. unfold handleDoH. destruct (doh_message e r) as [req|[code msg]]; [|by apply wp_ret].
  apply wp_bind, wp_get, wp_bind. eapply wp_mono; [by apply serve_ok|]. intros s' out Hs.
  destruct (e_pack e out) as [buf|] eqn:Hp; apply wp_ret; exists out; (split; [done|]); rewrite Hp; [|done].
  split_and!; [done..|]. cbn [rs_header]. by rewrite lookup_insert_eq.
Qed.

Lemma srv_inv_other s s' :
  srv_inv s → s_cache s' = s_cache s → s_cacheSize s' = s_cacheSize s → rl_reachable (s_rl s') →
  watch_wf (s_watch s') → store_reachable (s_store s') → (∀ b, s_blocklist s' = Some b → bl_reachable b) →
  s_overrides s' = s_overrides s → s_dohPlainAddr s' = default "" (s_dohPlain s') → srv_inv s'.
Proof. intros [] Hc Hs ? ? ? ? Ho ?. split; rewrite ?Hc, ?Hs, ?Ho; done. Qed.

Lemma SetDoHHTTPAddr_ok listen addr s :
  wp (SetDoHHTTPAddr listen addr) (λ s' err, ∃ p a, s' = set_plain p a s
    ∧ (a = default "" p ∨ s' = s) ∧ (err = None → a = addr)
    ∧ (err ≠ None → p = None ∧ a = "")) s.
Proof.
  apply wp_bind, wp_get. destruct (str_eqb addr (s_dohPlainAddr s)) eqn:Ha.
  { apply wp_ret. exists (s_dohPlain s), (s_dohPlainAddr s). apply str_eqb_eq in Ha.
    split_and!; [by destruct s|by right|done|done]. }
  apply wp_bind, wp_modify. destruct (str_eqb addr "") eqn:He.
  { apply wp_ret. apply str_eqb_eq in He as ->. exists None, "". split_and!; [done|by left|done|done]. }
  destruct (match SplitHostPort addr with Some _ => _ | None => _ end).
  { apply wp_ret. exists None, "". split_and!; [done|by left|done|done]. }
  destruct (listen addr).
  - apply wp_ret. exists None, "". split_and!; [done|by left|done|done].
  - apply wp_bind, wp_modify, wp_ret. exists (Some addr), addr. split_and!; [done|by left|done|done].
Qed.

Lemma SetCacheConfig_ok n s :
  srv_inv s →
  wp (SetCacheConfig n) (λ s' ok, ok = (0 <=? n) ∧ srv_inv s' ∧
    (ok = false → s' = s) ∧
    (ok = true → CacheSize s' = n ∧ abs (s_cache s') = spec_trim n (abs (s_cache s)))) s.
Proof.
  intros Hi. unfold wp, SetCacheConfig. destruct (n <? 0) eqn:En; bools.
  { eexists _, _. split; [done|]. split_and!; [symmetry; by apply Z.leb_gt|done..]. }
  destruct (SetMaxEntries_ok n _ (si_cache s Hi)) as (c & -> & Hc & Hm & _ & Ha). cbn.
  eexists _, _. split; [done|]. split_and!; [symmetry; by apply Z.leb_le| |done|done].
  destruct Hi. split; try done. cbn. lia.
Qed.

Lemma srv_step_inv s s' : srv_inv s → srv_step s s' → srv_inv s'.
Proof.
  intros Hi Hs. pose proof Hi as []. destruct Hs as [e ip id proto req s' out Hk Hr|e r s' out Hk Hr| | | | | | | | | | |ch ev w Hr|].
  - eapply (wp_run _ _ _ _ _ (serve_ok e ip id proto req s Hi Hk) Hr).
  - pose proof (wp_run _ _ _ _ _ (handleDoH_ok e r s Hi Hk) Hr) as H.
    destruct (doh_message e r) as [req|[code msg]]; [by destruct H as (o & [] & _)|by destruct H as [-> _]].
  - revert H. unfold SetUpstream, mbind, M_bind, get. cbn.
    destruct (NewPoolWithBootstrap _ _ _ _); cbn; intros [= <- _]; [|done]. by eapply srv_inv_other.
  - by apply (wp_run _ _ _ _ _ (SetCacheConfig_ok n s Hi)) in H as (_ & ? & _).
  - injection H as <- _. destruct (Purge_ok _ si_cache0) as [? ?]. by split.
  - injection H as <- _. by eapply srv_inv_other.
  - eapply srv_inv_other; try done. cbn. by constructor.
  - apply (wp_run _ _ _ _ _ (SetDoHHTTPAddr_ok listen addr s)) in H as (p & a & -> & [->| ->] & _); [|done].
    by eapply srv_inv_other.
  - injection H as <- _. by eapply srv_inv_other.
  - by eapply srv_inv_other.
  - eapply srv_inv_other; try done. cbn. by intros ? [= <-].
  - eapply srv_inv_other; try done. cbn. auto with blip.
  - eapply srv_inv_other; try done. cbn. eauto with blip.
  - eapply srv_inv_other; try done. cbn. auto with blip.
Qed.
Lemma srv_reachable_inv s : srv_reachable s → srv_inv s.
Proof. induction 1; [by eapply NewServer_inv|by eapply srv_step_inv]. Qed.

(** ** Where an answer comes from *)
(** Every cached answer is related to its key by [P]. *)
Definition cached_by (P : Key → Msg → Prop) (c : Cache) : Prop :=
  ∀ b, b ∈ abs c → P b.1.1 b.1.2.
(** The payload of [m0]: its header and records, with the TTLs of its answers aged. *)
Definition payload_of (req m0 out : Msg) : Prop :=
  out = adopt req m0 ∨ ∃ t, out = adopt req (with_Answer (set_ttl t <$> m_Answer m0) m0).

Lemma spec_find_elem k l b : spec_find k l = Some b → b ∈ l ∧ bkey b = k.
Proof.
  unfold spec_find. destruct (list_find _ l) as [[i b']|] eqn:Hf; cbn; [|done].
  apply list_find_Some in Hf as (Hl & Hk & _). intros [= <-]. split; [by eapply list_elem_of_lookup_2|done].
Qed.
Lemma spec_set_elem n b l x : x ∈ spec_set n b l → x = b ∨ x ∈ l.
Proof.
  unfold spec_set, spec_trim. intros H.
  assert (x ∈ b :: spec_remove (bkey b) l) as Hx.
  { destruct (0 <? n); [|done]. by eapply subseteq_take. }
  apply elem_of_cons in Hx as [->|Hx]; [by left|]. right. by apply spec_remove_bkey in Hx as [? _].
Qed.

Lemma relayed_provenance P e req r label c c' n n' out :
  cache_inv c → clock_ok e → cached_by P c →
  (∀ m, e_resolve e r req = Ok m → P (label_key label req) m) →
  relayed e req r label c c' n n' out →
  cached_by P c' ∧
  (out = with_Rcode RcodeServerFailure (base_reply req) ∧ (∃ err, e_resolve e r req = Err err)
   ∨ ∃ m0, P (label_key label req) m0 ∧ payload_of req m0 out).
Proof.
  intros Hi Hk HP Hres (c1 & hit & Hg & Hcase). set (k := label_key label req) in *.
  destruct (Get_ok k (e_get1 e) (e_get2 e) (e_get3 e) c Hi Hk) as (c2 & r2 & Hg' & Hi1 & _ & _ & Hspec).
  rewrite Hg in Hg'. injection Hg' as <- <-.
  assert (cached_by P c1 ∧ ∀ m, hit = Some m → ∃ m0 t, P k m0 ∧ m = with_Answer (set_ttl t <$> m_Answer m0) m0) as [HP1 Hhit].
  { destruct (spec_find k (abs c)) as [[[k0 m0] x]|] eqn:Hf; [|destruct Hspec as [-> Ha]; unfold cached_by; by rewrite Ha].
    apply spec_find_elem in Hf as [Hin Hkey]. unfold bkey in Hkey. cbn in Hkey. subst k0.
    destruct (str_eqb (k_Name k) ""); [destruct Hspec as [-> Ha]; unfold cached_by; by rewrite Ha|].
    unfold cached_by. destruct (x <? e_get1 e).
    - destruct Hspec as [-> ->]. split; [|done]. intros b [Hb _]%spec_remove_bkey. auto.
    - destruct Hspec as [-> Ha]. split; [|intros m [= <-]; exists m0, (served_ttl x (e_get1 e)); split; [by apply (HP _ Hin)|done]].
      destruct Ha as [-> | ->]; [done|]. intros b [->|[Hb _]%spec_remove_bkey]%elem_of_cons; [by apply (HP _ Hin)|auto]. }
  destruct hit as [m1|].
  { destruct Hcase as (-> & -> & _). split; [done|]. right. destruct (Hhit m1 eq_refl) as (m0 & t & Hm0 & ->).
    exists m0. split; [done|]. right. by exists t. }
  destruct (e_resolve e r req) as [m|err].
  - destruct Hcase as (-> & Hset & _). destruct (Set_ok k m (e_set e) c1 Hi1) as (c3 & Hs & _ & _ & _ & Ha).
    rewrite Hset in Hs. injection Hs as <-. split; [|right; exists m; split; [auto|by left]].
    unfold cached_by. rewrite Ha. destruct (stores k m); [|done].
    intros b [->|Hb]%spec_set_elem; [by apply Hres|auto].
  - destruct Hcase as (-> & -> & _). split; [done|left]. eauto.
Qed.

(** ** Private addresses *)
Lemma ip_equal_v4_neq a b c d a' b' c' d' :
  a ≠ a' → ip_equal (v4InV6Prefix ++ [a; b; c; d]) (v4InV6Prefix ++ [a'; b'; c'; d']) = false.
Proof. intros H. unfold ip_equal. cbn. by rewrite bool_decide_false by congruence. Qed.
Lemma private_is_global_unicast a b c d :
  IsPrivate (v4InV6Prefix ++ [a; b; c; d]) = true → IsGlobalUnicast (v4InV6Prefix ++ [a; b; c; d]) = true.
Proof.
  intros H. assert (a = 10 ∨ a = 172 ∨ a = 192) as Ha.
  { unfold IsPrivate, byte_at in H. cbn in H. repeat (apply orb_true_iff in H as [H|H]); bools; auto. }
  unfold IsGlobalUnicast, IsUnspecified, IPv4bcast, IPv4zero. rewrite !ip_equal_v4_neq by lia.
  unfold IsLoopback, IsMulticast, IsLinkLocalUnicast, byte_at, ip_equal. cbn.
  destruct Ha as [->|[->| ->]]; done.
Qed.

(** A query that passes the limiter, with its state threaded explicitly. *)
Lemma serve_run e ip id proto req q rest s rl :
  m_Question req = q :: rest → verdict e ip s = (rl, true) →
  serve e ip id proto req s =
    '(s2, out) ← serve_question e ip id proto (if str_eqb id "" then ip_string ip else id) req q
                   (set_cnt (AddQuery (s_cnt s)) (set_rl rl s));
    Some (set_cnt (AddDuration (time_sub (e_done e) (e_start e)) (s_cnt s2)) s2, out).
Proof.
  intros Hq Hv. unfold serve. rewrite Hq.
  assert ((if negb (str_eqb id "") then ip_string ip else if str_eqb id "" then ip_string ip else id) = ip_string ip)
    as -> by by destruct (str_eqb id "").
  unfold mbind, M_bind, allow_m. unfold verdict in Hv. rewrite Hv. reflexivity.
Qed.

(** A blocked question is answered before any resolver is looked at. *)
Lemma blocked_question_local f e ip id proto client req q a s :
  block_action s ip id (TrimSuffix (q_Name q) ".") = Some a →
  serve_question (with_resolve f e) ip id proto client req q s = serve_question e ip id proto client req q s.
Proof.
  intros Hb. unfold serve_question, block_action in *. destruct (q_Qclass q =? ClassCHAOS); [done|].
  rewrite !run_get. destruct (global_blocked s ip id _); [done|].
  destruct (Classify (s_store s) ip id _) as [[[[] ?] ?] ?]; done.
Qed.

(** ** A sample instance for the witnesses *)
Definition demo_cfg : Config :=
  mkConfig "" 0 0 "udp://9.9.9.9" [] [] [] 0 100 "v1" ActionZero ["10.0.0.0/8"].
Definition demo_bl : Blocklist := FromDomains ["ads.example"] Blocklist.New.
Definition demo_server : Server :=
  mkServer_ demo_cfg (NewStore None) (Some demo_bl) (Cache.New 0 100) zero_counters no_watch
    (Some (NewPoolWithAuto (Some (mkR 0 (KUDP "9.9.9.9:53" (5 * second)))))) None None "" newRateLimiter NewRecordStore ∅
    100 [mkIPNet [10; 0; 0; 0] [255; 0; 0; 0]].
Definition demo_env : env :=
  mkEnv 0 0 0 0 0 0 0 0 0 [] [] (λ _ m, Ok (with_Answer [demo_rr 60] m)) (λ _, false) (λ _, "")
    (λ b, Some (SetQuestion 7 (match b with [] => "www.example." | _ => "ads.example." end) TypeA)) (λ _, Some [1]).
Definition demo_ip : IP := ParseIP "192.168.1.5".

Lemma demo_bl_reachable b : Some demo_bl = Some b → bl_reachable b.
Proof. intros <-%(inj Some). exact (blr_step (OpFrom ["ads.example"]) _ blr_new). Defined.
Lemma demo_reachable : srv_reachable demo_server.
Proof. apply (sr_new demo_cfg None (Some demo_bl)); [done|apply demo_bl_reachable|vm_compute; reflexivity]. Defined.
Lemma demo_inv : srv_inv demo_server.
Proof. apply srv_reachable_inv, demo_reachable. Qed.

(** ** Properties *)


(** C1: A blocked query (by the global blocklist, unless the client's policy
    allows the name, or by the client's policy) is answered with the block
    action: nxdomain, refused, or a zero address.  It leaves the cache as it
    is, counts as one query and one blocked query, and no resolver is asked:
    the whole result is the same whatever the network would answer. *)
Theorem server_blocked_stays_local e ip id proto req q rest a s :
  srv_inv s → clock_ok e → (verdict e ip s).2 = true →
  m_Question req = q :: rest → q_Qclass q ≠ ClassCHAOS →
  block_action s ip id (TrimSuffix (q_Name q) ".") = Some a →
  ∃ s', serve e ip id proto req s = Some (s', applyBlockAction (base_reply req) q a)
    ∧ s_cache s' = s_cache s
    ∧ s_cnt s' = AddDuration (time_sub (e_done e) (e_start e)) (AddBlocked (AddQuery (s_cnt s)))
    ∧ ∀ f, serve (with_resolve f e) ip id proto req s = serve e ip id proto req s.
Proof.
  intros Hi Hk Hv Hq Hc Hb.
  destruct (serve_ok e ip id proto req s Hi Hk) as (s' & out & Hs & [_ _ _ Ho]). rewrite Hv in Ho.
  destruct Ho as (n & Ho & Hn). unfold decision_of in Ho. rewrite Hq, Hb in Ho.
  assert ((q_Qclass q =? ClassCHAOS) = false) as Hcl by (by apply Z.eqb_neq). rewrite Hcl in Ho.
  destruct Ho as (-> & Hca & ->). exists s'. split_and!; try done. intros f.
  destruct (verdict e ip s) as [rl ok] eqn:Hvd. cbn [snd] in Hv. subst ok.
  rewrite !(serve_run _ ip id proto req q rest s rl) by done. by erewrite blocked_question_local.
Qed.
Lemma server_blocked_stays_local_witness :
  block_action demo_server demo_ip "phone" (TrimSuffix "ads.example." ".") = Some ActionZero ∧
  ∃ s', serve demo_env demo_ip "phone" ProtoDoH (demo_query "ads.example." TypeA) demo_server
    = Some (s', applyBlockAction (base_reply (demo_query "ads.example." TypeA))
                  (mkQuestion "ads.example." TypeA ClassINET) ActionZero)
    ∧ s_cache s' = s_cache demo_server
    ∧ s_cnt s' = AddDuration (time_sub (e_done demo_env) (e_start demo_env)) (AddBlocked (AddQuery (s_cnt demo_server)))
    ∧ ∀ f, serve (with_resolve f demo_env) demo_ip "phone" ProtoDoH (demo_query "ads.example." TypeA) demo_server
           = serve demo_env demo_ip "phone" ProtoDoH (demo_query "ads.example." TypeA) demo_server.
Proof.
  split; [vm_compute; reflexivity|].
  apply (server_blocked_stays_local demo_env demo_ip "phone" ProtoDoH (demo_query "ads.example." TypeA)
           (mkQuestion "ads.example." TypeA ClassINET) [] ActionZero demo_server);
    [exact demo_inv|unfold clock_ok; cbn; lia|vm_compute; reflexivity..|discriminate|vm_compute; reflexivity].
Defined.


Lemma decision_ptr e ip id req q rest p r s :
  m_Question req = q :: rest → q_Qclass q ≠ ClassCHAOS → q_Qtype q = TypePTR →
  block_action s ip id (TrimSuffix (q_Name q) ".") = None →
  override_of s ip id (TrimSuffix (q_Name q) ".") = "" →
  Lookup (e_enum e) req (s_rec s) = None →
  s_pool s = Some p → Match (q_Name q) ip p = None → Auto p = Some r →
  decision_of e ip id req s =
    if match ptrIPFromArpa (q_Name q) with Some a => negb (IsGlobalUnicast a) | None => false end
    then DReply (with_Rcode RcodeNameError (base_reply req))
    else DRelay r (upstreamLabel (Some r) false "" s).
Proof.
  intros Hq Hc Ht Hb Hov Hl Hp Hm Ha. unfold decision_of. rewrite Hq, Hb, Hov, Hl.
  apply Z.eqb_neq in Hc. rewrite Hc. unfold pick, upstreamFor, upstreamAuto, safePool. rewrite Hp, Hm, Ha.
  unfold private_ptr. rewrite Ht. cbn [andb negb str_eqb Z.eqb TypePTR Pos.eqb].
  by destruct (match ptrIPFromArpa (q_Name q) with Some _ => _ | None => _ end).
Qed.

(** A reverse lookup that no local record, route or policy override
    concerns is answered NXDOMAIN here exactly when its address is not global
    unicast (loopback, link-local, multicast, unspecified, broadcast).  The
    RFC 1918 addresses count as global unicast for Go's net package, so the
    reverse lookups of 10/8, 172.16/12 and 192.168/16 are sent upstream. *)
Theorem server_private_ptr e ip id proto req a b c d p r s :
  srv_inv s → clock_ok e → (verdict e ip s).2 = true →
  is_byte a → is_byte b → is_byte c → is_byte d →
  let name := arpa4 a b c d +:+ "." in
  let addr := v4InV6Prefix ++ [a; b; c; d] in
  m_Question req = [mkQuestion name TypePTR ClassINET] →
  block_action s ip id (TrimSuffix name ".") = None → override_of s ip id (TrimSuffix name ".") = "" →
  Lookup (e_enum e) req (s_rec s) = None →
  s_pool s = Some p → Match name ip p = None → Auto p = Some r →
  spec_find (label_key (upstreamLabel (Some r) false "" s) req) (abs (s_cache s)) = None →
  ∃ s' out, serve e ip id proto req s = Some (s', out)
    ∧ (IsGlobalUnicast addr = false → out = with_Rcode RcodeNameError (base_reply req) ∧ s_cache s' = s_cache s)
    ∧ (IsPrivate addr = true → ∀ m, e_resolve e r req = Ok m → out = adopt req m).
Proof.
  intros Hi Hk Hv Ba Bb Bc Bd name addr Hq Hb Hov Hl Hp Hm Ha Hf.
  destruct (serve_ok e ip id proto req s Hi Hk) as (s' & out & Hs & [_ _ _ Ho]). rewrite Hv in Ho.
  destruct Ho as (n & Ho & _). exists s', out. split; [done|].
  rewrite (decision_ptr e ip id req _ _ p r s Hq) in Ho by done. cbn [q_Name] in Ho. subst name.
  rewrite ptrIPFromArpa_v4 in Ho by done. fold addr in Ho. split.
  - intros Hg. rewrite Hg in Ho. destruct Ho as (-> & ? & _). done.
  - intros Hpr m Hres. apply private_is_global_unicast in Hpr. fold addr in Hpr. rewrite Hpr in Ho. cbn [negb outcome] in Ho.
    destruct Ho as (c1 & hit & Hg & Hcase).
    destruct (Get_ok (label_key (upstreamLabel (Some r) false "" s) req) (e_get1 e) (e_get2 e) (e_get3 e) _ (si_cache s Hi) Hk)
      as (c2 & r2 & Hg' & _ & _ & _ & Hspec).
    rewrite Hg in Hg'. injection Hg' as <- <-. rewrite Hf in Hspec. destruct Hspec as [-> _]. rewrite Hres in Hcase.
    by destruct Hcase as [-> _].
Qed.
Lemma server_private_ptr_witness :
  ∃ s' out, serve demo_env demo_ip "" ProtoDNS (demo_query "7.1.168.192.in-addr.arpa." TypePTR) demo_server = Some (s', out)
    ∧ (IsGlobalUnicast (v4InV6Prefix ++ [192; 168; 1; 7]) = false →
       out = with_Rcode RcodeNameError (base_reply (demo_query "7.1.168.192.in-addr.arpa." TypePTR))
       ∧ s_cache s' = s_cache demo_server)
    ∧ (IsPrivate (v4InV6Prefix ++ [192; 168; 1; 7]) = true →
       ∀ m, e_resolve demo_env (mkR 0 (KUDP "9.9.9.9:53" (5 * second))) (demo_query "7.1.168.192.in-addr.arpa." TypePTR) = Ok m →
            out = adopt (demo_query "7.1.168.192.in-addr.arpa." TypePTR) m).
Proof.
  eapply (server_private_ptr demo_env demo_ip "" ProtoDNS (demo_query "7.1.168.192.in-addr.arpa." TypePTR) 192 168 1 7 _ _
            demo_server demo_inv);
    [unfold clock_ok; cbn; lia|vm_compute; reflexivity|unfold is_byte; lia..| | | | | | | |]; vm_compute; reflexivity.
Defined.

(** The rate limit follows the peer's address.  Two DoH requests from the
    same peer, which is not a trusted proxy, draw on the same bucket in the
    same way whatever their forwarding headers, device header, path, client id
    and question are. *)
Theorem server_rate_limit_identity e1 e2 r1 r2 req1 req2 s :
  srv_inv s → clock_ok e1 → clock_ok e2 →
  e_order e1 = e_order e2 → e_allow e1 = e_allow e2 →
  rq_RemoteAddr r1 = rq_RemoteAddr r2 → isTrustedPeer r1 (s_trustedProxies s) = false →
  doh_message e1 r1 = Ok req1 → doh_message e2 r2 = Ok req2 →
  ∃ s1 s2 a1 a2, handleDoH e1 r1 s = Some (s1, a1) ∧ handleDoH e2 r2 s = Some (s2, a2) ∧ s_rl s1 = s_rl s2
    ∧ s_rl s1 = (allow (e_order e1) (e_allow e1) (ip_string (peer_ip r1)) (s_rl s)).1.
Proof.
  intros Hi Hk1 Hk2 Ho Ha Hr Ht Hm1 Hm2.
  destruct (handleDoH_ok e1 r1 s Hi Hk1) as (s1 & a1 & H1 & P1), (handleDoH_ok e2 r2 s Hi Hk2) as (s2 & a2 & H2 & P2).
  rewrite Hm1 in P1. rewrite Hm2 in P2. destruct P1 as (o1 & D1 & _), P2 as (o2 & D2 & _).
  exists s1, s2, a1, a2. split_and!; try done; rewrite (sd_rl _ _ _ _ _ _ _ D1), ?(sd_rl _ _ _ _ _ _ _ D2); unfold verdict, clientIPFromReq.
  - assert (isTrustedPeer r2 (s_trustedProxies s) = false) as Ht2 by (unfold isTrustedPeer in *; by rewrite <-Hr).
    rewrite Ht, Ht2, Ho, Ha. unfold peer_ip. by rewrite Hr.
  - by rewrite Ht.
Qed.
Definition demo_req (path : string) (fwd : string) : http_request :=
  mkReq "POST" path "203.0.113.9:4711" (λ h, if str_eqb h "Content-Type" then "application/dns-message" else fwd) "" [] false true.
Lemma server_rate_limit_identity_witness :
  ∃ s1 s2 a1 a2, handleDoH demo_env (demo_req "/dns-query" "") demo_server = Some (s1, a1)
    ∧ handleDoH demo_env (demo_req "/dns-query/phone" "198.51.100.1") demo_server = Some (s2, a2) ∧ s_rl s1 = s_rl s2
    ∧ s_rl s1 = (allow (e_order demo_env) (e_allow demo_env) (ip_string (peer_ip (demo_req "/dns-query" ""))) (s_rl demo_server)).1.
Proof.
  eapply (server_rate_limit_identity demo_env demo_env (demo_req "/dns-query" "") (demo_req "/dns-query/phone" "198.51.100.1")
            _ _ demo_server demo_inv); try (unfold clock_ok; cbn; lia); vm_compute; reflexivity.
Defined.

Lemma dohMaxAge_le m rr : rr ∈ m_Answer m ++ m_Ns m → 0 < dohMaxAge m → dohMaxAge m ≤ ttl_of rr.
Proof.
  unfold dohMaxAge. intros Hin. pose proof (min_step_fold (m_Answer m ++ m_Ns m) None) as H.
  destruct (foldl _ _ _) as [t|]; cbn [default from_option]; [|lia]. destruct H as (_ & Hall & _). intros _. by apply Hall.
Qed.

(** A DoH request is either refused with a 4xx status, and then leaves the
    instance exactly as it was, or served.  A served reply that can be encoded
    is sent with status 200, and may be kept by an HTTP cache no longer than
    any record of its answer and authority sections, and only privately;
    without a positive lifetime it must not be stored. *)
Theorem server_doh_freshness e r s :
  srv_inv s → clock_ok e →
  ∃ s' resp, handleDoH e r s = Some (s', resp) ∧
    match doh_message e r with
    | Err (code, _) => rs_status resp = code ∧ 400 ≤ code < 500 ∧ s' = s
    | Ok req => ∃ out, served e (clientIPFromReq r (s_trustedProxies s)) (doh_client r) req s s' out
        ∧ ∀ buf, e_pack e out = Some buf → rs_status resp = 200 ∧ rs_body resp = inr buf ∧
            (rs_header resp !! "Cache-Control" = Some "no-store" ∨
             ∃ age, rs_header resp !! "Cache-Control" = Some ("max-age=" +:+ Itoa age +:+ ", private")
               ∧ 0 < age ∧ ∀ rr, rr ∈ m_Answer out ++ m_Ns out → age ≤ ttl_of rr)
    end.
Proof.
  intros Hi Hk. destruct (handleDoH_ok e r s Hi Hk) as (s' & resp & Hh & HP). exists s', resp. split; [done|].
  destruct (doh_message e r) as [req|[code msg]] eqn:Hm.
  - destruct HP as (out & Hd & Hp). exists out. split; [done|]. intros buf Hb. rewrite Hb in Hp.
    destruct Hp as (? & ? & Hc). split_and!; [done..|]. rewrite Hc. destruct (0 <? dohMaxAge out) eqn:E; [|by left].
    right. bools. exists (dohMaxAge out). split_and!; [done..|]. intros rr Hr. by apply dohMaxAge_le.
  - destruct HP as [-> Hs]. split_and!; [done|..|done]; revert Hm; unfold doh_message;
      repeat case_match; intros [= <- _]; lia.
Qed.
Lemma server_doh_freshness_witness :
  ∃ s' resp, handleDoH demo_env (demo_req "/dns-query/phone" "") demo_server = Some (s', resp) ∧
    match doh_message demo_env (demo_req "/dns-query/phone" "") with
    | Err (code, _) => rs_status resp = code ∧ 400 ≤ code < 500 ∧ s' = demo_server
    | Ok req => ∃ out, served demo_env (clientIPFromReq (demo_req "/dns-query/phone" "") (s_trustedProxies demo_server))
                         (doh_client (demo_req "/dns-query/phone" "")) req demo_server s' out
        ∧ ∀ buf, e_pack demo_env out = Some buf → rs_status resp = 200 ∧ rs_body resp = inr buf ∧
            (rs_header resp !! "Cache-Control" = Some "no-store" ∨
             ∃ age, rs_header resp !! "Cache-Control" = Some ("max-age=" +:+ Itoa age +:+ ", private")
               ∧ 0 < age ∧ ∀ rr, rr ∈ m_Answer out ++ m_Ns out → age ≤ ttl_of rr)
    end.
Proof.
  apply (server_doh_freshness demo_env (demo_req "/dns-query/phone" "") demo_server);
    [exact demo_inv|unfold clock_ok; cbn; lia].
Defined.

(** The answers of a "block" event are those of the reply before the block
    action is applied: none, even for the zero action, which answers 0.0.0.0. *)
Example block_event_has_no_answers :
  let s := set_watch (watch_open no_watch) demo_server in
  option_map (λ '(s', out), (length (m_Answer out), option_map (List.map (λ ev, length (ev_Answers ev))) (w_chans (s_watch s') !! 0%nat)))
    (serve demo_env demo_ip "" ProtoDNS (demo_query "ads.example." TypeA) s)
  = Some (1%nat, Some [0%nat]).
Proof. vm_compute. reflexivity. Qed.

(** A failed change of the plain-HTTP address leaves the listener stopped. *)
Example doh_http_error_stops_listener :
  let s := set_plain (Some "0.0.0.0:80") "0.0.0.0:80" demo_server in
  option_map (λ '(s', err), (s_dohPlain s', err)) (SetDoHHTTPAddr (λ _, None) "0.0.0.0" s)
  = Some (None, Some (DoHBadAddr "0.0.0.0")).
Proof. vm_compute. reflexivity. Qed.
