(* ===== verification/HA.v ===== *)
(** * High availability: the node-local keepalived manager

    internal/ha/manager.go and the types of internal/control/ha.go: validation
    of the structured VRRP settings, rendering of keepalived.conf, persistence
    and the apply sequence.  The host (interfaces, commands, file-system
    failures) and encoding/json are arguments. *)
From S2P Require Import Prelude GoStrings GoNet.
From Stdlib Require Import Ascii.
#[local] Open Scope Z_scope.

Record HAConfig := mkHA {
  ha_Enabled : bool;
  ha_Mode : string;
  ha_NodeRole : string;
  ha_Interface : string;
  ha_SourceIP : string;
  ha_PeerIP : string;
  ha_VirtualIP : string;
  ha_VirtualRouterID : Z;
  ha_Priority : Z;
  ha_AdvertIntervalSec : Z;
  ha_AuthPass : string }.
Record HAStatus := mkHAStatus {
  hs_Installed : bool;
  hs_Configured : bool;
  hs_Active : bool;
  hs_VIPOwned : bool;
  hs_State : string;
  hs_Message : string;
  hs_LastError : string;
  hs_Updating : bool }.
Definition empty_ha : HAConfig := mkHA false "" "" "" "" "" "" 0 0 0 "".
Definition defaultConfigPath : string := "/var/lib/blipd/keepalived.conf".
Definition defaultStatePath : string := "/var/lib/blipd/ha.json".

(** ** path/filepath *)
(** [Clean] on the elements of a path, [out] the reversed result. *)
Fixpoint clean_elems (rooted : bool) (out elems : list string) : list string :=
  match elems with
  | [] => rev out
  | x :: elems =>
      if str_eqb x "" || str_eqb x "." then clean_elems rooted out elems
      else if str_eqb x ".." then
        match out with
        | [] => if rooted then clean_elems rooted [] elems else clean_elems rooted [".."] elems
        | y :: out' => if str_eqb y ".." then clean_elems rooted (".." :: out) elems
                       else clean_elems rooted out' elems
        end
      else clean_elems rooted (x :: out) elems
  end.
Definition Clean (p : string) : string :=
  let rooted := HasPrefix p "/" in
  let body := Join (clean_elems rooted [] (Split p "/")) "/" in
  if rooted then "/" +:+ body else if str_eqb body "" then "." else body.
Definition Dir (p : string) : string :=
  match LastIndexByte p "/" with Some i => Clean (stake (S i) p) | None => "." end.
Definition JoinPath (a b : string) : string :=
  if str_eqb a "" then (if str_eqb b "" then "" else Clean b)
  else if str_eqb b "" then Clean a else Clean (a +:+ "/" +:+ b).

(** ** Validation *)
Definition is_alnum (c : ascii) : bool := in_range 48 57 c || in_range 65 90 c || in_range 97 122 c.
Definition len_within (n : nat) (s : string) : bool := (1 <=? slen s)%nat && (slen s <=? n)%nat.
(** The regular expressions [[A-Za-z0-9_.:-]{1,32}], [primary|secondary] and
    [[A-Za-z0-9]{1,8}], anchored at both ends of the text. *)
Definition interfacePattern (s : string) : bool :=
  len_within 32 s && sforall (λ c, is_alnum c || str_mem c "_.:-") s.
Definition rolePattern (s : string) : bool := str_eqb s "primary" || str_eqb s "secondary".
Definition authPassPattern (s : string) : bool := len_within 8 s && sforall is_alnum s.

(** What the host answers.  [ho_iface]: no such interface, addresses that cannot
    be read, or its addresses.  [ho_run]: the error text of a command. *)
Record host := mkHost {
  ho_iface : string → option (option (list IP));
  ho_addrs : list IP;
  ho_available : string → bool;
  ho_succeeds : list string → bool;
  ho_run : list string → option string }.
Inductive ha_error :=
| HE_mode | HE_role | HE_interface | HE_auth | HE_source | HE_peer | HE_vip | HE_sourceFamily | HE_sourceNet
| HE_peerFamily | HE_peerNet | HE_peerSame | HE_noInterface (name : string) | HE_ifaceAddrs (name : string)
| HE_notAssigned (name : string) | HE_vrid | HE_priority | HE_advert
| HE_notInstalled | HE_disabled | HE_rejected (msg : string) | HE_io (msg : string) | HE_reload (msg : string).

Definition interfaceHasIP (ho : host) (name : string) (want : IP) : option ha_error :=
  match ho_iface ho name with
  | None => Some (HE_noInterface name)
  | Some None => Some (HE_ifaceAddrs name)
  | Some (Some ips) => if existsb (λ ip, ip_equal ip want) ips then None else Some (HE_notAssigned name)
  end.
Definition is_v4 (ip : IP) : bool := bool_decide (is_Some (To4 ip)).
(** [validate]; [None] is acceptance. *)
Definition validate (ho : host) (cfg : HAConfig) : option ha_error :=
  if negb (ha_Enabled cfg) then None
  else if negb (str_eqb (ha_Mode cfg) "unicast") && negb (str_eqb (ha_Mode cfg) "multicast") then Some HE_mode
  else if negb (rolePattern (ha_NodeRole cfg)) then Some HE_role
  else if negb (interfacePattern (ha_Interface cfg)) then Some HE_interface
  else if negb (str_eqb (ha_AuthPass cfg) "") && negb (authPassPattern (ha_AuthPass cfg)) then Some HE_auth
  else match ParseIP_opt (ha_SourceIP cfg) with
  | None => Some HE_source
  | Some source =>
      let unicast := str_eqb (ha_Mode cfg) "unicast" in
      if unicast && negb (bool_decide (is_Some (ParseIP_opt (ha_PeerIP cfg)))) then Some HE_peer
      else match ParseCIDR (ha_VirtualIP cfg) with
      | None => Some HE_vip
      | Some (vip, network) =>
          if negb (Bool.eqb (is_v4 source) (is_v4 vip)) then Some HE_sourceFamily
          else if negb (Contains_ip network source) then Some HE_sourceNet
          else
            let peer := ParseIP (ha_PeerIP cfg) in
            if unicast && negb (Bool.eqb (is_v4 peer) (is_v4 vip)) then Some HE_peerFamily
            else if unicast && negb (Contains_ip network peer) then Some HE_peerNet
            else if unicast && ip_equal peer source then Some HE_peerSame
            else match interfaceHasIP ho (ha_Interface cfg) source with
            | Some e => Some e
            | None =>
                if (ha_VirtualRouterID cfg <? 1) || (255 <? ha_VirtualRouterID cfg) then Some HE_vrid
                else if (ha_Priority cfg <? 1) || (254 <? ha_Priority cfg) then Some HE_priority
                else if (ha_AdvertIntervalSec cfg <? 1) || (60 <? ha_AdvertIntervalSec cfg) then Some HE_advert
                else None
            end
      end
  end.
(** [validateStoredConfig]: true is acceptance. *)
Definition validateStoredConfig (cfg : HAConfig) : bool :=
  negb (ha_Enabled cfg) ||
  ((str_eqb (ha_Mode cfg) "unicast" || str_eqb (ha_Mode cfg) "multicast")
   && (rolePattern (ha_NodeRole cfg) && interfacePattern (ha_Interface cfg))
   && bool_decide (is_Some (ParseIP_opt (ha_SourceIP cfg)))
   && bool_decide (is_Some (ParseCIDR (ha_VirtualIP cfg)))
   && negb (str_eqb (ha_Mode cfg) "unicast" && negb (bool_decide (is_Some (ParseIP_opt (ha_PeerIP cfg)))))
   && negb ((ha_VirtualRouterID cfg <? 1) || (255 <? ha_VirtualRouterID cfg) || (ha_Priority cfg <? 1)
            || (254 <? ha_Priority cfg) || (ha_AdvertIntervalSec cfg <? 1) || (60 <? ha_AdvertIntervalSec cfg))
   && negb (negb (str_eqb (ha_AuthPass cfg) "") && negb (authPassPattern (ha_AuthPass cfg)))).

(** ** keepalived.conf *)
Definition nl : string := String (ascii_of_N 10) "".
Definition line (s : string) : string := s +:+ nl.
Definition lines (l : list string) : string := foldr (λ s acc, line s +:+ acc) "" l.
Definition render_lines (cfg : HAConfig) : list string :=
  ["global_defs {"; "    router_id blipd-ha"; "    enable_script_security"; "}"; "";
   "vrrp_script chk_blipd {";
   "    script " +:+ dquote +:+ "/usr/bin/systemctl is-active --quiet blipd" +:+ dquote;
   "    user blip"; "    interval 2"; "    fall 2"; "    rise 2"; "    weight -20"; "}"; "";
   "vrrp_instance BLIPDNS {";
   "    state " +:+ (if str_eqb (ha_NodeRole cfg) "primary" then "MASTER" else "BACKUP");
   "    interface " +:+ ha_Interface cfg;
   "    virtual_router_id " +:+ Itoa (ha_VirtualRouterID cfg);
   "    priority " +:+ Itoa (ha_Priority cfg);
   "    advert_int " +:+ Itoa (ha_AdvertIntervalSec cfg)]
  ++ (if str_eqb (ha_Mode cfg) "unicast"
      then ["    unicast_src_ip " +:+ ha_SourceIP cfg; "    unicast_peer {"; "        " +:+ ha_PeerIP cfg; "    }"] else [])
  ++ (if negb (str_eqb (ha_AuthPass cfg) "")
      then ["    authentication {"; "        auth_type PASS"; "        auth_pass " +:+ ha_AuthPass cfg; "    }"] else [])
  ++ ["    virtual_ipaddress {"; "        " +:+ ha_VirtualIP cfg +:+ " dev " +:+ ha_Interface cfg; "    }";
      "    track_script {"; "        chk_blipd"; "    }"; "}"].
Definition render (cfg : HAConfig) : string := lines (render_lines cfg).

(** ** The manager *)
Record Manager := mkMgr {
  mg_cfg : HAConfig;
  mg_path : string;
  mg_statePath : string;
  mg_lastError : string;
  mg_refreshed : option nat }.               (* [certRefresher]: nil, or how often it ran *)
Notation files := (gmap string string).
(** The first failing step, if any, of: writing and renaming the state file;
    writing the scratch file for keepalived's own check; writing and renaming
    keepalived.conf; its final chmod. *)
Record ha_io := mkIO {
  io_persist : option string;
  io_scratch : option string;
  io_write : option string;
  io_chmod : option string }.

Definition set_cfg (cfg : HAConfig) (m : Manager) : Manager :=
  mkMgr cfg (mg_path m) (mg_statePath m) "" (S <$> mg_refreshed m).
Definition set_error (e : string) (m : Manager) : Manager :=
  mkMgr (mg_cfg m) (mg_path m) (mg_statePath m) e (mg_refreshed m).
Definition SetCertRefresher (m : Manager) : Manager :=
  mkMgr (mg_cfg m) (mg_path m) (mg_statePath m) (mg_lastError m) (Some 0%nat).
Definition VirtualIP (m : Manager) : string :=
  match ParseCIDR (ha_VirtualIP (mg_cfg m)) with Some (ip, _) => ip_string ip | None => "" end.
Definition hostOwnsIP (ho : host) (ip : IP) : bool := existsb (λ a, ip_equal a ip) (ho_addrs ho).
(** [HAStatus]; [updating] is what the update controller says, if one is wired. *)
Definition HAStatus_of (ho : host) (fs : files) (updating : option bool) (m : Manager) : HAStatus :=
  let cfg := mg_cfg m in
  let statOk := bool_decide (is_Some (fs !! mg_path m)) in
  let installed := ho_available ho "keepalived" in
  let active := installed && ho_succeeds ho ["systemctl"; "is-active"; "--quiet"; "keepalived"] in
  let vipOwned := match ParseCIDR (ha_VirtualIP cfg) with Some (ip, _) => hostOwnsIP ho ip | None => false end in
  let state := if active then (if vipOwned then "MASTER" else "BACKUP")
               else if ha_Enabled cfg then "FAULT" else "DISABLED" in
  let msg := if ha_Enabled cfg && negb installed then "keepalived is not installed"
             else if ha_Enabled cfg && negb statOk then "keepalived configuration has not been applied" else "" in
  mkHAStatus installed statOk active vipOwned state msg (mg_lastError m) (default false updating).

Section Manager.
Context (enc : HAConfig → string) (dec : string → option HAConfig).

Definition persistState (io : ha_io) (cfg : HAConfig) (m : Manager) (fs : files) : res string files :=
  if str_eqb (mg_statePath m) "" then Ok fs
  else match io_persist io with
       | Some err => Err err
       | None => Ok (<[mg_statePath m := enc cfg]> fs)
       end.
Definition loadState (fs : files) (m : Manager) : Manager :=
  if str_eqb (mg_statePath m) "" then m
  else match fs !! mg_statePath m ≫= dec with
       | Some cfg =>
           if validateStoredConfig cfg
           then mkMgr cfg (mg_path m) (mg_statePath m) (mg_lastError m) (mg_refreshed m) else m
       | None => m
       end.
Definition state_path (path adoptionStatePath : string) : string :=
  if negb (str_eqb adoptionStatePath "") then JoinPath (Dir adoptionStatePath) "ha.json"
  else if negb (str_eqb path defaultConfigPath) then path +:+ ".state" else defaultStatePath.
Definition NewManagerWithState (path adoptionStatePath : string) (fs : files) : Manager :=
  let path := if str_eqb path "" then defaultConfigPath else path in
  loadState fs (mkMgr empty_ha path (state_path path adoptionStatePath) "" None).
Definition NewManager (path : string) (fs : files) : Manager := NewManagerWithState path "" fs.

Definition SetHAConfig (ho : host) (io : ha_io) (cfg : HAConfig) (m : Manager) (fs : files)
    : Manager * files * option ha_error :=
  match validate ho cfg with
  | Some e => (m, fs, Some e)
  | None =>
      match persistState io cfg m fs with
      | Err err => (m, fs, Some (HE_io err))
      | Ok fs => (set_cfg cfg m, fs, None)
      end
  end.
Definition validateRendered (ho : host) (io : ha_io) (cfg : HAConfig) : option ha_error :=
  match io_scratch io with
  | Some err => Some (HE_io err)
  | None => match ho_run ho ["keepalived"; "-t"; "-f"; render cfg] with
            | Some err => Some (HE_rejected err)
            | None => None
            end
  end.
Definition ValidateHA (ho : host) (io : ha_io) (m : Manager) : option ha_error :=
  let cfg := mg_cfg m in
  match validate ho cfg with
  | Some e => Some e
  | None =>
      if negb (ha_Enabled cfg) then None
      else if negb (ho_available ho "keepalived") then Some HE_notInstalled
      else validateRendered ho io cfg
  end.
Definition reload_commands : list (list string) :=
  [["/usr/bin/sudo"; "-n"; "/usr/bin/systemctl"; "reload"; "keepalived"];
   ["sudo"; "-n"; "systemctl"; "reload"; "keepalived"];
   ["/usr/bin/sudo"; "-n"; "/usr/bin/pkill"; "-HUP"; "keepalived"];
   ["sudo"; "-n"; "pkill"; "-HUP"; "keepalived"]].
Definition error_text (e : ha_error) : string :=
  match e with
  | HE_rejected msg => "keepalived configuration validation failed: " +:+ msg
  | HE_io msg | HE_reload msg => msg
  | _ => ""
  end.
(** [ApplyHA]; the argument of [keepalived -t -f] is a scratch file that holds
    the rendered text, which stands for it in [ho_run]. *)
Definition ApplyHA (ho : host) (io : ha_io) (m : Manager) (fs : files) : Manager * files * option ha_error :=
  let cfg := mg_cfg m in
  match validate ho cfg with
  | Some e => (m, fs, Some e)
  | None =>
      if negb (ha_Enabled cfg) then (m, fs, Some HE_disabled)
      else if negb (ho_available ho "keepalived") then (m, fs, Some HE_notInstalled)
      else match validateRendered ho io cfg with
      | Some e => (set_error (error_text e) m, fs, Some e)
      | None =>
          match io_write io with
          | Some err => (m, fs, Some (HE_io err))
          | None =>
              let fs := <[mg_path m := render cfg]> fs in
              match io_chmod io with
              | Some err => (m, fs, Some (HE_io err))
              | None =>
                  if existsb (ho_succeeds ho) reload_commands then (set_error "" m, fs, None)
                  else match ho_run ho ["pkill"; "-HUP"; "keepalived"] with
                       | Some err => (set_error err m, fs, Some (HE_reload err))
                       | None => (set_error "" m, fs, None)
                       end
              end
          end
      end
  end.
Definition DisableHA : option ha_error := Some HE_disabled.
End Manager.

(** ** The characters of what is accepted *)
Definition safe_char (c : ascii) : bool := is_alnum c || str_mem c "_.:/-".
(** A field that is one word of the configuration language. *)
Definition safe_field (s : string) : Prop := s ≠ "" ∧ sforall safe_char s = true.

Lemma safe_digit c : is_digit c = true → safe_char c = true.
Proof. unfold safe_char, is_alnum, is_digit. by intros ->. Qed.
Lemma parse_digits_safe acc s v : parse_digits acc s = Some v → sforall safe_char s = true.
Proof.
  revert acc. induction s as [|c s IH]; intros acc; cbn [parse_digits sforall]; [done|].
  destruct (is_digit c) eqn:E; [|done]. intros H. rewrite (safe_digit c E). by eapply IH.
Qed.
Lemma parse_nat_dec_safe s v : parse_nat_dec s = Some v → sforall safe_char s = true.
Proof. unfold parse_nat_dec. destruct s; [done|]. apply parse_digits_safe. Qed.
Lemma parse_octet_safe s v : parse_octet s = Some v → sforall safe_char s = true.
Proof.
  unfold parse_octet. destruct s as [|c s]; [done|]. destruct (ascii_eqb c "0" && _); [done|].
  destruct (parse_nat_dec (String c s)) eqn:E; [|done]. intros _. by eapply parse_nat_dec_safe.
Qed.
Lemma parseIPv4_safe s ip : parseIPv4 s = Some ip → sforall safe_char s = true.
Proof.
  unfold parseIPv4. intros H. rewrite <-(Join_Split s).
  destruct (Split s dot) as [|a [|b [|c [|d [|? ?]]]]]; try done.
  destruct (parse_octet a) eqn:Ea, (parse_octet b) eqn:Eb, (parse_octet c) eqn:Ec, (parse_octet d) eqn:Ed; try done.
  rewrite !Join_cons by done. cbn [Join String.concat]. rewrite !sforall_app.
  by rewrite (parse_octet_safe _ _ Ea), (parse_octet_safe _ _ Eb), (parse_octet_safe _ _ Ec), (parse_octet_safe _ _ Ed).
Qed.
Lemma hex_run_safe acc off s o a rest :
  hex_run acc off s = (o, a, rest) → ∃ w, s = w +:+ rest ∧ sforall safe_char w = true.
Proof.
  revert acc off. induction s as [|c s IH]; intros acc off; cbn [hex_run].
  - intros [= _ _ <-]. by exists "".
  - destruct (hex_val c) as [v|] eqn:E; [|intros [= _ _ <-]; by exists ""].
    intros (w & -> & Hw)%IH. exists (String c w). split; [done|]. cbn [sforall]. rewrite Hw, andb_true_r.
    unfold hex_val in E. unfold safe_char, is_alnum, in_range in *. repeat case_match; try done; bools;
      apply orb_true_iff; left; rewrite !orb_true_iff, !andb_true_iff, !Z.leb_le; lia.
Qed.
Lemma v6_groups_safe fuel bytes ell s bytes' ell' :
  v6_groups fuel bytes ell s = Some (bytes', ell', "") → sforall safe_char s = true.
Proof.
  revert bytes ell s. induction fuel as [|fuel IH]; intros bytes ell s; cbn [v6_groups]; [by intros [= _ _ ->]|].
  destruct (hex_run 0 0 s) as [[off acc] rest] eqn:Hr. apply hex_run_safe in Hr as (w & -> & Hw).
  destruct (_ || _); [done|]. destruct (HasPrefix rest ".").
  { destruct (_ || _); [done|]. destruct (parseIPv4 (w +:+ rest)) eqn:E; [|done]. intros _. by eapply parseIPv4_safe. }
  rewrite sforall_app, Hw. cbn [andb].
  destruct rest as [|c rest]; [done|].
  destruct (ascii_dec c ":") as [->|Hc]; cycle 1.
  { intros H. exfalso. revert H. repeat (case_match; simplify_eq; try done). }
  destruct rest as [|c2 rest2]; [done|]. cbn [sforall].
  destruct (ascii_dec c2 ":") as [->|Hc2].
  - destruct ell; [done|]. destruct (str_eqb rest2 "") eqn:E2; [apply str_eqb_eq in E2 as ->; done|].
    intros H%IH. by rewrite H.
  - intros H. assert (v6_groups fuel (bytes ++ [Z.shiftr acc 8; Z.land acc 255]) ell (String c2 rest2) = Some (bytes', ell', "")) as H'.
    { revert H. repeat (case_match; simplify_eq; try done). }
    apply IH in H'. cbn [sforall] in H'. exact H'.
Qed.
Lemma parseIPv6_safe s ip : parseIPv6 s = Some ip → sforall safe_char s = true.
Proof.
  unfold parseIPv6.
  set (start := match s with String ":" (String ":" r) => (Some 0%nat, r) | _ => (None, s) end).
  assert (sforall safe_char s = sforall safe_char start.2) as ->.
  { subst start. repeat case_match; done. }
  destruct (bool_decide _ && str_eqb start.2 "") eqn:E.
  { apply andb_true_iff in E as [_ ->%str_eqb_eq]. done. }
  destruct (v6_groups 8 [] start.1 start.2) as [[[bytes ell] rest]|] eqn:Hg; [|done]. cbn [mbind option_bind].
  destruct (str_eqb rest "") eqn:Er; [|done]. apply str_eqb_eq in Er as ->. intros _. by eapply v6_groups_safe.
Qed.
Lemma ParseAddr_safe s ip : ParseAddr s = Some ip → safe_field s.
Proof.
  unfold ParseAddr, safe_field. destruct (str_mem "%" s); [done|].
  destruct (IndexAny s ".:") as [i|] eqn:Hi; [|done]. intros H. split; [by intros ->|].
  revert H. repeat case_match; eauto using parseIPv4_safe, parseIPv6_safe.
Qed.
Lemma ParseIP_safe s ip : ParseIP_opt s = Some ip → safe_field s.
Proof. unfold ParseIP_opt. destruct (ParseAddr s) eqn:E; [|done]. intros _. by eapply ParseAddr_safe. Qed.
Lemma IndexFunc_split p s i :
  IndexFunc p s = Some i → ∃ c, s = stake i s +:+ String c (sdrop (S i) s) ∧ p c = true.
Proof.
  revert i. induction s as [|c s IH]; intros i; cbn [IndexFunc]; [done|].
  destruct (p c) eqn:E; [intros [= <-]; by exists c|].
  destruct (IndexFunc p s) as [j|]; [|done]. intros [= <-]. destruct (IH j eq_refl) as (d & Hs & Hd).
  exists d. split; [|done]. cbn [stake sdrop]. rewrite app_cons. by f_equal.
Qed.
Lemma ParseCIDR_safe s r : ParseCIDR s = Some r → safe_field s.
Proof.
  unfold ParseCIDR, safe_field. destruct (IndexByte s "/") as [i|] eqn:Hi; [|done].
  apply IndexFunc_split in Hi as (c & Hs & Hc). apply Ascii.eqb_eq in Hc as <-.
  destruct (ParseAddr (stake i s)) as [a|] eqn:Ha; [|done].
  destruct (parse_prefix_len (sdrop (S i) s)) as [n|] eqn:Hn; [|done]. intros _.
  split; [by intros ->|]. rewrite Hs, sforall_app. apply ParseAddr_safe in Ha as [_ ->]. cbn [sforall andb].
  unfold parse_prefix_len in Hn. destruct (parse_nat_dec _) eqn:Hd in Hn; [|done]. by eapply parse_nat_dec_safe.
Qed.
Lemma interface_safe s : interfacePattern s = true → safe_field s.
Proof.
  unfold interfacePattern, len_within, safe_field. intros H. bools. split; [intros ->; cbn in *; lia|].
  eapply sforall_impl; [|done]. intros c. unfold safe_char. rewrite !orb_true_iff. intros [?|Hc]; [by left|right].
  cbn [str_mem] in *. rewrite !orb_true_iff in *. tauto.
Qed.
Lemma auth_safe s : authPassPattern s = true → safe_field s.
Proof.
  unfold authPassPattern, len_within, safe_field. intros H. bools. split; [intros ->; cbn in *; lia|].
  eapply sforall_impl; [|done]. intros c. unfold safe_char. by intros ->.
Qed.

(** What an accepted, enabled configuration looks like. *)
Record ha_ok (cfg : HAConfig) : Prop := {
  ok_mode : ha_Mode cfg = "unicast" ∨ ha_Mode cfg = "multicast";
  ok_role : ha_NodeRole cfg = "primary" ∨ ha_NodeRole cfg = "secondary";
  ok_iface : safe_field (ha_Interface cfg);
  ok_source : safe_field (ha_SourceIP cfg);
  ok_peer : ha_Mode cfg = "unicast" → safe_field (ha_PeerIP cfg);
  ok_vip : safe_field (ha_VirtualIP cfg);
  ok_auth : ha_AuthPass cfg ≠ "" → safe_field (ha_AuthPass cfg);
  ok_vrid : 1 ≤ ha_VirtualRouterID cfg ≤ 255;
  ok_priority : 1 ≤ ha_Priority cfg ≤ 254;
  ok_advert : 1 ≤ ha_AdvertIntervalSec cfg ≤ 60 }.

Lemma guard_false (a b : bool) : a && negb b = false → a = true → b = true.
Proof. by destruct a, b. Qed.
Lemma stored_ok cfg : ha_Enabled cfg = true → validateStoredConfig cfg = true → ha_ok cfg.
Proof.
  unfold validateStoredConfig. intros -> H. cbn [negb orb] in H.
  apply andb_true_iff in H as [H H0%negb_true_iff]. apply andb_true_iff in H as [H H1%negb_true_iff].
  apply andb_true_iff in H as [H H2%negb_true_iff]. apply andb_true_iff in H as [H H3%bool_decide_eq_true].
  apply andb_true_iff in H as [H H4%bool_decide_eq_true]. apply andb_true_iff in H as [H [H5 H6]%andb_true_iff].
  bools. split; try lia.
  - apply orb_true_iff in H as [H|H]; apply str_eqb_eq in H; auto.
  - apply orb_true_iff in H5 as [H5|H5]; apply str_eqb_eq in H5; auto.
  - by apply interface_safe.
  - destruct H4. by eapply ParseIP_safe.
  - intros Hm. apply str_eqb_eq in Hm. apply (guard_false _ _ H2) in Hm. bools. destruct Hm. by eapply ParseIP_safe.
  - destruct H3. by eapply ParseCIDR_safe.
  - intros Ha. apply str_eqb_neq in Ha. apply auth_safe, (guard_false _ _ H0). by rewrite Ha.
Qed.

(** A configuration accepted by [validate] is accepted again from the state file. *)
Lemma validate_stored ho cfg : validate ho cfg = None → validateStoredConfig cfg = true.
Proof.
  unfold validate, validateStoredConfig. destruct (ha_Enabled cfg); [|done]. cbn [negb orb].
  destruct (negb _ && negb _) eqn:Em; [done|]. destruct (negb (rolePattern _)) eqn:Er; [done|].
  destruct (negb (interfacePattern _)) eqn:Ei; [done|]. destruct (negb _ && negb (authPassPattern _)) eqn:Ea; [done|].
  destruct (ParseIP_opt (ha_SourceIP cfg)) as [src|]; [|done].
  destruct (_ && negb (bool_decide (is_Some (ParseIP_opt (ha_PeerIP cfg))))) eqn:Ep; [done|].
  destruct (ParseCIDR (ha_VirtualIP cfg)) as [[vip net]|]; [|done].
  do 5 match goal with |- context [if ?b then Some _ else _] => destruct b; [done|] end.
  destruct (interfaceHasIP _ _ _); [done|].
  destruct (_ || _) eqn:E1; [done|]. destruct (_ || _) eqn:E2 in |- *; [done|]. destruct (_ || _) eqn:E3 in |- *; [done|].
  intros _. bools. rewrite Er, Ei, !bool_decide_true by eauto. cbn [andb negb].
  apply andb_false_iff in Em.
  assert (str_eqb (ha_Mode cfg) "unicast" || str_eqb (ha_Mode cfg) "multicast" = true) as ->.
  { destruct (str_eqb _ "unicast"), (str_eqb _ "multicast"); naive_solver. }
  done.
Qed.

(** ** The line structure of the rendered file *)
Definition newline : ascii := ascii_of_N 10.
Lemma Split_lines ls : Forall (λ l, free_of newline l = true) ls → Split (lines ls) newline = ls ++ [""].
Proof.
  induction 1 as [|l ls Hl _ IH]; [done|].
  change (lines (l :: ls)) with ((l +:+ nl) +:+ lines ls). rewrite app_assoc.
  change (nl +:+ lines ls) with (String newline (lines ls)). rewrite Split_app by done. by rewrite IH.
Qed.
(** How often [c] occurs. *)
Fixpoint occurrences (c : ascii) (s : string) : Z :=
  match s with "" => 0 | String d s => (if ascii_eqb d c then 1 else 0) + occurrences c s end.
Lemma occurrences_app c s t : occurrences c (s +:+ t) = occurrences c s + occurrences c t.
Proof. induction s as [|d s IH]; [done|]. rewrite app_cons. cbn [occurrences]. rewrite IH. lia. Qed.
Lemma occurrences_free c s : free_of c s = true → occurrences c s = 0.
Proof.
  induction s as [|d s IH]; [done|]. unfold free_of. cbn [sforall occurrences]. intros [H%negb_true_iff Hs]%andb_true_iff.
  rewrite H. by apply IH.
Qed.
Lemma safe_free c s : safe_char c = false → safe_field s → free_of c s = true.
Proof.
  intros Hc [_ Hs]. eapply sforall_impl; [|exact Hs]. intros d Hd. apply negb_true_iff, ascii_eqb_neq. congruence.
Qed.
Lemma occurrences_lines c ls : c ≠ newline → occurrences c (lines ls) = foldr (λ l n, occurrences c l + n) 0 ls.
Proof.
  intros Hc. induction ls as [|l ls IH]; [done|].
  change (lines (l :: ls)) with ((l +:+ nl) +:+ lines ls). cbn [foldr]. rewrite !occurrences_app, IH.
  assert (occurrences c nl = 0) as ->; [|lia].
  unfold nl. cbn [occurrences]. assert (ascii_eqb (ascii_of_N 10) c = false) as -> by (apply ascii_eqb_neq; intros <-; by apply Hc). done.
Qed.

(** The fields of an accepted configuration contain no character that ends a
    line or opens or closes a block. *)
Lemma ha_fields_free cfg c :
  ha_ok cfg → safe_char c = false →
  free_of c (ha_Interface cfg) = true ∧ free_of c (ha_VirtualIP cfg) = true
  ∧ free_of c (ha_SourceIP cfg) = true
  ∧ (ha_Mode cfg = "unicast" → free_of c (ha_PeerIP cfg) = true)
  ∧ (ha_AuthPass cfg ≠ "" → free_of c (ha_AuthPass cfg) = true)
  ∧ ∀ z, free_of c (Itoa z) = true.
Proof.
  intros [] Hc. split_and!; try (by apply safe_free); try (solve [intros; apply safe_free; auto]).
  intros z. apply Itoa_free; [by intros ->|]. destruct (is_digit c) eqn:E; [|done].
  apply safe_digit in E. congruence.
Qed.

Lemma free_app c s t : free_of c (s +:+ t) = free_of c s && free_of c t.
Proof. apply sforall_app. Qed.
Lemma render_lines_ok cfg : ha_ok cfg → Forall (λ l, free_of newline l = true) (render_lines cfg).
Proof.
  intros Hok. destruct (ha_fields_free cfg newline Hok eq_refl) as (Hi & Hv & Hs & Hp & Ha & Hz).
  unfold render_lines. rewrite !Forall_app. split_and!.
  - repeat constructor; rewrite ?free_app, ?Hi, ?Hz; try done. by destruct (str_eqb _ "primary").
  - destruct (str_eqb (ha_Mode cfg) "unicast") eqn:E; [|constructor]. apply str_eqb_eq in E.
    repeat constructor; rewrite ?free_app, ?Hs, ?Hp by done; done.
  - destruct (str_eqb (ha_AuthPass cfg) "") eqn:E; [constructor|]. apply str_eqb_neq in E.
    repeat constructor; rewrite ?free_app, ?Ha by done; done.
  - repeat constructor; rewrite ?free_app, ?Hi, ?Hv; done.
Qed.
Definition blocks (cfg : HAConfig) : Z :=
  5 + (if str_eqb (ha_Mode cfg) "unicast" then 1 else 0) + (if str_eqb (ha_AuthPass cfg) "" then 0 else 1).
Lemma render_blocks cfg c :
  ha_ok cfg → c = "{"%char ∨ c = "}"%char → occurrences c (render cfg) = blocks cfg.
Proof.
  intros Hok Hc. assert (safe_char c = false) as Hsafe by by destruct Hc as [-> | ->].
  destruct (ha_fields_free cfg c Hok Hsafe) as (Hi & Hv & Hs & Hp & Ha & Hz).
  unfold render. rewrite occurrences_lines by (destruct Hc as [-> | ->]; done). unfold render_lines, blocks.
  rewrite !foldr_app. cbn [foldr]. rewrite !occurrences_app, (occurrences_free c _ Hi), (occurrences_free c _ Hv), !(occurrences_free c _ (Hz _)).
  destruct (str_eqb (ha_Mode cfg) "unicast") eqn:E1, (str_eqb (ha_AuthPass cfg) "") eqn:E2, (str_eqb (ha_NodeRole cfg) "primary");
    cbn [foldr negb app]; rewrite ?occurrences_app, ?(occurrences_free c _ Hs);
    try (apply str_eqb_eq in E1; rewrite (occurrences_free c _ (Hp E1)));
    try (apply str_eqb_neq in E2; rewrite (occurrences_free c _ (Ha E2)));
    destruct Hc as [-> | ->]; vm_compute; reflexivity.
Qed.

(** There is always a state file. *)
Lemma Clean_nonempty p : Clean p ≠ "".
Proof. unfold Clean. destruct (HasPrefix p "/"); [done|]. destruct (str_eqb _ "") eqn:E; [done|]. by apply str_eqb_neq. Qed.
Lemma state_path_nonempty path adoption : state_path path adoption ≠ "".
Proof.
  unfold state_path, JoinPath. destruct (str_eqb adoption ""); cbn [negb].
  - destruct (str_eqb path defaultConfigPath); cbn [negb]; [done|]. by destruct path.
  - destruct (str_eqb (Dir adoption) ""); apply Clean_nonempty.
Qed.

(** A host and a configuration for the witnesses. *)
Definition demo_ha : HAConfig :=
  mkHA true "unicast" "primary" "eth0" "192.168.1.2" "192.168.1.3" "192.168.1.10/24" 51 150 1 "secret1".
Definition demo_host : host :=
  mkHost (λ n, if str_eqb n "eth0" then Some (Some [ParseIP "192.168.1.2"]) else None) [] (λ _, true) (λ _, true) (λ _, None).
Definition demo_io : ha_io := mkIO None None None None.
(** A concrete encoding that round-trips, standing in for encoding/json. *)
#[export] Instance HAConfig_eq_dec : EqDecision HAConfig.
Proof. solve_decision. Defined.
#[export] Instance HAConfig_countable : Countable HAConfig.
Proof.
  apply (inj_countable'
    (λ c, ((ha_Enabled c, ha_Mode c, ha_NodeRole c, ha_Interface c), (ha_SourceIP c, ha_PeerIP c, ha_VirtualIP c),
           (ha_VirtualRouterID c, ha_Priority c, ha_AdvertIntervalSec c, ha_AuthPass c)))
    (λ '((a, b, c, d), (e, f, g), (h, i, j, k)), mkHA a b c d e f g h i j k)). by intros [].
Defined.
Fixpoint bits (p : positive) : string :=
  match p with xH => "" | xO p => String "0" (bits p) | xI p => String "1" (bits p) end.
Fixpoint unbits (s : string) : positive :=
  match s with "" => xH | String c s => if ascii_eqb c "0" then xO (unbits s) else xI (unbits s) end.
Definition demo_enc (cfg : HAConfig) : string := bits (encode cfg).
Definition demo_dec (s : string) : option HAConfig := decode (unbits s).
Lemma unbits_bits p : unbits (bits p) = p.
Proof. induction p as [p IH|p IH|]; [| |done]; cbn [bits unbits]; by rewrite IH. Qed.
Lemma demo_roundtrip c : demo_dec (demo_enc c) = Some c.
Proof. unfold demo_dec, demo_enc. rewrite unbits_bits. apply decode_encode. Qed.

(** ** Properties *)

(** C29: Whatever the settings pushed to a node are, applying them either leaves
    keepalived.conf alone or replaces it by the text rendered from settings
    that keepalived's own checker has accepted first.  That text has exactly
    the lines of the template: every value is a single word of letters,
    digits and "_.:/-", so no value can end a line or open or close a block,
    and the VRRP numbers are in range. *)
Theorem ha_no_injection ho io m fs m' fs' err :
  ApplyHA ho io m fs = (m', fs', err) →
  fs' = fs ∨
  let cfg := mg_cfg m in
  fs' = <[mg_path m := render cfg]> fs ∧ ha_Enabled cfg = true ∧ ha_ok cfg
  ∧ ho_run ho ["keepalived"; "-t"; "-f"; render cfg] = None
  ∧ Split (render cfg) newline = render_lines cfg ++ [""]
  ∧ occurrences "{" (render cfg) = blocks cfg ∧ occurrences "}" (render cfg) = blocks cfg.
Proof.
  unfold ApplyHA. destruct (validate ho (mg_cfg m)) eqn:Hv; [intros [= _ <- _]; by left|].
  destruct (ha_Enabled (mg_cfg m)) eqn:He; [|intros [= _ <- _]; by left].
  destruct (ho_available ho "keepalived"); [|intros [= _ <- _]; by left]. cbn [negb].
  destruct (validateRendered ho io (mg_cfg m)) eqn:Hr; [intros [= _ <- _]; by left|].
  destruct (io_write io); [intros [= _ <- _]; by left|]. intros H. right.
  assert (fs' = <[mg_path m := render (mg_cfg m)]> fs) as ->.
  { revert H. by repeat case_match; intros [= _ <- _]. }
  pose proof (stored_ok _ He (validate_stored _ _ Hv)) as Hok. split_and!; try done.
  - unfold validateRendered in Hr. by repeat case_match.
  - by apply Split_lines, render_lines_ok.
  - apply render_blocks; auto.
  - apply render_blocks; auto.
Qed.
Definition demo_mgr : Manager := mkMgr demo_ha "/etc/k.conf" "/var/s.json" "" None.
Lemma ha_no_injection_witness :
  let r := ApplyHA demo_host demo_io demo_mgr ∅ in
  r.1.2 ≠ ∅ ∧
  (r.1.2 = ∅ ∨
   r.1.2 = <["/etc/k.conf" := render demo_ha]> ∅ ∧ ha_Enabled demo_ha = true ∧ ha_ok demo_ha
   ∧ ho_run demo_host ["keepalived"; "-t"; "-f"; render demo_ha] = None
   ∧ Split (render demo_ha) newline = render_lines demo_ha ++ [""]
   ∧ occurrences "{" (render demo_ha) = blocks demo_ha ∧ occurrences "}" (render demo_ha) = blocks demo_ha).
Proof.
  split; [by_decision|].
  exact (ha_no_injection demo_host demo_io demo_mgr ∅ _ _ _ eq_refl).
Defined.

(** Settings that were accepted survive a restart.  When [SetHAConfig]
    succeeds on a manager that keeps a state file, a manager started later on
    the resulting files has the same settings; when it fails, neither the
    manager nor the files change.  (The encoder and decoder are
    encoding/json's, assumed to round-trip the settings.) *)
Theorem ha_survives_restart enc dec ho io cfg path adoption fs0 fs m m' fs' err :
  (∀ c, dec (enc c) = Some c) →
  m = NewManagerWithState dec path adoption fs0 →
  SetHAConfig enc ho io cfg m fs = (m', fs', err) →
  if err then m' = m ∧ fs' = fs
  else mg_cfg m' = cfg ∧ mg_cfg (NewManagerWithState dec path adoption fs') = cfg.
Proof.
  intros Hrt Hm. unfold SetHAConfig. destruct (validate ho cfg) eqn:Hv; [by intros [= <- <- <-]|].
  set (path' := if str_eqb path "" then defaultConfigPath else path).
  assert (mg_statePath m = state_path path' adoption) as Hsp.
  { subst m. unfold NewManagerWithState, loadState. fold path'. by repeat case_match. }
  unfold persistState. rewrite Hsp.
  assert (str_eqb (state_path path' adoption) "" = false) as Hne.
  { apply str_eqb_neq. apply state_path_nonempty. }
  rewrite Hne. destruct (io_persist io); intros [= <- <- <-]; [done|]. split; [done|].
  unfold NewManagerWithState, loadState. fold path'. cbn [mg_statePath mg_cfg]. rewrite Hne, lookup_insert_eq.
  cbn [mbind option_bind]. by rewrite Hrt, (validate_stored _ _ Hv).
Qed.
Lemma ha_survives_restart_witness :
  let m := NewManagerWithState demo_dec "/etc/k.conf" "" ∅ in
  let r := SetHAConfig demo_enc demo_host demo_io demo_ha m ∅ in
  r.2 = None ∧
  if r.2 then r.1.1 = m ∧ r.1.2 = ∅
  else mg_cfg r.1.1 = demo_ha ∧ mg_cfg (NewManagerWithState demo_dec "/etc/k.conf" "" r.1.2) = demo_ha.
Proof.
  split; [vm_compute; reflexivity|].
  exact (ha_survives_restart demo_enc demo_dec demo_host demo_io demo_ha "/etc/k.conf" "" ∅ ∅ _ _ _ _ demo_roundtrip
           eq_refl eq_refl).
Defined.
