(* ===== verification/Update.v ===== *)
(** * The self-updater

    internal/update/manager.go and internal/control/update.go: one update at a
    time, its progress and its outcome.  The downloaded script is an argument:
    what opening its output, starting it, its lines and its exit give. *)
From S2P Require Import Prelude GoStrings.
From Stdlib Require Import Ascii.

Record UpdateStatus := mkUpdate {
  us_Running : bool;
  us_Message : string;
  us_LastError : string;
  us_Channel : string }.
Definition ChannelStable : string := "stable".
Definition ChannelDev : string := "dev".
Definition ValidUpdateChannel (ch : string) : bool := str_eqb ch ChannelStable || str_eqb ch ChannelDev.
Definition no_update : UpdateStatus := mkUpdate false "" "" "".

Inductive update_error := UE_channel | UE_running.
(** [StartUpdate]: on success a goroutine executing [run] is started. *)
Definition StartUpdate (channel : string) (st : UpdateStatus) : UpdateStatus * option update_error :=
  if negb (ValidUpdateChannel channel) then (st, Some UE_channel)
  else if us_Running st then (st, Some UE_running)
  else (mkUpdate true "downloading blipd" "" channel, None).
Definition setMessage (msg : string) (st : UpdateStatus) : UpdateStatus :=
  mkUpdate (us_Running st) msg (us_LastError st) (us_Channel st).
Definition finish (err : option string) (st : UpdateStatus) : UpdateStatus :=
  match err with
  | Some e => mkUpdate false "update failed" e (us_Channel st)
  | None => mkUpdate false "update completed; blipd is restarting" "" (us_Channel st)
  end.
(** What the line of output does: a phase marker replaces the message. *)
Definition progress (st : UpdateStatus) (text : string) : UpdateStatus :=
  let l := TrimSpace text in
  if HasPrefix l "phase: " then setMessage (TrimPrefix l "phase: " +:+ "…") st else st.
Record script := mkScript {
  sc_open : option string;
  sc_start : option string;
  sc_output : list string;
  sc_read : option string;
  sc_wait : option string }.
(** [run]: the states the status goes through, the last one final. *)
Definition run_error (sc : script) : option string :=
  match sc_open sc with
  | Some e => Some ("open updater output: " +:+ e)
  | None =>
      match sc_start sc with
      | Some e => Some ("start updater: " +:+ e)
      | None => match sc_read sc with
                | Some e => Some ("read updater output: " +:+ e)
                | None => sc_wait sc
                end
      end
  end.
Definition run (sc : script) (st : UpdateStatus) : UpdateStatus :=
  match sc_open sc, sc_start sc with
  | None, None => finish (run_error sc) (foldl progress st (sc_output sc))
  | _, _ => finish (run_error sc) st
  end.

(** ** One update at a time

    The status and the goroutines executing [run], each somewhere in its script. *)
Inductive upd_step : UpdateStatus * list (list string * option string) → UpdateStatus * list (list string * option string) → Prop :=
| up_start ch st st' out err gs :
    StartUpdate ch st = (st', None) → upd_step (st, gs) (st', (out, err) :: gs)
| up_refuse ch st e gs : StartUpdate ch st = (st, Some e) → upd_step (st, gs) (st, gs)
| up_line st l out err gs1 gs2 :
    upd_step (st, gs1 ++ (l :: out, err) :: gs2) (progress st l, gs1 ++ (out, err) :: gs2)
| up_finish st out err gs1 gs2 :
    upd_step (st, gs1 ++ (out, err) :: gs2) (finish err st, gs1 ++ gs2).
Inductive upd_reachable : UpdateStatus * list (list string * option string) → Prop :=
| upr_new : upd_reachable (no_update, [])
| upr_step s s' : upd_reachable s → upd_step s s' → upd_reachable s'.

Lemma progress_running st l : us_Running (progress st l) = us_Running st.
Proof. unfold progress. by destruct (HasPrefix _ _). Qed.
Lemma finish_running err st : us_Running (finish err st) = false.
Proof. by destruct err. Qed.

(** Exactly one updater runs while the status says so, none otherwise. *)
Lemma update_exclusive s :
  upd_reachable s → length s.2 = (if us_Running s.1 then 1 else 0)%nat.
Proof.
  induction 1 as [|s s' _ IH Hs]; [done|].
  destruct Hs as [ch st st' out err gs Hst|ch st e gs _|st l out err gs1 gs2|st out err gs1 gs2]; cbn in *.
  - unfold StartUpdate in Hst. destruct (negb _); [done|]. destruct (us_Running st); [done|].
    injection Hst as <-. cbn. lia.
  - done.
  - rewrite progress_running, <-IH, !length_app. done.
  - rewrite finish_running, length_app. rewrite length_app in IH. cbn in IH. destruct (us_Running st); lia.
Qed.
