(* ===== verification/Control.v ===== *)
(** * The management API

    internal/control: server.go, cache_handler.go, upstream_handler.go,
    records_ctrl.go, upstream_ctrl.go and the envelopes of types.go.  The API
    authenticates a controller, lets it claim the instance once with a code,
    and drives the DNS server, the keepalived manager and the updater.

    [Host] is what the API is given of the rest of the process: the objects it
    shares with the DNS server and the controller interfaces, with what their
    documentation promises (a setting that was accepted is what is reported
    back).  The theorems of this file are proved for any [Host]; Node.v
    discharges the interface with the modelled components.  JSON decoding is an
    argument: a request carries what decoding its body gives. *)
From S2P Require Import Prelude GoStrings GoNet Filter Records Blocklist Upstream Stats HA Update.
From Stdlib Require Import Ascii.
#[local] Open Scope Z_scope.

(** [control.Policy] and its conversions. *)
Record WirePolicy := mkWire {
  wp_ID : string; wp_Networks : list string; wp_Clients : list string; wp_Allow : list string; wp_Block : list string;
  wp_BlockAction : string; wp_Log : bool; wp_Upstream : string }.
Definition fromFilter (p : Policy) : WirePolicy :=
  mkWire (p_ID p) (p_Networks p) (p_Clients p) (p_Allow p) (p_Block p) (p_BlockAction p) (p_Log p) (p_Upstream p).
Definition toFilter (p : WirePolicy) : Policy :=
  mkPolicy (wp_ID p) (wp_Networks p) (wp_Clients p) (wp_Allow p) (wp_Block p) (wp_BlockAction p) (wp_Log p) (wp_Upstream p).

(** ** The rest of the process *)
Class Host (H : Type) := {
  (* shared with the DNS server *)
  h_store : H → Store;
  h_put_store : Store → H → H;
  h_blocklist : H → option Blocklist;
  h_put_blocklist : Blocklist → H → H;
  h_cacheLen : H → Z;
  h_purge : H → H;
  h_counters : H → Counters;
  h_watch : H → Watch;
  h_put_watch : Watch → H → H;
  (* DoHController *)
  h_SetDoHHTTPAddr : string → H → H * option string;
  h_DoHHTTPAddr : H → string;
  (* RateLimitController *)
  h_SetRateLimit : Z → Z → H → H;
  h_RateLimitQPS : H → Z;
  (* CacheController *)
  h_SetCacheConfig : Z → H → H * option string;
  h_CacheSize : H → Z;
  h_PurgeCache : H → H;
  (* RecordController *)
  h_SetRecords : list RecordEntry → H → H;
  h_GetRecords : H → list RecordEntry;
  (* LocalResolverController *)
  h_SetUpstream : list UpstreamServer → list UpstreamRoute → list UpstreamServer → H → H * option string;
  h_Upstream : H → list UpstreamServer * list UpstreamRoute * list UpstreamServer;
  (* HAController *)
  h_SetHAConfig : HAConfig → H → H * option string;
  h_HAStatus : H → HAStatus;
  h_ValidateHA : H → option string;
  h_ApplyHA : H → H * option string;
  h_DisableHA : H → option string;
  (* UpdateController *)
  h_StartUpdate : string → H → H * option string;
  h_UpdateStatus : H → UpdateStatus }.

(** What the interfaces promise: an accepted setting is the one reported. *)
Class HostLaws (H : Type) `{Host H} (good : H → Prop) := {
  hl_doh : ∀ a h h', good h → h_SetDoHHTTPAddr a h = (h', None) → good h' ∧ h_DoHHTTPAddr h' = a;
  hl_rate : ∀ q b h, good h → 0 ≤ q → good (h_SetRateLimit q b h) ∧ h_RateLimitQPS (h_SetRateLimit q b h) = q;
  hl_cache : ∀ n h h', good h → h_SetCacheConfig n h = (h', None) → good h' ∧ h_CacheSize h' = n;
  hl_records : ∀ l h, good h →
    good (h_SetRecords l h) ∧ h_GetRecords (h_SetRecords l h) ≡ₚ filter kept_record l;
  hl_upstream : ∀ sv rt b h h', good h → h_SetUpstream sv rt b h = (h', None) → good h' ∧ h_Upstream h' = (sv, rt, b);
  hl_reachable : ∀ b h, good h → h_blocklist h = Some b → bl_reachable b;
  hl_blocklist : ∀ b h, good h → bl_reachable b → good (h_put_blocklist b h) ∧ h_blocklist (h_put_blocklist b h) = Some b;
  hl_purge : ∀ h, good h → good (h_purge h) ∧ h_cacheLen (h_purge h) = 0 ∧ h_blocklist (h_purge h) = h_blocklist h }.

(** ** The server's own state *)
Record Controllers := mkWired {
  wi_DoH : bool; wi_RateLimit : bool; wi_Cache : bool; wi_Records : bool; wi_Upstream : bool; wi_HA : bool; wi_Update : bool }.
Record adoptFail := mkFail { af_count : Z; af_until : Z }.
(** The work a handler leaves to a goroutine. *)
Inductive background := BgSaveBlocklist (path : string) | BgRestart.
Record ControlServer := mkCtl {
  ct_token : string;
  ct_version : string;
  ct_started : Z;
  ct_blocklistCachePath : string;
  ct_adopted : bool;
  ct_claimCode : string;
  ct_stateFile : string;
  ct_instanceID : string;
  ct_adoptFails : gmap string adoptFail;
  ct_adoptedBy : string;
  ct_ctrls : Controllers;
  ct_files : gmap string string;             (* the state file lives here *)
  ct_background : list background }.
Definition NewServerWithBlocklist (token version : string) (started : Z) (fs : gmap string string) : ControlServer :=
  mkCtl token version started "" false "" "" "" ∅ "" (mkWired false false false false false false false) fs [].

(** ** Requests and responses *)
Record mgmt_request := mkMReq {
  mq_Method : string;
  mq_Path : string;
  mq_RemoteAddr : string;
  mq_Authorization : string;
  mq_Query : string → string;
  mq_policy : option WirePolicy;             (* the body, decoded as each request type *)
  mq_deleteID : option string;
  mq_httpAddr : option string;
  mq_rate : option (Z * Z);
  mq_size : option Z;
  mq_upstream : option (list UpstreamServer * list UpstreamRoute * list UpstreamServer);
  mq_records : option (list RecordEntry);
  mq_blocklist : option (list string * list string);
  mq_ha : option HAConfig;
  mq_code : option string }.
Inductive body :=
| BText (msg : string)
| BAck (msg : string)
| BHealth (uptime started : Z) (version : string) (dropped : Z)
| BStats (st : StatsResponse)
| BPolicies (def : option WirePolicy) (l : list WirePolicy)
| BAddr (a : string) | BQps (q : Z) | BSize (n : Z) | BPurged (n : Z)
| BUpstream (u : list UpstreamServer * list UpstreamRoute * list UpstreamServer)
| BRecords (l : list RecordEntry)
| BHA (s : HAStatus)
| BUpdate (s : UpdateStatus)
| BStream
| BAdoptStatus (adopted : bool) (instanceID version : string)
| BAdopt (adopted : bool) (token msg : string).
Record mgmt_response := mkMResp { mr_status : Z; mr_body : body }.
Definition err (msg : string) (code : Z) : mgmt_response := mkMResp code (BText msg).
Definition json (b : body) : mgmt_response := mkMResp 200 b.
Definition not_allowed : mgmt_response := err "method not allowed" 405.
Definition is_method (r : mgmt_request) (m : string) : bool := str_eqb (mq_Method r) m.
Definition is_write (r : mgmt_request) : bool := is_method r "PUT" || is_method r "POST".

(** What the process gives a request: the clock, random bytes, whether the
    connection can stream, and what a failed write leaves of the state file. *)
Record cenv := mkCEnv {
  c_now : Z;
  c_later : Z;                               (* the clock, read again *)
  c_random : list Z;
  c_flusher : bool;
  c_writeFails : option (option string) }.

(** ** Assignments *)
Definition put_adoption (adopted : bool) (code : string) (fails : gmap string adoptFail) (by_ : string) (s : ControlServer)
    : ControlServer :=
  mkCtl (ct_token s) (ct_version s) (ct_started s) (ct_blocklistCachePath s) adopted code (ct_stateFile s)
    (ct_instanceID s) fails by_ (ct_ctrls s) (ct_files s) (ct_background s).
Definition put_token (tok : string) (s : ControlServer) : ControlServer :=
  mkCtl tok (ct_version s) (ct_started s) (ct_blocklistCachePath s) (ct_adopted s) (ct_claimCode s) (ct_stateFile s)
    (ct_instanceID s) (ct_adoptFails s) (ct_adoptedBy s) (ct_ctrls s) (ct_files s) (ct_background s).
Definition put_identity (file id : string) (s : ControlServer) : ControlServer :=
  mkCtl (ct_token s) (ct_version s) (ct_started s) (ct_blocklistCachePath s) (ct_adopted s) (ct_claimCode s) file id
    (ct_adoptFails s) (ct_adoptedBy s) (ct_ctrls s) (ct_files s) (ct_background s).
Definition put_files (fs : gmap string string) (s : ControlServer) : ControlServer :=
  mkCtl (ct_token s) (ct_version s) (ct_started s) (ct_blocklistCachePath s) (ct_adopted s) (ct_claimCode s)
    (ct_stateFile s) (ct_instanceID s) (ct_adoptFails s) (ct_adoptedBy s) (ct_ctrls s) fs (ct_background s).
Definition spawn (b : background) (s : ControlServer) : ControlServer :=
  mkCtl (ct_token s) (ct_version s) (ct_started s) (ct_blocklistCachePath s) (ct_adopted s) (ct_claimCode s)
    (ct_stateFile s) (ct_instanceID s) (ct_adoptFails s) (ct_adoptedBy s) (ct_ctrls s) (ct_files s) (ct_background s ++ [b]).
Definition wire (c : Controllers) (s : ControlServer) : ControlServer :=
  mkCtl (ct_token s) (ct_version s) (ct_started s) (ct_blocklistCachePath s) (ct_adopted s) (ct_claimCode s)
    (ct_stateFile s) (ct_instanceID s) (ct_adoptFails s) (ct_adoptedBy s) c (ct_files s) (ct_background s).
Definition SetBlocklistCache (path : string) (s : ControlServer) : ControlServer :=
  mkCtl (ct_token s) (ct_version s) (ct_started s) path (ct_adopted s) (ct_claimCode s) (ct_stateFile s)
    (ct_instanceID s) (ct_adoptFails s) (ct_adoptedBy s) (ct_ctrls s) (ct_files s) (ct_background s).
Definition SetToken (tok : string) (s : ControlServer) : ControlServer := put_token tok s.
(** [SetDoHController] and its siblings. *)
Definition SetDoHController (s : ControlServer) : ControlServer :=
  let c := ct_ctrls s in
  wire (mkWired true (wi_RateLimit c) (wi_Cache c) (wi_Records c) (wi_Upstream c) (wi_HA c) (wi_Update c)) s.
Definition SetRateLimitController (s : ControlServer) : ControlServer :=
  let c := ct_ctrls s in
  wire (mkWired (wi_DoH c) true (wi_Cache c) (wi_Records c) (wi_Upstream c) (wi_HA c) (wi_Update c)) s.
Definition SetCacheController (s : ControlServer) : ControlServer :=
  let c := ct_ctrls s in
  wire (mkWired (wi_DoH c) (wi_RateLimit c) true (wi_Records c) (wi_Upstream c) (wi_HA c) (wi_Update c)) s.
Definition SetRecordController (s : ControlServer) : ControlServer :=
  let c := ct_ctrls s in
  wire (mkWired (wi_DoH c) (wi_RateLimit c) (wi_Cache c) true (wi_Upstream c) (wi_HA c) (wi_Update c)) s.
Definition SetLocalResolverController (s : ControlServer) : ControlServer :=
  let c := ct_ctrls s in
  wire (mkWired (wi_DoH c) (wi_RateLimit c) (wi_Cache c) (wi_Records c) true (wi_HA c) (wi_Update c)) s.
Definition SetHAController (s : ControlServer) : ControlServer :=
  let c := ct_ctrls s in
  wire (mkWired (wi_DoH c) (wi_RateLimit c) (wi_Cache c) (wi_Records c) (wi_Upstream c) true (wi_Update c)) s.
Definition SetUpdateController (s : ControlServer) : ControlServer :=
  let c := ct_ctrls s in
  wire (mkWired (wi_DoH c) (wi_RateLimit c) (wi_Cache c) (wi_Records c) (wi_Upstream c) (wi_HA c) true) s.

(** ** Authentication *)
Definition checkToken (hdr want : string) : bool :=
  let tok := if (7 <? slen hdr)%nat && str_eqb (stake 7 hdr) "Bearer " then sdrop 7 hdr else hdr in
  negb (str_eqb tok "") && (slen tok =? slen want)%nat && str_eqb tok want.
Definition adoptIP (r : mgmt_request) : string :=
  match SplitHostPort (mq_RemoteAddr r) with Some (h, _) => h | None => mq_RemoteAddr r end.
(** [auth]: the response of a request that is turned away. *)
Definition auth (r : mgmt_request) (s : ControlServer) : option mgmt_response :=
  if str_eqb (ct_token s) "" then Some (err "management API disabled" 503)
  else if negb (checkToken (mq_Authorization r) (ct_token s)) then Some (err "unauthorized" 401)
  else
    let peer := adoptIP r in
    if negb (str_eqb (ct_adoptedBy s) "") && negb (str_eqb peer (ct_adoptedBy s)) && negb (IsLoopback (ParseIP peer))
    then Some (err "forbidden" 403) else None.
Definition authenticated (r : mgmt_request) (s : ControlServer) : bool :=
  if str_eqb (ct_token s) "" then false else checkToken (mq_Authorization r) (ct_token s).

(** ** Adoption *)
Definition alpha : string := "ABCDEFGHJKLMNPQRSTUVWXYZ23456789".
Definition code_char (b : Z) : string := stake 1 (sdrop (Z.to_nat (b mod Z.of_nat (slen alpha))) alpha).
(** [genClaimCode] on the sixteen random bytes it draws. *)
Definition genClaimCode (b : list Z) : string :=
  Join (code_char <$> take 8 b) "" +:+ "-" +:+ Join (code_char <$> drop 8 (take 16 b)) "".
(** [genToken] on the thirty-two random bytes it draws. *)
Definition genToken (b : list Z) : string := Join (hex_byte <$> take 32 b) "".
Record adopt_state := mkAdopt { as_adopted : bool; as_instanceID : string; as_token : string; as_controllerIP : string }.

Section Adoption.
Context (enc : adopt_state → string) (dec : string → option adopt_state).

Definition genClaim (e : cenv) (s : ControlServer) : ControlServer :=
  put_adoption false (genClaimCode (c_random e)) (ct_adoptFails s) (ct_adoptedBy s) s.
(** [persistAdopted]: a failed write is only logged. *)
Definition persistAdopted (e : cenv) (adopted : bool) (s : ControlServer) : ControlServer :=
  if str_eqb (ct_stateFile s) "" then s
  else if negb adopted then put_files (delete (ct_stateFile s) (ct_files s)) s
  else match c_writeFails e with
       | None => put_files (<[ct_stateFile s := enc (mkAdopt true (ct_instanceID s) (ct_token s) (ct_adoptedBy s))]> (ct_files s)) s
       | Some (Some rest) => put_files (<[ct_stateFile s := rest]> (ct_files s)) s
       | Some None => s
       end.
(** [ConfigureAdoption]; [hostname] is the host's name, [tok] random bytes. *)
Definition ConfigureAdoption (e : cenv) (tok : list Z) (hostname : option string) (stateFile instanceID : string)
    (s : ControlServer) : ControlServer :=
  let id := if str_eqb instanceID "" then default "" hostname else instanceID in
  let s := put_identity stateFile id s in
  let stored := if str_eqb stateFile "" then None else ct_files s !! stateFile ≫= dec in
  match stored with
  | Some (mkAdopt true _ token ip) =>
      let s := put_adoption true "" (ct_adoptFails s) ip s in
      if str_eqb token "" then s else put_token token s
  | _ =>
      if negb (str_eqb (ct_token s) "")
      then persistAdopted e true (put_adoption true "" (ct_adoptFails s) (ct_adoptedBy s) s)
      else genClaim e (put_token (genToken tok) s)
  end.

Definition handleAdoptStatus (r : mgmt_request) (s : ControlServer) : mgmt_response :=
  if negb (is_method r "GET") then not_allowed
  else
    let known := authenticated r s in
    json (BAdoptStatus (ct_adopted s) (if known then ct_instanceID s else "") (if known then ct_version s else "")).

Definition lockout : Z := 5 * minute.
(** A wrong guess from [src]. *)
Definition bad_guess (now : Z) (src : string) (fails : gmap string adoptFail) : gmap string adoptFail :=
  let f := default (mkFail 0 0) (fails !! src) in
  let n := af_count f + 1 in
  <[src := if 5 <=? n then mkFail 0 (now + lockout) else mkFail n (af_until f)]> fails.
Definition handleAdopt (e : cenv) (r : mgmt_request) (s : ControlServer) : ControlServer * mgmt_response :=
  if negb (is_method r "POST") then (s, not_allowed)
  else match mq_code r with
  | None => (s, err "bad request" 400)
  | Some code =>
      if ct_adopted s then (s, json (BAdopt true "" "already adopted"))
      else
        let src := adoptIP r in
        let locked := match ct_adoptFails s !! src with Some f => time_before (c_now e) (af_until f) | None => false end in
        if locked then (s, err "too many attempts; try again later" 429)
        else if str_eqb code "" || negb (str_eqb code (ct_claimCode s)) then
          (put_adoption (ct_adopted s) (ct_claimCode s) (bad_guess (c_later e) src (ct_adoptFails s)) (ct_adoptedBy s) s,
           json (BAdopt false "" "invalid code"))
        else
          let s := persistAdopted e true (put_adoption true "" (ct_adoptFails s) src s) in
          (s, json (BAdopt true (ct_token s) ""))
  end.
Definition handleAdoptReset (e : cenv) (r : mgmt_request) (s : ControlServer) : ControlServer * mgmt_response :=
  if negb (is_method r "POST") then (s, not_allowed)
  else
    (genClaim e (persistAdopted e false (put_adoption false (ct_claimCode s) ∅ "" s)),
     json (BAck "reset; new adoption code generated (see journal)")).
End Adoption.

(** ** Handlers *)
Section Handlers.
Context {H : Type} `{!Host H}.
Notation state := (ControlServer * H)%type.

Definition handleHealth (e : cenv) (st : state) : mgmt_response :=
  let '(s, h) := st in
  let up := time_sub (c_now e) (ct_started s) in
  json (BHealth ((up + second / 2) / second * second) (ct_started s) (ct_version s) (w_dropped (h_watch h))).
Definition addUpstreamStats (st : state) (r : StatsResponse) : StatsResponse :=
  let '(s, h) := st in
  if wi_Upstream (ct_ctrls s) then
    let '(sv, rt, b) := h_Upstream h in
    mkStats (st_Cached r) (st_QueriesTotal r) (st_BlockedTotal r) (st_UpstreamErr r) (st_Upstream r) (st_BlocklistCount r)
      (st_BlocklistHash r) (st_DohHTTPAddr r) (st_RateLimitQPS r) (st_RateLimited r) (st_DurationTotalUs r) (st_CacheSize r)
      sv rt b (st_RecordsHash r)
  else r.
Definition handleStats (st : state) : mgmt_response :=
  let '(s, h) := st in
  let r := Stats (h_counters h) in
  let c := ct_ctrls s in
  json (BStats (addUpstreamStats st
    (mkStats (h_cacheLen h) (st_QueriesTotal r) (st_BlockedTotal r) (st_UpstreamErr r)
       (match (All (h_store h)).1 with Some def => p_Upstream def | None => "" end)
       (match h_blocklist h with Some b => Count b | None => 0 end)
       (match h_blocklist h with Some b => Checksum b | None => 0 end)
       (if wi_DoH c then h_DoHHTTPAddr h else "")
       (if wi_RateLimit c then h_RateLimitQPS h else 0)
       (st_RateLimited r) (st_DurationTotalUs r)
       (if wi_Cache c then h_CacheSize h else 0)
       [] [] []
       (if wi_Records c then RecordsHash (h_GetRecords h) else 0)))).
Definition handleListPolicies (st : state) : mgmt_response :=
  let '(def, l) := All (h_store st.2) in json (BPolicies (fromFilter <$> def) (fromFilter <$> l)).
Definition policy_event (e : cenv) (id : string) : WatchEvent :=
  mkEvent "policy" (c_now e) None "" id "" "" [] [] "" 0 false "" "".
Definition handlePolicy (e : cenv) (r : mgmt_request) (st : state) : state * mgmt_response :=
  let '(s, h) := st in
  if is_write r then
    match mq_policy r with
    | None => (st, err "bad request" 400)
    | Some p =>
        let fp := toFilter p in
        let stored := if str_eqb (wp_ID p) "default" then Ok (SetDefault (Some fp) (h_store h))
                      else SetPolicy (Some fp) (h_store h) in
        match stored with
        | Err _ => (st, err "bad policy" 400)
        | Ok store =>
            let h := h_put_store store h in
            let h := h_put_watch (Notify (policy_event e (wp_ID p)) (h_watch h)) h in
            ((s, h), json (BAck "policy set"))
        end
    end
  else if is_method r "DELETE" then
    let id := match mq_deleteID r with
              | None => mq_Query r "id"
              | Some id => if str_eqb id "" then mq_Query r "id" else id
              end in
    if str_eqb id "" then (st, err "id required" 400)
    else ((s, h_put_store (RemovePolicy id (h_store h)) h), json (BAck "policy deleted"))
  else (st, not_allowed).
Definition handleBlocklist (r : mgmt_request) (st : state) : state * mgmt_response :=
  let '(s, h) := st in
  if negb (is_write r) then (st, not_allowed)
  else match h_blocklist h with
  | None => (st, err "blocklist not configured" 503)
  | Some b =>
      match mq_blocklist r with
      | None => (st, err "bad request" 400)
      | Some (domains, allowed) =>
          let h := h_purge (h_put_blocklist (SetAllowed allowed (FromDomains domains b)) h) in
          let s := if str_eqb (ct_blocklistCachePath s) "" then s
                   else spawn (BgSaveBlocklist (ct_blocklistCachePath s)) s in
          ((s, h), json (BAck "blocklist updated"))
      end
  end.
(** A call of a controller that changes it: acknowledged, or refused with [code]. *)
Definition reply (s : ControlServer) (r : H * option string) (msg : string) (code : Z) : state * mgmt_response :=
  match r with
  | (h, None) => ((s, h), json (BAck msg))
  | (h, Some text) => ((s, h), err text code)
  end.
Definition handleDoH (r : mgmt_request) (st : state) : state * mgmt_response :=
  let '(s, h) := st in
  if negb (wi_DoH (ct_ctrls s)) then (st, err "doh settings not available on this instance" 503)
  else if is_method r "GET" then (st, json (BAddr (h_DoHHTTPAddr h)))
  else if is_write r then
    match mq_httpAddr r with
    | None => (st, err "bad request" 400)
    | Some a =>
        if negb (str_eqb a "") && negb (bool_decide (is_Some (SplitHostPort a)))
        then (st, err "invalid http_addr: must be host:port" 400)
        else reply s (h_SetDoHHTTPAddr a h) "doh http addr set" 400
    end
  else (st, not_allowed).
Definition handleRateLimit (r : mgmt_request) (st : state) : state * mgmt_response :=
  let '(s, h) := st in
  if negb (wi_RateLimit (ct_ctrls s)) then (st, err "rate limit control not available on this instance" 503)
  else if is_method r "GET" then (st, json (BQps (h_RateLimitQPS h)))
  else if is_write r then
    match mq_rate r with
    | None => (st, err "bad request" 400)
    | Some (qps, burst) =>
        if qps <? 0 then (st, err "qps must be >= 0" 400)
        else ((s, h_SetRateLimit qps (if burst <? 0 then 0 else burst) h), json (BAck "rate limit set"))
    end
  else (st, not_allowed).
Definition handleCache (r : mgmt_request) (st : state) : state * mgmt_response :=
  let '(s, h) := st in
  if negb (wi_Cache (ct_ctrls s)) then (st, err "cache settings not available on this instance" 503)
  else if is_method r "GET" then (st, json (BSize (h_CacheSize h)))
  else if is_write r then
    match mq_size r with
    | None => (st, err "bad request" 400)
    | Some n => if n <? 0 then (st, err "size must be >= 0" 400) else reply s (h_SetCacheConfig n h) "cache config set" 400
    end
  else (st, not_allowed).
Definition handleCachePurge (r : mgmt_request) (st : state) : state * mgmt_response :=
  let '(s, h) := st in
  if negb (wi_Cache (ct_ctrls s)) then (st, err "cache settings not available on this instance" 503)
  else if negb (is_method r "POST") then (st, not_allowed)
  else ((s, h_PurgeCache h), json (BPurged (h_cacheLen h))).
Definition handleUpstream (r : mgmt_request) (st : state) : state * mgmt_response :=
  let '(s, h) := st in
  if negb (wi_Upstream (ct_ctrls s)) then (st, err "upstream control not available on this instance" 503)
  else if is_method r "GET" then (st, json (BUpstream (h_Upstream h)))
  else if is_write r then
    match mq_upstream r with
    | None => (st, err "bad request" 400)
    | Some (sv, rt, b) => reply s (h_SetUpstream sv rt b h) "upstream set" 400
    end
  else (st, not_allowed).
Definition handleRecords (r : mgmt_request) (st : state) : state * mgmt_response :=
  let '(s, h) := st in
  if negb (wi_Records (ct_ctrls s)) then (st, err "records not available on this instance" 503)
  else if is_method r "GET" then (st, json (BRecords (h_GetRecords h)))
  else if is_write r then
    match mq_records r with
    | None => (st, err "bad request" 400)
    | Some l => ((s, h_SetRecords l h), json (BAck "records set"))
    end
  else if is_method r "DELETE" then ((s, h_SetRecords [] h), json (BAck "records cleared"))
  else (st, not_allowed).
(** The five keepalived endpoints share their guards. *)
Definition ha_guard (r : mgmt_request) (method : string) (s : ControlServer) : option mgmt_response :=
  if negb (wi_HA (ct_ctrls s)) then Some (err "high availability is not available" 503)
  else if negb (is_method r method) then Some not_allowed else None.
Definition handleHAStatus (r : mgmt_request) (st : state) : mgmt_response :=
  match ha_guard r "GET" st.1 with Some e => e | None => json (BHA (h_HAStatus st.2)) end.
Definition handleHAConfig (r : mgmt_request) (st : state) : state * mgmt_response :=
  match ha_guard r "PUT" st.1 with
  | Some e => (st, e)
  | None =>
      match mq_ha r with
      | None => (st, err "bad request" 400)
      | Some cfg => reply st.1 (h_SetHAConfig cfg st.2) "high availability configuration saved" 400
      end
  end.
Definition handleHAValidate (r : mgmt_request) (st : state) : mgmt_response :=
  match ha_guard r "POST" st.1 with
  | Some e => e
  | None => match h_ValidateHA st.2 with
            | Some text => err text 400
            | None => json (BAck "high availability configuration is valid")
            end
  end.
Definition handleHAApply (r : mgmt_request) (st : state) : state * mgmt_response :=
  match ha_guard r "POST" st.1 with
  | Some e => (st, e)
  | None => reply st.1 (h_ApplyHA st.2) "high availability applied" 400
  end.
Definition handleHADisable (r : mgmt_request) (st : state) : mgmt_response :=
  match ha_guard r "POST" st.1 with
  | Some e => e
  | None => match h_DisableHA st.2 with
            | Some text => err text 400
            | None => json (BAck "high availability disabled")
            end
  end.
Definition handleUpdate (r : mgmt_request) (st : state) : state * mgmt_response :=
  let '(s, h) := st in
  if negb (wi_Update (ct_ctrls s)) then (st, err "remote update is not available" 503)
  else if is_method r "GET" then (st, json (BUpdate (h_UpdateStatus h)))
  else if is_method r "POST" then
    let channel := mq_Query r "channel" in
    if negb (ValidUpdateChannel channel) then (st, err "channel must be stable or dev" 400)
    else reply s (h_StartUpdate channel h) "update started" 409
  else (st, not_allowed).
Definition handleRestart (r : mgmt_request) (st : state) : state * mgmt_response :=
  if negb (is_method r "POST") then (st, not_allowed)
  else ((spawn BgRestart st.1, st.2), json (BAck "restarting blipd")).
(** [handleWatch] up to the start of its stream, which is in EventStream.v. *)
Definition handleWatch (e : cenv) (st : state) : state * mgmt_response :=
  if negb (c_flusher e) then (st, err "streaming unsupported" 500)
  else ((st.1, h_put_watch (watch_open (h_watch st.2)) st.2), json BStream).

(** ** Dispatch *)
Context (enc : adopt_state → string).
(** The handler of each path, behind [auth] or not; [None] is no such path. *)
Definition endpoint (path : string) : option (bool * (cenv → mgmt_request → state → state * mgmt_response)) :=
  let pure f := (λ (_ : cenv) r st, (st, f r st)) in
  let plain f := (λ (_ : cenv) r (st : state), f r st) in
  let find p := str_eqb path ("/api/v1/" +:+ p) in
  if find "health" then Some (true, λ e _ st, (st, handleHealth e st))
  else if find "stats" then Some (true, λ _ _ st, (st, handleStats st))
  else if find "policies" then Some (true, λ _ _ st, (st, handleListPolicies st))
  else if find "policy" then Some (true, handlePolicy)
  else if find "blocklist" then Some (true, plain handleBlocklist)
  else if find "doh" then Some (true, plain handleDoH)
  else if find "ratelimit" then Some (true, plain handleRateLimit)
  else if find "upstream" then Some (true, plain handleUpstream)
  else if find "cache" then Some (true, plain handleCache)
  else if find "cache/purge" then Some (true, plain handleCachePurge)
  else if find "records" then Some (true, plain handleRecords)
  else if find "ha/status" then Some (true, pure handleHAStatus)
  else if find "ha" then Some (true, plain handleHAConfig)
  else if find "ha/validate" then Some (true, pure handleHAValidate)
  else if find "ha/apply" then Some (true, plain handleHAApply)
  else if find "ha/disable" then Some (true, pure handleHADisable)
  else if find "update" then Some (true, plain handleUpdate)
  else if find "restart" then Some (true, plain handleRestart)
  else if find "watch" then Some (true, λ e _ st, handleWatch e st)
  else if find "adopt/status" then Some (false, λ _ r st, (st, handleAdoptStatus r st.1))
  else if find "adopt" then Some (false, λ e r st, let '(s, a) := handleAdopt enc e r st.1 in ((s, st.2), a))
  else if find "adopt/reset" then Some (true, λ e r st, let '(s, a) := handleAdoptReset enc e r st.1 in ((s, st.2), a))
  else None.
Definition Handler (e : cenv) (r : mgmt_request) (st : state) : state * mgmt_response :=
  match endpoint (mq_Path r) with
  | None => (st, err "404 page not found" 404)
  | Some (protected, h) =>
      if protected then match auth r st.1 with Some a => (st, a) | None => h e r st end
      else h e r st
  end.
End Handlers.

(** ** Adoption, one request at a time *)
(** The cases of [handleAdopt]. *)
Inductive adopt_case (enc : adopt_state → string) (e : cenv) (r : mgmt_request) (s : ControlServer)
    : ControlServer → mgmt_response → Prop :=
| ac_refused resp : mr_body resp = BText (match mr_body resp with BText t => t | _ => "" end) →
    adopt_case enc e r s s resp
| ac_already : ct_adopted s = true → adopt_case enc e r s s (json (BAdopt true "" "already adopted"))
| ac_wrong code :
    ct_adopted s = false → mq_code r = Some code → code = "" ∨ code ≠ ct_claimCode s →
    (∀ f, ct_adoptFails s !! adoptIP r = Some f → af_until f ≤ c_now e) →
    adopt_case enc e r s
      (put_adoption false (ct_claimCode s) (bad_guess (c_later e) (adoptIP r) (ct_adoptFails s)) (ct_adoptedBy s) s)
      (json (BAdopt false "" "invalid code"))
| ac_claimed code :
    ct_adopted s = false → mq_code r = Some code → code = ct_claimCode s → code ≠ "" →
    (∀ f, ct_adoptFails s !! adoptIP r = Some f → af_until f ≤ c_now e) →
    adopt_case enc e r s (persistAdopted enc e true (put_adoption true "" (ct_adoptFails s) (adoptIP r) s))
      (json (BAdopt true (ct_token s) "")).

Lemma persistAdopted_token enc e b s : ct_token (persistAdopted enc e b s) = ct_token s.
Proof. unfold persistAdopted. by repeat case_match. Qed.
Lemma handleAdopt_case enc e r s :
  adopt_case enc e r s (handleAdopt enc e r s).1 (handleAdopt enc e r s).2.
Proof.
  unfold handleAdopt. destruct (negb (is_method r "POST")); [by apply ac_refused|].
  destruct (mq_code r) as [code|] eqn:Hc; [|by apply ac_refused].
  destruct (ct_adopted s) eqn:Ha; [by apply ac_already|].
  destruct (match ct_adoptFails s !! adoptIP r with Some f => _ | None => _ end) eqn:Hl; [by apply ac_refused|].
  assert (∀ f, ct_adoptFails s !! adoptIP r = Some f → af_until f ≤ c_now e) as Hu.
  { intros f Hf. rewrite Hf in Hl. unfold time_before in Hl. by bools. }
  destruct (str_eqb code "" || negb (str_eqb code (ct_claimCode s))) eqn:Hw; cbn [fst snd].
  - eapply ac_wrong; try done. apply orb_true_iff in Hw as [Hw|Hw]; [left; by apply str_eqb_eq|right].
    apply negb_true_iff in Hw. by apply str_eqb_neq.
  - apply orb_false_iff in Hw as [He%str_eqb_neq Hw%negb_false_iff%str_eqb_eq].
    rewrite persistAdopted_token. change (ct_token (put_adoption _ _ _ _ s)) with (ct_token s). by eapply ac_claimed.
Qed.

(** ** Guesses from one source *)
(** A sequence of claims, and the times at which wrong codes from [src] were looked at. *)
Fixpoint guesses (enc : adopt_state → string) (src : string) (l : list (cenv * mgmt_request)) (s : ControlServer) : list Z :=
  match l with
  | [] => []
  | (e, r) :: l =>
      let '(s', resp) := handleAdopt enc e r s in
      match mr_body resp with
      | BAdopt false _ _ => if str_eqb (adoptIP r) src then c_now e :: guesses enc src l s' else guesses enc src l s'
      | _ => guesses enc src l s'
      end
  end.
(** The clock does not run backwards, and starts no earlier than [t]. *)
Fixpoint clocked (t : Z) (l : list (cenv * mgmt_request)) : Prop :=
  match l with [] => True | (e, _) :: l => t ≤ c_now e ∧ c_now e ≤ c_later e ∧ clocked (c_later e) l end.
Definition fail_of (src : string) (s : ControlServer) : adoptFail := default (mkFail 0 0) (ct_adoptFails s !! src).

(** One request: either nothing that concerns [src], or a guess that is counted. *)
Lemma guesses_step enc src e r l s :
  (∃ s', guesses enc src ((e, r) :: l) s = guesses enc src l s' ∧ ct_adoptFails s' !! src = ct_adoptFails s !! src) ∨
  (∃ s', guesses enc src ((e, r) :: l) s = c_now e :: guesses enc src l s'
     ∧ (∀ f, ct_adoptFails s !! src = Some f → af_until f ≤ c_now e)
     ∧ ct_adoptFails s' !! src =
         Some (let f := fail_of src s in
               if 5 <=? af_count f + 1 then mkFail 0 (c_later e + lockout) else mkFail (af_count f + 1) (af_until f))).
Proof.
  cbn [guesses]. pose proof (handleAdopt_case enc e r s) as Hc. destruct (handleAdopt enc e r s) as [s' resp]. cbn [fst snd] in Hc.
  destruct Hc as [resp Ht|Ha|code Ha Hm Hw Hu|code Ha Hm Hw Hne Hu].
  - left. rewrite Ht. by exists s.
  - left. by exists s.
  - cbn [mr_body json]. destruct (str_eqb (adoptIP r) src) eqn:Hs.
    + right. apply str_eqb_eq in Hs. subst src. eexists. split; [done|]. split; [done|].
      cbn [ct_adoptFails put_adoption]. unfold bad_guess. by rewrite lookup_insert_eq.
    + left. apply str_eqb_neq in Hs. eexists. split; [done|]. cbn [ct_adoptFails put_adoption]. unfold bad_guess.
      by rewrite lookup_insert_ne.
  - left. eexists. split; [done|]. unfold persistAdopted. by repeat case_match.
Qed.

Lemma guesses_clocked enc src l s t x : clocked t l → x ∈ guesses enc src l s → t ≤ x.
Proof.
  revert s t. induction l as [|[e r] l IH]; intros s t; [set_solver|]. intros (H1 & H2 & H3).
  destruct (guesses_step enc src e r l s) as [(s' & -> & _)|(s' & -> & _)].
  - intros Hx. specialize (IH s' _ H3 Hx). lia.
  - intros [->|Hx]%elem_of_cons; [done|]. specialize (IH s' _ H3 Hx). lia.
Qed.
(** While [src] is locked no guess of it is looked at. *)
Lemma guesses_locked enc src l s t f x :
  clocked t l → ct_adoptFails s !! src = Some f → x ∈ guesses enc src l s → af_until f ≤ x.
Proof.
  revert s t. induction l as [|[e r] l IH]; intros s t; [set_solver|]. intros (H1 & H2 & H3) Hf.
  destruct (guesses_step enc src e r l s) as [(s' & -> & Hs)|(s' & -> & Hu & _)].
  - apply (IH s' _ H3). congruence.
  - specialize (Hu f Hf). intros [->|Hx]%elem_of_cons; [done|]. pose proof (guesses_clocked _ _ _ _ _ _ H3 Hx). lia.
Qed.
(** With [c] failures counted, the guess of index [5 - c] comes after a lockout. *)
Lemma guesses_budget enc src l s t j x :
  clocked t l → 0 ≤ af_count (fail_of src s) ≤ 4 → 5 - af_count (fail_of src s) ≤ Z.of_nat j →
  guesses enc src l s !! j = Some x → t + lockout ≤ x.
Proof.
  revert s t j. induction l as [|[e r] l IH]; intros s t j; [done|]. intros (H1 & H2 & H3) Hc Hj.
  destruct (guesses_step enc src e r l s) as [(s' & -> & Hs)|(s' & -> & Hu & Hs)].
  - intros Hx. assert (fail_of src s' = fail_of src s) as Heq by (unfold fail_of; by rewrite Hs).
    assert (c_later e + lockout ≤ x); [|lia]. eapply IH; rewrite ?Heq; done.
  - destruct j as [|j]; [lia|]. cbn [lookup list_lookup]. intros Hx. cbn zeta in Hs.
    destruct (5 <=? af_count (fail_of src s) + 1) eqn:E; bools.
    + apply list_elem_of_lookup_2 in Hx. pose proof (guesses_locked _ _ _ _ _ _ _ H3 Hs Hx) as H. cbn in H. lia.
    + assert (c_later e + lockout ≤ x); [|lia].
      eapply (IH s' _ j); [done|..|done]; unfold fail_of; rewrite Hs; cbn; lia.
Qed.
Lemma guesses_spread enc src l s t i x y :
  clocked t l → 0 ≤ af_count (fail_of src s) ≤ 4 →
  guesses enc src l s !! i = Some x → guesses enc src l s !! (i + 5)%nat = Some y → x + lockout ≤ y.
Proof.
  revert s t i. induction l as [|[e r] l IH]; intros s t i; [done|]. intros (H1 & H2 & H3) Hc.
  destruct (guesses_step enc src e r l s) as [(s' & -> & Hs)|(s' & -> & Hu & Hs)].
  - apply (IH s' _ i H3). unfold fail_of. by rewrite Hs.
  - assert (0 ≤ af_count (fail_of src s') ≤ 4) as Hc'.
    { unfold fail_of at 1 2. rewrite Hs. cbn. destruct (5 <=? _) eqn:E; bools; cbn; lia. }
    destruct i as [|i]; cbn [lookup list_lookup Nat.add]; [|by apply (IH s' _ i H3)].
    intros [= <-] Hy. cbn zeta in Hs. destruct (5 <=? af_count (fail_of src s) + 1) eqn:E; bools.
    + apply list_elem_of_lookup_2 in Hy. pose proof (guesses_locked _ _ _ _ _ _ _ H3 Hs Hy) as H. cbn in H. lia.
    + assert (c_later e + lockout ≤ y); [|lia].
      eapply (guesses_budget enc src l s' _ 4); [done|done| |done]. unfold fail_of. rewrite Hs. cbn. lia.
Qed.

Lemma persistAdopted_fields enc e s :
  let s' := persistAdopted enc e true s in
  ct_adopted s' = ct_adopted s ∧ ct_claimCode s' = ct_claimCode s ∧ ct_adoptedBy s' = ct_adoptedBy s ∧ ct_token s' = ct_token s
  ∧ (ct_stateFile s ≠ "" → c_writeFails e = None →
     ct_files s' = <[ct_stateFile s := enc (mkAdopt true (ct_instanceID s) (ct_token s) (ct_adoptedBy s))]> (ct_files s)).
Proof.
  unfold persistAdopted. destruct (str_eqb (ct_stateFile s) "") eqn:E.
  - apply str_eqb_eq in E. by rewrite E.
  - cbn [negb]. by repeat case_match.
Qed.

(** ** Dispatch *)
Lemma auth_text r s a : auth r s = Some a → ∃ t, mr_body a = BText t.
Proof. unfold auth. repeat case_match; intros [= <-]; by eexists. Qed.
(** Every endpoint but the two of the claim handshake is behind [auth]. *)
Lemma endpoint_open {H} `{!Host H} enc path h :
  endpoint (H := H) enc path = Some (false, h) →
  (path = "/api/v1/adopt/status" ∧ h = λ _ r st, (st, handleAdoptStatus r st.1)) ∨
  (path = "/api/v1/adopt" ∧ h = λ e r st, let '(s, a) := handleAdopt enc e r st.1 in ((s, st.2), a)).
Proof.
  unfold endpoint. do 19 (destruct (str_eqb path _); [done|]).
  destruct (str_eqb path ("/api/v1/" +:+ "adopt/status")) eqn:E1.
  { apply str_eqb_eq in E1. intros [= <-]. by left. }
  destruct (str_eqb path ("/api/v1/" +:+ "adopt")) eqn:E2.
  { apply str_eqb_eq in E2. intros [= <-]. by right. }
  clear. by destruct (str_eqb path _).
Qed.

(** Requests and a server for the witnesses. *)
Definition demo_ctl : ControlServer :=
  mkCtl "s3cret" "v1" 0 "" false "ABCDEFGH-JKLMNPQR" "/var/lib/blipd/state.json" "node1" ∅ ""
    (mkWired true true true true true false false) ∅ [].
Definition demo_claim (code : string) : mgmt_request :=
  mkMReq "POST" "/api/v1/adopt" "198.51.100.7:4000" "" (λ _, "") None None None None None None None None None (Some code).
Definition demo_cenv (t : Z) : cenv := mkCEnv t t (seqZ 0 32) true None.
Definition demo_enc (a : adopt_state) : string := as_token a +:+ "@" +:+ as_controllerIP a.

(** ** Properties *)

(** C10: Guessing the claim code is rate-limited per source address: in any
    sequence of claims, from any mix of sources, on an instance that has just
    started or been reset, the first and the last of any six wrong codes of
    one source that were looked at are at least five minutes apart. *)
Theorem control_claim_lockout enc src l s t i x y :
  ct_adoptFails s = ∅ → clocked t l →
  guesses enc src l s !! i = Some x → guesses enc src l s !! (i + 5)%nat = Some y →
  x + lockout ≤ y.
Proof.
  intros Hf Hl. apply (guesses_spread enc src l s t i); [done|]. unfold fail_of. rewrite Hf, lookup_empty. cbn. lia.
Qed.
Lemma control_claim_lockout_witness :
  let l := (λ t, (demo_cenv t, demo_claim "WRONG")) <$> [0; 1; 2; 3; 4; 5; 6; 300 * second; 300 * second + 4; 301 * second] in
  guesses demo_enc "198.51.100.7" l demo_ctl = [0; 1; 2; 3; 4; 300 * second + 4; 301 * second] ∧ 0 + lockout ≤ 300 * second + 4.
Proof.
  split; [vm_compute; reflexivity|].
  eapply (control_claim_lockout demo_enc "198.51.100.7"
           ((λ t, (demo_cenv t, demo_claim "WRONG")) <$> [0; 1; 2; 3; 4; 5; 6; 300 * second; 300 * second + 4; 301 * second])
           demo_ctl 0 0);
    [reflexivity|cbn; unfold second; lia|vm_compute; reflexivity|vm_compute; reflexivity].
Defined.


(** C30: The claim code works once, and adoption outlives the process.  A claim
    that is given the token leaves the instance adopted, pinned to the claiming
    address, without a code: no later claim is given the token or changes
    anything.  If the state file was written, the instance comes back from a
    restart adopted, with that token and that pin, whatever token its
    configuration carries.  (The encoder and decoder of the state file are
    encoding/json's, assumed to round-trip.) *)
Theorem control_adoption_once enc dec e r s tok msg :
  (∀ a, dec (enc a) = Some a) →
  mr_body (handleAdopt enc e r s).2 = BAdopt true tok msg → tok ≠ "" →
  let s' := (handleAdopt enc e r s).1 in
  ct_adopted s' = true ∧ ct_claimCode s' = "" ∧ ct_adoptedBy s' = adoptIP r ∧ tok = ct_token s' ∧
  (∀ e2 r2, (handleAdopt enc e2 r2 s').1 = s' ∧ ∀ tok2 msg2, mr_body (handleAdopt enc e2 r2 s').2 = BAdopt true tok2 msg2 → tok2 = "") ∧
  (ct_stateFile s ≠ "" → c_writeFails e = None →
   ∀ e3 rnd host id tok3 version started,
     let s3 := ConfigureAdoption enc dec e3 rnd host (ct_stateFile s) id (NewServerWithBlocklist tok3 version started (ct_files s')) in
     ct_adopted s3 = true ∧ ct_token s3 = tok ∧ ct_adoptedBy s3 = adoptIP r ∧ ct_claimCode s3 = "").
Proof.
  intros Hrt Hb Hne s'. subst s'. pose proof (handleAdopt_case enc e r s) as Hc.
  destruct (handleAdopt enc e r s) as [s' resp] eqn:Hh. cbn [fst snd] in *.
  destruct Hc as [resp Ht|?|code ? ? ? ?|code Had Hm _ _ _]; [congruence|by injection Hb as <-|done|].
  injection Hb as <- <-. set (s1 := put_adoption true "" (ct_adoptFails s) (adoptIP r) s).
  destruct (persistAdopted_fields enc e s1) as (Ha & Hcode & Hby & Htok & Hfiles). cbn [ct_adopted s1 put_adoption] in Ha.
  split_and!; try done.
  - intros e2 r2. pose proof (handleAdopt_case enc e2 r2 (persistAdopted enc e true s1)) as H2.
    destruct (handleAdopt enc e2 r2 _) as [s2 resp2]. cbn [fst snd] in *.
    destruct H2 as [resp2 Ht|?|code2 H0 ? ? ?|code2 H0 ? ? ? ?]; [split; [done|congruence]| |congruence|congruence].
    split; [done|]. by intros ? ? [= <- _].
  - intros Hf Hw e3 rnd host id tok3 version started. rewrite Hfiles by done.
    unfold ConfigureAdoption. apply str_eqb_neq in Hf. rewrite Hf. cbn [ct_files put_identity NewServerWithBlocklist].
    change (ct_stateFile s1) with (ct_stateFile s). rewrite lookup_insert_eq. cbn [mbind option_bind]. rewrite Hrt.
    apply str_eqb_neq in Hne. change (ct_token s1) with (ct_token s). by rewrite Hne.
Qed.

(** A concrete encoding of the state file that round-trips. *)
#[export] Instance adopt_state_eq_dec : EqDecision adopt_state.
Proof. solve_decision. Defined.
#[export] Instance adopt_state_countable : Countable adopt_state.
Proof.
  apply (inj_countable' (λ a, (as_adopted a, as_instanceID a, as_token a, as_controllerIP a))
           (λ '(a, b, c, d), mkAdopt a b c d)). by intros [].
Defined.
Definition state_enc (a : adopt_state) : string := bits (encode a).
Definition state_dec (s : string) : option adopt_state := decode (unbits s).
Lemma state_roundtrip a : state_dec (state_enc a) = Some a.
Proof. unfold state_dec, state_enc. rewrite unbits_bits. apply decode_encode. Qed.
Lemma control_adoption_once_witness :
  let s' := (handleAdopt state_enc (demo_cenv 0) (demo_claim "ABCDEFGH-JKLMNPQR") demo_ctl).1 in
  ct_adopted s' = true ∧
  ∀ e3 rnd host id tok3 version started,
    let s3 := ConfigureAdoption state_enc state_dec e3 rnd host (ct_stateFile demo_ctl) id
                (NewServerWithBlocklist tok3 version started (ct_files s')) in
    ct_adopted s3 = true ∧ ct_token s3 = "s3cret" ∧ ct_adoptedBy s3 = "198.51.100.7" ∧ ct_claimCode s3 = "".
Proof.
  destruct (control_adoption_once state_enc state_dec (demo_cenv 0) (demo_claim "ABCDEFGH-JKLMNPQR") demo_ctl "s3cret" ""
              state_roundtrip ltac:(vm_compute; reflexivity) ltac:(done)) as (H1 & _ & _ & _ & _ & H6).
  split; [exact H1|]. exact (H6 ltac:(done) ltac:(done)).
Defined.

(** ** Reading back what was pushed *)
Inductive push :=
| PushDoH (a : string) | PushRate (q b : Z) | PushCache (n : Z) | PushRecords (l : list RecordEntry)
| PushUpstream (sv : list UpstreamServer) (rt : list UpstreamRoute) (b : list UpstreamServer)
| PushBlocklist (domains allowed : list string).
Definition push_request (p : push) (auth peer : string) : mgmt_request :=
  let mk path a q n u l bl := mkMReq "PUT" ("/api/v1/" +:+ path) peer auth (λ _, "") None None a q n u l bl None None in
  match p with
  | PushDoH a => mk "doh" (Some a) None None None None None
  | PushRate q b => mk "ratelimit" None (Some (q, b)) None None None None
  | PushCache n => mk "cache" None None (Some n) None None None
  | PushRecords l => mk "records" None None None None (Some l) None
  | PushUpstream sv rt b => mk "upstream" None None None (Some (sv, rt, b)) None None
  | PushBlocklist d a => mk "blocklist" None None None None None (Some (d, a))
  end.
Definition stats_of {H} `{!Host H} (st : ControlServer * H) : option StatsResponse :=
  match mr_body (handleStats st) with BStats r => Some r | _ => None end.
(** The field of the statistics that stands for the pushed setting. *)
Definition reported (p : push) (r : StatsResponse) : Prop :=
  match p with
  | PushDoH a => st_DohHTTPAddr r = a
  | PushRate q _ => st_RateLimitQPS r = q
  | PushCache n => st_CacheSize r = n
  | PushRecords l => st_RecordsHash r = RecordsHash (filter kept_record l)
  | PushUpstream sv rt b => st_UpstreamServers r = sv ∧ st_UpstreamRoutes r = rt ∧ st_BootstrapServers r = b
  | PushBlocklist d a =>
      let b := SetAllowed a (FromDomains d Blocklist.New) in
      st_BlocklistCount r = Count b ∧ st_BlocklistHash r = Checksum b ∧ st_Cached r = 0
  end.
Definition all_wired (s : ControlServer) : Prop :=
  wi_DoH (ct_ctrls s) = true ∧ wi_RateLimit (ct_ctrls s) = true ∧ wi_Cache (ct_ctrls s) = true
  ∧ wi_Records (ct_ctrls s) = true ∧ wi_Upstream (ct_ctrls s) = true.

Lemma auth_status r s a : auth r s = Some a → mr_status a ≠ 200.
Proof. unfold auth. repeat case_match; intros [= <-]; done. Qed.

Section Readback.
Context {H : Type} `{!Host H} (good : H → Prop) `{!HostLaws H good}.

Definition push_handler (p : push) : cenv → mgmt_request → ControlServer * H → ControlServer * H * mgmt_response :=
  match p with
  | PushDoH _ => λ _ r st, handleDoH r st
  | PushRate _ _ => λ _ r st, handleRateLimit r st
  | PushCache _ => λ _ r st, handleCache r st
  | PushRecords _ => λ _ r st, handleRecords r st
  | PushUpstream _ _ _ => λ _ r st, handleUpstream r st
  | PushBlocklist _ _ => λ _ r st, handleBlocklist r st
  end.
Lemma push_endpoint enc p tok peer : endpoint enc (mq_Path (push_request p tok peer)) = Some (true, push_handler p).
Proof. by destruct p. Qed.

(** An acknowledged call of a controller succeeded. *)
Lemma reply_ok s r msg code : code ≠ 200 → mr_status (reply (H := H) s r msg code).2 = 200 → r.2 = None ∧ (reply s r msg code).1 = (s, r.1).
Proof. by destruct r as [h [e|]]. Qed.

Lemma push_get p tok peer : is_method (push_request p tok peer) "GET" = false.
Proof. by destruct p. Qed.
Lemma push_write p tok peer : is_write (push_request p tok peer) = true.
Proof. by destruct p. Qed.
(** The statistics when everything is wired. *)
Lemma stats_wired s h :
  all_wired s →
  ∃ r, stats_of (s, h) = Some r ∧ st_DohHTTPAddr r = h_DoHHTTPAddr h ∧ st_RateLimitQPS r = h_RateLimitQPS h
    ∧ st_CacheSize r = h_CacheSize h ∧ st_RecordsHash r = RecordsHash (h_GetRecords h)
    ∧ (st_UpstreamServers r, st_UpstreamRoutes r, st_BootstrapServers r) = h_Upstream h ∧ st_Cached r = h_cacheLen h
    ∧ (∀ b, h_blocklist h = Some b → st_BlocklistCount r = Count b ∧ st_BlocklistHash r = Checksum b).
Proof.
  intros (W1 & W2 & W3 & W4 & W5). unfold stats_of, handleStats, addUpstreamStats. rewrite W1, W2, W3, W4, W5.
  destruct (h_Upstream h) as [[sv rt] b]. eexists. split; [reflexivity|]. cbn. split_and!; try done.
  by intros b' ->.
Qed.
(** Rebuilding the blocklist forgets what it held. *)
Lemma rebuild_blocklist d a b : SetAllowed a (FromDomains d b) = SetAllowed a (FromDomains d Blocklist.New).
Proof.
  unfold SetAllowed, FromDomains, FromDomainsMap, swap.
  destruct (foldl (load_step "") _ _) as [[? ?] ?]. by destruct (foldl (load_step "allow:") _ _) as [[? ?] ?].
Qed.

Lemma push_blocklist_reported s h d a b :
  good h → all_wired s → bl_reachable b →
  let s' := if str_eqb (ct_blocklistCachePath s) "" then s else spawn (BgSaveBlocklist (ct_blocklistCachePath s)) s in
  ∃ r, stats_of (s', h_purge (h_put_blocklist (SetAllowed a (FromDomains d b)) h)) = Some r ∧ reported (PushBlocklist d a) r.
Proof.
  intros Hg Hw Hb s'. assert (all_wired s') as Hw' by (subst s'; by destruct (str_eqb _ _)).
  assert (bl_reachable (SetAllowed a (FromDomains d b))) as Hb'
    by exact (blr_step (OpSetAllowed a) _ (blr_step (OpFrom d) _ Hb)).
  destruct (hl_blocklist _ h Hg Hb') as [Hg1 H1]. destruct (hl_purge _ Hg1) as (_ & Hlen & H2). rewrite H1 in H2.
  destruct (stats_wired s' (h_purge (h_put_blocklist (SetAllowed a (FromDomains d b)) h)) Hw')
    as (r & Hr & _ & _ & _ & _ & _ & Hc & Hbl).
  destruct (Hbl _ H2) as [Hn Hh]. exists r. split; [done|]. cbn [reported]. rewrite <-(rebuild_blocklist d a b).
  split_and!; [done..|]. by rewrite Hc.
Qed.

Lemma push_reported e p tok peer s h :
  good h → all_wired s →
  let res := push_handler p e (push_request p tok peer) (s, h) in
  mr_status res.2 = 200 → ∃ r, stats_of res.1 = Some r ∧ reported p r.
Proof.
  intros Hg Hw res. subst res. pose proof Hw as (W1 & W2 & W3 & W4 & W5).
  destruct p as [a|q b|n|l|sv rt b|d a]; cbn [push_handler].
  - unfold handleDoH. rewrite W1, push_get, push_write. cbn [negb push_request mq_httpAddr].
    destruct (negb (str_eqb a "") && _); [done|]. intros Hs. apply reply_ok in Hs as [Hn ->]; [|done].
    destruct (h_SetDoHHTTPAddr a h) as [h' o] eqn:Hset. cbn in Hn. subst o. apply hl_doh in Hset as [_ Hd]; [|done].
    destruct (stats_wired s h' Hw) as (r & Hr & H1 & _). exists r. split; [done|]. cbn. congruence.
  - unfold handleRateLimit. rewrite W2, push_get, push_write. cbn [negb push_request mq_rate].
    destruct (q <? 0) eqn:Hq; [done|]. intros _. bools. cbn [fst].
    destruct (hl_rate q (if b <? 0 then 0 else b) h Hg Hq) as [_ Hd].
    destruct (stats_wired s (h_SetRateLimit q (if b <? 0 then 0 else b) h) Hw) as (r & Hr & _ & H2 & _). exists r. split; [done|]. cbn. by rewrite H2, Hd.
  - unfold handleCache. rewrite W3, push_get, push_write. cbn [negb push_request mq_size].
    destruct (n <? 0); [done|]. intros Hs. apply reply_ok in Hs as [Hn ->]; [|done].
    destruct (h_SetCacheConfig n h) as [h' o] eqn:Hset. cbn in Hn. subst o. apply hl_cache in Hset as [_ Hd]; [|done].
    destruct (stats_wired s h' Hw) as (r & Hr & _ & _ & H3 & _). exists r. split; [done|]. cbn. congruence.
  - unfold handleRecords. rewrite W4, push_get, push_write. cbn [negb push_request mq_records fst]. intros _.
    destruct (hl_records l h Hg) as [_ Hd].
    destruct (stats_wired s (h_SetRecords l h) Hw) as (r & Hr & _ & _ & _ & H4 & _). exists r. split; [done|]. cbn.
    rewrite H4. by apply RecordsHash_perm.
  - unfold handleUpstream. rewrite W5, push_get, push_write. cbn [negb push_request mq_upstream].
    intros Hs. apply reply_ok in Hs as [Hn ->]; [|done].
    destruct (h_SetUpstream sv rt b h) as [h' o] eqn:Hset. cbn in Hn. subst o. apply hl_upstream in Hset as [_ Hd]; [|done].
    destruct (stats_wired s h' Hw) as (r & Hr & _ & _ & _ & _ & H5 & _). exists r. split; [done|]. cbn.
    rewrite Hd in H5. by injection H5 as -> -> ->.
  - unfold handleBlocklist. rewrite push_write. cbn [negb push_request mq_blocklist].
    destruct (h_blocklist h) as [b|] eqn:Hb; [|done]. intros _. cbn [fst]. apply push_blocklist_reported; [done|done|].
    by eapply hl_reachable.
Qed.
End Readback.

(** C14: A setting that was pushed and acknowledged is the one the instance
    reports: after a push answered with status 200, the statistics carry the
    plain-HTTP address, rate limit, cache size, upstream pool, and the
    checksums of the blocklist and of the local records that were pushed (and
    no cached answer survives a new blocklist).  Of the records those with a
    usable name count: one whose name is empty or "*." is acknowledged and
    dropped, so the reported checksum is that of the others.  Proved for every
    implementation of the controller interfaces that keeps their promises. *)
Theorem control_readback {H} `{!Host H} (good : H → Prop) `{!HostLaws H good} enc e p tok peer (st : ControlServer * H) :
  good st.2 → all_wired st.1 →
  mr_status (Handler enc e (push_request p tok peer) st).2 = 200 →
  ∃ r, stats_of (Handler enc e (push_request p tok peer) st).1 = Some r ∧ reported p r.
Proof.
  intros Hg Hw. unfold Handler. rewrite push_endpoint.
  destruct (auth _ st.1) eqn:Ha; [by intros ?%(auth_status _ _ _ Ha)|].
  destruct st as [s h]. by apply (push_reported good).
Qed.
