(* ===== verification/Node.v ===== *)
(** * One blipd process

    The management API of Control.v driving the modelled components: the DNS
    server (Server.v), the keepalived manager (HA.v) and the updater
    (Update.v), as cmd/blipd wires them.  [node_host] implements the interfaces
    the API is written against and [node_laws] shows that they keep their
    promises, so the theorems of Control.v hold of the real components. *)
From S2P Require Import Prelude GoStrings GoNet Filter Cache RateLimit Records Blocklist Upstream Stats Server HA Update Control.
#[local] Open Scope Z_scope.

Record Node := mkNode {
  nd_srv : Server;
  nd_ha : Manager;
  nd_fs : gmap string string;
  nd_upd : UpdateStatus;
  nd_host : host;                            (* what the host answers *)
  nd_io : ha_io;
  nd_listen : string → option string;
  nd_enc : HAConfig → string }.
Definition on_srv (f : Server → Server) (n : Node) : Node :=
  mkNode (f (nd_srv n)) (nd_ha n) (nd_fs n) (nd_upd n) (nd_host n) (nd_io n) (nd_listen n) (nd_enc n).
Definition put_ha (m : Manager) (fs : gmap string string) (n : Node) : Node :=
  mkNode (nd_srv n) m fs (nd_upd n) (nd_host n) (nd_io n) (nd_listen n) (nd_enc n).
Definition put_upd (u : UpdateStatus) (n : Node) : Node :=
  mkNode (nd_srv n) (nd_ha n) (nd_fs n) u (nd_host n) (nd_io n) (nd_listen n) (nd_enc n).

(** Running a step of the server; [panicked] would be the text of a panic,
    which the invariant excludes. *)
Definition run {A} (m : M A) (answer : A → option string) (n : Node) : Node * option string :=
  match m (nd_srv n) with
  | Some (s, a) => (on_srv (λ _, s) n, answer a)
  | None => (n, Some "panicked")
  end.
Definition exec (m : M unit) (n : Node) : Node := (run m (λ _, None) n).1.
Definition doh_error_text (e : option doh_error) : option string :=
  match e with
  | None => None
  | Some (DoHBadAddr a) => Some ("doh http addr " +:+ Quote a)
  | Some (DoHListen a text) => Some ("doh http listen " +:+ a +:+ ": " +:+ text)
  end.
Definition ha_answer (e : option ha_error) : option string := HA.error_text <$> e.
(** One of the orders in which the records may be listed. *)
Definition keys (m : gmap string (list RecordEntry)) : list string := (map_to_list m).*1.

#[export] Instance node_host : Host Node := {|
  h_store n := s_store (nd_srv n);
  h_put_store st n := on_srv (set_store st) n;
  h_blocklist n := s_blocklist (nd_srv n);
  h_put_blocklist b n := on_srv (set_blocklist (Some b)) n;
  h_cacheLen n := Z.of_nat (Len (s_cache (nd_srv n)));
  h_purge n := on_srv (λ s, set_cache (Purge (s_cache s)) s) n;
  h_counters n := s_cnt (nd_srv n);
  h_watch n := s_watch (nd_srv n);
  h_put_watch w n := on_srv (set_watch w) n;
  h_SetDoHHTTPAddr a n := run (SetDoHHTTPAddr (nd_listen n) a) doh_error_text n;
  h_DoHHTTPAddr n := DoHHTTPAddr (nd_srv n);
  h_SetRateLimit q b n := on_srv (SetRateLimit q b) n;
  h_RateLimitQPS n := RateLimitQPS (nd_srv n);
  h_SetCacheConfig k n := run (SetCacheConfig k) (λ ok, if ok : bool then None else Some "cache size must be >= 0") n;
  h_CacheSize n := CacheSize (nd_srv n);
  h_PurgeCache n := exec PurgeCache n;
  h_SetRecords l n := exec (srv_SetRecords l) n;
  h_GetRecords n := let rs := s_rec (nd_srv n) in GetRecords (keys (rs_records rs)) (keys (rs_wildcards rs)) rs;
  h_SetUpstream sv rt b n := run (SetUpstream sv rt b) (λ e, if e then Some "upstream: bad configuration" else None) n;
  h_Upstream n := Server.Upstream (nd_srv n);
  h_SetHAConfig c n :=
    let '(m, fs, e) := SetHAConfig (nd_enc n) (nd_host n) (nd_io n) c (nd_ha n) (nd_fs n) in (put_ha m fs n, ha_answer e);
  h_HAStatus n := HAStatus_of (nd_host n) (nd_fs n) (Some (us_Running (nd_upd n))) (nd_ha n);
  h_ValidateHA n := ha_answer (ValidateHA (nd_host n) (nd_io n) (nd_ha n));
  h_ApplyHA n := let '(m, fs, e) := ApplyHA (nd_host n) (nd_io n) (nd_ha n) (nd_fs n) in (put_ha m fs n, ha_answer e);
  h_DisableHA n := ha_answer DisableHA;
  h_StartUpdate ch n :=
    let '(u, e) := StartUpdate ch (nd_upd n) in (put_upd u n, if e then Some "update already running" else None);
  h_UpdateStatus n := nd_upd n |}.

Definition node_good (n : Node) : Prop := srv_inv (nd_srv n).

(** The component laws, each from the server's own theorems. *)
Lemma node_step_good n s' : node_good n → srv_step (nd_srv n) s' → node_good (on_srv (λ _, s') n).
Proof. apply srv_step_inv. Qed.
Lemma keys_enumerates m : enumerates (keys m) m.
Proof. unfold enumerates, keys. done. Qed.
Lemma Purge_len s : srv_inv s → Z.of_nat (Len (Purge (s_cache s))) = 0.
Proof. intros _. unfold Len, Purge. cbn. by rewrite map_size_empty. Qed.

Lemma node_records l n :
  node_good n →
  node_good (h_SetRecords l n) ∧ h_GetRecords (h_SetRecords l n) ≡ₚ filter kept_record l.
Proof.
  intros Hg. split; [by eapply srv_step_inv, (ss_records _ l)|].
  cbn. unfold GetRecords. rewrite !flatten_all by apply keys_enumerates. by rewrite SetRecords_all.
Qed.
Lemma node_cache k n n' :
  node_good n → h_SetCacheConfig k n = (n', None) → node_good n' ∧ h_CacheSize n' = k.
Proof.
  intros Hg. cbn. unfold run. destruct (SetCacheConfig_ok k (nd_srv n) Hg) as (s' & ok & -> & -> & Hi & _ & Hok).
  destruct (0 <=? k); intros [= <-]. by destruct (Hok eq_refl) as [? _].
Qed.
Lemma node_doh a n n' :
  node_good n → h_SetDoHHTTPAddr a n = (n', None) → node_good n' ∧ h_DoHHTTPAddr n' = a.
Proof.
  intros Hg. cbn. unfold run.
  destruct (SetDoHHTTPAddr_ok (nd_listen n) a (nd_srv n)) as (s' & er & Hrun & p & addr & Hs & _ & Hok & _).
  rewrite Hrun. destruct er as [[]|]; [done..|]. intros [= <-]. split.
  - by eapply srv_step_inv, ss_plain.
  - cbn. rewrite Hs. by apply Hok.
Qed.
Lemma pool_config sv rt up b p :
  NewPoolWithBootstrap sv rt up b = Ok p → Servers p = sv ∧ Routes p = rt ∧ Bootstrap p = b.
Proof.
  unfold NewPoolWithBootstrap, mbind, res_mbind, res_bind. repeat (case_match; [|done]). by intros [= <-].
Qed.
Lemma node_upstream sv rt b n n' :
  node_good n → h_SetUpstream sv rt b n = (n', None) → node_good n' ∧ h_Upstream n' = (sv, rt, b).
Proof.
  intros Hg. cbn. unfold run. destruct (SetUpstream sv rt b (nd_srv n)) as [[s' er]|] eqn:Hrun; [|done].
  destruct er; [done|]. intros [= <-]. split; [by eapply srv_step_inv, ss_upstream|].
  unfold SetUpstream in Hrun. rewrite run_get in Hrun.
  destruct (NewPoolWithBootstrap _ _ _ _) as [p|] eqn:Hp; [|done]. injection Hrun as <-. cbn.
  by apply pool_config in Hp as (-> & -> & ->).
Qed.
#[export] Instance node_laws : HostLaws Node node_good.
Proof.
  split.
  - exact node_doh.
  - intros q b n Hg Hq. split; [by eapply srv_step_inv, ss_rate|]. cbn. unfold RateLimitQPS, rl_qps. cbn. destruct (q <? 0) eqn:E; bools; [lia|done].
  - exact node_cache.
  - exact node_records.
  - exact node_upstream.
  - intros b n Hg. apply (si_bl _ Hg).
  - intros b n Hg Hb. split; [by eapply srv_step_inv, ss_blocklist|done].
  - intros n Hg. split_and!; [by eapply srv_step_inv, (ss_purge _ _ ())|by apply Purge_len|done].
Qed.

(** ** Every management request keeps the invariants of every component *)
Lemma node_watch_good w n : node_good n → watch_wf w → node_good (h_put_watch w n).
Proof. intros Hg Hw. pose proof Hg as []. by eapply srv_inv_other. Qed.
Lemma node_store_good st n : node_good n → store_reachable st → node_good (h_put_store st n).
Proof. intros Hg Hs. by eapply srv_step_inv, ss_policies. Qed.
Lemma run_good {A} (m : M A) f n :
  node_good n → (∀ s' a, m (nd_srv n) = Some (s', a) → srv_inv s') → node_good (run m f n).1.
Proof. intros Hg Hm. unfold run. destruct (m (nd_srv n)) as [[s' a]|] eqn:E; [by eapply Hm|done]. Qed.
Lemma reply_good s (r : Node * option string) msg code : node_good r.1 → node_good (reply s r msg code).1.2.
Proof. by destruct r as [n [e|]]. Qed.
Lemma watch_good n : node_good n → watch_wf (h_watch n).
Proof. by intros []. Qed.
Lemma handlePolicy_good e r (st : ControlServer * Node) : node_good st.2 → node_good (handlePolicy e r st).1.2.
Proof.
  destruct st as [s n]. intros Hg. unfold handlePolicy. destruct (is_write r).
  - destruct (mq_policy r) as [p|]; [|done].
    destruct (if str_eqb (wp_ID p) "default" then _ else _) as [store|er] eqn:Hst; [|done].
    apply node_watch_good; [|apply Notify_wf; by destruct Hg]. apply node_store_good; [done|].
    pose proof (si_store _ Hg). destruct (str_eqb _ _); [injection Hst as <-; by constructor|by eapply reach_set].
  - destruct (is_method r "DELETE"); [|done]. destruct (str_eqb _ ""); [done|]. cbn [fst snd].
    apply node_store_good; [done|]. pose proof (si_store _ Hg). by constructor.
Qed.
Lemma handleBlocklist_good r (st : ControlServer * Node) : node_good st.2 → node_good (handleBlocklist r st).1.2.
Proof.
  destruct st as [s n]. intros Hg. unfold handleBlocklist. destruct (negb (is_write r)); [done|].
  destruct (h_blocklist n) as [b|] eqn:Hb; [|done]. destruct (mq_blocklist r) as [[d a]|]; [|done].
  cbn [fst snd]. apply (hl_purge (good := node_good)). apply (hl_blocklist (good := node_good)); [done|].
  exact (blr_step (OpSetAllowed a) _ (blr_step (OpFrom d) _ (hl_reachable (good := node_good) b n Hg Hb))).
Qed.
Lemma node_handler_good enc e r (st : ControlServer * Node) :
  node_good st.2 → node_good (Handler enc e r st).1.2.
Proof.
  intros Hg. unfold Handler. destruct (endpoint enc (mq_Path r)) as [[b h]|] eqn:He; [|done].
  assert (node_good (h e r st).1.2) as Hh; [|by destruct b; [destruct (auth r st.1)|]].
  revert He. unfold endpoint. destruct st as [s n].
  repeat (destruct (str_eqb (mq_Path r) _); [intros [= _ <-]|]); try done.
  - by apply handlePolicy_good.
  - by apply handleBlocklist_good.
  - unfold handleDoH. repeat (case_match; try done). apply reply_good, run_good; [done|].
    intros s' a Hs. by eapply srv_step_inv, ss_plain.
  - unfold handleRateLimit. repeat (case_match; try done); by eapply srv_step_inv, ss_rate.
  - unfold handleUpstream. repeat (case_match; try done). apply reply_good, run_good; [done|].
    intros s' a Hs. by eapply srv_step_inv, ss_upstream.
  - unfold handleCache. repeat (case_match; try done). apply reply_good, run_good; [done|].
    intros s' a Hs. by eapply srv_step_inv, ss_cache.
  - unfold handleCachePurge. repeat (case_match; try done). by eapply srv_step_inv, (ss_purge _ _ ()).
  - unfold handleRecords. repeat (case_match; try done); by eapply srv_step_inv, (ss_records _ _ _ ()).
  - unfold handleHAConfig. repeat (case_match; try done). apply reply_good. cbn. by repeat case_match.
  - unfold handleHAApply. repeat (case_match; try done). apply reply_good. cbn. by repeat case_match.
  - unfold handleUpdate. repeat (case_match; try done). apply reply_good. cbn. by repeat case_match.
  - unfold handleRestart. by repeat case_match.
  - unfold handleWatch. case_match; [done|]. apply node_watch_good; [done|]. apply watch_open_wf, watch_good, Hg.
  - cbn [fst]. by destruct (handleAdopt enc e r s).
  - cbn [fst]. by destruct (handleAdoptReset enc e r s).
Qed.

(** ** Witnesses for the theorems of Control.v, at this process *)
Definition demo_node : Node :=
  mkNode demo_server (mkMgr empty_ha "/etc/k.conf" "/var/s.json" "" None) ∅ no_update demo_host demo_io (λ _, None) HA.demo_enc.
Definition demo_wired : ControlServer :=
  mkCtl "s3cret" "v1" 0 "" true "" "" "node1" ∅ "198.51.100.7" (mkWired true true true true true true true) ∅ [].


Lemma control_readback_witness :
  let p := PushRate 50 0 in
  ∃ r, stats_of (Handler state_enc (demo_cenv 0) (push_request p "Bearer s3cret" "198.51.100.7:4000") (demo_wired, demo_node)).1 = Some r
    ∧ reported p r.
Proof.
  apply (control_readback node_good state_enc (demo_cenv 0) (PushRate 50 0) "Bearer s3cret" "198.51.100.7:4000" (demo_wired, demo_node)).
  - exact demo_inv.
  - unfold all_wired. by split_and!.
  - vm_compute. reflexivity.
Defined.
