(* ===== verification/Cert.v ===== *)
(** * The certificate of the DoH listener

    internal/certgen/certgen.go: a self-signed certificate for the names and
    addresses of the host, kept on disk and reused while it still covers them.
    The crypto library and the PEM codec are [X509], an interface with the laws
    the code relies on; what the host and the file system answer are
    arguments.  A [time.Time] is nanoseconds, a nil byte slice the empty
    string. *)
From S2P Require Import Prelude GoStrings GoNet HA.
#[local] Open Scope Z_scope.

(** [validity]. *)
Definition validity : Z := 10 * 365 * 24 * (3600 * 10 ^ 9).

(** ** The crypto library *)
(** What the code uses of [x509.Certificate]; a template has no key yet. *)
Record Template := mkTemplate { t_NotBefore : Z; t_NotAfter : Z; t_DNSNames : list string; t_IPAddresses : list IP }.
Record Certificate (pub : Type) := mkCert {
  c_NotBefore : Z; c_NotAfter : Z; c_DNSNames : list string; c_IPAddresses : list IP; c_PublicKey : pub }.
Arguments mkCert {pub}. Arguments c_NotBefore {pub}. Arguments c_NotAfter {pub}. Arguments c_DNSNames {pub}.
Arguments c_IPAddresses {pub}. Arguments c_PublicKey {pub}.
Class X509 := {
  pub : Type;
  key : Type;
  pub_eq_dec :: EqDecision pub;
  Public : key → pub;
  CreateCertificate : Template → key → res string string;
  ParseCertificate : string → res string (Certificate pub);
  MarshalECPrivateKey : key → res string string;
  ParseECPrivateKey : string → option key;
  ParsePKCS8PrivateKey : string → option (option key);    (* [Some None]: a key without a public half *)
  pem_Encode : string → string → string;
  pem_Decode : string → option (string * string) }.
(** The encodings can be read back; a certificate keeps whole seconds and
    either form of an IPv4 address. *)
Class X509Laws `{X509} := {
  pem_round : ∀ t d, t = "CERTIFICATE" ∨ t = "EC PRIVATE KEY" → pem_Decode (pem_Encode t d) = Some (t, d);
  key_round : ∀ k d, MarshalECPrivateKey k = Ok d → ParseECPrivateKey d = Some k;
  cert_round : ∀ t k d, CreateCertificate t k = Ok d →
    ∃ c, ParseCertificate d = Ok c ∧ c_DNSNames c = t_DNSNames t
      ∧ Forall2 (λ got ip, ip_equal got ip = true) (c_IPAddresses c) (t_IPAddresses t)
      ∧ c_NotAfter c = t_NotAfter t - t_NotAfter t mod 10 ^ 9 ∧ c_PublicKey c = Public k }.

(** ** The host *)
Inductive net_addr := AIPNet (n : IPNet) | AIPAddr (ip : IP) | AOther.
Record iface := mkIface { if_up : bool; if_addrs : option (list net_addr) }.
Record machine := mkMachine { ma_Hostname : option string; ma_Interfaces : option (list iface) }.
Definition hostname (h : machine) : string := default "" (ma_Hostname h).
Definition addr_ip (a : net_addr) : IP := match a with AIPNet n => net_ip n | AIPAddr ip => ip | AOther => [] end.
Definition iface_ips (i : iface) : list IP :=
  if negb (if_up i) then []
  else match if_addrs i with
       | None => []
       | Some l => filter (λ ip, negb (bool_decide (ip = [])) && negb (IsLoopback ip) = true) (addr_ip <$> l)
       end.
Definition localIPs (h : machine) : list IP :=
  match ma_Interfaces h with None => [] | Some l => l ≫= iface_ips end.

(** ** The names *)
Section Dedupe.
Context {T : Type} (k : T → option string).
Fixpoint dedupe_go (seen : list string) (l : list T) : list T :=
  match l with
  | [] => []
  | v :: l =>
      match k v with
      | None => dedupe_go seen l
      | Some s => if bool_decide (s ∈ seen) then dedupe_go seen l else v :: dedupe_go (s :: seen) l
      end
  end.
Definition dedupe (l : list T) : list T := dedupe_go [] l.
End Dedupe.
Definition dedupeStrings : list string → list string := dedupe (λ s, if str_eqb s "" then None else Some s).
Definition dedupeIPs : list IP → list IP := dedupe (λ ip, if bool_decide (ip = []) then None else Some (ip_string ip)).
(** An extra host is an address or a name. *)
Definition extra_names (extra : list string) : list string :=
  extra ≫= λ h, let h := TrimSpace h in if str_eqb h "" then [] else match ParseIP_opt h with Some _ => [] | None => [h] end.
Definition extra_ips (extra : list string) : list IP :=
  extra ≫= λ h, let h := TrimSpace h in if str_eqb h "" then [] else match ParseIP_opt h with Some ip => [ip] | None => [] end.
Definition expectedSANs (h : machine) (extra : list string) : list string * list IP :=
  let names := ["localhost"] ++ (if str_eqb (hostname h) "" then [] else [hostname h]) ++ extra_names extra in
  let ips := [ParseIP "127.0.0.1"; ParseIP "::1"] ++ extra_ips extra ++ localIPs h in
  (dedupeStrings names, dedupeIPs ips).

(** ** Files *)
Record File := mkFile { f_data : string; f_mode : Z }.
Notation Files := (gmap string File).
(** What goes wrong: an unreadable path; the error of making a directory; the
    error of a write with what it leaves of the file ([None]: untouched); the
    error of a chmod. *)
Record disk := mkDisk {
  dk_unreadable : string → option string;
  dk_mkdir : string → option string;
  dk_write : string → option (string * option string);
  dk_chmod : string → option string;
  dk_umask : Z }.
Definition ReadFile (d : disk) (p : string) (fs : Files) : res string string :=
  match dk_unreadable d p with
  | Some e => Err e
  | None => match fs !! p with Some f => Ok (f_data f) | None => Err ("open " +:+ p +:+ ": no such file or directory") end
  end.
(** The mode only applies to a file that is created. *)
Definition put_file (d : disk) (p data : string) (perm : Z) (fs : Files) : Files :=
  <[p := mkFile data (match fs !! p with Some f => f_mode f | None => Z.land perm (Z.lnot (dk_umask d)) end)]> fs.
Definition WriteFile (d : disk) (p data : string) (perm : Z) (fs : Files) : Files * option string :=
  match dk_write d p with
  | None => (put_file d p data perm fs, None)
  | Some (e, None) => (fs, Some e)
  | Some (e, Some rest) => (put_file d p rest perm fs, Some e)
  end.
Definition Chmod (d : disk) (p : string) (mode : Z) (fs : Files) : Files * option string :=
  match dk_chmod d p with
  | Some e => (fs, Some e)
  | None => match fs !! p with
            | Some f => (<[p := mkFile (f_data f) mode]> fs, None)
            | None => (fs, Some ("chmod " +:+ p +:+ ": no such file or directory"))
            end
  end.

Section Cert.
Context `{X509}.
(** What making a pair meets: the key or the error of its generation, the
    error of the serial number, two readings of the clock. *)
Record gen_env := mkGen { ge_key : res string key; ge_serial : option string; ge_now1 : Z; ge_now2 : Z }.
Definition template (g : gen_env) (h : machine) (extra : list string) : Template :=
  let '(dnsNames, ipAddrs) := expectedSANs h extra in
  mkTemplate (ge_now1 g - 3600 * 10 ^ 9) (ge_now2 g + validity) dnsNames ipAddrs.
Definition Generate (g : gen_env) (h : machine) (extra : list string) : res string (string * string) :=
  match ge_key g with
  | Err e => Err e
  | Ok k =>
      match ge_serial g with
      | Some e => Err e
      | None =>
          match CreateCertificate (template g h extra) k with
          | Err e => Err e
          | Ok der =>
              let certPEM := pem_Encode "CERTIFICATE" der in
              match MarshalECPrivateKey k with
              | Err e => Err e
              | Ok keyDER => Ok (certPEM, pem_Encode "EC PRIVATE KEY" keyDER)
              end
          end
      end
  end.
(** [missingSANs]: the first name or address that is not covered, or [""]. *)
Definition missingSANs (cert : Certificate pub) (h : machine) (extra : list string) : string :=
  let '(wantNames, wantIPs) := expectedSANs h extra in
  match List.find (λ n, negb (bool_decide (n ∈ c_DNSNames cert))) wantNames with
  | Some n => n
  | None =>
      match List.find (λ ip, negb (existsb (λ got, ip_equal got ip) (c_IPAddresses cert))) wantIPs with
      | Some ip => ip_string ip
      | None => ""
      end
  end.
Definition parsePrivateKey (der : string) : res string key :=
  match ParseECPrivateKey der with
  | Some k => Ok k
  | None =>
      match ParsePKCS8PrivateKey der with
      | Some (Some k) => Ok k
      | Some None => Err "unsupported private key type"
      | None => Err "unsupported private key encoding"
      end
  end.
Definition load (d : disk) (now : Z) (h : machine) (certPath keyPath : string) (extra : list string) (fs : Files)
    : res string (string * string) :=
  match ReadFile d certPath fs with
  | Err e => Err e
  | Ok certPEM =>
      match ReadFile d keyPath fs with
      | Err e => Err e
      | Ok keyPEM =>
          match pem_Decode certPEM with
          | None => Err ("self-signed cert: no certificate PEM in " +:+ certPath)
          | Some (t, der) =>
              if negb (str_eqb t "CERTIFICATE") then Err ("self-signed cert: no certificate PEM in " +:+ certPath)
              else match ParseCertificate der with
              | Err e => Err ("self-signed cert: parse " +:+ certPath +:+ ": " +:+ e)
              | Ok cert =>
                  if c_NotAfter cert <? now then Err "self-signed cert: expired"
                  else
                    let missing := missingSANs cert h extra in
                    if negb (str_eqb missing "") then Err ("self-signed cert: does not cover " +:+ missing)
                    else
                      match pem_Decode keyPEM with
                      | None => Err ("self-signed key: no key PEM in " +:+ keyPath)
                      | Some (_, kder) =>
                          match parsePrivateKey kder with
                          | Err e => Err ("self-signed key: " +:+ e)
                          | Ok k =>
                              if bool_decide (Public k = c_PublicKey cert) then Ok (certPEM, keyPEM)
                              else Err "self-signed cert: key does not match certificate"
                          end
                      end
              end
          end
      end
  end.
Record ensured := mkEnsured { en_cert : string; en_key : string; en_persisted : bool; en_err : option string }.
Definition EnsureFiles (d : disk) (now : Z) (g : gen_env) (h : machine) (certPath keyPath : string) (extra : list string) (fs : Files)
    : Files * ensured :=
  let paths := negb (str_eqb certPath "") && negb (str_eqb keyPath "") in
  match (if paths then load d now h certPath keyPath extra fs else Err "") with
  | Ok (c, k) => (fs, mkEnsured c k true None)
  | Err _ =>
      match Generate g h extra with
      | Err e => (fs, mkEnsured "" "" false (Some e))
      | Ok (certPEM, keyPEM) =>
          let ephemeral := mkEnsured certPEM keyPEM false in
          if negb paths then (fs, ephemeral None)
          else match dk_mkdir d (Dir certPath) with
          | Some e => (fs, ephemeral (Some ("self-signed cert: mkdir " +:+ Dir certPath +:+ ": " +:+ e)))
          | None =>
              match WriteFile d certPath certPEM 420 fs with        (* 0o644 *)
              | (fs, Some e) => (fs, ephemeral (Some ("self-signed cert: write " +:+ certPath +:+ ": " +:+ e)))
              | (fs, None) =>
                  match WriteFile d keyPath keyPEM 384 fs with      (* 0o600 *)
                  | (fs, Some e) => (fs, ephemeral (Some ("self-signed key: write " +:+ keyPath +:+ ": " +:+ e)))
                  | (fs, None) =>
                      match Chmod d keyPath 384 fs with
                      | (fs, Some e) => (fs, ephemeral (Some ("self-signed key: chmod " +:+ keyPath +:+ ": " +:+ e)))
                      | (fs, None) => (fs, mkEnsured certPEM keyPEM true None)
                      end
                  end
              end
          end
      end
  end.
(** [EnsurePair]; [pair] is [tls.X509KeyPair]. *)
Definition EnsurePair {P} (pair : string → string → res string P) (d : disk) (now : Z) (g : gen_env) (h : machine)
    (certPath keyPath : string) (extra : list string) (fs : Files) : Files * res string P :=
  let '(fs, r) := EnsureFiles d now g h certPath keyPath extra fs in
  (fs, match en_err r with Some e => Err e | None => pair (en_cert r) (en_key r) end).
End Cert.
Arguments gen_env {_}.

(** ** The names, as a set *)
Section DedupeFacts.
Context {T : Type} (k : T → option string).
Lemma dedupe_go_keys seen l s :
  (∃ v, v ∈ dedupe_go k seen l ∧ k v = Some s) ↔ (∃ v, v ∈ l ∧ k v = Some s) ∧ s ∉ seen.
Proof.
  revert seen. induction l as [|v l IH]; intros seen; cbn.
  - split; [intros (? & []%not_elem_of_nil & _)|intros [(? & []%not_elem_of_nil & _) _]].
  - destruct (k v) as [s'|] eqn:Hv.
    + destruct (bool_decide_reflect (s' ∈ seen)) as [Hs|Hs].
      * rewrite IH. split; intros [(u & Hu & Hk) Hn]; (split; [|done]); [exists u; by split; [right|]|].
        apply elem_of_cons in Hu as [->|Hu]; [congruence|by exists u].
      * split.
        -- intros (u & [->|Hu]%elem_of_cons & Hk); [split; [exists v; by split; [left|]|congruence]|].
           destruct (proj1 (IH (s' :: seen)) (ex_intro _ u (conj Hu Hk))) as [(u' & Hu' & Hk') Hn].
           split; [exists u'; by split; [right|]|]. intros Hin. apply Hn. by right.
        -- intros [(u & [->|Hu]%elem_of_cons & Hk) Hn]; [exists v; by split; [left|]|].
           destruct (decide (s = s')) as [->|Hne]; [exists v; by split; [left|]|].
           destruct (proj2 (IH (s' :: seen))) as (u' & Hu' & Hk'); [|exists u'; by split; [right|]].
           split; [by exists u|]. intros [->|]%elem_of_cons; congruence.
    + rewrite IH. split; intros [(u & Hu & Hk) Hn]; (split; [|done]); [exists u; by split; [right|]|].
      apply elem_of_cons in Hu as [->|Hu]; [congruence|by exists u].
Qed.
Lemma dedupe_keys l s : (∃ v, v ∈ dedupe k l ∧ k v = Some s) ↔ ∃ v, v ∈ l ∧ k v = Some s.
Proof. unfold dedupe. rewrite dedupe_go_keys. split; [by intros [? _]|]. intros ?. split; [done|apply not_elem_of_nil]. Qed.
Lemma dedupe_go_sub seen l v : v ∈ dedupe_go k seen l → v ∈ l ∧ is_Some (k v).
Proof.
  revert seen. induction l as [|u l IH]; intros seen; cbn; [by intros ?%not_elem_of_nil|].
  destruct (k u) as [s|] eqn:Hu; [destruct (bool_decide _)|]; [..|].
  - intros [??]%IH. split; [by right|done].
  - intros [->|[??]%IH]%elem_of_cons; (split; [|by eauto]); [by left|by right].
  - intros [??]%IH. split; [by right|done].
Qed.
End DedupeFacts.

(** ** What a pair guarantees *)
(** The names and addresses that the host serves. *)
Definition served_name (h : machine) (extra : list string) (n : string) : Prop :=
  n = "localhost" ∨ n = hostname h ∧ n ≠ "" ∨ n ≠ "" ∧ ParseIP_opt n = None ∧ n ∈ TrimSpace <$> extra.
Definition served_ip (h : machine) (extra : list string) (ip : IP) : Prop :=
  ip = ParseIP "127.0.0.1" ∨ ip = ParseIP "::1" ∨ (∃ x, x ∈ extra ∧ TrimSpace x ≠ "" ∧ ParseIP_opt (TrimSpace x) = Some ip ∧ ip ≠ [])
  ∨ ∃ l i a, ma_Interfaces h = Some l ∧ i ∈ l ∧ if_up i = true ∧ a ∈ default [] (if_addrs i) ∧ addr_ip a = ip ∧ ip ≠ [] ∧ IsLoopback ip = false.
Lemma expected_names h extra n : n ∈ (expectedSANs h extra).1 ↔ served_name h extra n.
Proof.
  unfold expectedSANs. cbn [fst]. set (l := _ ++ _).
  assert (n ∈ dedupeStrings l ↔ n ∈ l ∧ n ≠ "") as ->.
  { pose proof (dedupe_keys (λ s, if str_eqb s "" then None else Some s) l n) as Hd. unfold dedupeStrings.
    assert (∀ s v, (if str_eqb v "" then None else Some v) = Some s ↔ v = s ∧ v ≠ "") as Hk.
    { intros s v. destruct (str_eqb v "") eqn:E; [apply str_eqb_eq in E; naive_solver|apply str_eqb_neq in E; naive_solver]. }
    setoid_rewrite Hk in Hd. split.
    - intros Hn. pose proof (dedupe_go_sub _ _ _ _ Hn) as [Hl [s [-> Hne]%Hk]]. done.
    - intros [Hl Hne]. destruct (proj2 Hd) as (v & Hv & -> & _); [by exists n|done]. }
  unfold l, extra_names, served_name. rewrite !elem_of_app, list_elem_of_singleton, list_elem_of_bind.
  assert (n ∈ (if str_eqb (hostname h) "" then [] else [hostname h]) ↔ n = hostname h ∧ n ≠ "") as ->.
  { destruct (str_eqb (hostname h) "") eqn:E; [apply str_eqb_eq in E; rewrite E|apply str_eqb_neq in E; rewrite list_elem_of_singleton];
      [split; [by intros ?%not_elem_of_nil|naive_solver]|naive_solver]. }
  assert ((∃ y, n ∈ (let h := TrimSpace y in if str_eqb h "" then [] else match ParseIP_opt h with Some _ => [] | None => [h] end) ∧ y ∈ extra)
    ↔ n ≠ "" ∧ ParseIP_opt n = None ∧ n ∈ TrimSpace <$> extra) as ->.
  { rewrite list_elem_of_fmap. split.
    - intros (y & Hn & Hy). cbv zeta in Hn. destruct (str_eqb (TrimSpace y) "") eqn:E; [by apply not_elem_of_nil in Hn|].
      destruct (ParseIP_opt (TrimSpace y)) eqn:Ep; [by apply not_elem_of_nil in Hn|]. apply list_elem_of_singleton in Hn as ->.
      apply str_eqb_neq in E. split_and!; [done..|]. by exists y.
    - intros (Hne & Hp & y & -> & Hy). exists y. split; [|done]. cbv zeta. apply str_eqb_neq in Hne. rewrite Hne, Hp. by left. }
  assert ("localhost" ≠ "") by done. naive_solver.
Qed.
Lemma expected_ips h extra s :
  (∃ ip, ip ∈ (expectedSANs h extra).2 ∧ ip_string ip = s) ↔ ∃ ip, served_ip h extra ip ∧ ip_string ip = s.
Proof.
  unfold expectedSANs. cbn [snd]. set (l := _ ++ _).
  assert (∀ s (v : IP), (if bool_decide (v = []) then None else Some (ip_string v)) = Some s ↔ ip_string v = s ∧ v ≠ []) as Hk.
  { intros s' v. case_bool_decide; naive_solver. }
  assert (∀ ip, served_ip h extra ip ↔ ip ∈ l ∧ ip ≠ []) as Hl.
  { intros ip. unfold l, extra_ips, localIPs, served_ip. rewrite !elem_of_app, list_elem_of_bind, elem_of_cons, list_elem_of_singleton.
    assert ((∃ y, ip ∈ (let h := TrimSpace y in if str_eqb h "" then [] else match ParseIP_opt h with Some ip => [ip] | None => [] end) ∧ y ∈ extra)
      ↔ ∃ x, x ∈ extra ∧ TrimSpace x ≠ "" ∧ ParseIP_opt (TrimSpace x) = Some ip) as ->.
    { split; intros (y & H1 & H2); exists y.
      - cbv zeta in H1. destruct (str_eqb (TrimSpace y) "") eqn:E; [by apply not_elem_of_nil in H1|]. apply str_eqb_neq in E.
        destruct (ParseIP_opt (TrimSpace y)) as [z|] eqn:Ep; [|by apply not_elem_of_nil in H1]. apply list_elem_of_singleton in H1 as ->. done.
      - destruct H2 as [Hne Hp]. split; [|done]. cbv zeta. apply str_eqb_neq in Hne. rewrite Hne, Hp. by left. }
    assert (ip ∈ match ma_Interfaces h with None => [] | Some l => l ≫= iface_ips end
      ↔ ∃ l i a, ma_Interfaces h = Some l ∧ i ∈ l ∧ if_up i = true ∧ a ∈ default [] (if_addrs i) ∧ addr_ip a = ip ∧ ip ≠ [] ∧ IsLoopback ip = false) as ->.
    { destruct (ma_Interfaces h) as [ifs|]; [|split; [by intros ?%not_elem_of_nil|naive_solver]].
      rewrite list_elem_of_bind. unfold iface_ips. split.
      - intros (i & Hi & Hin). exists ifs, i. destruct (if_up i) eqn:Eu; [|by apply not_elem_of_nil in Hi]. cbn [negb] in Hi.
        destruct (if_addrs i) as [as_|] eqn:Ea; [|by apply not_elem_of_nil in Hi]. apply list_elem_of_filter in Hi as [Hc Hi].
        apply list_elem_of_fmap in Hi as (a & -> & Ha). exists a. apply andb_true_iff in Hc as [Hc1 Hc2]. apply negb_true_iff, bool_decide_eq_false in Hc1. apply negb_true_iff in Hc2. done.
      - intros (? & i & a & [= <-] & Hi & Eu & Ha & <- & Hne & Hlo). exists i. split; [|done]. rewrite Eu. cbn [negb].
        destruct (if_addrs i) as [as_|]; [|by apply not_elem_of_nil in Ha]. apply list_elem_of_filter. split.
        + rewrite Hlo. by destruct (addr_ip a).
        + apply list_elem_of_fmap. by exists a. }
    assert (ParseIP "127.0.0.1" ≠ [] ∧ ParseIP "::1" ≠ []) by done. naive_solver. }
  pose proof (dedupe_keys (λ ip, if bool_decide (ip = []) then None else Some (ip_string ip)) l s) as Hd. unfold dedupeIPs. split.
  - intros (ip & Hin & Hs). destruct (dedupe_go_sub _ _ _ _ Hin) as [_ [s' [_ Hne]%Hk]].
    destruct (proj1 Hd) as (v & Hv & Hs'%Hk); [exists ip; by rewrite Hk|]. exists v. rewrite Hl. naive_solver.
  - intros (ip & [Hin Hne]%Hl & Hs). destruct (proj2 Hd) as (v & Hv & Hs'%Hk); [exists ip; by rewrite Hk|]. exists v. naive_solver.
Qed.
Lemma Join_ne l sep : (∃ x, x ∈ l ∧ x ≠ "") → Join l sep ≠ "".
Proof.
  intros (x & Hx & Hne). unfold Join. induction l as [|y l IH]; [by apply not_elem_of_nil in Hx|].
  destruct l as [|z l]; cbn [String.concat]; [apply list_elem_of_singleton in Hx; congruence|].
  apply elem_of_cons in Hx as [->|Hx]; [by destruct y|]. intros Hc. destruct y; [|done]. destruct sep; [|done]. cbn in Hc. by apply IH.
Qed.
Lemma pretty_N_go_ne x s : s ≠ "" → pretty_N_go x s ≠ "".
Proof.
  revert s. induction (N.lt_wf_0 x) as [x _ IH]; intros s Hs. destruct (decide (x = 0)%N) as [->|Hx]; [done|].
  rewrite pretty_N_go_step by lia. apply IH; [by apply N.div_lt; lia|done].
Qed.
Lemma Itoa_ne z : Itoa z ≠ "".
Proof.
  unfold Itoa, pretty, pretty_Z. destruct z as [|n|n]; [done| |done]. unfold pretty, pretty_positive, pretty, pretty_N.
  case_decide; [done|]. rewrite pretty_N_go_step by lia. by apply pretty_N_go_ne.
Qed.
Lemma ip_string_ne ip : ip_string ip ≠ "".
Proof.
  assert (∀ n v acc, hex_group (S n) v acc ≠ "") as Hh.
  { intros n. induction n as [|n IH]; intros v acc; cbn [hex_group]; cbv zeta; [by case_match|]. case_match; [done|]. apply IH. }
  unfold ip_string. destruct (_ =? 0)%nat eqn:E0; [done|]. destruct (To4 ip) as [[|a ip4]|] eqn:E4.
  - exfalso. unfold To4 in E4. destruct (length ip =? 4)%nat; [injection E4 as ->; done|].
    destruct (length ip =? 16)%nat eqn:E16; [|done]. apply Nat.eqb_eq in E16. destruct (bool_decide _); [|done].
    injection E4 as E4. apply (f_equal length) in E4. rewrite length_drop in E4. cbn in E4. lia.
  - apply Join_ne. exists (Itoa a). split; [by left|]. apply Itoa_ne.
  - destruct (length ip =? 16)%nat eqn:E16; [|done]. apply Nat.eqb_eq in E16. unfold ipv6_string. cbv zeta.
    destruct (best_run (groups16 ip)) as [i l]. destruct (l =? 0)%nat; [|by destruct (Join _ _)].
    do 2 (destruct ip as [|? ip]; [done|]). cbn [groups16 fmap list_fmap]. apply Join_ne. eexists. split; [by left|apply Hh].
Qed.

Section Facts.
Context `{X509}.
(** The certificate names everything the host serves. *)
Definition covers (c : Certificate pub) (h : machine) (extra : list string) : Prop :=
  (∀ n, served_name h extra n → n ∈ c_DNSNames c)
  ∧ ∀ ip, served_ip h extra ip → ∃ got ip', got ∈ c_IPAddresses c ∧ ip_equal got ip' = true ∧ ip_string ip' = ip_string ip.
(** A pair a listener can use: an unexpired certificate and its key. *)
Definition usable (h : machine) (extra : list string) (exp : Z) (certPEM keyPEM : string) : Prop :=
  ∃ der c t kder k, pem_Decode certPEM = Some ("CERTIFICATE", der) ∧ ParseCertificate der = Ok c ∧ c_NotAfter c = exp
    ∧ covers c h extra ∧ pem_Decode keyPEM = Some (t, kder) ∧ parsePrivateKey kder = Ok k ∧ Public k = c_PublicKey c.
Lemma missingSANs_none c h extra :
  missingSANs c h extra = "" ↔
    (∀ n, n ∈ (expectedSANs h extra).1 → n ∈ c_DNSNames c)
    ∧ ∀ ip, ip ∈ (expectedSANs h extra).2 → ∃ got, got ∈ c_IPAddresses c ∧ ip_equal got ip = true.
Proof.
  unfold missingSANs. pose proof (λ n, proj1 (expected_names h extra n)) as Hserved. destruct (expectedSANs h extra) as [names ips]. cbn [fst snd] in *.
  assert (∀ ip, existsb (λ got, ip_equal got ip) (c_IPAddresses c) = true ↔ ∃ got, got ∈ c_IPAddresses c ∧ ip_equal got ip = true) as He.
  { intros ip. rewrite existsb_exists. by setoid_rewrite list_elem_of_In. }
  destruct (List.find _ names) as [n|] eqn:En.
  - apply find_some in En as [Hn Hm]. apply list_elem_of_In in Hn. apply negb_true_iff, bool_decide_eq_false in Hm. split.
    + intros ->. destruct (Hserved "" Hn) as [?|[[_ ?]|[? _]]]; done.
    + intros [Hc _]. by destruct Hm; apply Hc.
  - pose proof (find_none _ _ En) as Hn. destruct (List.find _ ips) as [ip|] eqn:Ei.
    + apply find_some in Ei as [Hi Hm]. apply list_elem_of_In in Hi. apply negb_true_iff, not_true_iff_false in Hm. rewrite He in Hm. split.
      * intros Hs. by apply ip_string_ne in Hs.
      * intros [_ Hc]. by destruct Hm; apply Hc.
    + pose proof (find_none _ _ Ei) as Hi. split; [intros _|done]. split.
      * intros n Hin. apply list_elem_of_In, Hn, negb_false_iff, bool_decide_eq_true in Hin. done.
      * intros ip Hin. apply list_elem_of_In, Hi, negb_false_iff, He in Hin. done.
Qed.
Lemma missingSANs_covers c h extra : missingSANs c h extra = "" → covers c h extra.
Proof.
  intros [Hn Hi]%missingSANs_none. split.
  - intros n Hs. by apply Hn, expected_names.
  - intros ip Hs. destruct (proj2 (expected_ips h extra (ip_string ip))) as (ip' & Hin & Hip); [by exists ip|].
    destruct (Hi ip' Hin) as (got & Hg & He). by exists got, ip'.
Qed.
Lemma load_ok d now h certPath keyPath extra fs c k :
  load d now h certPath keyPath extra fs = Ok (c, k) ↔
    ReadFile d certPath fs = Ok c ∧ ReadFile d keyPath fs = Ok k
    ∧ ∃ der crt t kder sk, pem_Decode c = Some ("CERTIFICATE", der) ∧ ParseCertificate der = Ok crt ∧ now ≤ c_NotAfter crt
      ∧ missingSANs crt h extra = "" ∧ pem_Decode k = Some (t, kder) ∧ parsePrivateKey kder = Ok sk ∧ Public sk = c_PublicKey crt.
Proof.
  unfold load. split.
  - destruct (ReadFile d certPath fs) as [c'|]; [|done]. destruct (ReadFile d keyPath fs) as [k'|]; [|done].
    destruct (pem_Decode c') as [[t der]|] eqn:E1; [|done]. destruct (str_eqb t "CERTIFICATE") eqn:Et; [|done]. apply str_eqb_eq in Et as ->. cbn [negb].
    destruct (ParseCertificate der) as [crt|] eqn:E2; [|done]. destruct (Z.ltb_spec (c_NotAfter crt) now) as [|Hn]; [done|].
    cbv zeta. destruct (str_eqb (missingSANs crt h extra) "") eqn:E3; [|done]. apply str_eqb_eq in E3. cbn [negb].
    destruct (pem_Decode k') as [[t' kder]|] eqn:E4; [|done]. destruct (parsePrivateKey kder) as [sk|] eqn:E5; [|done].
    destruct (bool_decide_reflect (Public sk = c_PublicKey crt)); [|done]. intros [= <- <-]. split_and!; [done..|].
    by exists der, crt, t', kder, sk.
  - intros (-> & -> & der & crt & t & kder & sk & -> & -> & Hn & Hm & -> & -> & Hp). rewrite str_eqb_refl. cbn [negb].
    replace (c_NotAfter crt <? now) with false by (symmetry; apply Z.ltb_ge; lia). cbv zeta. rewrite Hm. cbn [negb str_eqb String.eqb].
    by rewrite bool_decide_eq_true_2.
Qed.
Context `{!X509Laws}.
Lemma Generate_ok g h extra c k :
  Generate g h extra = Ok (c, k) →
  ∃ der crt kder sk, pem_Decode c = Some ("CERTIFICATE", der) ∧ ParseCertificate der = Ok crt
    ∧ c_NotAfter crt = ge_now2 g + validity - (ge_now2 g + validity) mod 10 ^ 9
    ∧ missingSANs crt h extra = "" ∧ pem_Decode k = Some ("EC PRIVATE KEY", kder) ∧ parsePrivateKey kder = Ok sk ∧ Public sk = c_PublicKey crt.
Proof.
  unfold Generate. destruct (ge_key g) as [sk|]; [|done]. destruct (ge_serial g); [done|].
  destruct (CreateCertificate (template g h extra) sk) as [der|] eqn:E1; [|done].
  destruct (MarshalECPrivateKey sk) as [kder|] eqn:E2; [|done]. intros [= <- <-].
  destruct (cert_round _ _ _ E1) as (crt & Hp & Hn & Hi & Ha & Hk).
  assert (parsePrivateKey kder = Ok sk) as Hsk by (unfold parsePrivateKey; by rewrite (key_round _ _ E2)).
  unfold template in Hn, Hi, Ha. destruct (expectedSANs h extra) as [names ips] eqn:Ex. cbn in Hn, Hi, Ha.
  exists der, crt, kder, sk. split_and!; try done; [apply pem_round; by left| |apply pem_round; by right].
  apply missingSANs_none. rewrite Ex, Hn. cbn [fst snd]. split; [done|]. intros ip Hin.
  apply list_elem_of_lookup in Hin as [i Hin]. destruct (Forall2_lookup_r _ _ _ _ _ Hi Hin) as (got & Hg & He).
  exists got. split; [by eapply list_elem_of_lookup_2|done].
Qed.
(** What is on the disk after [EnsureFiles]. *)
Definition holds (fs : Files) (path data : string) : Prop := f_data <$> fs !! path = Some data.
Lemma ReadFile_holds d p fs x : ReadFile d p fs = Ok x ↔ dk_unreadable d p = None ∧ holds fs p x.
Proof. unfold ReadFile, holds. destruct (dk_unreadable d p), (fs !! p); naive_solver. Qed.
Lemma WriteFile_done d p x perm fs fs' :
  WriteFile d p x perm fs = (fs', None) → fs' = put_file d p x perm fs.
Proof. unfold WriteFile. destruct (dk_write d p) as [[e [r|]]|]; by intros [= <-]. Qed.
Lemma Ensure_cases d now g h certPath keyPath extra fs :
  certPath ≠ keyPath →
  let '(fs', r) := EnsureFiles d now g h certPath keyPath extra fs in
  (fs' = fs ∧ r = mkEnsured (en_cert r) (en_key r) true None ∧ load d now h certPath keyPath extra fs = Ok (en_cert r, en_key r))
  ∨ (∃ e, fs' = fs ∧ r = mkEnsured "" "" false (Some e) ∧ Generate g h extra = Err e)
  ∨ Generate g h extra = Ok (en_cert r, en_key r)
    ∧ (en_persisted r = true → en_err r = None ∧ holds fs' certPath (en_cert r) ∧ fs' !! keyPath = Some (mkFile (en_key r) 384)).
Proof.
  intros Hne. unfold EnsureFiles. set (paths := negb _ && negb _).
  destruct (if paths then load d now h certPath keyPath extra fs else Err "") as [[c k]|e0] eqn:El.
  { left. destruct paths; [|done]. done. }
  destruct (Generate g h extra) as [[c k]|e]; [|by right; left; exists e]. cbv zeta.
  destruct (negb paths); [by right; right|]. destruct (dk_mkdir d _); [by right; right|].
  destruct (WriteFile d certPath c 420 fs) as [fs1 [e|]] eqn:W1; [by right; right|]. apply WriteFile_done in W1.
  destruct (WriteFile d keyPath k 384 fs1) as [fs2 [e|]] eqn:W2; [by right; right|]. apply WriteFile_done in W2.
  destruct (Chmod d keyPath 384 fs2) as [fs3 [e|]] eqn:W3; [by right; right|]. right. right. cbn. split; [done|]. intros _. split; [done|].
  unfold Chmod in W3. destruct (dk_chmod d keyPath); [done|]. subst fs2. unfold put_file in W3. rewrite lookup_insert_eq in W3.
  injection W3 as <-. unfold holds. rewrite lookup_insert_ne, lookup_insert_ne, lookup_insert_eq by done. split; [|done].
  subst fs1. unfold put_file. by rewrite lookup_insert_eq.
Qed.
End Facts.

(** The pair that [EnsureFiles] hands out is usable: if the crypto library
    keeps its laws, then either making a pair failed and nothing changed, or
    the answer is an unexpired certificate with its own private key that names
    localhost, the host name, every extra host and every address of the
    machine, whether the pair was loaded or made and whether or not it could be
    stored; when it is reported as persisted, both files hold it, and a key
    that was written now is readable by its owner only. *)
Theorem certificate_usable `{X509Laws} d now g h certPath keyPath extra fs :
  certPath ≠ keyPath → now ≤ ge_now2 g →
  let '(fs', r) := EnsureFiles d now g h certPath keyPath extra fs in
  ((∃ e, Generate g h extra = Err e ∧ fs' = fs ∧ r = mkEnsured "" "" false (Some e))
   ∨ ∃ exp, now ≤ exp ∧ usable h extra exp (en_cert r) (en_key r))
  ∧ (en_persisted r = true →
       en_err r = None ∧ holds fs' certPath (en_cert r) ∧ holds fs' keyPath (en_key r)
       ∧ (fs' = fs ∨ f_mode <$> fs' !! keyPath = Some 384)).
Proof.
  intros Hne Hnow. pose proof (Ensure_cases d now g h certPath keyPath extra fs Hne) as Hc.
  destruct (EnsureFiles _ _ _ _ _ _ _ _) as [fs' r]. destruct Hc as [(-> & Hr & Hl)|[(e & -> & -> & Hg)|[Hg Hp]]].
  - apply load_ok in Hl as (Rc & Rk & der & crt & t & kder & sk & P1 & P2 & P3 & P4 & P5 & P6 & P7). split.
    + right. exists (c_NotAfter crt). split; [done|]. exists der, crt, t, kder, sk. split_and!; try done. by apply missingSANs_covers.
    + intros _. rewrite Hr. apply ReadFile_holds in Rc as [_ Rc], Rk as [_ Rk]. split_and!; [done..|by left].
  - split; [left; by exists e|done].
  - apply Generate_ok in Hg as (der & crt & kder & sk & P1 & P2 & P3 & P4 & P5 & P6 & P7). split.
    + right. exists (c_NotAfter crt). pose proof (Z.mod_pos_bound (ge_now2 g + validity) (10 ^ 9)). unfold validity in *. split; [lia|].
      exists der, crt, "EC PRIVATE KEY", kder, sk. split_and!; try done. by apply missingSANs_covers.
    + intros [He [Hcert Hkey]]%Hp. split_and!; [done..| |right; by rewrite Hkey]. unfold holds. by rewrite Hkey.
Qed.
(** C17: A persisted pair is kept: once [EnsureFiles] has reported it as
    persisted, every later call, until the certificate expires, returns the
    same pair and leaves the files alone, whatever a new pair would have been,
    as long as the files can be read and every name and address expected then
    was expected when it was issued. *)
Theorem certificate_kept `{X509Laws} d now g h certPath keyPath extra fs :
  certPath ≠ keyPath → now ≤ ge_now2 g →
  let '(fs', r) := EnsureFiles d now g h certPath keyPath extra fs in
  en_persisted r = true →
  ∃ exp, now ≤ exp ∧ usable h extra exp (en_cert r) (en_key r)
    ∧ ∀ d' now' g' h' extra', dk_unreadable d' certPath = None → dk_unreadable d' keyPath = None → now' ≤ exp →
        (expectedSANs h' extra').1 ⊆ (expectedSANs h extra).1 → (expectedSANs h' extra').2 ⊆ (expectedSANs h extra).2 →
        EnsureFiles d' now' g' h' certPath keyPath extra' fs' = (fs', mkEnsured (en_cert r) (en_key r) true None).
Proof.
  intros Hne Hnow. pose proof (Ensure_cases d now g h certPath keyPath extra fs Hne) as Hc.
  destruct (EnsureFiles _ _ _ _ _ _ _ _) as [fs' r] eqn:E. intros Hpers.
  assert (negb (str_eqb certPath "") && negb (str_eqb keyPath "") = true) as Hpaths.
  { destruct (_ && _) eqn:Ep; [done|]. unfold EnsureFiles in E. rewrite Ep in E. cbn in E. destruct (Generate g h extra) as [[c k]|]; by injection E as <- <-. }
  assert (∃ der crt t kder sk, pem_Decode (en_cert r) = Some ("CERTIFICATE", der) ∧ ParseCertificate der = Ok crt ∧ now ≤ c_NotAfter crt
    ∧ missingSANs crt h extra = "" ∧ pem_Decode (en_key r) = Some (t, kder) ∧ parsePrivateKey kder = Ok sk ∧ Public sk = c_PublicKey crt
    ∧ holds fs' certPath (en_cert r) ∧ holds fs' keyPath (en_key r)) as (der & crt & t & kder & sk & P1 & P2 & P3 & P4 & P5 & P6 & P7 & P8 & P9).
  { destruct Hc as [(-> & Hr & Hl)|[(e & -> & -> & Hg)|[Hg Hp]]]; [|done|].
    - apply load_ok in Hl as (Rc%ReadFile_holds & Rk%ReadFile_holds & der & crt & t & kder & sk & ?). exists der, crt, t, kder, sk. naive_solver.
    - apply Generate_ok in Hg as (der & crt & kder & sk & P1 & P2 & P3 & P4 & P5 & P6 & P7). destruct (Hp Hpers) as (_ & Hcert & Hkey).
      exists der, crt, "EC PRIVATE KEY", kder, sk. pose proof (Z.mod_pos_bound (ge_now2 g + validity) (10 ^ 9)). unfold validity in *.
      split_and!; try done; [lia|]. unfold holds. by rewrite Hkey. }
  exists (c_NotAfter crt). split; [done|]. split; [exists der, crt, t, kder, sk; split_and!; try done; by apply missingSANs_covers|].
  intros d' now' g' h' extra' U1 U2 Hn S1 S2. unfold EnsureFiles. cbv zeta. rewrite Hpaths.
  apply missingSANs_none in P4 as [P41 P42].
  assert (load d' now' h' certPath keyPath extra' fs' = Ok (en_cert r, en_key r)) as ->; [|done].
  apply load_ok. rewrite !ReadFile_holds. split_and!; [done..|]. exists der, crt, t, kder, sk. split_and!; try done.
  apply missingSANs_none. split; [intros n Hin; by apply P41, S1|intros ip Hin; by apply P42, S2].
Qed.

(** ** A concrete library and host *)
#[export] Instance Template_eq_dec : EqDecision Template.
Proof. solve_decision. Defined.
#[export] Instance Template_countable : Countable Template.
Proof.
  apply (inj_countable' (λ t, (t_NotBefore t, t_NotAfter t, t_DNSNames t, t_IPAddresses t))
    (λ '(a, b, c, d), mkTemplate a b c d)). by intros [].
Defined.
(** Certificates and keys are printed by the encoding of HA.v. *)
#[export] Instance demo_x509 : X509 := {|
  pub := Z; key := Z; Public k := 2 * k;
  CreateCertificate t k := Ok (bits (encode (t, k)));
  ParseCertificate s :=
    match decode (unbits s) with
    | Some (t, k) => Ok (mkCert (t_NotBefore t) (t_NotAfter t - t_NotAfter t mod 10 ^ 9) (t_DNSNames t) (t_IPAddresses t) (2 * k))
    | None => Err "malformed certificate"
    end;
  MarshalECPrivateKey k := Ok (bits (encode k));
  ParseECPrivateKey s := decode (unbits s);
  ParsePKCS8PrivateKey _ := None;
  pem_Encode t d := (if str_eqb t "CERTIFICATE" then "C" else "K") +:+ d;
  pem_Decode s := if HasPrefix s "C" then Some ("CERTIFICATE", sdrop 1 s)
                  else if HasPrefix s "K" then Some ("EC PRIVATE KEY", sdrop 1 s) else None |}.
Lemma ip_equal_refl ip : ip_equal ip ip = true.
Proof. unfold ip_equal. by rewrite Nat.eqb_refl, bool_decide_eq_true_2. Qed.
#[export] Instance demo_x509_laws : X509Laws.
Proof.
  split.
  - intros t d [->| ->]; by destruct d.
  - intros k d [= <-]. cbn -[bits unbits encode decode]. by rewrite unbits_bits, decode_encode.
  - intros t k d [= <-]. eexists. cbn -[bits unbits encode decode Z.modulo]. rewrite unbits_bits, decode_encode.
    split; [reflexivity|]. split_and!; [done| |done|done]. apply Forall2_same_length_lookup_2; [done|].
    intros i x y Hx Hy. cbn in *. simplify_eq. apply ip_equal_refl.
Qed.
Definition demo_machine : machine :=
  mkMachine (Some "node1") (Some [mkIface true (Some [AIPNet (mkIPNet (ParseIP "192.0.2.10") [])]); mkIface false (Some [AIPAddr (ParseIP "192.0.2.99")])]).
Definition demo_extra : list string := [" 192.0.2.50 "; "dns.example"; ""; "node1"].
Definition demo_disk : disk := mkDisk (λ _, None) (λ _, None) (λ _, None) (λ _, None) 18.      (* umask 022 *)
Definition demo_gen : gen_env := mkGen (Ok (5 : key)) None (7200 * 10 ^ 9) (7200 * 10 ^ 9).
Definition demo_pems : string * string := match Generate demo_gen demo_machine demo_extra with Ok p => p | Err _ => ("", "") end.
Notation demo_ensure := (EnsureFiles demo_disk (7200 * 10 ^ 9) demo_gen demo_machine "/tls/cert.pem" "/tls/key.pem" demo_extra).
Definition demo_old : Files := {["/tls/key.pem" := mkFile "old" 420]}.
Example demo_names : expectedSANs demo_machine demo_extra
  = (["localhost"; "node1"; "dns.example"], [ParseIP "127.0.0.1"; ParseIP "::1"; ParseIP "192.0.2.50"; ParseIP "192.0.2.10"]).
Proof. vm_compute. reflexivity. Qed.
Lemma certificate_usable_witness :
  let x := demo_ensure demo_old in
  x.2 = mkEnsured demo_pems.1 demo_pems.2 true None ∧ f_mode <$> x.1 !! "/tls/key.pem" = Some 384
  ∧ ∃ exp, 7200 * 10 ^ 9 ≤ exp ∧ usable demo_machine demo_extra exp demo_pems.1 demo_pems.2.
Proof.
  split; [vm_compute; reflexivity|].
  assert ((demo_ensure demo_old).2 = mkEnsured demo_pems.1 demo_pems.2 true None) as E by (vm_compute; reflexivity).
  pose proof (certificate_usable demo_disk (7200 * 10 ^ 9) demo_gen demo_machine "/tls/cert.pem" "/tls/key.pem" demo_extra demo_old
    ltac:(discriminate) ltac:(reflexivity)) as Hu.
  destruct (demo_ensure demo_old) as [fs' r] eqn:Ef. cbn [snd] in E. subst r. destruct Hu as [Hu Hp].
  split; [|destruct Hu as [(e & _ & _ & [=])|Hu]; exact Hu].
  destruct (Hp eq_refl) as (_ & _ & _ & [Hs|Hs]); [|exact Hs]. exfalso.
  assert ((demo_ensure demo_old).1 !! "/tls/key.pem" ≠ demo_old !! "/tls/key.pem") as Hd by (vm_compute; discriminate).
  rewrite Ef in Hd. cbn [fst] in Hd. subst fs'. by apply Hd.
Defined.
Lemma certificate_kept_witness :
  let fs := (demo_ensure demo_old).1 in
  EnsureFiles demo_disk (10 ^ 15) (mkGen (Err "no entropy") None 0 0) demo_machine "/tls/cert.pem" "/tls/key.pem" ["dns.example"] fs
  = (fs, mkEnsured demo_pems.1 demo_pems.2 true None).
Proof.
  cbv zeta. pose proof (certificate_kept demo_disk (7200 * 10 ^ 9) demo_gen demo_machine "/tls/cert.pem" "/tls/key.pem" demo_extra demo_old
    ltac:(discriminate) ltac:(reflexivity)) as Hu.
  assert ((demo_ensure demo_old).2 = mkEnsured demo_pems.1 demo_pems.2 true None) as E by (vm_compute; reflexivity).
  destruct (demo_ensure demo_old) as [fs' r] eqn:Ef. cbn [fst snd] in *. subst r.
  destruct (Hu eq_refl) as (exp & _ & Hus & Hk). apply Hk; [reflexivity|reflexivity| | |].
  - destruct Hus as (der & c & t & kder & k & H1 & H2 & <- & _). vm_compute in H1. injection H1 as <-. vm_compute in H2. injection H2 as <-.
    vm_compute. discriminate.
  - apply (bool_decide_unpack _). vm_compute. exact I.
  - apply (bool_decide_unpack _). vm_compute. exact I.
Defined.
(** When the directory cannot be written, [EnsureFiles] still gives a pair to
    serve, but [EnsurePair] gives none: the certificate of a running node is
    not renewed, so it never names a virtual address that came later. *)
Example pair_lost_on_write_error :
  let d := mkDisk (λ _, None) (λ _, Some "read-only file system") (λ _, None) (λ _, None) 18 in
  let args := EnsureFiles d (7200 * 10 ^ 9) demo_gen demo_machine "/tls/cert.pem" "/tls/key.pem" demo_extra ∅ in
  (en_cert args.2, en_key args.2) = demo_pems
  ∧ is_ok (EnsurePair (λ c k, Ok (c, k)) d (7200 * 10 ^ 9) demo_gen demo_machine "/tls/cert.pem" "/tls/key.pem" demo_extra ∅).2 = false.
Proof. split; vm_compute; reflexivity. Qed.
(** A key that is reused keeps the mode it has. *)
Example reused_key_keeps_mode :
  let fs : Files := {["/tls/cert.pem" := mkFile demo_pems.1 420; "/tls/key.pem" := mkFile demo_pems.2 420]} in
  f_mode <$> (demo_ensure fs).1 !! "/tls/key.pem" = Some 420.
Proof. vm_compute. reflexivity. Qed.
