(* ===== verification/Config.v ===== *)
(** * The configuration file of a node

    internal/config/config.go: the defaults, reading the YAML file over them,
    and the warnings about it.  The YAML decoder is an argument: it assigns the
    settings that the text names.  Durations are nanoseconds. *)
From S2P Require Import Prelude GoStrings GoNet Filter Upstream.
#[local] Open Scope Z_scope.

Record Config := mkBlipd {
  cf_DNSAddr : string; cf_DoHAddr : string;
  cf_CertFile : string; cf_KeyFile : string;
  cf_DoHTLS : bool;
  cf_DoHHTTPAddr : string;
  cf_RateLimitQPS : Z; cf_RateLimitBurst : Z;
  cf_TLSDir : string; cf_DoHSANs : list string;
  cf_AdminAddr : string; cf_AdminToken : string;
  cf_TrustedProxies : list string;
  cf_StateFile : string; cf_InstanceID : string;
  cf_Upstream : string;
  cf_UpstreamServers : list UpstreamServer; cf_UpstreamRoutes : list UpstreamRoute; cf_UpstreamBootstrap : list UpstreamServer;
  cf_CacheCap : Z; cf_CacheSize : Z;
  cf_BlocklistURL : string; cf_BlocklistURLs : list string; cf_BlocklistUpdateHours : Z; cf_BlocklistCacheFile : string;
  cf_Default : option Policy; cf_Policies : list (option Policy) }.
Definition hour_ns : Z := 3600 * 10 ^ 9.
Definition Default : Config :=
  mkBlipd "127.0.0.1:5353" "127.0.0.1:8443" "" "" true "" 0 0 "/var/lib/blipd" [] "127.0.0.1:8443" "" [] "" ""
    "udp://1.1.1.1:53 https://1.1.1.1/dns-query" [] [] [] hour_ns 10000 "" [] 0 "/var/lib/blipd/blocklist.cache" None [].
Definition with_CacheCap (d : Z) (c : Config) : Config :=
  mkBlipd (cf_DNSAddr c) (cf_DoHAddr c) (cf_CertFile c) (cf_KeyFile c) (cf_DoHTLS c) (cf_DoHHTTPAddr c) (cf_RateLimitQPS c)
    (cf_RateLimitBurst c) (cf_TLSDir c) (cf_DoHSANs c) (cf_AdminAddr c) (cf_AdminToken c) (cf_TrustedProxies c) (cf_StateFile c)
    (cf_InstanceID c) (cf_Upstream c) (cf_UpstreamServers c) (cf_UpstreamRoutes c) (cf_UpstreamBootstrap c) d (cf_CacheSize c)
    (cf_BlocklistURL c) (cf_BlocklistURLs c) (cf_BlocklistUpdateHours c) (cf_BlocklistCacheFile c) (cf_Default c) (cf_Policies c).
(** [Load]; [read] is the file system, [yaml text c] the decoder over [c]. *)
Definition Load (read : string → res string string) (yaml : string → Config → res string Config) (path : string) : res string Config :=
  let loaded :=
    if str_eqb path "" then Ok Default
    else match read path with
         | Err e => Err ("config: read " +:+ path +:+ ": " +:+ e)
         | Ok b => match yaml b Default with
                   | Err e => Err ("config: parse " +:+ path +:+ ": " +:+ e)
                   | Ok c => Ok c
                   end
         end in
  match loaded with
  | Err e => Err e
  | Ok c => Ok (if cf_CacheCap c <=? 0 then with_CacheCap hour_ns c else c)
  end.

(** ** Warnings *)
Fixpoint octal (fuel : nat) (v : Z) : string :=
  match fuel with O => "" | S n => octal n (Z.shiftr v 3) +:+ Itoa (Z.land v 7) end.
(** What [os.Stat] says of the file. *)
Inductive stat := SMode (mode : Z) | SNotExist | SError (e : string).
Definition WarnConfigPerms (prog path : string) (st : stat) : option string :=
  if str_eqb path "" then None
  else match st with
  | SNotExist => None
  | SError e => Some (prog +:+ ": cannot stat config " +:+ path +:+ ": " +:+ e)
  | SMode mode =>
      let m := Z.land mode 511 in
      if negb (Z.land m 63 =? 0)
      then Some (prog +:+ ": WARNING: config file " +:+ path +:+ " is group/world-accessible (mode " +:+ octal 4 m
                 +:+ "); it may contain credentials. Use `chmod 600 " +:+ path +:+ "`.")
      else None
  end.
(** [warnPlainHTTP] of the commands; [secrets] is what crosses the wire. *)
Definition warnPlainHTTP (secrets prog what addr : string) : option string :=
  match SplitHostPort addr with
  | None => None
  | Some (h, _) =>
      if str_eqb h "" || str_eqb h "127.0.0.1" || str_eqb h "::1" || str_eqb h "localhost" then None
      else Some (prog +:+ ": WARNING: " +:+ what +:+ " on " +:+ addr +:+ " is plain HTTP on a non-loopback address; " +:+ secrets
                 +:+ " are sniffable. Terminate TLS in front of it.")
  end.

Definition warnPlainHTTP_blipc : string → string → string → option string := warnPlainHTTP "session cookies".

(** ** What loading guarantees *)
Lemma Load_cap read yaml path c : Load read yaml path = Ok c → 0 < cf_CacheCap c.
Proof.
  unfold Load. destruct (if str_eqb path "" then _ else _) as [c'|]; [|done]. intros [= <-].
  destruct (Z.leb_spec (cf_CacheCap c') 0); [done|lia].
Qed.
Lemma WarnConfigPerms_private prog path mode : path ≠ "" → Z.land mode 63 = 0 ↔ WarnConfigPerms prog path (SMode mode) = None.
Proof.
  intros Hp. apply str_eqb_neq in Hp. unfold WarnConfigPerms. rewrite Hp. cbv zeta.
  rewrite <-Z.land_assoc. change (Z.land 511 63) with 63. destruct (Z.eqb_spec (Z.land mode 63) 0); cbn; by split.
Qed.
(** The defaults put DoH and the management API on the same address. *)
Example default_addresses_clash : cf_DoHAddr Default = cf_AdminAddr Default.
Proof. reflexivity. Qed.
(** An address without a host listens everywhere and is taken for loopback. *)
Example wildcard_address_unwarned :
  warnPlainHTTP "bearer tokens" "blipd" "management API" ":8444" = None
  ∧ is_Some (warnPlainHTTP "bearer tokens" "blipd" "management API" "0.0.0.0:8444").
Proof. split; [vm_compute; reflexivity|]. vm_compute. by eexists. Qed.
