(* ===== verification/Daemon.v ===== *)
(** * The node's program

    cmd/blipd/main.go: how a node is put together from its configuration, and
    the listeners of internal/dnsserver/server.go ([Start], [Shutdown], the
    certificate of the DoH listener).  The parts are the components modelled
    in the other files; what they need of the host is an argument.  Log lines
    are left out, except that the last failed renewal of the certificate is
    remembered. *)
From S2P Require Import Prelude GoStrings GoNet Filter Cache RateLimit Records Blocklist Upstream Stats Server HA Update Control Node Cert Config.
#[local] Open Scope Z_scope.

(** [blocklistSources]: the plural list, or the single one. *)
Definition blocklistSources (c : Config.Config) : list string :=
  match cf_BlocklistURLs c with
  | [] => if str_eqb (cf_BlocklistURL c) "" then [] else [cf_BlocklistURL c]
  | urls => urls
  end.
Definition reportedVersion (version : string) : string := "blipd/" +:+ version.
Definition dohScheme (c : Config.Config) : string := if cf_DoHTLS c then "https" else "http".

(** ** The listeners *)
Inductive scheme := Plain | Tls.
Record Listeners := mkListeners {
  li_udp : bool;
  li_tcp : bool;
  li_doh : option scheme;
  li_stopped : bool }.                       (* [once] has run *)
Definition no_listeners : Listeners := mkListeners false false None false.
(** What starting meets: errors of the classic listeners within 50 ms (later
    ones are not noticed), of binding the DoH address, of reading its pair. *)
Record start_env := mkStart { se_udp : option string; se_tcp : option string; se_doh : option string; se_pairFile : option string }.

(** ** The state of the process *)
Record Daemon (P : Type) := mkDaemon {
  dm_cfg : Config.Config;
  dm_ctl : ControlServer;
  dm_node : Node;
  dm_admin : option string;                  (* where the management API listens *)
  dm_cert : option P;                        (* the certificate that the DoH listener presents *)
  dm_refresher : bool;                       (* [SetCertRefresher] was called *)
  dm_refreshErr : option string;
  dm_tls : Cert.Files;
  dm_snapshot : gmap string string;
  dm_listen : Listeners }.
Arguments mkDaemon {P}. Arguments dm_cfg {P}. Arguments dm_ctl {P}. Arguments dm_node {P}. Arguments dm_admin {P}. Arguments dm_cert {P}.
Arguments dm_refresher {P}. Arguments dm_refreshErr {P}. Arguments dm_tls {P}. Arguments dm_snapshot {P}. Arguments dm_listen {P}.
#[export] Instance Daemon_eta P : Eta (Daemon P) := λ d,
  mkDaemon (dm_cfg d) (dm_ctl d) (dm_node d) (dm_admin d) (dm_cert d) (dm_refresher d) (dm_refreshErr d) (dm_tls d) (dm_snapshot d) (dm_listen d).
(** What a step of the process meets on its host. *)
Record blipd_env `{X509} := mkEnvD {
  be_machine : machine;
  be_disk : disk;
  be_clock : Z;
  be_pair : gen_env;
  be_fetch : nat → string → res fetch_error FetchResult;
  be_ctxDone : nat → bool;
  be_order : list string → list string;      (* the order of a range over a set *)
  be_ctl : cenv;
  be_tokens : list Z }.

Section Daemon.
Context `{X509} {P : Type} (X509KeyPair : string → string → res string P).
Context (marshal : cacheFile → string) (unmarshal : string → option cacheFile) (unmarshal_list : string → option (list string)).
Context (ha_enc : HAConfig → string) (ha_dec : string → option HAConfig).
Context (st_enc : adopt_state → string) (st_dec : string → option adopt_state).
Context (panic_text : new_error → string).
Implicit Types d : Daemon P.

(** ** The blocklist *)
(** The closure [load] of [main]: a new list is also stored. *)
Definition load_sources (e : blipd_env) (c : Config.Config) (b : Blocklist) (fs : gmap string string)
    : Blocklist * gmap string string * option load_error :=
  let '(b, _, err) := LoadFromURLs (be_fetch e) (be_ctxDone e) (blocklistSources c) b in
  match err with
  | Some err => (b, fs, Some err)
  | None =>
      (b, if str_eqb (cf_BlocklistCacheFile c) "" then fs
          else SaveCache marshal (cf_BlocklistCacheFile c) (be_order e (elements (bl_exact b))) (be_order e (elements (bl_wild b)))
                 (be_order e (elements (bl_allowExact b))) (be_order e (elements (bl_allowWild b))) fs, None)
  end.
Definition restored_list (c : Config.Config) (fs : gmap string string) : Blocklist :=
  if str_eqb (cf_BlocklistCacheFile c) "" then Blocklist.New
  else match LoadCache unmarshal unmarshal_list (cf_BlocklistCacheFile c) fs with
       | Ok (Some b) => if 0 <? Count b then b else Blocklist.New
       | _ => Blocklist.New
       end.
Definition initial_list (e : blipd_env) (c : Config.Config) (fs : gmap string string) : Blocklist * gmap string string :=
  let b := restored_list c fs in
  match blocklistSources c with
  | [] => (b, fs)
  | _ => let '(b, fs, _) := load_sources e c b fs in (b, fs)
  end.
(** Whether the ticker runs: the first load has succeeded. *)
Definition refreshes (e : blipd_env) (c : Config.Config) (fs : gmap string string) : bool :=
  match blocklistSources c with
  | [] => false
  | _ => let '(_, _, err) := load_sources e c (restored_list c fs) fs in match err with None => 0 <? cf_BlocklistUpdateHours c | Some _ => false end
  end.

(** ** The certificate *)
Definition dohSANs (c : Config.Config) (m : Manager) : list string := cf_DoHSANs c ++ [VirtualIP m].
Definition cert_path (c : Config.Config) : string := JoinPath (cf_TLSDir c) "doh-cert.pem".
Definition key_path (c : Config.Config) : string := JoinPath (cf_TLSDir c) "doh-key.pem".
Definition own_pair (c : Config.Config) : bool := negb (str_eqb (cf_CertFile c) "") && negb (str_eqb (cf_KeyFile c) "").
(** The pair at the start; [Err] ends the program. *)
Definition initial_cert (e : blipd_env) (c : Config.Config) (load_pair : string → string → res string P) (m : Manager) (fs : Cert.Files)
    : Cert.Files * res string (option P) :=
  if negb (cf_DoHTLS c) then (fs, Ok None)
  else if own_pair c then
    (fs, match load_pair (cf_CertFile c) (cf_KeyFile c) with Err t => Err ("load tls cert/key: " +:+ t) | Ok p => Ok (Some p) end)
  else
    let '(fs, r) := EnsureFiles (be_disk e) (be_clock e) (be_pair e) (be_machine e) (cert_path c) (key_path c) (dohSANs c m) fs in
    (fs, match X509KeyPair (en_cert r) (en_key r) with Err t => Err ("build self-signed cert: " +:+ t) | Ok p => Ok (Some p) end).
(** [SetTLSCert]. *)
Definition SetTLSCert (p : option P) d : Daemon P := match p with Some _ => d <| dm_cert := p |> | None => d end.
Definition GetCertificate d : res string P := match dm_cert d with Some p => Ok p | None => Err "blipd: no DoH certificate loaded" end.
(** The function given to [SetCertRefresher]. *)
Definition refresh_cert (e : blipd_env) d : Daemon P :=
  let c := dm_cfg d in
  let '(fs, r) := EnsurePair X509KeyPair (be_disk e) (be_clock e) (be_pair e) (be_machine e) (cert_path c) (key_path c)
                    (dohSANs c (nd_ha (dm_node d))) (dm_tls d) in
  let d := d <| dm_tls := fs |> in
  match r with
  | Err t => d <| dm_refreshErr := Some t |>
  | Ok p => SetTLSCert (Some p) d <| dm_refreshErr := None |>
  end.

(** ** [main] *)
Definition set_policies (ps : list (option Policy)) (s : Store) : res string Store :=
  foldl (λ r p, match r with
                | Err e => Err e
                | Ok s => match SetPolicy p s with
                          | Ok s => Ok s
                          | Err _ => Err (match p with Some p => "policy " +:+ Quote (p_ID p) | None => "panic: nil policy" end)
                          end
                end) (Ok s) ps.
Definition block_action (c : Config.Config) : BlockAction :=
  match cf_Default c with
  | Some p => if str_eqb (p_BlockAction p) "" then DefaultAction else p_BlockAction p
  | None => DefaultAction
  end.
Definition server_config (c : Config.Config) (version : string) : Server.Config :=
  Server.mkConfig (cf_DoHHTTPAddr c) (cf_RateLimitQPS c) (cf_RateLimitBurst c) (cf_Upstream c) (cf_UpstreamServers c) (cf_UpstreamRoutes c)
    (cf_UpstreamBootstrap c) (cf_CacheCap c) (cf_CacheSize c) (reportedVersion version) (block_action c) (cf_TrustedProxies c).
(** The controllers that [New] wires, and the two that [main] does. *)
Definition wired (s : ControlServer) : ControlServer :=
  SetUpdateController (SetHAController
    (SetRecordController (SetCacheController (SetLocalResolverController (SetRateLimitController (SetDoHController s)))))).
Definition has_admin (c : Config.Config) : bool := negb (str_eqb (cf_AdminToken c) "") || negb (str_eqb (cf_StateFile c) "").
Definition admin_server (e : blipd_env) (c : Config.Config) (s : ControlServer) : ControlServer :=
  if negb (has_admin c) then s
  else
    let s := SetToken (cf_AdminToken c) s in
    let s := ConfigureAdoption st_enc st_dec (be_ctl e) (be_tokens e) (ma_Hostname (be_machine e)) (cf_StateFile c) (cf_InstanceID c) s in
    if str_eqb (cf_BlocklistCacheFile c) "" then s else SetBlocklistCache (cf_BlocklistCacheFile c) s.
Definition main (e : blipd_env) (c : Config.Config) (version : string) (load_pair : string → string → res string P)
    (ho : host) (io : ha_io) (listen : string → option string) (started : Z) (files : gmap string string) (tls : Cert.Files)
    : res string (Daemon P) :=
  match set_policies (cf_Policies c) (NewStore (cf_Default c)) with
  | Err t => Err t
  | Ok store =>
      let '(bl, snap) := initial_list e c files in
      let haMgr := NewManagerWithState ha_dec "" (cf_StateFile c) files in
      match initial_cert e c load_pair haMgr tls with
      | (_, Err t) => Err t
      | (tls, Ok cert) =>
          match NewServer (server_config c version) (Some store) (Some bl) with
          | Err err => Err (panic_text err)
          | Ok srv =>
              let refresher := cf_DoHTLS c && str_eqb (cf_CertFile c) "" && str_eqb (cf_KeyFile c) "" in
              let haMgr := if refresher then SetCertRefresher haMgr else haMgr in
              let ctl := admin_server e c (wired (NewServerWithBlocklist "" (reportedVersion version) started files)) in
              let srv := set_log (Some []) srv in
              Ok (mkDaemon c ctl (mkNode srv haMgr files no_update ho io listen ha_enc)
                    (if has_admin c then Some (cf_AdminAddr c) else None) cert refresher None tls snap no_listeners)
          end
      end
  end.

(** ** Running *)
(** [Start]: the errors end the program; the DoH listener presents the current
    certificate, or the files when none was loaded. *)
Definition start (se : start_env) d : Daemon P * option string :=
  let c := dm_cfg d in
  let up (l : Listeners) := d <| dm_listen := l |> in
  match se_udp se, se_tcp se with
  | Some err, t => (up (mkListeners false (negb (bool_decide (is_Some t))) None false), Some err)
  | None, Some err => (up (mkListeners true false None false), Some err)
  | None, None =>
      let d := up (mkListeners true true None false) in
      match run (SetDoHHTTPAddr (nd_listen (dm_node d)) (cf_DoHHTTPAddr c)) doh_error_text (dm_node d) with
      | (n, Some err) => (d <| dm_node := n |>, Some err)
      | (n, None) =>
          let d := d <| dm_node := n |> in
          let serving (s : scheme) := d <| dm_listen := mkListeners true true (Some s) false |> in
          if cf_DoHTLS c then
            match dm_cert d with
            | Some _ => match se_doh se with Some err => (d, Some ("blipd: doh listen: " +:+ err)) | None => (serving Tls, None) end
            | None =>
                if own_pair c then
                  match (match se_doh se with Some err => Some err | None => se_pairFile se end) with
                  | Some err => (d, Some err)
                  | None => (serving Tls, None)
                  end
                else (d, Some "blipd: doh_tls enabled but no certificate configured (set cert_file/key_file or tls_dir)")
            end
          else match se_doh se with Some err => (d, Some err) | None => (serving Plain, None) end
      end
  end.
Definition Shutdown d : Daemon P :=
  if li_stopped (dm_listen d) then d
  else d <| dm_node := exec stopDoHPlainLocked (dm_node d) |> <| dm_listen := mkListeners false false None true |>.
(** A management request: the manager calls the refresher when its settings
    were replaced. *)
Definition admin_request (e : blipd_env) (r : mgmt_request) d : Daemon P * mgmt_response :=
  let '((s, n), resp) := Handler st_enc (be_ctl e) r (dm_ctl d, dm_node d) in
  let ran (m : Manager) := default 0%nat (mg_refreshed m) in
  let d' := d <| dm_ctl := s |> <| dm_node := n |> in
  (if (ran (nd_ha (dm_node d)) <? ran (nd_ha n))%nat then refresh_cert e d' else d', resp).
(** A tick of the blocklist updater. *)
Definition refresh_list (e : blipd_env) d : Daemon P :=
  match s_blocklist (nd_srv (dm_node d)) with
  | None => d
  | Some b =>
      let '(b, fs, _) := load_sources e (dm_cfg d) b (dm_snapshot d) in
      d <| dm_node ::= on_srv (set_blocklist (Some b)) |> <| dm_snapshot := fs |>
  end.
End Daemon.

(** ** The process as a transition system *)
Section Sound.
Context `{Hx : X509} `{Hl : !X509Laws} {P : Type} (X509KeyPair : string → string → res string P).
Context (marshal : cacheFile → string) (unmarshal : string → option cacheFile) (unmarshal_list : string → option (list string)).
Context (ha_enc : HAConfig → string) (ha_dec : string → option HAConfig).
Context (st_enc : adopt_state → string) (st_dec : string → option adopt_state).
Context (panic_text : new_error → string).
Context (h : machine).
Implicit Types d : Daemon P.
(** What happens to a running node on the host [h]. *)
Inductive dstep d : Daemon P → Prop :=
| ds_start se : dstep d (start se d).1
| ds_admin e r : be_machine e = h → is_Some (dm_admin d) → dstep d (admin_request X509KeyPair st_enc e r d).1
| ds_traffic s' : srv_step (nd_srv (dm_node d)) s' → dstep d (d <| dm_node ::= on_srv (λ _, s') |>)
| ds_list e : dstep d (refresh_list marshal e d)
| ds_updated u : dstep d (d <| dm_node ::= put_upd u |>)
| ds_stop : dstep d (Shutdown d).
(** The certificate that is presented names the host, the configured names and
    the current virtual address. *)
Definition cert_current d : Prop :=
  ∃ p c k exp, dm_cert d = Some p ∧ X509KeyPair c k = Ok p ∧ usable h (dohSANs (dm_cfg d) (nd_ha (dm_node d))) exp c k.
Record sound d : Prop := {
  so_node : node_good (dm_node d);
  so_refresher : dm_refresher d = cf_DoHTLS (dm_cfg d) && str_eqb (cf_CertFile (dm_cfg d)) "" && str_eqb (cf_KeyFile (dm_cfg d)) "";
  so_armed : dm_refresher d = true → is_Some (mg_refreshed (nd_ha (dm_node d)));
  so_cert : dm_refresher d = true → dm_refreshErr d = None → cert_current d }.

(** A pair without an error is usable. *)
Lemma Ensure_usable dk now g certPath keyPath extra fs :
  let r := (EnsureFiles dk now g h certPath keyPath extra fs).2 in
  (en_cert r = "" ∧ en_key r = "" ∧ is_Some (en_err r)) ∨ ∃ exp, usable h extra exp (en_cert r) (en_key r).
Proof.
  assert (∀ c k, Generate g h extra = Ok (c, k) → ∃ exp, usable h extra exp c k) as Hg.
  { intros c k (der & crt & kder & sk & P1 & P2 & P3 & P4 & P5 & P6 & P7)%Generate_ok. exists (c_NotAfter crt).
    exists der, crt, "EC PRIVATE KEY", kder, sk. split_and!; try done. by apply missingSANs_covers. }
  cbv zeta. unfold EnsureFiles. destruct (if _ : bool then _ else _) as [[c k]|e0] eqn:El.
  { right. destruct (negb (str_eqb certPath "") && _); [|done].
    apply load_ok in El as (_ & _ & der & crt & t & kder & sk & P1 & P2 & P3 & P4 & P5 & P6 & P7). exists (c_NotAfter crt).
    exists der, crt, t, kder, sk. split_and!; try done. by apply missingSANs_covers. }
  destruct (Generate g h extra) as [[c k]|e]; [|left; cbn; eauto]. right. specialize (Hg c k eq_refl). cbv zeta.
  repeat first [done | case_match].
Qed.
(** The manager's settings change together with the count of refreshes. *)
Definition ha_moved (n n' : Node) : Prop :=
  mg_cfg (nd_ha n') = mg_cfg (nd_ha n) ∧ mg_refreshed (nd_ha n') = mg_refreshed (nd_ha n)
  ∨ mg_refreshed (nd_ha n') = S <$> mg_refreshed (nd_ha n).
Lemma ha_same n n' : nd_ha n' = nd_ha n → ha_moved n n'.
Proof. intros E. left. by rewrite E. Qed.
Lemma run_ha {A} (m : M A) f n : nd_ha (run m f n).1 = nd_ha n.
Proof. unfold run. by destruct (m (nd_srv n)) as [[s a]|]. Qed.
Lemma reply_ha n s (r : Node * option string) msg code : ha_moved n r.1 → ha_moved n (reply s r msg code).1.2.
Proof. by destruct r as [n' [er|]]. Qed.
Lemma Handler_ha e r (st : ControlServer * Node) : ha_moved st.2 (Handler st_enc e r st).1.2.
Proof.
  unfold Handler. destruct (endpoint st_enc (mq_Path r)) as [[b hd]|] eqn:He; [|by apply ha_same].
  assert (ha_moved st.2 (hd e r st).1.2) as Hh; [|destruct b; [destruct (auth r st.1)|]; [by apply ha_same|exact Hh..]].
  revert He. unfold endpoint. destruct st as [s n].
  repeat (destruct (str_eqb (mq_Path r) _); [intros [= _ <-]|]); try done; try (by apply ha_same).
  all: try (unfold handlePolicy, handleBlocklist, handleDoH, handleRateLimit, handleUpstream, handleCache, handleCachePurge, handleRecords,
      handleRestart, handleWatch; repeat case_match; first [apply reply_ha, ha_same, run_ha|apply ha_same; (done || apply run_ha)]).
  - unfold handleHAConfig. repeat (case_match; try by apply ha_same). apply reply_ha. cbn [fst snd]. cbn. unfold SetHAConfig.
    repeat (case_match; simplify_eq/=; try by apply ha_same). by right.
  - unfold handleHAApply. repeat (case_match; try by apply ha_same). apply reply_ha. cbn. unfold ApplyHA.
    repeat (case_match; simplify_eq/=; try by left).
  - unfold handleUpdate. repeat (case_match; try by apply ha_same). apply reply_ha. cbn. destruct (StartUpdate _ _). by left.
Qed.
Lemma refresh_sound e d :
  be_machine e = h → node_good (dm_node d) → dm_refresher d = cf_DoHTLS (dm_cfg d) && str_eqb (cf_CertFile (dm_cfg d)) "" && str_eqb (cf_KeyFile (dm_cfg d)) "" →
  (dm_refresher d = true → is_Some (mg_refreshed (nd_ha (dm_node d)))) → sound (refresh_cert X509KeyPair e d).
Proof.
  intros He Hg Hr Ha. unfold refresh_cert, EnsurePair. rewrite He.
  pose proof (Ensure_usable (be_disk e) (be_clock e) (be_pair e) (cert_path (dm_cfg d)) (key_path (dm_cfg d))
    (dohSANs (dm_cfg d) (nd_ha (dm_node d))) (dm_tls d)) as Hu. cbv zeta in Hu.
  destruct (EnsureFiles _ _ _ _ _ _ _ _) as [fs r]. cbn [snd] in Hu.
  destruct (en_err r) as [t|] eqn:Ee; [by split|]. destruct (X509KeyPair (en_cert r) (en_key r)) as [p|t] eqn:Ep; [|by split].
  split; [done..|]. intros _ _. destruct Hu as [(_ & _ & [? [=]])|[exp Hu]]. by exists p, (en_cert r), (en_key r), exp.
Qed.
Lemma sources_reachable e c b fs : bl_reachable b → bl_reachable (load_sources marshal e c b fs).1.1.
Proof.
  intros Hb. unfold load_sources, LoadFromURLs. destruct (blocklistSources c) as [|u us]; [done|].
  destruct (list_find _ _) as [[? ?]|]; [done|]. destruct (merge_sources _ _ _ _ _ _) as [[[merged failed] per]|]; [|done].
  cbv zeta. destruct (_ =? 0); [done|]. cbn. by apply (blr_step (OpFromMap (elements merged))).
Qed.
Lemma same_cert d d' :
  dm_cert d' = dm_cert d → dm_cfg d' = dm_cfg d → mg_cfg (nd_ha (dm_node d')) = mg_cfg (nd_ha (dm_node d)) → cert_current d → cert_current d'.
Proof.
  intros H1 H2 H3 (p & c & k & exp & Hp & Hk & Hu). exists p, c, k, exp. rewrite H1, H2. split_and!; [done..|].
  unfold dohSANs, VirtualIP in *. by rewrite H3.
Qed.
(** A step that leaves the manager and the certificate alone. *)
Lemma sound_other d d' :
  sound d → node_good (dm_node d') → nd_ha (dm_node d') = nd_ha (dm_node d) → dm_cfg d' = dm_cfg d → dm_cert d' = dm_cert d →
  dm_refresher d' = dm_refresher d → dm_refreshErr d' = dm_refreshErr d → sound d'.
Proof.
  intros [S1 S2 S3 S4] Hg Hh Hc Hp Hr He. split; rewrite ?Hr, ?Hc, ?Hh, ?He; try done.
  intros H1 H2. apply (same_cert d); [done..|by rewrite Hh|by apply S4].
Qed.
Lemma dstep_sound d d' : sound d → dstep d d' → sound d'.
Proof.
  intros Hs Hd. pose proof Hs as [S1 S2 S3 S4]. destruct Hd as [se|e r He Hadm|s' Hs'|e|u|].
  - assert (node_good (run (SetDoHHTTPAddr (nd_listen (dm_node d)) (cf_DoHHTTPAddr (dm_cfg d))) doh_error_text (dm_node d)).1) as Hg.
    { apply run_good; [done|]. intros s' a Ha. by eapply srv_step_inv, ss_plain. }
    pose proof (run_ha (SetDoHHTTPAddr (nd_listen (dm_node d)) (cf_DoHHTTPAddr (dm_cfg d))) doh_error_text (dm_node d)) as Hh.
    unfold start. repeat first [by apply (sound_other d) | case_match; simplify_eq/=]. 
  - pose proof (Handler_ha (be_ctl e) r (dm_ctl d, dm_node d)) as Hm. pose proof (node_handler_good st_enc (be_ctl e) r (dm_ctl d, dm_node d) S1) as Hg.
    unfold admin_request. destruct (Handler _ _ _ _) as [[s n] resp]. cbn [fst snd] in Hm, Hg. cbn [fst].
    destruct Hm as [[Hc Hr]|Hr].
    + replace (_ <? _)%nat with false by (symmetry; apply Nat.ltb_ge; by rewrite Hr).
      split; cbn; try done; [by rewrite Hr|]. intros H1 H2. by apply (same_cert d), S4.
    + destruct (_ <? _)%nat eqn:El; [apply refresh_sound; try done; cbn; intros [k Hk]%S3; rewrite Hr, Hk; by eexists|].
      apply Nat.ltb_ge in El. rewrite Hr in El. split; cbn; try done.
      * intros [k Hk]%S3. rewrite Hr, Hk. by eexists.
      * intros H1 _. exfalso. destruct (S3 H1) as [k Hk]. rewrite Hk in El. cbn in El. lia.
  - apply (sound_other d); try done. by apply node_step_good.
  - unfold refresh_list. destruct (s_blocklist (nd_srv (dm_node d))) as [b|] eqn:Hb; [|done].
    pose proof (sources_reachable e (dm_cfg d) b (dm_snapshot d) (si_bl _ S1 b Hb)) as Hr.
    destruct (load_sources _ _ _ _ _) as [[b' fs] er]. apply (sound_other d); try done.
    by apply node_step_good, ss_blocklist.
  - by apply (sound_other d).
  - unfold Shutdown. destruct (li_stopped _); [done|]. apply (sound_other d); try done.
    cbn. unfold exec, run, stopDoHPlainLocked, modify. cbn. by eapply (srv_inv_other (nd_srv (dm_node d))); destruct S1.
Qed.
End Sound.

Section Main.
Context `{Hx : X509} `{Hl : !X509Laws} {P : Type} (X509KeyPair : string → string → res string P).
Context (marshal : cacheFile → string) (unmarshal : string → option cacheFile) (unmarshal_list : string → option (list string)).
Context (ha_enc : HAConfig → string) (ha_dec : string → option HAConfig).
Context (st_enc : adopt_state → string) (st_dec : string → option adopt_state).
Context (panic_text : new_error → string).
Lemma set_policies_reachable ps s s' : store_reachable s → set_policies ps s = Ok s' → store_reachable s'.
Proof.
  unfold set_policies. intros Hs. assert (∀ r, (∀ s0, r = Ok s0 → store_reachable s0) →
    ∀ s', foldl (λ r p, match r with Err e => Err e | Ok s => match SetPolicy p s with Ok s => Ok s | Err _ =>
      Err (match p with Some p => "policy " +:+ Quote (p_ID p) | None => "panic: nil policy" end) end end) r ps = Ok s' → store_reachable s') as Hf.
  { induction ps as [|p ps IH]; intros r Hr s1; [apply Hr|]. cbn [foldl]. apply IH. intros s0. destruct r as [s2|]; [|done].
    destruct (SetPolicy p s2) as [s3|] eqn:E; [|done]. intros [= <-]. eapply reach_set; [by apply Hr|done]. }
  apply Hf. by intros s0 [= <-].
Qed.
Lemma restored_reachable c fs : bl_reachable (restored_list unmarshal unmarshal_list c fs).
Proof.
  unfold restored_list. destruct (str_eqb _ _); [constructor|]. unfold LoadCache. destruct (fs !! _) as [data|]; [|constructor].
  assert (∀ cf, bl_reachable (SetAllowed (cf_Allowed cf) (FromDomains (cf_Domains cf) Blocklist.New))) as Hc.
  { intros cf. apply (blr_step (OpSetAllowed (cf_Allowed cf))), (blr_step (OpFrom (cf_Domains cf))). constructor. }
  destruct (unmarshal data) as [cf|]; [|destruct (unmarshal_list data); [|constructor]]; destruct (_ <? _); (apply Hc || constructor).
Qed.
Lemma initial_reachable e c fs : bl_reachable (initial_list marshal unmarshal unmarshal_list e c fs).1.
Proof.
  unfold initial_list. destruct (blocklistSources c) eqn:E; [apply restored_reachable|].
  pose proof (sources_reachable marshal e c _ fs (restored_reachable c fs)) as Hr.
  by destruct (load_sources _ _ _ _ _) as [[b fs'] er].
Qed.
Notation main := (main X509KeyPair marshal unmarshal unmarshal_list ha_enc ha_dec st_enc st_dec panic_text).
Lemma main_sound e c version load_pair ho io listen started files tls d :
  (∀ p, X509KeyPair "" "" ≠ Ok p) → main e c version load_pair ho io listen started files tls = Ok d → sound X509KeyPair (be_machine e) d.
Proof.
  intros Hempty. unfold Daemon.main. destruct (set_policies _ _) as [store|] eqn:Hst; [|done].
  pose proof (initial_reachable e c files) as Hbl. destruct (initial_list _ _ _ _ _ _) as [bl snap]. cbn [fst] in Hbl.
  set (m := NewManagerWithState _ _ _ _). destruct (initial_cert X509KeyPair e c load_pair m tls) as [tls' [cert|]] eqn:Hc; [|done].
  destruct (NewServer _ _ _) as [srv|] eqn:Hsrv; [|done]. intros [= <-].
  set (armed := cf_DoHTLS c && _ && _). split; cbn; [|done|intros ->; by eexists|].
  - apply (srv_step_inv srv); [|by eapply ss_logger]. eapply NewServer_inv; [..|exact Hsrv].
    + intros st [= <-]. eapply set_policies_reachable; [|exact Hst]. constructor.
    + by intros b [= <-].
  - intros Ha _. rewrite Ha. unfold armed in Ha. apply andb_true_iff in Ha as [[Ht Hc1]%andb_true_iff _]. unfold initial_cert in Hc.
    rewrite Ht in Hc. unfold own_pair in Hc. rewrite Hc1 in Hc. cbn [negb andb] in Hc.
    pose proof (Ensure_usable (be_machine e) (be_disk e) (be_clock e) (be_pair e) (cert_path c) (key_path c) (dohSANs c m) tls) as Hu.
    cbv zeta in Hu. destruct (EnsureFiles _ _ _ _ _ _ _ _) as [fs r]. cbn [snd] in Hu.
    destruct (X509KeyPair (en_cert r) (en_key r)) as [p|] eqn:Hp; [|done]. injection Hc as <- <-.
    destruct Hu as [(E1 & E2 & _)|[exp Hu]]; [rewrite E1, E2 in Hp; by apply Hempty in Hp|].
    by exists p, (en_cert r), (en_key r), exp.
Qed.
End Main.

(** C15: A node is sound from its start on: whatever queries, management
    requests, list updates and restarts of its listeners follow, the server's
    invariants hold (cache bounds, rate limiter, policy store, blocklist,
    watchers).  A node that serves DoH over TLS and whose configuration names
    neither a certificate nor a key file presents a self-signed certificate
    with its own key that names localhost, the host, its addresses, the
    configured names and the virtual address it has been given last, unless
    renewing it for that address has failed.  (The host's name and addresses
    are those of the start; with only one of the two files named nothing is
    renewed: half_pair_not_renewed.) *)
Theorem daemon_sound `{X509Laws} {P} (X509KeyPair : string → string → res string P) marshal unmarshal unmarshal_list
    ha_enc ha_dec st_enc st_dec panic_text e c version load_pair ho io listen started files tls d0 d :
  (∀ p, X509KeyPair "" "" ≠ Ok p) →
  main X509KeyPair marshal unmarshal unmarshal_list ha_enc ha_dec st_enc st_dec panic_text e c version load_pair ho io listen started files tls = Ok d0 →
  rtc (dstep X509KeyPair marshal st_enc (be_machine e)) d0 d →
  node_good (dm_node d)
  ∧ (cf_DoHTLS (dm_cfg d) = true → cf_CertFile (dm_cfg d) = "" → cf_KeyFile (dm_cfg d) = "" → dm_refreshErr d = None →
     cert_current X509KeyPair (be_machine e) d).
Proof.
  intros Hempty Hm%main_sound Hd; [|done]. assert (sound X509KeyPair (be_machine e) d) as [S1 S2 _ S4].
  { induction Hd as [|d1 d2 d3 Hs _ IH]; [done|]. apply IH. by eapply dstep_sound. }
  split; [done|]. intros H1 H2 H3 H4. apply S4; [|done]. by rewrite S2, H1, H2, H3.
Qed.
(** A node with the default configuration and a token is given a virtual
    address. *)
Definition demo_pair (c k : string) : res string (string * string) := if str_eqb c "" then Err "no PEM data" else Ok (c, k).
Definition demo_blipd : blipd_env :=
  mkEnvD _ demo_machine demo_disk (7200 * 10 ^ 9) demo_gen (λ _ _, Err FE_http) (λ _, false) (λ l, l) (demo_cenv 0) (seqZ 0 32).
Definition demo_blipd_config : Config.Config :=
  let c := Default in
  mkBlipd (cf_DNSAddr c) (cf_DoHAddr c) "" "" true "" 50 0 (cf_TLSDir c) ["dns.example"] "127.0.0.1:8444" "s3cret" [] "" "node1" (cf_Upstream c)
    [] [] [] (cf_CacheCap c) (cf_CacheSize c) "" [] 0 "" None [Some (mkPolicy "kids" ["192.0.2.0/24"] [] [] ["ads.example"] "" true "")].
Notation demo_main e := (main demo_pair (λ _, "") (λ _, None) (λ _, None) HA.demo_enc HA.demo_dec state_enc state_dec (λ _, "")
  e demo_blipd_config "1.0.0" (λ _ _, Err "no such file") demo_host demo_io (λ _, None) 0 ∅ ∅).
Notation demo_step e r := (λ d, (admin_request demo_pair state_enc e r d).1).
Definition vip_request : mgmt_request :=
  mkMReq "PUT" "/api/v1/ha" "127.0.0.1:9" "Bearer s3cret" (λ _, "") None None None None None None None None (Some demo_ha) None.
Lemma daemon_sound_witness :
  ∃ d0, demo_main demo_blipd = Ok d0
    ∧ let d := demo_step demo_blipd vip_request d0 in
      VirtualIP (nd_ha (dm_node d)) = "192.168.1.10" ∧ node_good (dm_node d) ∧ cert_current demo_pair demo_machine d.
Proof.
  destruct (demo_main demo_blipd) as [d0|] eqn:E; [|exfalso; revert E; vm_compute; discriminate].
  exists d0. split; [reflexivity|].
  assert (∀ {A} (g : Daemon (string * string) → A) (a : A),
    match demo_main demo_blipd with Ok d => g (demo_step demo_blipd vip_request d) | Err _ => a end = a →
    g (demo_step demo_blipd vip_request d0) = a) as Hg by (intros A g a; rewrite E; exact id).
  assert (∃ a, dm_admin d0 = Some a) as Ha.
  { exists "127.0.0.1:8444". assert (match demo_main demo_blipd with Ok d => dm_admin d | Err _ => None end = Some "127.0.0.1:8444") as H1 by (vm_compute; reflexivity).
    rewrite E in H1. exact H1. }
  destruct (daemon_sound demo_pair (λ _, "") (λ _, None) (λ _, None) HA.demo_enc HA.demo_dec state_enc state_dec (λ _, "")
    demo_blipd demo_blipd_config "1.0.0" (λ _ _, Err "no such file") demo_host demo_io (λ _, None) 0 ∅ ∅ d0
    (demo_step demo_blipd vip_request d0)) as [H1 H2].
  - intros p. discriminate.
  - exact E.
  - apply rtc_once, ds_admin; [reflexivity|exact Ha].
  - split; [apply (Hg _ (λ d, VirtualIP (nd_ha (dm_node d)))); vm_compute; reflexivity|]. split; [exact H1|]. apply H2.
    + apply (Hg _ (λ d, cf_DoHTLS (dm_cfg d)) true). vm_compute. reflexivity.
    + apply (Hg _ (λ d, cf_CertFile (dm_cfg d))). vm_compute. reflexivity.
    + apply (Hg _ (λ d, cf_KeyFile (dm_cfg d))). vm_compute. reflexivity.
    + apply (Hg _ dm_refreshErr). vm_compute. reflexivity.
Defined.
(** Where the directory is read-only, the new address never reaches the
    certificate that is presented. *)
Example vip_missing_on_write_error :
  let dk := mkDisk (λ _, None) (λ _, Some "read-only file system") (λ _, None) (λ _, None) 18 in
  let e := mkEnvD _ demo_machine dk (7200 * 10 ^ 9) demo_gen (λ _ _, Err FE_http) (λ _, false) (λ l, l) (demo_cenv 0) (seqZ 0 32) in
  match demo_main e with
  | Ok d => dm_cert (demo_step e vip_request d) = dm_cert d ∧ is_Some (dm_cert d)
            ∧ VirtualIP (nd_ha (dm_node (demo_step e vip_request d))) = "192.168.1.10" ∧ VirtualIP (nd_ha (dm_node d)) = ""
  | Err _ => False
  end.
Proof. vm_compute. split_and!; try reflexivity. by eexists. Qed.
(** With only one of the two files configured, blipd makes its own pair and
    never renews it. *)
Example half_pair_not_renewed :
  let c := demo_blipd_config in
  let c' := mkBlipd (cf_DNSAddr c) (cf_DoHAddr c) "/etc/cert.pem" "" true "" 0 0 (cf_TLSDir c) [] "" "s3cret" [] "" "node1" (cf_Upstream c)
    [] [] [] (cf_CacheCap c) (cf_CacheSize c) "" [] 0 "" None [] in
  match main demo_pair (λ _, "") (λ _, None) (λ _, None) HA.demo_enc HA.demo_dec state_enc state_dec (λ _, "")
    demo_blipd c' "1.0.0" (λ _ _, Err "no such file") demo_host demo_io (λ _, None) 0 ∅ ∅ with
  | Ok d => is_Some (dm_cert d) ∧ dm_refresher d = false
  | Err _ => False
  end.
Proof. vm_compute. split; [by eexists|reflexivity]. Qed.
