(* ===== verification/Auth.v ===== *)
(** * Logins, sessions and API keys of the controller

    internal/controller/auth.go.  An operator logs in with a password and gets
    a session cookie; a per-address limiter slows guessing down; expiring
    bearer keys can be handed out.

    [bcrypt] is a library: comparing and generating hashes are the arguments
    [compare] and [generate].  The clock and random bytes are arguments at the
    places the source reads them.  Each operation is one step here.  Most are a
    single mutex-protected section; [Login] takes the locks one after the
    other, and AuthConc.v interleaves its sections. *)
From S2P Require Import Prelude GoStrings GoNet.
From Stdlib Require Import Ascii.
#[local] Open Scope Z_scope.

Definition sessionTTL : Z := 24 * hour.
Definition maxLoginFails : Z := 5.
Definition loginLockWindow : Z := 5 * minute.
Definition maxAPIKeyLabelLen : nat := 64.
Definition maxAPIKeyTTL : Z := 30 * 24 * hour.

Inductive auth_error := errBadCreds | errLocked | errNoAuthCfg | errRandom | errKeyLabel | errKeyTTL.
(** What comparing a hash with a password can report besides success. *)
Inductive bcrypt_error := ErrMismatch | ErrMalformed.

Record loginFails := mkFails { lf_count : Z; lf_windowStart : Z }.
Record apiKey := mkAPIKey { ak_secret : string; ak_label : string; ak_created : Z; ak_expires : Z }.
Record APIKeyInfo := mkInfo { ki_ID : string; ki_Label : string; ki_Created : Z; ki_Expires : Z }.
Record Auth := mkAuth {
  a_username : string;
  a_passHash : string;
  a_configured : bool;
  a_sessions : gmap string Z;
  a_keys : gmap string apiKey;
  a_fl : gmap string loginFails }.
Definition closed_auth : Auth := mkAuth "" "" false ∅ ∅ ∅.
Definition put_sessions (m : gmap string Z) (a : Auth) : Auth :=
  mkAuth (a_username a) (a_passHash a) (a_configured a) m (a_keys a) (a_fl a).
Definition put_keys (m : gmap string apiKey) (a : Auth) : Auth :=
  mkAuth (a_username a) (a_passHash a) (a_configured a) (a_sessions a) m (a_fl a).
Definition put_fl (m : gmap string loginFails) (a : Auth) : Auth :=
  mkAuth (a_username a) (a_passHash a) (a_configured a) (a_sessions a) (a_keys a) m.
Definition put_creds (user hash : string) (a : Auth) : Auth :=
  mkAuth user hash true (a_sessions a) (a_keys a) (a_fl a).

(** [newSessionID] on the random bytes it is given; [None] is a failed read. *)
Definition newSessionID (b : option (list Z)) : res auth_error string :=
  match b with None => Err errRandom | Some b => Ok (Join (hex_byte <$> take 32 b) "") end.
Definition constantTimeEq (a b : string) : bool := (slen a =? slen b)%nat && str_eqb a b.

(** ** The limiter *)
Definition expired_window (now : Z) (f : loginFails) : bool := time_after now (lf_windowStart f + loginLockWindow).
Definition allowLogin (now : Z) (ip : string) (a : Auth) : bool :=
  match a_fl a !! ip with
  | None => true
  | Some f => expired_window now f || (lf_count f <? maxLoginFails)
  end.
Definition recordFail (now : Z) (ip : string) (a : Auth) : Auth :=
  let fresh := put_fl (<[ip := mkFails 1 now]> (a_fl a)) a in
  match a_fl a !! ip with
  | None => fresh
  | Some f => if expired_window now f then fresh
              else put_fl (<[ip := mkFails (lf_count f + 1) (lf_windowStart f)]> (a_fl a)) a
  end.
Definition clearFails (ip : string) (a : Auth) : Auth := put_fl (delete ip (a_fl a)) a.

Definition Sweep (now : Z) (a : Auth) : Auth :=
  mkAuth (a_username a) (a_passHash a) (a_configured a)
    (filter (λ kv, time_after now kv.2 = false) (a_sessions a))
    (filter (λ kv, time_after now (ak_expires kv.2) = false) (a_keys a))
    (filter (λ kv, expired_window now kv.2 = false) (a_fl a)).

(** ** Credentials *)
Definition looksLikeBcryptHash (s : string) : bool :=
  HasPrefix s "$2a$" || HasPrefix s "$2b$" || HasPrefix s "$2y$".

Section Credentials.
Context (compare : string → string → option bcrypt_error) (generate : string → option string).

Definition well_formed (hash : string) : bool :=
  match compare hash "" with Some ErrMalformed => false | _ => true end.
Definition bcryptHashFor (password : string) : option string :=
  if looksLikeBcryptHash password then if well_formed password then Some password else None
  else generate password.
Definition NewAuth (username password : string) : Auth :=
  if str_eqb username "" || str_eqb password "" then closed_auth
  else match bcryptHashFor password with
       | None => closed_auth
       | Some hash => put_creds username hash closed_auth
       end.
Definition Configured (a : Auth) : bool := a_configured a.
Definition Configure (username hash : string) (a : Auth) : Auth * bool :=
  if str_eqb username "" || str_eqb hash "" then (a, false)
  else if a_configured a then (a, false)
  else if negb (well_formed hash) then (a, false)
  else (put_creds username hash a, true).
Definition verify (user pass : string) (a : Auth) : bool :=
  if negb (constantTimeEq user (a_username a)) then false
  else match compare (a_passHash a) pass with None => true | Some _ => false end.

(** One login: the clock as read by [allowLogin], by [recordFail] and for the
    expiry, and the random bytes of the session id. *)
Record login_env := mkLogin { l_allow : Z; l_record : Z; l_expiry : Z; l_random : option (list Z) }.
Definition Login (e : login_env) (username password clientIP : string) (a : Auth) : Auth * res auth_error string :=
  if negb (Configured a) then (a, Err errNoAuthCfg)
  else if negb (allowLogin (l_allow e) clientIP a) then (a, Err errLocked)
  else if negb (verify username password a) then (recordFail (l_record e) clientIP a, Err errBadCreds)
  else
    let a := clearFails clientIP a in
    match newSessionID (l_random e) with
    | Err err => (a, Err err)
    | Ok id => (put_sessions (<[id := l_expiry e + sessionTTL]> (a_sessions a)) a, Ok id)
    end.
End Credentials.

(** ** Sessions *)
(** The value of the session cookie, [None] when the request has none. *)
Definition Authed (now : Z) (cookie : option string) (a : Auth) : Auth * bool :=
  match cookie with
  | None | Some "" => (a, false)
  | Some id =>
      match a_sessions a !! id with
      | None => (a, false)
      | Some exp => if time_after now exp then (put_sessions (delete id (a_sessions a)) a, false) else (a, true)
      end
  end.
Definition Destroy (cookie : option string) (a : Auth) : Auth :=
  match cookie with None => a | Some id => put_sessions (delete id (a_sessions a)) a end.
Record Cookie := mkCookie {
  ck_Value : string; ck_HttpOnly : bool; ck_Strict : bool; ck_Secure : bool; ck_MaxAge : Z; ck_Expires : Z }.
Definition ClearCookie (tls : bool) : Cookie := mkCookie "" true true tls (-1) second.
Definition MintCookie (tls : bool) (now : Z) (id : string) : Cookie :=
  mkCookie id true true tls (sessionTTL / second) (now + sessionTTL).

(** ** API keys *)
Record key_env := mkKeyEnv { k_secret : option (list Z); k_id : option (list Z); k_now : Z }.
Definition CreateAPIKey (e : key_env) (label : string) (ttl : Z) (a : Auth)
    : Auth * res auth_error (string * string * Z) :=
  let label := TrimSpace label in
  if str_eqb label "" || (maxAPIKeyLabelLen <? slen label)%nat then (a, Err errKeyLabel)
  else if (ttl <=? 0) || (maxAPIKeyTTL <? ttl) then (a, Err errKeyTTL)
  else match newSessionID (k_secret e) with
       | Err err => (a, Err err)
       | Ok raw =>
           match k_id e with
           | None => (a, Err errRandom)
           | Some b =>
               let id := Join (hex_byte <$> take 6 b) "" in
               let k := mkAPIKey ("blip_" +:+ raw) label (k_now e) (k_now e + ttl) in
               (put_keys (<[id := k]> (a_keys a)) a, Ok (id, ak_secret k, ak_expires k))
           end
       end.
(** Go ranges over the map in the order [order] of its keys. *)
Definition ListAPIKeys (order : list string) (a : Auth) : list APIKeyInfo :=
  omap (λ id, (λ k, mkInfo id (ak_label k) (ak_created k) (ak_expires k)) <$> a_keys a !! id) order.
Definition RevokeAPIKey (id : string) (a : Auth) : Auth * bool :=
  match a_keys a !! id with None => (a, false) | Some _ => (put_keys (delete id (a_keys a)) a, true) end.
Fixpoint match_key (now : Z) (secret : string) (ks : list apiKey) : bool :=
  match ks with
  | [] => false
  | k :: ks => if constantTimeEq secret (ak_secret k) then time_before now (ak_expires k) else match_key now secret ks
  end.
Definition validAPIKey (order : list string) (now : Z) (secret : string) (a : Auth) : bool :=
  if str_eqb secret "" then false else match_key now secret (omap (λ id, a_keys a !! id) order).

(** [ClientIP]: the peer, never a forwarded header. *)
Definition ClientIP (remoteAddr : string) : string :=
  match SplitHostPort remoteAddr with Some (h, _) => h | None => TrimSpace remoteAddr end.
(** [bearerToken] of server.go. *)
Definition bearerToken (authorization : string) : string :=
  if (7 <? slen authorization)%nat && str_eqb (ToLower (stake 7 authorization)) "bearer " then sdrop 7 authorization else "".

(** ** Histories *)
Inductive auth_op :=
| OpLogin (e : login_env) (username password ip : string)
| OpAuthed (now : Z) (cookie : option string)
| OpDestroy (cookie : option string)
| OpSweep (now : Z)
| OpKey (e : key_env) (label : string) (ttl : Z)
| OpRevoke (id : string)
| OpConfigure (username hash : string).

Section Histories.
Context (compare : string → string → option bcrypt_error).

Definition auth_step (o : auth_op) (a : Auth) : Auth :=
  match o with
  | OpLogin e u p ip => (Login compare e u p ip a).1
  | OpAuthed now c => (Authed now c a).1
  | OpDestroy c => Destroy c a
  | OpSweep now => Sweep now a
  | OpKey e l ttl => (CreateAPIKey e l ttl a).1
  | OpRevoke id => (RevokeAPIKey id a).1
  | OpConfigure u h => (Configure compare u h a).1
  end.
Definition auth_run (ops : list auth_op) (a : Auth) : Auth := foldl (λ a o, auth_step o a) a ops.

Lemma auth_run_snoc ops o a : auth_run (ops ++ [o]) a = auth_step o (auth_run ops a).
Proof. unfold auth_run. by rewrite foldl_app. Qed.

(** *** Where sessions and keys come from *)
Definition minted (ops : list auth_op) (a0 : Auth) (id : string) (exp : Z) : Prop :=
  ∃ ops1 e u p ip ops2,
    ops = ops1 ++ OpLogin e u p ip :: ops2 ∧ newSessionID (l_random e) = Ok id ∧ exp = l_expiry e + sessionTTL
    ∧ Configured (auth_run ops1 a0) = true ∧ verify compare u p (auth_run ops1 a0) = true
    ∧ allowLogin (l_allow e) ip (auth_run ops1 a0) = true ∧ OpDestroy (Some id) ∉ ops2.
Definition issued (ops : list auth_op) (id : string) (k : apiKey) : Prop :=
  ∃ ops1 e l ttl ops2,
    ops = ops1 ++ OpKey e l ttl :: ops2 ∧ 0 < ttl ≤ maxAPIKeyTTL ∧ ak_expires k = k_now e + ttl
    ∧ (∃ raw, newSessionID (k_secret e) = Ok raw ∧ ak_secret k = "blip_" +:+ raw)
    ∧ (∃ b, k_id e = Some b ∧ id = Join (hex_byte <$> take 6 b) "") ∧ OpRevoke id ∉ ops2.

Lemma minted_snoc ops a0 id exp o :
  minted ops a0 id exp → o ≠ OpDestroy (Some id) → minted (ops ++ [o]) a0 id exp.
Proof.
  intros (ops1 & e & u & p & ip & ops2 & -> & ? & ? & ? & ? & ? & Hd) Ho.
  exists ops1, e, u, p, ip, (ops2 ++ [o]). rewrite <-List.app_assoc. split_and!; try done. set_solver.
Qed.
Lemma issued_snoc ops id k o : issued ops id k → o ≠ OpRevoke id → issued (ops ++ [o]) id k.
Proof.
  intros (ops1 & e & l & ttl & ops2 & -> & ? & ? & ? & ? & Hd) Ho.
  exists ops1, e, l, ttl, (ops2 ++ [o]). rewrite <-List.app_assoc. split_and!; try (done || lia). set_solver.
Qed.

(** What an operation does to the sessions: nothing new but by a login. *)
Lemma auth_step_sessions o a id exp :
  a_sessions (auth_step o a) !! id = Some exp →
  (a_sessions a !! id = Some exp ∧ o ≠ OpDestroy (Some id))
  ∨ ∃ e u p ip, o = OpLogin e u p ip ∧ newSessionID (l_random e) = Ok id ∧ exp = l_expiry e + sessionTTL
      ∧ Configured a = true ∧ verify compare u p a = true ∧ allowLogin (l_allow e) ip a = true.
Proof.
  destruct o as [e u p ip|now c|c|now|e l ttl|i|u h]; cbn.
  - unfold Login. destruct (Configured a) eqn:Hc, (allowLogin _ _ a) eqn:Ha; cbn; try (by left).
    destruct (verify compare u p a) eqn:Hv; cbn.
    + destruct (newSessionID (l_random e)) as [i|er] eqn:Hid; cbn; [|by left].
      intros [[<- <-]|[Hne H]]%lookup_insert_Some; [right|by left]. by exists e, u, p, ip.
    + unfold recordFail. repeat case_match; by left.
  - unfold Authed. repeat (case_match; cbn; try (by left)).
    intros [? ?]%lookup_delete_Some. by left.
  - destruct c as [i|]; cbn; [|by left]. intros [Hne H]%lookup_delete_Some. left. split; [done|congruence].
  - intros [H _]%map_lookup_filter_Some. by left.
  - unfold CreateAPIKey. repeat (case_match; cbn; try (by left)).
  - unfold RevokeAPIKey. case_match; by left.
  - unfold Configure. repeat (case_match; cbn; try (by left)).
Qed.
Lemma auth_step_keys o a id k :
  a_keys (auth_step o a) !! id = Some k →
  (a_keys a !! id = Some k ∧ o ≠ OpRevoke id)
  ∨ ∃ e l ttl, o = OpKey e l ttl ∧ 0 < ttl ≤ maxAPIKeyTTL ∧ ak_expires k = k_now e + ttl
      ∧ (∃ raw, newSessionID (k_secret e) = Ok raw ∧ ak_secret k = "blip_" +:+ raw)
      ∧ ∃ b, k_id e = Some b ∧ id = Join (hex_byte <$> take 6 b) "".
Proof.
  destruct o as [e u p ip|now c|c|now|e l ttl|i|u h]; cbn.
  - unfold Login, recordFail. repeat (case_match; cbn; try (by left)).
  - unfold Authed. repeat (case_match; cbn; try (by left)).
  - unfold Destroy. case_match; by left.
  - intros [H _]%map_lookup_filter_Some. by left.
  - unfold CreateAPIKey. destruct (_ || _); [by left|]. destruct (_ || _) eqn:Ht; [by left|]. bools.
    destruct (newSessionID _) as [raw|] eqn:Hr; [|by left]. destruct (k_id e) as [b|] eqn:Hb; [|by left].
    cbn. intros [[<- <-]|[Hne Hl]]%lookup_insert_Some; [right|by left].
    exists e, l, ttl. cbn. split_and!; try (done || lia); [by exists raw|by exists b].
  - unfold RevokeAPIKey. destruct (a_keys a !! i) eqn:Hi; cbn.
    + intros [? ?]%lookup_delete_Some. left. split; [done|congruence].
    + intros H. left. split; [done|]. intros [= ->]. congruence.
  - unfold Configure. repeat (case_match; cbn; try (by left)).
Qed.

Lemma sessions_minted ops a0 id exp :
  a_sessions a0 = ∅ → a_sessions (auth_run ops a0) !! id = Some exp → minted ops a0 id exp.
Proof.
  intros H0. revert id exp. induction ops as [|o ops IH] using rev_ind; intros id exp; cbn; [by rewrite H0|].
  rewrite auth_run_snoc. intros [[H Ho]|(e & u & p & ip & -> & ? & ? & ? & ? & ?)]%auth_step_sessions.
  - by apply minted_snoc; [apply IH|].
  - exists ops, e, u, p, ip, []. split_and!; try done. set_solver.
Qed.
Lemma keys_issued ops a0 id k :
  a_keys a0 = ∅ → a_keys (auth_run ops a0) !! id = Some k → issued ops id k.
Proof.
  intros H0. revert id k. induction ops as [|o ops IH] using rev_ind; intros id k; cbn; [by rewrite H0|].
  rewrite auth_run_snoc. intros [[H Ho]|(e & l & ttl & -> & ? & ? & ? & ?)]%auth_step_keys.
  - by apply issued_snoc; [apply IH|].
  - exists ops, e, l, ttl, []. split_and!; try (done || lia). set_solver.
Qed.
Lemma NewAuth_empty generate u p : a_sessions (NewAuth compare generate u p) = ∅ ∧ a_keys (NewAuth compare generate u p) = ∅.
Proof. unfold NewAuth. by repeat case_match. Qed.
End Histories.
Lemma match_key_elem now secret ks :
  match_key now secret ks = true → ∃ k, k ∈ ks ∧ ak_secret k = secret ∧ now < ak_expires k.
Proof.
  induction ks as [|k ks IH]; cbn; [done|]. destruct (constantTimeEq secret (ak_secret k)) eqn:Hc.
  - unfold constantTimeEq in Hc. unfold time_before. intros Hb. bools. exists k. split_and!; [set_solver| |done].
    symmetry. by apply str_eqb_eq.
  - intros (k' & ? & ? & ?)%IH. exists k'. split_and!; [set_solver|done|done].
Qed.

(** ** Concrete histories *)
(** A stand-in for bcrypt: the hash of [p] is "$2b$" followed by [p]. *)
Definition demo_compare (hash pass : string) : option bcrypt_error :=
  if negb (looksLikeBcryptHash hash) then Some ErrMalformed
  else if str_eqb hash ("$2b$" +:+ pass) then None else Some ErrMismatch.
Definition demo_generate (pass : string) : option string :=
  if (72 <? slen pass)%nat then None else Some ("$2b$" +:+ pass).
Definition demo_auth : Auth := NewAuth demo_compare demo_generate "admin" "hunter22".
Definition demo_bytes : list Z := replicate 32 171.
Definition demo_login (t : Z) (pass ip : string) : auth_op := OpLogin (mkLogin t t t (Some demo_bytes)) "admin" pass ip.


(** C22: An API key that is accepted was created with a lifetime of at most
    thirty days that is not over yet, and was not revoked since (in whatever
    order the keys are compared). *)
Theorem auth_key_sound compare generate user pass ops order now secret :
  validAPIKey order now secret (auth_run compare ops (NewAuth compare generate user pass)) = true →
  ∃ id k, issued ops id k ∧ ak_secret k = secret ∧ now < ak_expires k.
Proof.
  unfold validAPIKey. destruct (str_eqb secret ""); [done|].
  intros (k & (id & _ & Hk)%list_elem_of_omap & Hs & Hx)%match_key_elem. exists id, k. split; [|done].
  apply (keys_issued compare ops (NewAuth compare generate user pass)); [apply NewAuth_empty|done].
Qed.
Definition demo_key : auth_op := OpKey (mkKeyEnv (Some demo_bytes) (Some [1; 2; 3; 4; 5; 6]) 7) "debug" (2 * hour).
Lemma auth_key_sound_witness :
  ∃ id k, issued [demo_key] id k ∧ ak_secret k = "blip_" +:+ Join (hex_byte <$> demo_bytes) "" ∧ hour < ak_expires k.
Proof.
  apply (auth_key_sound demo_compare demo_generate "admin" "hunter22" [demo_key] ["010203040506"] hour
           ("blip_" +:+ Join (hex_byte <$> demo_bytes) "")).
  vm_compute. reflexivity.
Defined.
