(* ===== verification/AuthConc.v ===== *)
(** * Logins that overlap

    [Auth.Login] of internal/controller/auth.go takes the locks one after the
    other: to see whether credentials exist, to check the address, to copy the
    credentials for the slow comparison, to count the failure or forget the
    earlier ones, and to store the session.  Here every login is a thread that
    runs these critical sections ([login_section]), and a schedule interleaves
    the threads with the other operations of Auth.v.  One login that runs alone
    is the function [Login] ([Login_sections]). *)
From S2P Require Import Prelude GoStrings GoNet Auth.
#[local] Open Scope Z_scope.

Inductive login_phase :=
| LStart
| LConfigured
| LAllowed                                  (* past [allowLogin] *)
| LVerified (ok : bool)                      (* the password has been compared *)
| LCleared (id : string)
| LDone (r : res auth_error string).
Record login_thread := mkThread {
  lt_user : string; lt_pass : string; lt_ip : string; lt_random : option (list Z); lt_phase : login_phase }.
Definition at_phase (ph : login_phase) (th : login_thread) : login_thread :=
  mkThread (lt_user th) (lt_pass th) (lt_ip th) (lt_random th) ph.
Record auth_conf := mkAConf { ac_auth : Auth; ac_threads : list login_thread }.
(** A login arrives, a login runs its next section at a time of the clock,
    anything else happens. *)
Inductive sched :=
| SArrive (username password ip : string) (random : option (list Z))
| SRun (i : nat) (now : Z)
| SOther (o : auth_op).

Section Threads.
Context (compare : string → string → option bcrypt_error).
Definition login_section (now : Z) (th : login_thread) (a : Auth) : login_phase * Auth :=
  match lt_phase th with
  | LStart => (if Configured a then LConfigured else LDone (Err errNoAuthCfg), a)
  | LConfigured => (if allowLogin now (lt_ip th) a then LAllowed else LDone (Err errLocked), a)
  | LAllowed => (LVerified (verify compare (lt_user th) (lt_pass th) a), a)
  | LVerified false => (LDone (Err errBadCreds), recordFail now (lt_ip th) a)
  | LVerified true =>
      (match newSessionID (lt_random th) with Err err => LDone (Err err) | Ok id => LCleared id end, clearFails (lt_ip th) a)
  | LCleared id => (LDone (Ok id), put_sessions (<[id := now + sessionTTL]> (a_sessions a)) a)
  | LDone r => (LDone r, a)
  end.
Definition sched_step (x : sched) (c : auth_conf) : auth_conf :=
  match x with
  | SArrive u p ip rnd => mkAConf (ac_auth c) (ac_threads c ++ [mkThread u p ip rnd LStart])
  | SRun i now =>
      match ac_threads c !! i with
      | None => c
      | Some th => let '(ph, a) := login_section now th (ac_auth c) in mkAConf a (<[i := at_phase ph th]> (ac_threads c))
      end
  | SOther o => mkAConf (auth_step compare o (ac_auth c)) (ac_threads c)
  end.
(** A login that is left alone is [Login]. *)
Fixpoint sections (times : list Z) (th : login_thread) (a : Auth) : login_thread * Auth :=
  match times with
  | [] => (th, a)
  | t :: times => let '(ph, a) := login_section t th a in sections times (at_phase ph th) a
  end.
Lemma Login_sections e u p ip a :
  let '(a', r) := Login compare e u p ip a in
  sections [l_allow e; l_allow e; l_record e; l_record e; l_expiry e] (mkThread u p ip (l_random e) LStart) a
    = (mkThread u p ip (l_random e) (LDone r), a').
Proof.
  unfold Login. cbn [sections login_section lt_phase]. destruct (Configured a); cbn; [|done]. destruct (allowLogin (l_allow e) ip a); cbn; [|done].
  destruct (verify compare u p a); cbn; [|done]. by destruct (newSessionID (l_random e)).
Qed.

(** ** Guessing a password from one address *)
Context (ip : string) (n : nat).
(** A login between the check and the count. *)
Definition in_flight (th : login_thread) : bool :=
  str_eqb (lt_ip th) ip && match lt_phase th with LAllowed | LVerified _ => true | _ => false end.
Definition flying (c : auth_conf) : nat := length (filter (λ th, in_flight th = true) (ac_threads c)).
#[local] Arguments flying : simpl never.
(** The time at which a wrong password from [ip] is counted and answered. *)
Definition wrong_guess (x : sched) (c : auth_conf) : option Z :=
  match x with
  | SRun i now =>
      match ac_threads c !! i with
      | Some th => if str_eqb (lt_ip th) ip && match lt_phase th with LVerified false => true | _ => false end then Some now else None
      | None => None
      end
  | _ => None
  end.
Fixpoint wrong_guesses (xs : list sched) (c : auth_conf) : list Z :=
  match xs with
  | [] => []
  | x :: xs => let rest := wrong_guesses xs (sched_step x c) in
               match wrong_guess x c with Some t => t :: rest | None => rest end
  end.
(** No password from [ip] was right, and at most [n] logins are in flight. *)
Definition fine (c : auth_conf) : Prop :=
  (∀ th, th ∈ ac_threads c → lt_ip th = ip → lt_phase th ≠ LVerified true) ∧ (flying c ≤ n)%nat.
Definition time_of (x : sched) (t : Z) : Z :=
  match x with SRun _ now => now | SOther (OpSweep now) => now | _ => t end.
(** The clock does not run backwards; logins are threads. *)
Definition regular (x : sched) (t : Z) : Prop :=
  t ≤ time_of x t ∧ ∀ e u p i, x ≠ SOther (OpLogin e u p i).
Fixpoint guessing (t : Z) (xs : list sched) (c : auth_conf) : Prop :=
  match xs with
  | [] => True
  | x :: xs => regular x t ∧ fine (sched_step x c) ∧ guessing (time_of x t) xs (sched_step x c)
  end.

(** ** What one step does to the record of the address *)
Definition cap : Z := maxLoginFails - 1 + Z.of_nat n.
(** What the record and the logins in flight can still add to a window. *)
Definition room (t : Z) (c : auth_conf) : Prop :=
  ∀ g, a_fl (ac_auth c) !! ip = Some g → 1 ≤ lf_count g
    ∧ (t ≤ lf_windowStart g + loginLockWindow → lf_count g + Z.of_nat (flying c) ≤ cap).
Inductive fails_step (t : Z) (f : option loginFails) : option Z → option loginFails → Prop :=
| fs_same : fails_step t f None f
| fs_swept g : f = Some g → lf_windowStart g + loginLockWindow < t → fails_step t f None None
| fs_first : (∀ g, f = Some g → lf_windowStart g + loginLockWindow < t) → fails_step t f (Some t) (Some (mkFails 1 t))
| fs_again g : f = Some g → lf_count g < cap → t ≤ lf_windowStart g + loginLockWindow →
    fails_step t f (Some t) (Some (mkFails (lf_count g + 1) (lf_windowStart g))).
Lemma filter_insert_length {A} (P : A → bool) (l : list A) i x y : l !! i = Some x →
  (length (filter (λ z, P z = true) (<[i := y]> l)) + Nat.b2n (P x) = length (filter (λ z, P z = true) l) + Nat.b2n (P y))%nat.
Proof.
  revert i. induction l as [|z l IH]; intros [|i]; cbn [lookup list_lookup]; [done..| |].
  - intros [= ->]. cbn [insert list_insert]. rewrite !filter_cons. destruct (P x) eqn:Ex, (P y) eqn:Ey; repeat case_decide; cbn; congruence || lia.
  - intros Hi. specialize (IH i Hi). cbn [insert list_insert]. rewrite !filter_cons. case_decide; [exact (f_equal S IH)|exact IH].
Qed.
Lemma flying_run i th ph a c : ac_threads c !! i = Some th →
  (flying (mkAConf a (<[i := at_phase ph th]> (ac_threads c))) + Nat.b2n (in_flight th) = flying c + Nat.b2n (in_flight (at_phase ph th)))%nat.
Proof. intros Hi. by apply (filter_insert_length in_flight). Qed.
Lemma other_fails t o a : (∀ e u p i, o ≠ OpLogin e u p i) →
  fails_step (time_of (SOther o) t) (a_fl a !! ip) None (a_fl (auth_step compare o a) !! ip).
Proof.
  intros Ho. destruct o as [e u p i|now c|c|now|e l ttl|i|u h]; cbn [auth_step time_of].
  - by destruct (Ho e u p i).
  - unfold Authed. repeat (case_match; cbn); apply fs_same.
  - unfold Destroy. case_match; apply fs_same.
  - cbn. rewrite map_lookup_filter. destruct (a_fl a !! ip) as [g|] eqn:Hf; cbn; [|apply fs_same].
    destruct (decide (expired_window now g = false)) as [Hx|Hx]; [rewrite option_guard_True by done; apply fs_same|].
    rewrite option_guard_False by done. unfold expired_window, time_after in Hx. apply (fs_swept _ _ g); [done|].
    apply not_false_is_true in Hx. by bools.
  - unfold CreateAPIKey. repeat (case_match; cbn); apply fs_same.
  - unfold RevokeAPIKey. case_match; apply fs_same.
  - unfold Configure. repeat (case_match; cbn); apply fs_same.
Qed.
Lemma section_other now th a : lt_ip th ≠ ip → a_fl (login_section now th a).2 !! ip = a_fl a !! ip.
Proof.
  intros Hne. unfold login_section. destruct (lt_phase th) as [| | |[]| |]; try done; cbn; [by rewrite lookup_delete_ne|].
  unfold recordFail. repeat case_match; cbn; by rewrite lookup_insert_ne.
Qed.
Lemma room_mono t t' c : t ≤ t' → room t c → room t' c.
Proof. intros Ht Hr g Hg. destruct (Hr g Hg) as [H1 H2]. split; [done|]. intros ?. apply H2. lia. Qed.
Lemma flying_elem th c i : ac_threads c !! i = Some th → in_flight th = true → (1 ≤ flying c)%nat.
Proof.
  intros Hi Hf. unfold flying. assert (th ∈ filter (λ th, in_flight th = true) (ac_threads c)) as Hin
    by (apply list_elem_of_filter; split; [done|by eapply list_elem_of_lookup_2]).
  destruct (filter _ _); [set_solver|cbn; lia].
Qed.
(** Counting a wrong password: a new window, or one more in this one. *)
Lemma recordFail_record now a :
  a_fl (recordFail now ip a) !! ip = Some
    match a_fl a !! ip with
    | Some g => if lf_windowStart g + loginLockWindow <? now then mkFails 1 now else mkFails (lf_count g + 1) (lf_windowStart g)
    | None => mkFails 1 now
    end.
Proof. unfold recordFail, expired_window, time_after. repeat case_match; cbn; by rewrite lookup_insert_eq. Qed.
Lemma count_step t now i th c : fine c → room t c → t ≤ now → ac_threads c !! i = Some th → lt_ip th = ip → lt_phase th = LVerified false →
  let c' := mkAConf (recordFail now ip (ac_auth c)) (<[i := at_phase (LDone (Err errBadCreds)) th]> (ac_threads c)) in
  fails_step now (a_fl (ac_auth c) !! ip) (Some now) (a_fl (ac_auth c') !! ip) ∧ room now c'.
Proof.
  intros [_ Hn] Hr Ht Hi Hip Hph c'. pose proof (flying_run i th (LDone (Err errBadCreds)) (recordFail now ip (ac_auth c)) c Hi) as Hf.
  assert (in_flight th = true) as Hfl by (unfold in_flight; rewrite Hip, Hph; by rewrite str_eqb_refl).
  assert (in_flight (at_phase (LDone (Err errBadCreds)) th) = false) as Hfl' by (unfold in_flight; by rewrite andb_false_r).
  rewrite Hfl, Hfl' in Hf. fold c' in Hf. cbn [Nat.b2n] in Hf. unfold room, cap, maxLoginFails in *.
  change (ac_auth c') with (recordFail now ip (ac_auth c)). rewrite recordFail_record.
  destruct (a_fl (ac_auth c) !! ip) as [g|] eqn:Hg; [destruct (Hr g eq_refl) as [H1 H2]; destruct (_ <? now) eqn:E; bools|].
  - split; [apply fs_first; intros ? [= <-]; lia|]. intros ? [= <-]. cbn [lf_count lf_windowStart]. lia.
  - specialize (H2 ltac:(lia)). split; [apply fs_again; unfold cap, maxLoginFails; (done || lia)|]. intros ? [= <-]. cbn [lf_count lf_windowStart]. lia.
  - split; [by apply fs_first|]. intros ? [= <-]. cbn [lf_count lf_windowStart]. lia.
Qed.
(** A section that counts nothing. *)
Lemma run_quiet t now i th c : fine c → room t c → t ≤ now → ac_threads c !! i = Some th →
  (lt_ip th = ip → lt_phase th ≠ LVerified false) →
  let c' := sched_step (SRun i now) c in
  fine c' → a_fl (ac_auth c') !! ip = a_fl (ac_auth c) !! ip ∧ room now c'.
Proof.
  intros [Hv Hn] Hr Ht Hi Hq c'. subst c'. cbn [sched_step]. rewrite Hi.
  destruct (login_section now th (ac_auth c)) as [ph a] eqn:E. pose proof (flying_run i th ph a c Hi) as Hf. set (c' := mkAConf _ _) in *.
  intros [_ Hn']. cbn [ac_auth]. destruct (decide (lt_ip th = ip)) as [Hip|Hip].
  - specialize (Hq Hip). specialize (Hv th (list_elem_of_lookup_2 _ _ _ Hi) Hip). unfold in_flight in Hf. cbn in Hf. rewrite Hip, str_eqb_refl in Hf.
    unfold login_section in E. rewrite Hip in E.
    destruct (lt_phase th) as [| | |[]|id|r] eqn:Hph; try done; injection E as <- <-; (split; [done|]); intros g Hg; cbn in Hg; destruct (Hr g Hg) as [H1 H2];
      (split; [done|]); intros Hle; cbn in Hf; unfold cap, maxLoginFails in *.
    + destruct (Configured _); cbn in Hf; specialize (H2 ltac:(lia)); lia.
    + specialize (H2 ltac:(lia)). unfold allowLogin in Hf. rewrite Hg in Hf. unfold expired_window, time_after in Hf.
      destruct (_ <? now) eqn:E2; bools; [lia|]. cbn in Hf. destruct (_ <? maxLoginFails) eqn:E3; bools; cbn in Hf; unfold maxLoginFails in *; lia.
    + specialize (H2 ltac:(lia)). lia.
    + specialize (H2 ltac:(lia)). lia.
    + specialize (H2 ltac:(lia)). lia.
  - assert (in_flight th = false ∧ in_flight (at_phase ph th) = false) as [F1 F2]
      by (unfold in_flight; cbn; apply str_eqb_neq in Hip; by rewrite Hip).
    rewrite F1, F2 in Hf. cbn [Nat.b2n] in Hf. pose proof (section_other now th (ac_auth c) Hip) as Hs. rewrite E in Hs. cbn [snd] in Hs. split; [done|].
    intros g Hg. cbn [c' ac_auth] in Hg. rewrite Hs in Hg. destruct (Hr g Hg) as [H1 H2]. split; [done|]. intros ?. specialize (H2 ltac:(lia)). lia.
Qed.
(** Every step. *)
Lemma sched_fails x t c : regular x t → fine c → room t c → fine (sched_step x c) →
  fails_step (time_of x t) (a_fl (ac_auth c) !! ip) (wrong_guess x c) (a_fl (ac_auth (sched_step x c)) !! ip)
  ∧ room (time_of x t) (sched_step x c).
Proof.
  intros [Ht Ho] Hc Hr Hc'. destruct x as [u p i rnd|i now|o]; cbn [time_of] in Ht |- *.
  - split; [apply fs_same|]. intros g Hg. destruct (Hr g Hg) as [H1 H2]. split; [done|]. unfold flying. cbn [sched_step ac_threads].
    rewrite filter_app, length_app. rewrite filter_cons, decide_False by (unfold in_flight; cbn; by rewrite andb_false_r). cbn [length filter list_filter].
    intros Hle. specialize (H2 Hle). unfold flying in H2. lia.
  - destruct (ac_threads c !! i) as [th|] eqn:Hi; [|cbn [sched_step wrong_guess] in *; rewrite Hi; split; [apply fs_same|by eapply room_mono]].
    assert (lt_ip th = ip ∧ lt_phase th = LVerified false ∨ ¬ (lt_ip th = ip ∧ lt_phase th = LVerified false)) as [[Hip Hph]|Hq].
    { destruct (decide (lt_ip th = ip)); [|tauto]. destruct (lt_phase th) as [| | |[]| |]; (by left) || (right; by intros [_ ?]). }
    + destruct (count_step t now i th c Hc Hr Ht Hi Hip Hph) as [H1 H2]. cbn [sched_step wrong_guess]. rewrite Hi. unfold login_section.
      by rewrite Hph, Hip, str_eqb_refl.
    + destruct (run_quiet t now i th c Hc Hr Ht Hi) as [H1 H2]; [tauto|done|]. split; [|exact H2]. rewrite H1.
      assert (wrong_guess (SRun i now) c = None) as ->; [|apply fs_same]. cbn. rewrite Hi. destruct (str_eqb (lt_ip th) ip) eqn:E; [|done].
      apply str_eqb_eq in E. destruct (lt_phase th) as [| | |[]| |]; try done. tauto.
  - pose proof (other_fails t o (ac_auth c) ltac:(intros e u p i ->; by apply (Ho e u p i))) as Hs. split; [exact Hs|].
    intros g Hg. cbn [sched_step ac_auth] in Hg. rewrite Hg in Hs. inversion Hs as [E| | |]. symmetry in E. by apply (room_mono _ _ _ Ht Hr g).
Qed.

(** ** How close guesses can be *)
(** After a step the clock has passed what the step counted. *)
Lemma wrong_guess_time x t c y : wrong_guess x c = Some y → y = time_of x t.
Proof. destruct x as [u p i rnd|i now|o]; cbn; [done| |done]. repeat case_match; by intros [= <-]. Qed.
Lemma wrong_guesses_late xs c t x : guessing t xs c → x ∈ wrong_guesses xs c → t ≤ x.
Proof.
  revert t c. induction xs as [|y xs IH]; intros t c Hg; [set_solver|]. cbn [wrong_guesses]. destruct Hg as ([Hle _] & _ & Hg).
  assert (x ∈ wrong_guesses xs (sched_step y c) → t ≤ x) as Hrest by (intros ?%(IH _ _ Hg); lia).
  destruct (wrong_guess y c) as [z|] eqn:E; [|done]. apply (wrong_guess_time _ t) in E as ->. rewrite elem_of_cons. intros [->|?]; auto.
Qed.
Lemma late_lookup xs c t k x : guessing t xs c → wrong_guesses xs c !! k = Some x → t ≤ x.
Proof. intros Hg Hk. eapply wrong_guesses_late; [done|]. by eapply list_elem_of_lookup_2. Qed.
(** A window with [k] failures leaves room for [cap - k] more. *)
Lemma window_budget xs c t g k x :
  fine c → room t c → guessing t xs c → a_fl (ac_auth c) !! ip = Some g → wrong_guesses xs c !! k = Some x →
  cap - lf_count g ≤ Z.of_nat k → lf_windowStart g + loginLockWindow < x.
Proof.
  revert c t g k. induction xs as [|y xs IH]; intros c t g k Hc Hr Hg Hf Hk Hb; [done|]. cbn [wrong_guesses] in Hk.
  destruct Hg as (Hreg & Hc' & Hg). destruct (sched_fails y t c Hreg Hc Hr Hc') as [Hs Hr']. rewrite Hf in Hs.
  destruct (wrong_guess y c) as [z|] eqn:Ew.
  - apply (wrong_guess_time _ t) in Ew. inversion Hs as [| |Hfresh E1 E2|g' Hgg Hlt Hle E1 E2]; symmetry in E2; try injection Hgg as <-.
    + specialize (Hfresh g eq_refl). destruct k as [|k]; cbn in Hk; [injection Hk as <-; lia|].
      pose proof (late_lookup _ _ _ _ _ Hg Hk). lia.
    + destruct k as [|k]; cbn in Hk; [lia|]. refine (IH _ _ (mkFails (lf_count g + 1) (lf_windowStart g)) k Hc' Hr' Hg E2 Hk _). cbn. lia.
  - inversion Hs as [E1 E2|g' Hgg Hlt E1 E2| |]; symmetry in E2; try injection Hgg as <-.
    + by apply (IH _ _ g k Hc' Hr' Hg).
    + pose proof (late_lookup _ _ _ _ _ Hg Hk). lia.
Qed.
(** Without a record, [cap] guesses fill a window. *)
Definition spare (f : option loginFails) : Z := match f with None => cap | Some g => (cap - lf_count g) + cap end.
Lemma spread_budget xs c t k x :
  fine c → room t c → guessing t xs c → (∀ g, a_fl (ac_auth c) !! ip = Some g → lf_count g ≤ cap) → (1 ≤ n)%nat →
  wrong_guesses xs c !! k = Some x → spare (a_fl (ac_auth c) !! ip) ≤ Z.of_nat k → t + loginLockWindow < x.
Proof.
  revert c t k. induction xs as [|y xs IH]; intros c t k Hc Hr Hg Hcap Hn Hk Hb; [done|]. cbn [wrong_guesses] in Hk.
  destruct Hg as (Hreg & Hc' & Hg). destruct (sched_fails y t c Hreg Hc Hr Hc') as [Hs Hr']. pose proof (proj1 Hreg) as Hle.
  assert (5 ≤ cap) as H5 by (unfold cap, maxLoginFails; lia).
  destruct (wrong_guess y c) as [z|] eqn:Ew.
  - apply (wrong_guess_time _ t) in Ew. inversion Hs as [| |Hfresh E1 E2|g Hfa Hlt Hle' E1 E2]; symmetry in E2.
    + assert (cap ≤ Z.of_nat k) by (unfold spare in Hb; destruct (a_fl _ !! ip) as [g|]; [specialize (Hcap g eq_refl)|]; lia).
      destruct k as [|k]; cbn in Hk; [lia|].
      pose proof (window_budget _ _ _ _ k x Hc' Hr' Hg E2 Hk ltac:(cbn; lia)) as Hwb. cbn in Hwb. lia.
    + rewrite Hfa in Hb. cbn in Hb. destruct k as [|k]; cbn in Hk; [lia|].
      pose proof (IH _ _ k Hc' Hr' Hg) as Hwb. rewrite E2 in Hwb. cbn in Hwb. specialize (Hwb ltac:(intros ? [= <-]; cbn; lia) Hn Hk ltac:(lia)). lia.
  - inversion Hs as [E1 E2|g Hfa Hlt E1 E2| |]; symmetry in E2.
    + pose proof (IH _ _ k Hc' Hr' Hg) as Hwb. rewrite E2 in Hwb. specialize (Hwb Hcap Hn Hk Hb). lia.
    + rewrite Hfa in Hb. cbn in Hb. specialize (Hcap g Hfa). pose proof (IH _ _ k Hc' Hr' Hg) as Hwb. rewrite E2 in Hwb. cbn in Hwb.
      specialize (Hwb ltac:(done) Hn Hk ltac:(lia)). lia.
Qed.
Lemma fails_capped t f r f' : (1 ≤ n)%nat → fails_step t f r f' → (∀ g, f = Some g → lf_count g ≤ cap) → ∀ g, f' = Some g → lf_count g ≤ cap.
Proof.
  intros Hn Hs Hc. destruct Hs as [|? ? ?|?|g -> ? ?]; intros g' Hg'; [by apply Hc|done|..]; injection Hg' as <-; cbn; [unfold cap, maxLoginFails; lia|lia].
Qed.
Lemma logins_spread xs c t i k x y :
  (1 ≤ n)%nat → fine c → room t c → guessing t xs c → (∀ g, a_fl (ac_auth c) !! ip = Some g → lf_count g ≤ cap) →
  2 * cap - 1 ≤ Z.of_nat k → wrong_guesses xs c !! i = Some x → wrong_guesses xs c !! (i + k)%nat = Some y → x + loginLockWindow < y.
Proof.
  intros Hn. revert c t i. induction xs as [|z xs IH]; intros c t i Hc Hr Hg Hcap Hk Hx Hy; [done|]. cbn [wrong_guesses] in Hx, Hy.
  destruct Hg as (Hreg & Hc' & Hg). destruct (sched_fails z t c Hreg Hc Hr Hc') as [Hs Hr']. pose proof (fails_capped _ _ _ _ Hn Hs Hcap) as Hcap'.
  assert (5 ≤ cap) as H5 by (unfold cap, maxLoginFails; lia).
  destruct (wrong_guess z c) as [w|] eqn:Ew; [|by eapply IH]. destruct i as [|i]; [|by eapply IH]. cbn in Hx. injection Hx as ->.
  apply (wrong_guess_time _ t) in Ew. destruct k as [|k]; [lia|]. cbn in Hy.
  inversion Hs as [| |Hfresh E1 E2|g Hfa Hlt Hle E1 E2]; symmetry in E2.
  - pose proof (window_budget _ _ _ _ k y Hc' Hr' Hg E2 Hy ltac:(cbn; lia)) as Hwb. cbn in Hwb. lia.
  - refine (spread_budget _ _ _ k y Hc' Hr' Hg Hcap' Hn Hy _). rewrite E2. cbn. destruct (Hr g Hfa) as [? _]. lia.
Qed.
End Threads.

(** ** Concrete schedules *)
(** The side conditions, decided for schedules of logins only. *)
Definition fine_dec (ip : string) (n : nat) (c : auth_conf) : bool :=
  forallb (λ th, negb (str_eqb (lt_ip th) ip && match lt_phase th with LVerified true => true | _ => false end)) (ac_threads c)
  && (flying ip c <=? n)%nat.
Fixpoint guessing_dec (compare : string → string → option bcrypt_error) (ip : string) (n : nat) (t : Z) (xs : list sched) (c : auth_conf) : bool :=
  match xs with
  | [] => true
  | x :: xs =>
      match x with SArrive _ _ _ _ => true | SRun _ now => t <=? now | SOther _ => false end
      && fine_dec ip n (sched_step compare x c) && guessing_dec compare ip n (time_of x t) xs (sched_step compare x c)
  end.
Lemma fine_dec_ok ip n c : fine_dec ip n c = true → fine ip n c.
Proof.
  intros [H1 H2%Nat.leb_le]%andb_true_iff. split; [|done]. intros th Hin Hip Hph. rewrite forallb_forall in H1.
  specialize (H1 th (proj1 (list_elem_of_In _ _) Hin)). by rewrite Hip, str_eqb_refl, Hph in H1.
Qed.
Lemma guessing_dec_ok compare ip n t xs c : guessing_dec compare ip n t xs c = true → guessing compare ip n t xs c.
Proof.
  revert t c. induction xs as [|x xs IH]; intros t c; [done|]. cbn [guessing_dec guessing].
  intros [[H1 H2%fine_dec_ok]%andb_true_iff H3%IH]%andb_true_iff. split; [|done].
  destruct x as [u p i rnd|i now|o]; [split; [done|by intros]|split; [by apply Z.leb_le|by intros]|done].
Qed.
Definition demo_conf (n : nat) (ip : string) : auth_conf :=
  mkAConf demo_auth ((λ _, mkThread "admin" "guess" ip (Some demo_bytes) LStart) <$> seq 0 n).
(** Logins one after the other, each at its time. *)
Definition one_by_one (times : list Z) : list sched := concat (imap (λ i t, replicate 4 (SRun i t)) times).
(** The limiter uses fixed windows: nine guesses can fall within a second. *)
Definition window_edge : list Z :=
  [0; 299 * second; 299 * second; 299 * second; 299 * second; 299 * second;
   300 * second + 1; 300 * second + 1; 300 * second + 1; 300 * second + 1; 300 * second + 1].
Example nine_guesses_in_a_second :
  wrong_guesses demo_compare "203.0.113.9" (one_by_one window_edge) (demo_conf 11 "203.0.113.9")
  = [0; 299 * second; 299 * second; 299 * second; 299 * second;
     300 * second + 1; 300 * second + 1; 300 * second + 1; 300 * second + 1; 300 * second + 1].
Proof. vm_compute. reflexivity. Qed.
(** Nothing bounds the logins that overlap: a hundred pass the check before
    the first of them is counted, and all hundred passwords are compared. *)
Definition all_at_once (n : nat) (t : Z) : list sched := concat (replicate 4 ((λ i, SRun i t) <$> seq 0 n)).
Example login_race :
  length (wrong_guesses demo_compare "203.0.113.9" (all_at_once 100 0) (demo_conf 100 "203.0.113.9")) = 100%nat.
Proof. vm_compute. reflexivity. Qed.

(** C23: Guessing the password is slow when logins do not overlap much. Take any
    interleaving of the critical sections of logins, from all addresses, with
    each other and with everything else that uses the login system, on a clock
    that does not run backwards and from a state in which no failure is counted
    for an address.  As long as no password from that address is right and
    never more than [n] of its logins are between the check of the limit and
    the count of the failure, the first and the last of any 2n + 8 wrong
    passwords of that address are more than five minutes apart: ten for logins
    one after the other (the limiter counts in fixed windows of five minutes
    with five attempts each, so nine can come close together), and so many more
    as overlap, which the code does not bound (login_race). *)
Theorem auth_guess_limit compare ip n xs c t i x y :
  (1 ≤ n)%nat → guessing compare ip n t xs c → fine ip n c → a_fl (ac_auth c) !! ip = None →
  wrong_guesses compare ip xs c !! i = Some x → wrong_guesses compare ip xs c !! (i + (2 * n + 7))%nat = Some y →
  x + loginLockWindow < y.
Proof.
  intros Hn Hg Hc Hf. apply (logins_spread compare ip n xs c t i (2 * n + 7) x y Hn Hc); [| |by rewrite Hf|].
  - intros g Hg'. by rewrite Hf in Hg'.
  - exact Hg.
  - unfold cap, maxLoginFails. lia.
Qed.
Lemma auth_guess_limit_witness :
  wrong_guesses demo_compare "203.0.113.9" (one_by_one [1; 1; 1; 1; 1; 2; 3; 301 * second; 301 * second; 301 * second; 301 * second; 301 * second])
    (demo_conf 12 "203.0.113.9") !! 9%nat = Some (301 * second)
  ∧ 1 + loginLockWindow < 301 * second.
Proof.
  split; [vm_compute; reflexivity|].
  apply (auth_guess_limit demo_compare "203.0.113.9" 1
    (one_by_one [1; 1; 1; 1; 1; 2; 3; 301 * second; 301 * second; 301 * second; 301 * second; 301 * second])
    (demo_conf 12 "203.0.113.9") 0 0);
    [lia|apply guessing_dec_ok; vm_compute; reflexivity|apply fine_dec_ok; vm_compute; reflexivity|vm_compute; reflexivity..].
Defined.
