(* ===== verification/Release.v ===== *)
(** * Release versions and the controller's own update

    internal/controller/release.go, internal/controller/selfupdate.go, the
    release settings of internal/controller/fleet.go, and the comparison of
    the vendored package golang.org/x/mod/semver they use.  What a download
    gives and the update script are arguments. *)
From S2P Require Import Prelude GoStrings Records Update.
From Stdlib Require Import Ascii.
#[local] Open Scope Z_scope.

(** ** Package semver *)
Definition isIdentChar (c : ascii) : bool :=
  in_range 65 90 c || in_range 97 122 c || in_range 48 57 c || ascii_eqb c "-".
(** The leading digits of [v] and what follows them. *)
Fixpoint digits (v : string) : string * string :=
  match v with
  | "" => ("", "")
  | String c r => if is_digit c then let '(t, rest) := digits r in (String c t, rest) else ("", v)
  end.
Definition leading_zero (t : string) : bool :=
  match t with String c (String _ _) => ascii_eqb c "0" | _ => false end.
Definition parseInt (v : string) : option (string * string) :=
  let '(t, rest) := digits v in
  if str_eqb t "" || leading_zero t then None else Some (t, rest).
Definition isNum (v : string) : bool := sforall is_digit v.
Definition isBadNum (v : string) : bool := isNum v && leading_zero v.
(** The part of [v] before the first [c], and the rest from it on. *)
Definition before (c : ascii) (v : string) : string * string :=
  match IndexByte v c with Some i => (stake i v, sdrop i v) | None => (v, "") end.
(** Dot-separated identifiers, none of them empty or [bad]. *)
Definition idents_ok (bad : string → bool) (v : string) : bool :=
  sforall (λ c, isIdentChar c || is_dot c) v && forallb (λ w, negb (str_eqb w "") && negb (bad w)) (Split v ".").
Definition parsePrerelease (v : string) : option (string * string) :=
  match v with
  | String c r =>
      if ascii_eqb c "-" then
        let '(t, rest) := before "+" r in
        if idents_ok isBadNum t then Some (String c t, rest) else None
      else None
  | "" => None
  end.
Definition parseBuild (v : string) : option (string * string) :=
  match v with
  | String c r => if ascii_eqb c "+" && idents_ok (λ _, false) r then Some (v, "") else None
  | "" => None
  end.
Record parsed := mkParsed { pv_major : string; pv_minor : string; pv_patch : string; pv_prerelease : string }.
Definition starts (c : ascii) (v : string) : bool := match v with String d _ => ascii_eqb d c | "" => false end.
Definition parse_suffix (major minor patch v : string) : option parsed :=
  '(pre, v) ← if starts "-" v then parsePrerelease v else Some ("", v);
  '(_, v) ← if starts "+" v then parseBuild v else Some ("", v);
  if str_eqb v "" then Some (mkParsed major minor patch pre) else None.
Definition semver_parse (v : string) : option parsed :=
  if negb (starts "v" v) then None
  else
    '(major, v) ← parseInt (sdrop 1 v);
    if str_eqb v "" then Some (mkParsed major "0" "0" "")
    else if negb (starts "." v) then None
    else
      '(minor, v) ← parseInt (sdrop 1 v);
      if str_eqb v "" then Some (mkParsed major minor "0" "")
      else if negb (starts "." v) then None
      else '(patch, v) ← parseInt (sdrop 1 v); parse_suffix major minor patch v.
Definition compareInt (x y : string) : Z :=
  if str_eqb x y then 0
  else if (slen x <? slen y)%nat then -1
  else if (slen y <? slen x)%nat then 1
  else if str_ltb x y then -1 else 1.
(** Identifier by identifier; [fuel] is the length of the longer text. *)
Fixpoint compare_idents (fuel : nat) (x y : string) : Z :=
  match fuel with
  | O => 0
  | S fuel =>
      if str_eqb x "" || str_eqb y "" then if str_eqb x "" then -1 else 1
      else
        let '(dx, x) := before "." (sdrop 1 x) in
        let '(dy, y) := before "." (sdrop 1 y) in
        if str_eqb dx dy then compare_idents fuel x y
        else if negb (Bool.eqb (isNum dx) (isNum dy)) then if isNum dx then -1 else 1
        else if isNum dx && (slen dx <? slen dy)%nat then -1
        else if isNum dx && (slen dy <? slen dx)%nat then 1
        else if str_ltb dx dy then -1 else 1
  end.
Definition comparePrerelease (x y : string) : Z :=
  if str_eqb x y then 0
  else if str_eqb x "" then 1
  else if str_eqb y "" then -1
  else compare_idents (S (slen x + slen y)) x y.
Definition semver_Compare (v w : string) : Z :=
  match semver_parse v, semver_parse w with
  | None, None => 0
  | None, Some _ => -1
  | Some _, None => 1
  | Some p, Some q =>
      let c := compareInt (pv_major p) (pv_major q) in
      if negb (c =? 0) then c
      else
        let c := compareInt (pv_minor p) (pv_minor q) in
        if negb (c =? 0) then c
        else
          let c := compareInt (pv_patch p) (pv_patch q) in
          if negb (c =? 0) then c else comparePrerelease (pv_prerelease p) (pv_prerelease q)
  end.

(** ** release.go *)
Definition validVersion (v : string) : bool :=
  let parts := Split v "." in
  (length parts =? 3)%nat && forallb (λ p, negb (str_eqb p "") && sforall is_digit p) parts.
Definition semverLess (a b : string) : bool := semver_Compare ("v" +:+ a) ("v" +:+ b) <? 0.
Definition isHexSHA (s : string) : bool :=
  if (slen s <? 7)%nat then false else sforall (λ c, in_range 48 57 c || in_range 97 102 c) s.
Definition extractVersion (v : string) : string :=
  let v := match LastIndexByte v "/" with Some i => sdrop (S i) v | None => v end in
  let v := TrimSpace v in
  let v := match IndexByte v "+" with
           | Some i => if isHexSHA (sdrop (S i) v) then stake i v else v
           | None => v
           end in
  if negb (validVersion v) then "" else v.
Definition branchForChannel (channel : string) : string := if str_eqb channel ChannelDev then "dev" else "master".

(** [rc_tickers] counts the refresh goroutines that were started. *)
Record releaseCheck := mkRelease {
  rc_versions : gmap string string; rc_lastOK : Z; rc_lastChannel : string; rc_tickers : nat }.
Definition newReleaseCheck : releaseCheck := mkRelease ∅ 0 "" 0.
Definition rc_version (channel : string) (r : releaseCheck) : string := default "" (rc_versions r !! channel).
(** What fetching a URL gives: a transport error, or a status, the body and
    whether reading it fails. *)
Record download := mkDownload { dl_status : Z; dl_body : string; dl_readFails : bool }.
Definition version_url (branch : string) : string :=
  "https://raw.githubusercontent.com/twobip/BlipDNS/" +:+ branch +:+ "/VERSION".
Definition refresh (get : string → option download) (now : Z) (channel : string) (r : releaseCheck) : releaseCheck :=
  match get (version_url (branchForChannel channel)) with
  | None => r
  | Some d =>
      if negb (dl_status d =? 200) then r
      else if dl_readFails d then r
      else
        let latest := TrimSpace (stake 64 (dl_body d)) in
        if negb (validVersion latest) then r
        else mkRelease (<[channel := latest]> (rc_versions r)) now (rc_lastChannel r) (rc_tickers r)
  end.
Definition currentChannel (r : releaseCheck) : string := rc_lastChannel r.
Definition start (get : string → option download) (now : Z) (channel : string) (r : releaseCheck) : releaseCheck :=
  let first := str_eqb (rc_lastChannel r) "" in
  if str_eqb (rc_lastChannel r) channel then r
  else
    let r := refresh get now channel (mkRelease (rc_versions r) (rc_lastOK r) channel (rc_tickers r)) in
    if first then mkRelease (rc_versions r) (rc_lastOK r) (rc_lastChannel r) (S (rc_tickers r)) else r.
(** One tick of such a goroutine. *)
Definition tick (get : string → option download) (now : Z) (r : releaseCheck) : releaseCheck :=
  refresh get now (currentChannel r) r.
Definition available (channel runningVersion : string) (r : releaseCheck) : bool :=
  let running := extractVersion runningVersion in
  if str_eqb running "" then false
  else
    let latest := rc_version channel r in
    if str_eqb latest "" then false else semverLess running latest.

(** ** selfupdate.go

    The same life cycle as the node's updater (Update.v), with its own texts;
    the script's error output is appended to its exit error. *)
Definition ControllerVersion (version : string) : string := "blipc/" +:+ version.
Definition self_StartUpdate (channel : string) (st : UpdateStatus) : UpdateStatus * option update_error :=
  if negb (ValidUpdateChannel channel) then (st, Some UE_channel)
  else if us_Running st then (st, Some UE_running)
  else (mkUpdate true "downloading blipc" "" channel, None).
Definition finishRun (err : option string) (st : UpdateStatus) : UpdateStatus :=
  match err with
  | Some e => mkUpdate false (us_Message st) e (us_Channel st)
  | None => mkUpdate false "controller updated" (us_LastError st) (us_Channel st)
  end.
Definition wait_error (sc : script) (stderr : string) : option string :=
  match sc_wait sc with
  | None => None
  | Some e => let msg := TrimSpace stderr in Some (if str_eqb msg "" then e else e +:+ ": " +:+ msg)
  end.
Definition self_run (sc : script) (stderr : string) (st : UpdateStatus) : UpdateStatus :=
  match sc_open sc with
  | Some e => finishRun (Some ("open updater output: " +:+ e)) st
  | None =>
      match sc_start sc with
      | Some e => finishRun (Some ("start updater: " +:+ e)) st
      | None =>
          let st := foldl progress st (sc_output sc) in
          match sc_read sc with
          | Some e => finishRun (Some ("read updater output: " +:+ e)) st
          | None => finishRun (wait_error sc stderr) st
          end
      end
  end.

(** ** Comparing the numbers instead of the texts *)
Definition number (s : string) : Z := default 0 (parse_nat_dec s).
Definition numbers (v : string) : list Z := number <$> Split v ".".
Fixpoint lex_less (l k : list Z) : bool :=
  match l, k with
  | x :: l, y :: k => if x =? y then lex_less l k else x <? y
  | _, _ => false
  end.
Definition canonical (v : string) : bool := validVersion v && forallb (λ p, negb (leading_zero p)) (Split v ".").

Lemma parse_digits_val s :
  sforall is_digit s = true →
  ∃ v, 0 ≤ v < 10 ^ Z.of_nat (slen s) ∧ ∀ acc, parse_digits acc s = Some (acc * 10 ^ Z.of_nat (slen s) + v).
Proof.
  induction s as [|c s IH]; cbn [sforall parse_digits slen]; [intros _; exists 0; split; [cbn; lia|intros acc; f_equal; cbn; lia]|].
  intros [Hc Hs]%andb_true_iff. destruct (IH Hs) as (v & Hv & Hp). rewrite Hc.
  unfold is_digit, in_range in Hc. bools. exists ((code c - 48) * 10 ^ Z.of_nat (slen s) + v).
  rewrite Nat2Z.inj_succ, Z.pow_succ_r by lia. split; [nia|]. intros acc. rewrite Hp. f_equal. ring.
Qed.
Lemma number_val s :
  s ≠ "" → sforall is_digit s = true → 0 ≤ number s < 10 ^ Z.of_nat (slen s) ∧ parse_digits 0 s = Some (number s).
Proof.
  intros Hne Hs. destruct (parse_digits_val s Hs) as (v & Hv & Hp). unfold number, parse_nat_dec.
  destruct s as [|c s]; [done|]. rewrite Hp. cbn [default id from_option]; unfold id. split; [lia|done].
Qed.
Lemma number_cons c s :
  sforall is_digit (String c s) = true → s ≠ "" → number (String c s) = (code c - 48) * 10 ^ Z.of_nat (slen s) + number s.
Proof.
  intros H Hne. unfold number at 1. cbn [sforall parse_nat_dec parse_digits] in *. apply andb_true_iff in H as [Hc Hs]. rewrite Hc.
  destruct (parse_digits_val s Hs) as (v & Hv & Hp). destruct (number_val s Hne Hs) as [_ Hn]. rewrite Hp in Hn |- *. cbn. injection Hn as Hn. lia.
Qed.
Lemma compare_same_length x y :
  sforall is_digit x = true → sforall is_digit y = true → slen x = slen y → x ≠ "" →
  String.compare x y = (number x ?= number y).
Proof.
  revert y. induction x as [|c x IH]; intros y Hx Hy Hl Hne; [done|]. destruct y as [|d y]; [done|].
  cbn [sforall] in Hx, Hy. pose proof Hx as [Hc Hx']%andb_true_iff. pose proof Hy as [Hd Hy']%andb_true_iff.
  injection Hl as Hl. cbn [String.compare]. unfold Ascii.compare.
  assert (∀ e, is_digit e = true → code e = Z.of_N (N_of_ascii e) ∧ 48 ≤ code e ≤ 57) as Hdig.
  { intros e He. unfold is_digit, in_range in He. bools. unfold code in *. lia. }
  destruct (Hdig c Hc) as [Ec Bc], (Hdig d Hd) as [Ed Bd].
  rewrite <-N2Z.inj_compare, <-Ec, <-Ed.
  destruct (decide (x = "")) as [->|Hx0].
  - destruct y; [|done]. unfold number, parse_nat_dec. cbn [parse_digits]. rewrite Hc, Hd. cbn [default from_option id]; unfold id.
    destruct (Z.compare_spec (code c) (code d)); cbn [String.compare]; symmetry;
      [apply Z.compare_eq_iff|apply Z.compare_lt_iff|apply Z.compare_gt_iff]; lia.
  - assert (y ≠ "") by (intros ->; by destruct x). rewrite !number_cons by done. rewrite <-Hl.
    destruct (number_val x Hx0 Hx') as [Vx _], (number_val y ltac:(done) Hy') as [Vy _]. rewrite <-Hl in Vy.
    destruct (Z.compare_spec (code c) (code d)) as [E|E|E].
    + rewrite (IH y Hx' Hy' Hl Hx0). rewrite E. by rewrite Z.add_compare_mono_l.
    + symmetry. apply Z.compare_lt_iff. nia.
    + symmetry. apply Z.compare_gt_iff. nia.
Qed.
Lemma shorter_smaller x y :
  x ≠ "" → sforall is_digit x = true → sforall is_digit y = true → leading_zero y = false →
  (slen x < slen y)%nat → number x < number y.
Proof.
  intros Hx Dx Dy Hz Hl. destruct y as [|d y]; [cbn in Hl; lia|]. cbn [slen] in Hl.
  assert (y ≠ "") as Hy by (intros ->; destruct x; cbn in *; [done|lia]).
  rewrite number_cons by done. destruct (number_val x Hx Dx) as [Vx _].
  cbn [sforall] in Dy. apply andb_true_iff in Dy as [Hd Dy]. destruct (number_val y Hy Dy) as [Vy _].
  assert (1 ≤ code d - 48) as Hd1.
  { unfold is_digit, in_range in Hd. bools. destruct (decide (code d = 48)) as [E|]; [|lia].
    destruct y; [done|]. cbn [leading_zero] in Hz.
    assert (d = "0"%char) as ->; [|done]. rewrite <-(ascii_N_embedding d). unfold code in E. replace (N_of_ascii d) with 48%N by lia. done. }
  assert (10 ^ Z.of_nat (slen x) ≤ 10 ^ Z.of_nat (slen y)) by (apply Z.pow_le_mono_r; lia). nia.
Qed.
Lemma compareInt_number x y :
  x ≠ "" → y ≠ "" → sforall is_digit x = true → sforall is_digit y = true → leading_zero x = false → leading_zero y = false →
  compareInt x y = match number x ?= number y with Lt => -1 | Eq => 0 | Gt => 1 end.
Proof.
  intros Hx Hy Dx Dy Zx Zy. unfold compareInt. destruct (str_eqb x y) eqn:E.
  { apply str_eqb_eq in E as ->. by rewrite Z.compare_refl. }
  apply str_eqb_neq in E. destruct (slen x <? slen y)%nat eqn:Hl; bools.
  { pose proof (shorter_smaller x y Hx Dx Dy Zy Hl) as Hn. apply Z.compare_lt_iff in Hn. by rewrite Hn. }
  destruct (slen y <? slen x)%nat eqn:Hl'; bools.
  { pose proof (shorter_smaller y x Hy Dy Dx Zx Hl') as Hn. apply Z.compare_gt_iff in Hn. by rewrite Hn. }
  pose proof (compare_same_length x y Dx Dy ltac:(lia) Hx) as Hc. unfold str_ltb, String.ltb. rewrite Hc.
  destruct (number x ?= number y) eqn:Hn; try done. exfalso. apply E. by apply String.compare_eq_iff.
Qed.

Lemma digits_app x rest :
  sforall is_digit x = true → match rest with String c _ => is_digit c = false | "" => True end → digits (x +:+ rest) = (x, rest).
Proof.
  intros Hx Hr. induction x as [|c x IH].
  - change ("" +:+ rest) with rest. destruct rest as [|c r]; [done|]. cbn [digits]. by rewrite Hr.
  - cbn [sforall] in Hx. apply andb_true_iff in Hx as [Hc Hx].
    change (String c x +:+ rest) with (String c (x +:+ rest)). cbn [digits]. by rewrite Hc, IH.
Qed.
Lemma parseInt_app x rest :
  x ≠ "" → sforall is_digit x = true → leading_zero x = false →
  match rest with String c _ => is_digit c = false | "" => True end → parseInt (x +:+ rest) = Some (x, rest).
Proof.
  intros Hne Hx Hz Hr. unfold parseInt. rewrite digits_app by done. rewrite Hz.
  by rewrite (proj2 (str_eqb_neq x "") Hne).
Qed.
(** A canonical version is three numbers, and so semver reads it. *)
Lemma canonical_parts v :
  canonical v = true →
  ∃ x y z, Split v "." = [x; y; z] ∧ v = x +:+ String dot (y +:+ String dot z)
    ∧ Forall (λ p, p ≠ "" ∧ sforall is_digit p = true ∧ leading_zero p = false) [x; y; z].
Proof.
  unfold canonical, validVersion. intros [[Hl Hd]%andb_true_iff Hz]%andb_true_iff. pose proof (Join_Split v) as Hj.
  change (Split v ".") with (Split v dot) in *. destruct (Split v dot) as [|x [|y [|z [|]]]]; try done. clear Hl.
  exists x, y, z. cbn in Hd, Hz. bools. split_and!; [done|by rewrite <-Hj|].
  repeat constructor; try done; by apply str_eqb_neq.
Qed.
Lemma semver_parse_canonical v x y z :
  v = x +:+ String dot (y +:+ String dot z) →
  Forall (λ p, p ≠ "" ∧ sforall is_digit p = true ∧ leading_zero p = false) [x; y; z] →
  semver_parse ("v" +:+ v) = Some (mkParsed x y z "").
Proof.
  intros -> Hall. rewrite !Forall_cons in Hall. destruct Hall as ((?&?&?)&(?&?&?)&(?&?&?)&_).
  unfold semver_parse. change (negb (starts "v" ("v" +:+ x +:+ String dot (y +:+ String dot z)))) with false.
  change (sdrop 1 ("v" +:+ x +:+ String dot (y +:+ String dot z))) with (x +:+ String dot (y +:+ String dot z)). cbv iota.
  rewrite parseInt_app by done. cbn [mbind option_bind].
  change (str_eqb (String dot (y +:+ String dot z)) "") with false.
  change (negb (starts "." (String dot (y +:+ String dot z)))) with false. cbv iota.
  change (sdrop 1 (String dot (y +:+ String dot z))) with (y +:+ String dot z).
  rewrite parseInt_app by done. cbn [mbind option_bind].
  change (str_eqb (String dot z) "") with false. change (negb (starts "." (String dot z))) with false. cbv iota.
  change (sdrop 1 (String dot z)) with z. rewrite <-(app_nil_r z) at 1. by rewrite parseInt_app.
Qed.

Lemma cmp_step a b r :
  ((let c := match a ?= b with Lt => -1 | Eq => 0 | Gt => 1 end in if negb (c =? 0) then c else r) <? 0)
  = if a =? b then r <? 0 else a <? b.
Proof.
  cbn zeta. destruct (Z.compare_spec a b) as [->|H|H]; [cbn; by rewrite Z.eqb_refl|..];
    destruct (Z.eqb_spec a b); try lia; cbn; symmetry; [apply Z.ltb_lt|apply Z.ltb_ge]; lia.
Qed.

(** Versions are compared as numbers.  For versions of the form the release
    files use (three decimal numbers without leading zeros), a node's build is
    reported as behind exactly when its version number (whatever prefix and
    commit stamp it is reported with) is smaller, component by component, than
    the one published for the channel. *)
Theorem release_numeric channel running r :
  let v := extractVersion running in
  let w := rc_version channel r in
  canonical v = true → canonical w = true →
  available channel running r = lex_less (numbers v) (numbers w).
Proof.
  intros v w Hv Hw. unfold available. fold v w.
  destruct (canonical_parts v Hv) as (x & y & z & Sv & Ev & Fv), (canonical_parts w Hw) as (x' & y' & z' & Sw & Ew & Fw).
  assert (∀ u : string, canonical u = true → str_eqb u "" = false) as Hne by (intros u Hu; by destruct u).
  rewrite (Hne v Hv), (Hne w Hw). unfold semverLess, semver_Compare, numbers.
  rewrite (semver_parse_canonical v x y z Ev Fv), (semver_parse_canonical w x' y' z' Ew Fw), Sv, Sw.
  rewrite !Forall_cons in Fv, Fw. destruct Fv as ((?&?&?)&(?&?&?)&(?&?&?)&_), Fw as ((?&?&?)&(?&?&?)&(?&?&?)&_).
  cbn [pv_major pv_minor pv_patch pv_prerelease fmap list_fmap lex_less].
  rewrite !compareInt_number by done.
  rewrite !cmp_step. by destruct (number z =? number z').
Qed.
Lemma release_numeric_witness :
  let r := mkRelease {[ "stable" := "0.10.0" ]} 0 "stable" 1 in
  available "stable" "blipd/0.9.12+a29f043" r = lex_less [0; 9; 12] [0; 10; 0].
Proof.
  exact (release_numeric "stable" "blipd/0.9.12+a29f043" (mkRelease {[ "stable" := "0.10.0" ]} 0 "stable" 1)
           ltac:(vm_compute; reflexivity) ltac:(vm_compute; reflexivity)).
Defined.

(** The start-up code starts the check only when no channel is configured, with
    the empty channel: that is the initial value of [lastChannel], so nothing
    is ever fetched. *)
Example release_check_never_starts get now : start get now "" newReleaseCheck = newReleaseCheck.
Proof. reflexivity. Qed.
(** A release text with a leading zero passes [validVersion] but not semver,
    which then takes it for older than everything. *)
Example leading_zero_never_newer : validVersion "0.03.0" = true ∧ semverLess "0.2.0" "0.03.0" = false.
Proof. by vm_compute. Qed.
