(* ===== verification/Bus.v ===== *)
(** * The controller's event bus

    internal/controller/bus.go and the event type of internal/controller/fleet.go:
    a broadcast hub that keeps the most recent events for clients that join
    late.  A channel is named by a number; its content is the queue of events
    that were sent to it and not received yet. *)
From S2P Require Import Prelude GoStrings Records Upstream Stats.
#[local] Open Scope Z_scope.

(** [control.HealthResponse], whose [OK] is always set. *)
Record HealthResponse := mkHealth { hr_Uptime : Z; hr_Started : Z; hr_Version : string; hr_DroppedEvents : Z }.
Record Event := mkFleetEvent {
  fe_InstanceID : string;
  fe_Instance : string;
  fe_Type : string;
  fe_At : Z;
  fe_Health : option HealthResponse;
  fe_Stats : option StatsResponse;
  fe_Client : string;
  fe_Domain : string;
  fe_Msg : string;
  fe_QType : string;
  fe_IPs : list string;
  fe_Answers : list Answer;
  fe_Cached : bool;
  fe_Upstream : string;
  fe_DurationUs : Z }.
(** The events the controller makes itself: [status] and [policy] ones. *)
Definition fleet_event (id label type : string) (at_ : Z) (msg domain : string) : Event :=
  mkFleetEvent id label type at_ None None "" domain msg "" [] [] false "" 0.

Record Bus := mkBus { b_subs : gmap nat (list Event); b_buffer : list Event; b_cap : Z; b_next : nat }.
Definition chanCap : nat := 64.
Definition NewBus (cap : Z) : Bus := mkBus ∅ [] (if cap <=? 0 then 500 else cap) 0.
Definition Subscribe (b : Bus) : Bus * nat * list Event :=
  (mkBus (<[b_next b := []]> (b_subs b)) (b_buffer b) (b_cap b) (S (b_next b)), b_next b, b_buffer b).
Definition Unsubscribe (ch : nat) (b : Bus) : Bus := mkBus (delete ch (b_subs b)) (b_buffer b) (b_cap b) (b_next b).
Definition send (e : Event) (q : list Event) : list Event := if (length q <? chanCap)%nat then q ++ [e] else q.
(** The last [cap] elements, as [buffer[len(buffer)-cap:]] keeps them. *)
Definition trim (cap : Z) (l : list Event) : list Event :=
  if cap <? Z.of_nat (length l) then drop (length l - Z.to_nat cap) l else l.
Definition Publish (e : Event) (b : Bus) : Bus :=
  mkBus (send e <$> b_subs b) (trim (b_cap b) (b_buffer b ++ [e])) (b_cap b) (b_next b).
Definition Recent (b : Bus) : list Event := b_buffer b.
(** Receiving from a channel that is not empty. *)
Definition bus_recv (ch : nat) (b : Bus) : Bus * option Event :=
  match b_subs b !! ch with
  | Some (e :: q) => (mkBus (<[ch := q]> (b_subs b)) (b_buffer b) (b_cap b) (b_next b), Some e)
  | _ => (b, None)
  end.

(** ** Histories *)
Inductive bus_op := BPublish (e : Event) | BSubscribe | BUnsubscribe (ch : nat) | BRecv (ch : nat).
Definition bus_step (o : bus_op) (b : Bus) : Bus :=
  match o with
  | BPublish e => Publish e b
  | BSubscribe => (Subscribe b).1.1
  | BUnsubscribe ch => Unsubscribe ch b
  | BRecv ch => (bus_recv ch b).1
  end.
Definition bus_run (ops : list bus_op) (b : Bus) : Bus := foldl (λ b o, bus_step o b) b ops.
Definition published (ops : list bus_op) : list Event := omap (λ o, match o with BPublish e => Some e | _ => None end) ops.
Definition pending (ch : nat) (b : Bus) : list Event := default [] (b_subs b !! ch).
(** What is received from [ch] along a history, and whether its queue always
    had room when something was published. *)
Fixpoint received (ch : nat) (ops : list bus_op) (b : Bus) : list Event :=
  match ops with
  | [] => []
  | o :: ops =>
      let rest := received ch ops (bus_step o b) in
      match o with
      | BRecv c => if bool_decide (c = ch) then option_list (bus_recv ch b).2 ++ rest else rest
      | _ => rest
      end
  end.
Fixpoint keeps_up (ch : nat) (ops : list bus_op) (b : Bus) : Prop :=
  match ops with
  | [] => True
  | o :: ops => match o with BPublish _ => (length (pending ch b) < chanCap)%nat | _ => True end ∧ keeps_up ch ops (bus_step o b)
  end.

(** ** The backlog is the end of the history *)
Record bus_wf (h : list Event) (b : Bus) : Prop := {
  bw_cap : 0 < b_cap b;
  bw_buffer : b_buffer b = drop (length h - Z.to_nat (b_cap b)) h;
  bw_next : ∀ ch, is_Some (b_subs b !! ch) → (ch < b_next b)%nat;
  bw_room : map_Forall (λ _ q, (length q ≤ chanCap)%nat) (b_subs b) }.

Lemma trim_drop cap l : 0 < cap → trim cap l = drop (length l - Z.to_nat cap) l.
Proof.
  intros Hc. unfold trim. destruct (cap <? Z.of_nat (length l)) eqn:E; [done|]. bools.
  by replace (length l - Z.to_nat cap)%nat with 0%nat by lia.
Qed.
Lemma drop_last_app {A} (n : nat) (h : list A) x :
  (0 < n)%nat → drop (length (drop (length h - n) h ++ [x]) - n) (drop (length h - n) h ++ [x]) = drop (length (h ++ [x]) - n) (h ++ [x]).
Proof.
  intros Hn. rewrite !length_app, length_drop. cbn [length].
  destruct (decide (length h < n)%nat) as [Hl|Hl].
  - replace (length h - n)%nat with 0%nat by lia. rewrite drop_0. f_equal. lia.
  - rewrite <-(drop_app_le h [x]) by lia. rewrite drop_drop. f_equal. lia.
Qed.
Lemma bus_step_wf h o b :
  bus_wf h b → bus_wf (h ++ match o with BPublish e => [e] | _ => [] end) (bus_step o b).
Proof.
  intros [Hc Hb Hn Hr]. destruct o as [e| |ch|ch]; cbn [bus_step]; rewrite ?app_nil_r.
  - split; cbn; [done| | |].
    + rewrite trim_drop by done. rewrite Hb. apply drop_last_app. lia.
    + intros ch. rewrite lookup_fmap, fmap_is_Some. apply Hn.
    + intros ch q. rewrite lookup_fmap. intros (q' & Hq & ->)%fmap_Some. specialize (Hr ch q' Hq). cbn in Hr. unfold send.
      destruct (_ <? _)%nat eqn:E; bools; [rewrite length_app; cbn; lia|lia].
  - rewrite (right_id_L [] (++)). split; cbn; [done|done| |].
    + intros ch [q [[<- _]|[_ Hq]]%lookup_insert_Some]; [lia|]. specialize (Hn ch ltac:(eauto)). lia.
    + apply map_Forall_insert_2; [cbn; lia|done].
  - rewrite (right_id_L [] (++)). split; cbn; [done|done| |].
    + intros c [q [_ Hq]%lookup_delete_Some]. apply Hn. eauto.
    + by apply map_Forall_delete.
  - rewrite (right_id_L [] (++)). unfold bus_recv. destruct (b_subs b !! ch) as [[|e q]|] eqn:Hq; try by split.
    split; cbn; [done|done| |].
    + intros c [q' [[<- _]|[_ Hq']]%lookup_insert_Some]; apply Hn; eauto.
    + apply map_Forall_insert_2; [|done]. specialize (Hr ch _ Hq). cbn in Hr |- *. lia.
Qed.
Lemma published_snoc ops o : published (ops ++ [o]) = published ops ++ match o with BPublish e => [e] | _ => [] end.
Proof. unfold published. rewrite omap_app_list. by destruct o. Qed.
Lemma bus_run_wf cap ops : bus_wf (published ops) (bus_run ops (NewBus cap)).
Proof.
  induction ops as [|o ops IH] using rev_ind.
  - split; cbn; [destruct (cap <=? 0) eqn:E; bools; lia|done|by intros ch []|apply map_Forall_empty].
  - unfold bus_run in *. rewrite foldl_app, published_snoc. by apply bus_step_wf.
Qed.

(** ** What a subscriber sees *)
Lemma stream_step ch o b :
  is_Some (b_subs b !! ch) → o ≠ BUnsubscribe ch → (∀ c, is_Some (b_subs b !! c) → (c < b_next b)%nat) →
  is_Some (b_subs (bus_step o b) !! ch)
  ∧ (match o with BRecv c => if bool_decide (c = ch) then option_list (bus_recv ch b).2 else [] | _ => [] end)
      ++ pending ch (bus_step o b)
    = pending ch b ++ match o with
                      | BPublish e => if (length (pending ch b) <? chanCap)%nat then [e] else []
                      | _ => []
                      end.
Proof.
  intros [q Hq] Ho Hn. unfold pending. rewrite Hq. cbn [default]. destruct o as [e| |c|c]; cbn [bus_step].
  - cbn [Publish b_subs]. rewrite lookup_fmap, Hq. split; [done|]. cbn [fmap option_fmap option_map from_option app]. unfold send, id.
    destruct (_ <? _)%nat; [done|]. by rewrite (right_id_L [] (++)).
  - cbn. rewrite lookup_insert_ne by (specialize (Hn ch ltac:(eauto)); lia). rewrite Hq. split; [done|]. by rewrite (right_id_L [] (++)).
  - cbn. rewrite lookup_delete_ne by congruence. rewrite Hq. split; [done|]. by rewrite (right_id_L [] (++)).
  - rewrite (right_id_L [] (++)). unfold bus_recv. case_bool_decide as E; [subst c|].
    + rewrite Hq. destruct q as [|e q]; cbn; [by rewrite Hq|]. by rewrite lookup_insert_eq.
    + destruct (b_subs b !! c) as [[|e q']|]; cbn; rewrite ?lookup_insert_ne, Hq by done; done.
Qed.
Lemma stream_run h ch ops b :
  bus_wf h b → is_Some (b_subs b !! ch) → BUnsubscribe ch ∉ ops →
  received ch ops b ++ pending ch (bus_run ops b) `sublist_of` pending ch b ++ published ops
  ∧ (keeps_up ch ops b → received ch ops b ++ pending ch (bus_run ops b) = pending ch b ++ published ops).
Proof.
  revert h b. induction ops as [|o ops IH]; intros h b Hwf Hch Hu; cbn [received keeps_up].
  { cbn. by rewrite (right_id_L [] (++)). }
  apply not_elem_of_cons in Hu as [Ho Hu].
  destruct (stream_step ch o b Hch (not_eq_sym Ho) (bw_next _ _ Hwf)) as [Hch' Heq].
  destruct (IH _ (bus_step o b) (bus_step_wf _ _ _ Hwf) Hch' Hu) as [Hsub Hfull].
  change (bus_run (o :: ops) b) with (bus_run ops (bus_step o b)).
  set (got := match o with BRecv c => if bool_decide (c = ch) then option_list (bus_recv ch b).2 else [] | _ => [] end) in *.
  assert (match o with BRecv c => if bool_decide (c = ch) then option_list (bus_recv ch b).2 ++ received ch ops (bus_step o b)
                                  else received ch ops (bus_step o b)
          | _ => received ch ops (bus_step o b) end = got ++ received ch ops (bus_step o b)) as ->
    by (subst got; destruct o; try done; by case_bool_decide).
  rewrite <-(assoc_L (++)). split.
  - trans (got ++ pending ch (bus_step o b) ++ published ops); [by apply sublist_app|].
    rewrite (assoc_L (++)), Heq, <-(assoc_L (++)). apply sublist_app; [done|].
    destruct o as [e| |c|c]; try done. change (published (BPublish e :: ops)) with ([e] ++ published ops).
    destruct (_ <? _)%nat; [done|by apply sublist_cons].
  - intros [Hroom Hk]. rewrite (Hfull Hk), (assoc_L (++)), Heq, <-(assoc_L (++)). f_equal.
    destruct o as [e| |c|c]; try done. by rewrite (proj2 (Nat.ltb_lt _ _) Hroom).
Qed.

(** A client that joins sees the end of the history, then what happens.  Its
    backlog is exactly the last events published before it joined (as many as
    the bus retains); from then on it receives events in the order they are
    published, never twice; and as long as its queue of 64 is not full when
    something is published it misses nothing: backlog, received and queued
    events together are a suffix of the whole history.  A client that does not
    keep up never delays or disturbs anyone else. *)
Theorem bus_stream cap ops0 ops :
  let b0 := bus_run ops0 (NewBus cap) in
  let '(b1, ch, backlog) := Subscribe b0 in
  BUnsubscribe ch ∉ ops →
  (∃ lost, published ops0 = lost ++ backlog ∧ length lost = (length (published ops0) - Z.to_nat (b_cap b0))%nat)
  ∧ received ch ops b1 ++ pending ch (bus_run ops b1) `sublist_of` published ops
  ∧ (keeps_up ch ops b1 → received ch ops b1 ++ pending ch (bus_run ops b1) = published ops).
Proof.
  intros b0. pose proof (bus_run_wf cap ops0) as Hwf. fold b0 in Hwf. cbn. intros Hu.
  pose proof (bus_step_wf _ BSubscribe _ Hwf) as Hwf1. cbn in Hwf1.
  split; [|].
  - exists (take (length (published ops0) - Z.to_nat (b_cap b0)) (published ops0)). rewrite (bw_buffer _ _ Hwf).
    split; [by rewrite take_drop|]. rewrite length_take. lia.
  - destruct (stream_run _ (b_next b0) ops _ Hwf1 ltac:(cbn; rewrite lookup_insert_eq; eauto) Hu) as [H1 H2].
    unfold pending in H1, H2 at 2. cbn in H1, H2. rewrite lookup_insert_eq in H1, H2. done.
Qed.
Definition demo_event (t : Z) : Event := fleet_event "n1" "node" "status" t "up" "".
Lemma bus_stream_witness :
  let b0 := bus_run (BPublish ∘ demo_event <$> [1; 2; 3]) (NewBus 2) in
  let '(b1, ch, backlog) := Subscribe b0 in
  let ops := [BPublish (demo_event 4); BRecv ch; BPublish (demo_event 5)] in
  backlog = [demo_event 2; demo_event 3] ∧
  received ch ops b1 ++ pending ch (bus_run ops b1) `sublist_of` published ops.
Proof.
  split; [vm_compute; reflexivity|].
  refine (proj1 (proj2 (bus_stream 2 (BPublish ∘ demo_event <$> [1; 2; 3])
    [BPublish (demo_event 4); BRecv 0; BPublish (demo_event 5)] _))). set_solver.
Defined.
