(* ===== verification/Client.v ===== *)
(** * The controller's client of the management API

    internal/control/client.go: one method per endpoint.  The network, with
    net/http and encoding/json, is the class [Transport]: what it answers to a
    request may depend on, and change, the state [W] of the world.  A request
    keeps the value its body encodes, a reply what decoding its body as each
    response type gives. *)
From S2P Require Import Prelude GoStrings GoNet GoUrl Records Upstream Stats HA Update Control Bus.
#[local] Open Scope Z_scope.

(** ** Requests and replies *)
Inductive payload :=
| PNone
| PPolicy (p : WirePolicy)
| PBlocklist (domains allowed : list string)
| PDoH (addr : string)
| PRate (qps burst : Z)
| PSize (n : Z)
| PUpstream (servers : list UpstreamServer) (routes : list UpstreamRoute) (bootstrap : list UpstreamServer)
| PRecords (l : list RecordEntry)
| PHA (cfg : HAConfig)
| PCode (code : string).
Record client_request := mkCReq {
  cq_Method : string; cq_Base : string; cq_Path : string; cq_Authorization : string; cq_Body : payload }.
Record AdoptStatus := mkAdoptStatus { ads_Adopted : bool; ads_InstanceID : string; ads_Version : string }.
Record AdoptResponse := mkAdoptResponse { ar_Adopted : bool; ar_Token : string; ar_Message : string }.
Record reply := mkReply {
  rp_status : Z;
  rp_text : string;                          (* the body as text *)
  rp_health : res string HealthResponse;     (* the body, decoded as each response type *)
  rp_stats : res string StatsResponse;
  rp_policies : res string (option WirePolicy * list WirePolicy);
  rp_purged : res string Z;
  rp_adoptStatus : res string AdoptStatus;
  rp_adopt : res string AdoptResponse;
  rp_records : res string (list RecordEntry);
  rp_ha : res string HAStatus;
  rp_update : res string UpdateStatus }.
(** [http.Client.Do], the construction of the request included; an error is
    that of a bad URL, a failed connection or the time limit. *)
Class Transport (W : Type) := roundTrip : client_request → W → W * res string reply.

Record Client := mkClient { c_base : string; c_token : string }.
Definition NewClient (baseURL token : string) : Client := mkClient baseURL token.

Section Client.
Context {W : Type} `{!Transport W}.

(** ** [do] *)
Definition client_req (c : Client) (method path : string) (b : payload) : client_request :=
  mkCReq method (c_base c) path ("Bearer " +:+ c_token c) b.
(** What is read of an error body. *)
Definition limited (text : string) : string := stake 4096 text.
Definition status_error (what : string) (r : reply) : string :=
  "control: " +:+ what +:+ " -> " +:+ Itoa (rp_status r) +:+ ": " +:+ limited (rp_text r).
Definition do_as {A} (c : Client) (what method path : string) (b : payload) (out : reply → res string A) (w : W)
    : W * res string A :=
  match roundTrip (client_req c method path b) w with
  | (w, Err e) => (w, Err e)
  | (w, Ok r) => (w, if 400 <=? rp_status r then Err (status_error what r) else out r)
  end.
Definition do {A} (c : Client) (method path : string) (b : payload) (out : reply → res string A) : W → W * res string A :=
  do_as c (method +:+ " " +:+ path) method path b out.
(** A call that decodes nothing: the error only. *)
Definition no_out (r : reply) : res string unit := Ok ().

(** ** The methods *)
Definition c_Health (c : Client) := do c "GET" "/api/v1/health" PNone rp_health.
Definition c_Stats (c : Client) := do c "GET" "/api/v1/stats" PNone rp_stats.
Definition c_ListPolicies (c : Client) := do c "GET" "/api/v1/policies" PNone rp_policies.
Definition c_SetPolicy (p : WirePolicy) (c : Client) := do c "PUT" "/api/v1/policy" (PPolicy p) no_out.
Definition c_SetBlocklist (domains allowed : list string) (c : Client) :=
  do_as c "set blocklist" "PUT" "/api/v1/blocklist" (PBlocklist domains allowed) no_out.
Definition c_DeletePolicy (id : string) (c : Client) := do c "DELETE" ("/api/v1/policy?id=" +:+ id) PNone no_out.
Definition c_SetDoHHTTPAddr (addr : string) (c : Client) := do c "PUT" "/api/v1/doh" (PDoH addr) no_out.
Definition c_SetRateLimit (qps burst : Z) (c : Client) := do c "PUT" "/api/v1/ratelimit" (PRate qps burst) no_out.
Definition c_SetCacheConfig (size : Z) (c : Client) := do c "PUT" "/api/v1/cache" (PSize size) no_out.
Definition c_SetUpstream (servers : list UpstreamServer) (routes : list UpstreamRoute) (bootstrap : list UpstreamServer)
    (c : Client) := do c "PUT" "/api/v1/upstream" (PUpstream servers routes bootstrap) no_out.
Definition c_PurgeCache (c : Client) := do c "POST" "/api/v1/cache/purge" PNone rp_purged.
Definition c_AdoptStatus (c : Client) := do c "GET" "/api/v1/adopt/status" PNone rp_adoptStatus.
Definition c_Adopt (code : string) (c : Client) := do c "POST" "/api/v1/adopt" (PCode code) rp_adopt.
Definition c_ResetAdoption (c : Client) := do c "POST" "/api/v1/adopt/reset" PNone no_out.
Definition c_GetRecords (c : Client) := do c "GET" "/api/v1/records" PNone rp_records.
Definition c_SetRecords (l : list RecordEntry) (c : Client) := do c "PUT" "/api/v1/records" (PRecords l) no_out.
Definition c_ClearRecords (c : Client) := do c "DELETE" "/api/v1/records" PNone no_out.
Definition c_HAStatus (c : Client) := do c "GET" "/api/v1/ha/status" PNone rp_ha.
Definition c_SetHAConfig (cfg : HAConfig) (c : Client) := do c "PUT" "/api/v1/ha" (PHA cfg) no_out.
Definition c_ValidateHA (c : Client) := do c "POST" "/api/v1/ha/validate" PNone no_out.
Definition c_ApplyHA (c : Client) := do c "POST" "/api/v1/ha/apply" PNone no_out.
Definition c_DisableHA (c : Client) := do c "POST" "/api/v1/ha/disable" PNone no_out.
Definition c_Restart (c : Client) := do c "POST" "/api/v1/restart" PNone no_out.
Definition c_StartUpdate (channel : string) (c : Client) :=
  do c "POST" ("/api/v1/update?channel=" +:+ QueryEscape channel) PNone no_out.
Definition c_UpdateStatus (c : Client) := do c "GET" "/api/v1/update" PNone rp_update.
End Client.

(** ** The event stream

    The lines of the stream that carry an event; [decode] is encoding/json. *)
Definition watch_line (decode : string → option WatchEvent) (line : string) : option WatchEvent :=
  if (slen line <? 6)%nat || negb (str_eqb (stake 5 line) "data:") then None else decode (sdrop 5 line).
Definition watch_events (decode : string → option WatchEvent) (lines : list string) : list WatchEvent :=
  omap (watch_line decode) lines.
