(* ===== verification/BlocklistDB.v ===== *)
(** * The controller's blocklist database

    internal/controller/blocklistdb.go.  A table is a finite set or map; every
    statement of the source is the function on tables that the SQL text says.
    The database engine is an argument: [fault k] is the error of the [k]-th
    call (a statement, the begin or the commit of a transaction, the check of
    the context), [None] a call that succeeds.  [tx] is a transaction: its
    statements work on a copy that only a successful commit publishes. *)
From S2P Require Import Prelude GoStrings Blocklist.
#[local] Open Scope Z_scope.

(** The zero [time.Time], as nanoseconds since 1970. *)
Definition zero_time : Z := - 62135596800 * second.

(** ** Tables *)
Record SourceMeta := mkMeta {
  sm_URL : string; sm_Domains : Z; sm_LastUpdate : Z; sm_Error : string; sm_ETag : string; sm_LastModified : string }.
(** A row of [blocklist_source_meta] besides its key; [last_update] is text:
    empty, or a time in RFC 3339, which keeps whole seconds. *)
Record meta_row := mkRow {
  mr_domains : Z; mr_last_update : option Z; mr_error : string; mr_etag : string; mr_last_modified : string }.
(** The tables of the former, normalized schema. *)
Record normalized := mkNorm {
  nm_sources : gmap Z string; nm_domains : gmap Z string; nm_membership : option (gset (Z * Z)) }.
Record DB := mkDB {
  db_blocklist : gset string;
  db_meta : gmap string meta_row;
  db_manual : gset string;
  db_allow : gset string;
  db_source_domains : gset (string * string);
  db_norm : normalized }.
#[export] Instance DB_eta : Eta DB := λ d,
  mkDB (db_blocklist d) (db_meta d) (db_manual d) (db_allow d) (db_source_domains d) (db_norm d).
Definition empty_db : DB := mkDB ∅ ∅ ∅ ∅ ∅ (mkNorm ∅ ∅ None).

Definition withBusyTimeout (dbPath : string) : string :=
  dbPath +:+ (if Contains dbPath "?" then "&" else "?") +:+ "_pragma=busy_timeout(30000)".
(** The two tables of hand-maintained domains. *)
Inductive hand_table := TManual | TAllow.
Definition hand_set (t : hand_table) (d : DB) : gset string := match t with TManual => db_manual d | TAllow => db_allow d end.
Definition put_hand (t : hand_table) (X : gset string) (d : DB) : DB :=
  match t with TManual => d <| db_manual := X |> | TAllow => d <| db_allow := X |> end.

(** ** Statements and transactions *)
Section Sql.
Context (fault : nat → option string).

Definition Sql (A : Type) : Type := nat * DB → (nat * DB) * res string A.
#[local] Instance sql_mret : MRet Sql := λ A a s, (s, Ok a).
#[local] Instance sql_mbind : MBind Sql := λ A B f m s,
  match m s with (s', Ok a) => f a s' | (s', Err e) => (s', Err e) end.
Definition stmt {A} (f : DB → res string (DB * A)) : Sql A := λ '(k, d),
  match fault k with
  | Some e => ((S k, d), Err e)
  | None => match f d with Ok (d', a) => ((S k, d'), Ok a) | Err e => ((S k, d), Err e) end
  end.
Definition update (f : DB → DB) : Sql unit := stmt (λ d, Ok (f d, ())).
Definition select {A} (f : DB → A) : Sql A := stmt (λ d, Ok (d, f d)).
(** A check of the context, or a call of the driver that touches no table. *)
Definition call : Sql unit := stmt (λ d, Ok (d, ())).
Definition tx {A} (m : Sql A) : Sql A := λ '(k, d),
  match fault k with
  | Some e => ((S k, d), Err e)
  | None =>
      match m (S k, d) with
      | ((k', d'), Ok a) => match fault k' with Some e => ((S k', d), Err e) | None => ((S k', d'), Ok a) end
      | ((k', _), Err e) => ((k', d), Err e)
      end
  end.

(** [INSERT INTO t (domain) VALUES (..),(..)] into a table whose primary key is the domain. *)
Fixpoint insert_rows (rows : list string) (X : gset string) : res string (gset string) :=
  match rows with
  | [] => Ok X
  | r :: rows => if decide (r ∈ X) then Err "UNIQUE constraint failed" else insert_rows rows ({[r]} ∪ X)
  end.

(** [insertChunked]: at most [insertBatch] rows a statement; [fuel] bounds the loop by the number of rows. *)
Definition insertBatch : nat := 500.
Fixpoint insertChunked (fuel : nat) (ins : list string → Sql unit) (rows : list string) : Sql unit :=
  match rows, fuel with
  | [], _ | _, O => mret ()
  | _, S fuel =>
      call;;                                         (* Prepare *)
      ins (take insertBatch rows);;
      call;;                                         (* ctx.Err *)
      insertChunked fuel ins (drop insertBatch rows)
  end.
Definition ins_blocklist (rows : list string) : Sql unit :=
  stmt (λ d, match insert_rows rows (db_blocklist d) with Ok X => Ok (d <| db_blocklist := X |>, ()) | Err e => Err e end).
Definition ReplaceAll (domains : list string) : Sql unit :=
  tx (update (λ d, d <| db_blocklist := ∅ |>);; insertChunked (length domains) ins_blocklist domains).
Definition LoadSet : Sql (gset string) := select db_blocklist.
Definition db_Count : Sql Z := select (λ d, Z.of_nat (size (db_blocklist d))).

(** [replaceDomainSet]: one statement per domain. *)
Fixpoint insert_each (t : hand_table) (domains : list string) : Sql unit :=
  match domains with
  | [] => mret ()
  | x :: domains =>
      stmt (λ d, match insert_rows [x] (hand_set t d) with Ok X => Ok (put_hand t X d, ()) | Err e => Err e end);;
      insert_each t domains
  end.
Definition replaceDomainSet (t : hand_table) (domains : list string) : Sql unit :=
  tx (update (put_hand t ∅);; call;; insert_each t domains).
Definition loadDomainSet (t : hand_table) : Sql (gset string) := select (hand_set t).

(** Source snapshots. *)
Definition snapshot (url : string) (d : DB) : gset string :=
  set_map (λ p : string * string, p.2) (filter (λ p, p.1 = url) (db_source_domains d)).
Definition ins_source (url : string) (rows : list string) : Sql unit :=
  update (λ d, d <| db_source_domains ::= λ X, X ∪ list_to_set (pair url <$> rows) |>).
Definition ReplaceSourceDomains (url : string) (domains : list string) : Sql unit :=
  tx (update (λ d, d <| db_source_domains ::= filter (λ p, p.1 ≠ url) |>);;
      insertChunked (length domains) (ins_source url) domains).
Definition LoadSourceDomains (url : string) : Sql (gset string) := select (snapshot url).

Definition meta_to_row (m : SourceMeta) : meta_row :=
  mkRow (sm_Domains m) (if sm_LastUpdate m =? zero_time then None else Some (sm_LastUpdate m / second)) (sm_Error m)
    (sm_ETag m) (sm_LastModified m).
Definition row_to_meta (url : string) (r : meta_row) : SourceMeta :=
  mkMeta url (mr_domains r) (match mr_last_update r with None => zero_time | Some t => t * second end) (mr_error r)
    (mr_etag r) (mr_last_modified r).
Definition ReplaceSourceMeta (m : SourceMeta) : Sql unit :=
  update (λ d, d <| db_meta ::= <[sm_URL m := meta_to_row m]> |>).
Definition LoadSourceMeta : Sql (gmap string SourceMeta) := select (λ d, map_imap (λ u r, Some (row_to_meta u r)) (db_meta d)).
Definition checkpoint : Sql unit := call.

Definition PruneSources (keep : list string) : Sql unit :=
  update (λ d, d <| db_source_domains ::= filter (λ p, p.1 ∈ keep) |>);;
  update (λ d, d <| db_meta ::= filter (λ p, p.1 ∈ keep) |>).

Definition containing (domain : string) (d : DB) : list string :=
  merge_sort String.le (elements (set_map (D := gset string) (λ p : string * string, p.1)
                          (filter (λ p, p.2 = domain) (db_source_domains d)))).
Definition BlockSourceLabel (domain : string) : Sql string :=
  hand ← select (λ d, bool_decide (domain ∈ db_manual d));
  if hand : bool then mret "manual"
  else urls ← select (containing domain); mret (Join urls ", ").

(** The one-time move from the normalized tables; [VACUUM] may fail silently. *)
Definition joined (n : normalized) : gset (string * string) :=
  match nm_membership n with
  | None => ∅
  | Some M => list_to_set (omap (λ p, u ← nm_sources n !! p.1; x ← nm_domains n !! p.2; Some (u, x)) (elements M))
  end.
Definition vacuum : Sql unit := λ '(k, d), ((S k, d), Ok ()).
Definition migrateNormalizedSourceDomains : Sql unit :=
  found ← select (λ d, bool_decide (is_Some (nm_membership (db_norm d))));
  if found : bool then
    update (λ d, d <| db_source_domains ::= λ X, X ∪ joined (db_norm d) |>);;
    update (λ d, d <| db_norm ::= λ n, mkNorm (nm_sources n) (nm_domains n) None |>);;
    update (λ d, d <| db_norm ::= λ n, mkNorm (nm_sources n) ∅ (nm_membership n) |>);;
    update (λ d, d <| db_norm ::= λ n, mkNorm ∅ (nm_domains n) (nm_membership n) |>);;
    vacuum
  else mret ().

(** ** Opening the database *)
(** What the file system and the driver answer; [None] is success. *)
Record open_env := mkOpen { oe_mkdir : option string; oe_chmod_dir : option string; oe_open : option string }.
Definition failing (prefix : string) (e : option string) {A} (m : Sql A) : Sql A := λ s,
  match e with Some e => (s, Err (prefix +:+ e)) | None => m s end.
Definition wrap (prefix : string) {A} (m : Sql A) : Sql A := λ s,
  match m s with (s', Err e) => (s', Err (prefix +:+ e)) | r => r end.
(** A column that is already there is not an error. *)
Definition add_column : Sql unit := λ s,
  match call s with
  | (s', Err e) => (s', if Contains e "duplicate column" then Ok () else Err ("add blocklist source meta column: " +:+ e))
  | r => r
  end.
(** An error that is only logged. *)
Definition attempt (m : Sql unit) : Sql unit := λ s, ((m s).1, Ok ()).
(** The tables are created if they are missing; the model's tables exist. *)
Definition NewBlocklistStore (oe : open_env) : Sql unit :=
  failing "create blocklist db dir: " (oe_mkdir oe) (failing "open blocklist db: " (oe_open oe) (
    wrap "enable WAL: " call;; wrap "set synchronous mode: " call;;
    wrap "create blocklist schema: " call;; wrap "create blocklist source schema: " call;;
    add_column;; add_column;; attempt migrateNormalizedSourceDomains)).
End Sql.

(** [placeholders rows cols]: the bind variables of a multi-row insert. *)
Definition Repeat (s : string) (n : nat) : string := Join (replicate n s) "".
Definition placeholders (rows cols : nat) : string :=
  let one := "(" +:+ TrimSuffix (Repeat "?," cols) "," +:+ ")," in
  TrimSuffix (Repeat one rows) ",".
Example placeholders_demo : (placeholders 2 1, placeholders 1 3, placeholders 0 2) = ("(?),(?)", "(?,?,?)", "").
Proof. vm_compute. reflexivity. Qed.

(** ** What a successful run does *)
Section SqlFacts.
Context (fault : nat → option string).
(** [m] runs [f]: if it succeeds it does what [f] does; it succeeds when [f]
    does and nothing fails. *)
Definition runs {A} (m : Sql A) (f : DB → option (DB * A)) : Prop :=
  ∀ k d, match m (k, d) with
         | ((_, d'), Ok a) => f d = Some (d', a)
         | (_, Err _) => (∀ j, fault j = None) → f d = None
         end.
Definition in_opt {A B} (f : DB → option (DB * A)) (g : A → DB → option (DB * B)) (d : DB) : option (DB * B) :=
  '(d', a) ← f d; g a d'.

Lemma runs_ret {A} (a : A) : runs (λ s, (s, Ok a)) (λ d, Some (d, a)).
Proof. done. Qed.
Lemma runs_bind {A B} (m : Sql A) (h : A → Sql B) f g :
  runs m f → (∀ a, runs (h a) (g a)) → runs (sql_mbind A B h m) (in_opt f g).
Proof.
  intros Hm Hh k d. unfold sql_mbind, in_opt. specialize (Hm k d). destruct (m (k, d)) as [[k' d'] [a|e]].
  - rewrite Hm. cbn. apply Hh.
  - intros Hf. by rewrite (Hm Hf).
Qed.
Lemma runs_seq {B} (m : Sql unit) (h : Sql B) f g :
  runs m f → runs h g → runs (sql_mbind unit B (λ _, h) m) (in_opt f (λ _, g)).
Proof. intros Hm Hh. by apply runs_bind. Qed.
Lemma runs_stmt {A} (g : DB → res string (DB * A)) :
  runs (stmt fault g) (λ d, match g d with Ok r => Some r | Err _ => None end).
Proof.
  intros k d. cbn. destruct (fault k) eqn:Hk; [intros Hf; congruence|]. destruct (g d) as [[d' a]|e]; done.
Qed.
Lemma runs_ext {A} (m : Sql A) f g : runs m f → (∀ d, f d = g d) → runs m g.
Proof. intros Hm Hfg k d. specialize (Hm k d). destruct (m (k, d)) as [[k' d'] [a|e]]; by rewrite <-Hfg. Qed.
Lemma runs_call : runs (call fault) (λ d, Some (d, ())).
Proof. eapply runs_ext; [apply runs_stmt|done]. Qed.
Lemma runs_update f : runs (update fault f) (λ d, Some (f d, ())).
Proof. eapply runs_ext; [apply runs_stmt|done]. Qed.
Lemma runs_tx {A} (m : Sql A) f : runs m f → runs (tx fault m) f.
Proof.
  intros Hm k d. cbn. destruct (fault k) eqn:Hk; [intros Hf; congruence|]. specialize (Hm (S k) d).
  destruct (m (S k, d)) as [[k' d'] [a|e]]; [|done]. destruct (fault k') eqn:Hk'; [intros Hf; congruence|done].
Qed.
(** A failed transaction leaves the tables alone. *)
Lemma tx_atomic {A} (m : Sql A) k d k' d' e : tx fault m (k, d) = ((k', d'), Err e) → d' = d.
Proof.
  cbn. destruct (fault k); [by intros [= _ <- _]|]. destruct (m (S k, d)) as [[k2 d2] [a|e2]]; [|by intros [= _ <- _]].
  destruct (fault k2); [by intros [= _ <- _]|done].
Qed.

(** The chunks of an insert insert all of its rows, when inserting them one
    after the other is inserting the whole. *)
Lemma runs_chunks (ins : list string → Sql unit) (adds : list string → DB → option (DB * unit)) fuel rows :
  (∀ l, runs (ins l) (adds l)) → (∀ d, adds [] d = Some (d, ())) →
  (∀ l l' d, adds (l ++ l') d = in_opt (adds l) (λ _, adds l') d) →
  (length rows ≤ fuel)%nat → runs (insertChunked fault fuel ins rows) (adds rows).
Proof.
  intros Hi H0 Ha. revert rows. induction fuel as [|fuel IH]; intros [|x rows] Hl; cbn [length] in Hl; try lia.
  1,2: intros k d; exact (H0 d).
  cbn [insertChunked]. eapply runs_ext.
  - apply runs_seq; [apply runs_call|]. apply runs_seq; [apply Hi|]. apply runs_seq; [apply runs_call|]. apply IH. rewrite length_drop. cbn. lia.
  - intros d. symmetry. rewrite <-(take_drop insertBatch (x :: rows)) at 1. apply Ha.
Qed.
End SqlFacts.

Lemma insert_rows_app l l' X :
  insert_rows (l ++ l') X = match insert_rows l X with Ok Y => insert_rows l' Y | Err e => Err e end.
Proof. revert X. induction l as [|x l IH]; intros X; cbn; [done|]. by destruct (decide _). Qed.
Lemma insert_rows_spec l X :
  match insert_rows l X with
  | Ok Y => Y = list_to_set l ∪ X ∧ NoDup l ∧ (∀ x, x ∈ l → x ∉ X)
  | Err _ => ¬ (NoDup l ∧ ∀ x, x ∈ l → x ∉ X)
  end.
Proof.
  revert X. induction l as [|x l IH]; intros X; cbn [insert_rows].
  { split_and!; [set_solver|constructor|set_solver]. }
  destruct (decide (x ∈ X)) as [Hx|Hx]; [intros [_ H]; by apply (H x); [left|]|].
  specialize (IH ({[x]} ∪ X)). destruct (insert_rows l ({[x]} ∪ X)); rewrite NoDup_cons.
  - destruct IH as (-> & Hn & Hd). split_and!; [set_solver|set_solver|done|set_solver].
  - intros [[Hl Hn] Hd]. apply IH. split; [done|]. intros y Hy. rewrite elem_of_union, elem_of_singleton. set_solver.
Qed.

(** ** Replacing a stored set *)
Inductive replacement := RBlocklist (l : list string) | RHand (t : hand_table) (l : list string) | RSource (url : string) (l : list string).
Definition replace (fault : nat → option string) (r : replacement) : Sql unit :=
  match r with
  | RBlocklist l => ReplaceAll fault l
  | RHand t l => replaceDomainSet fault t l
  | RSource u l => ReplaceSourceDomains fault u l
  end.
Definition replaced (r : replacement) (d : DB) : DB :=
  match r with
  | RBlocklist l => d <| db_blocklist := list_to_set l |>
  | RHand t l => put_hand t (list_to_set l) d
  | RSource u l => d <| db_source_domains := filter (λ p, p.1 ≠ u) (db_source_domains d) ∪ list_to_set (pair u <$> l) |>
  end.
Definition storable (r : replacement) : Prop := match r with RBlocklist l | RHand _ l => NoDup l | RSource _ _ => True end.
#[export] Instance storable_dec r : Decision (storable r).
Proof. destruct r; apply _. Defined.
Definition replace_spec (r : replacement) (d : DB) : option (DB * unit) :=
  if decide (storable r) then Some (replaced r d, ()) else None.

Lemma insert_rows_err l X e : insert_rows l X = Err e → e = "UNIQUE constraint failed".
Proof. revert X. induction l as [|x l IH]; intros X; cbn; [done|]. destruct (decide _); [by intros [= <-]|apply IH]. Qed.
Lemma rows_decided l (X : gset string) :
  X = ∅ → insert_rows l X = if decide (NoDup l) then Ok (list_to_set l ∪ X) else Err "UNIQUE constraint failed".
Proof.
  intros ->. pose proof (insert_rows_spec l ∅) as H. destruct (insert_rows l ∅) eqn:E.
  - destruct H as (-> & Hn & _). by rewrite decide_True.
  - rewrite decide_False by set_solver. by rewrite (insert_rows_err _ _ _ E).
Qed.
Lemma put_hand_twice t X Y d : put_hand t X (put_hand t Y d) = put_hand t X d.
Proof. by destruct t. Qed.
Lemma hand_put t X d : hand_set t (put_hand t X d) = X.
Proof. by destruct t. Qed.
Lemma runs_insert_each fault t l :
  runs fault (insert_each fault t l)
    (λ d, match insert_rows l (hand_set t d) with Ok X => Some (put_hand t X d, ()) | Err _ => None end).
Proof.
  induction l as [|x l IH]; [intros k d; by destruct t, d|]. cbn [insert_each].
  eapply runs_ext; [apply runs_seq; [apply runs_stmt|exact IH]|].
  intros d. unfold in_opt. cbn [insert_rows]. destruct (decide (x ∈ hand_set t d)); [done|]. cbn [mbind option_bind].
  rewrite hand_put. destruct (insert_rows l _); [by rewrite put_hand_twice|done].
Qed.
Lemma runs_replace fault r : runs fault (replace fault r) (replace_spec r).
Proof.
  destruct r as [l|t l|u l]; cbn [replace]; apply runs_tx.
  - eapply runs_ext; [apply runs_seq; [apply runs_update|]|].
    + apply (runs_chunks _ _ (λ l d, match insert_rows l (db_blocklist d) with
                         Ok X => Some (d <| db_blocklist := X |>, ()) | Err _ => None end)); [| | |done].
      * intros l'. eapply runs_ext; [apply runs_stmt|]. intros d. cbn. by destruct (insert_rows l' (db_blocklist d)).
      * intros []; done.
      * intros l1 l2 d. rewrite insert_rows_app. unfold in_opt. destruct (insert_rows l1 _); [|done]. cbn. done.
    + intros d. unfold in_opt, replace_spec. cbn [mbind option_bind storable db_blocklist set].
      rewrite rows_decided by done. destruct (decide (NoDup l)); [|done]. do 3 f_equal. cbn. f_equal. set_solver.
  - eapply runs_ext; [apply runs_seq; [apply runs_update|apply runs_seq; [apply runs_call|apply runs_insert_each]]|].
    intros d. unfold in_opt, replace_spec. cbn [mbind option_bind storable]. rewrite hand_put.
    rewrite rows_decided by done. destruct (decide (NoDup l)); [|done]. rewrite put_hand_twice, (right_id_L ∅ (∪)). done.
  - eapply runs_ext; [apply runs_seq; [apply runs_update|]|].
    + apply (runs_chunks _ _ (λ l d, Some (d <| db_source_domains ::= λ X, X ∪ list_to_set (pair u <$> l) |>, ())));
        [intros l'; apply runs_update| | |done].
      * intros []. cbn. by rewrite (right_id_L ∅ (∪)).
      * intros l1 l2 d. unfold in_opt. cbn. rewrite fmap_app, list_to_set_app_L, (assoc_L (∪)). done.
    + intros d. unfold in_opt, replace_spec. cbn. done.
Qed.
Lemma replace_atomic fault r k d k' d' e : replace fault r (k, d) = ((k', d'), Err e) → d' = d.
Proof. destruct r; apply tx_atomic. Qed.
(** What is loaded back. *)
Definition stored (r : replacement) (d : DB) : gset string :=
  match r with RBlocklist _ => db_blocklist d | RHand t _ => hand_set t d | RSource u _ => snapshot u d end.
Definition rows_of (r : replacement) : list string := match r with RBlocklist l | RHand _ l | RSource _ l => l end.
Lemma stored_replaced r d : stored r (replaced r d) = list_to_set (rows_of r).
Proof.
  destruct r as [l|t l|u l]; [done|apply hand_put|]. cbn. unfold snapshot. cbn. apply set_eq. intros x.
  rewrite elem_of_map, elem_of_list_to_set. split.
  - intros ([u' x'] & -> & [Hu Hp]%elem_of_filter). cbn in *. subst u'.
    apply elem_of_union in Hp as [[? _]%elem_of_filter|Hp]; [done|].
    apply elem_of_list_to_set, list_elem_of_fmap in Hp as (y & [= ->] & ?). done.
  - intros Hx. exists (u, x). split; [done|]. apply elem_of_filter. split; [done|]. apply elem_of_union_r, elem_of_list_to_set.
    by apply list_elem_of_fmap_2.
Qed.
Lemma snapshot_other u u' l d : u' ≠ u → snapshot u' (replaced (RSource u l) d) = snapshot u' d.
Proof.
  intros Hu. unfold snapshot. f_equal. apply set_eq. intros [v x]. cbn. rewrite !elem_of_filter, elem_of_union, elem_of_filter.
  rewrite elem_of_list_to_set, list_elem_of_fmap. cbn. naive_solver.
Qed.

(** C28: Whatever fails in the database, a stored list is replaced as a whole or
    not at all: if the call succeeds, exactly the given rows are loaded back
    (however the insert was cut into statements), nothing else changed and the
    rows had no repetition where the table forbids it; if it fails, the tables
    are as before; and without a fault of the database it succeeds whenever the
    rows can be stored. *)
Theorem blocklistdb_replace_atomic fault r k d :
  let res := replace fault r (k, d) in
  match res.2 with
  | Ok _ => storable r ∧ res.1.2 = replaced r d ∧ stored r res.1.2 = list_to_set (rows_of r)
  | Err _ => res.1.2 = d ∧ ((∀ j, fault j = None) → ¬ storable r)
  end.
Proof.
  cbn zeta. pose proof (runs_replace fault r k d) as H. pose proof (replace_atomic fault r k d) as Ha.
  destruct (replace fault r (k, d)) as [[k' d'] [[]|e]]; cbn [fst snd].
  - unfold replace_spec in H. destruct (decide (storable r)); [|done]. injection H as <-. split_and!; [done..|]. apply stored_replaced.
  - split; [by eapply Ha|]. intros Hf. specialize (H Hf). unfold replace_spec in H. by destruct (decide (storable r)).
Qed.

(** A hand-added wildcard is an exact entry of the list, spelled like the
    wildcard of a source: the merged list then has the row twice, and storing
    it fails on the primary key. *)
Example manual_wildcard_not_stored :
  let b := Add "*.ads.com" (FromDomainsMap ["*.ads.com"; "bad.org"] New) in
  let rows := List (elements (bl_exact b)) (elements (bl_wild b)) in
  (ReplaceAll (λ _, None) rows (0%nat, empty_db)).2 = Err "UNIQUE constraint failed".
Proof. vm_compute. reflexivity. Qed.

(** ** Opening loses nothing *)
(** The rows of the sources, wherever they are stored. *)
Definition all_source_rows (d : DB) : gset (string * string) := db_source_domains d ∪ joined (db_norm d).
Definition other_tables (d : DB) := (db_blocklist d, db_meta d, db_manual d, db_allow d).
Definition same_rows (d d' : DB) : Prop := all_source_rows d' = all_source_rows d ∧ other_tables d' = other_tables d.
Section Opening.
Context (fault : nat → option string).
(** [m] keeps what [I] says of the tables. *)
Definition steady (I : DB → Prop) {A} (m : Sql A) : Prop := ∀ k d, I d → I (m (k, d)).1.2.
Lemma steady_bind I {A B} (m : Sql A) (h : A → Sql B) : steady I m → (∀ a, steady I (h a)) → steady I (sql_mbind A B h m).
Proof.
  intros Hm Hh k d Hd. unfold sql_mbind. specialize (Hm k d Hd). destruct (m (k, d)) as [[k' d'] [a|e]]; [|done]. by apply Hh.
Qed.
Lemma steady_stmt I {A} (g : DB → res string (DB * A)) :
  (∀ d d' a, I d → g d = Ok (d', a) → I d') → steady I (stmt fault g).
Proof. intros Hg k d Hd. cbn. destruct (fault k); [done|]. destruct (g d) as [[d' a]|e] eqn:E; [by eapply Hg|done]. Qed.
Lemma steady_update I f : (∀ d, I d → I (f d)) → steady I (update fault f).
Proof. intros Hf. apply steady_stmt. intros d d' a Hd [= <- <-]. by apply Hf. Qed.
Lemma steady_call I : steady I (call fault).
Proof. apply steady_stmt. by intros d d' a Hd [= <- <-]. Qed.
Lemma steady_wrap I p {A} (m : Sql A) : steady I m → steady I (wrap p m).
Proof. intros Hm k d Hd. unfold wrap. specialize (Hm k d Hd). by destruct (m (k, d)) as [? [|]]. Qed.
Lemma steady_add_column I : steady I (add_column fault).
Proof. intros k d Hd. unfold add_column. pose proof (steady_call I k d Hd) as H. by destruct (call fault (k, d)) as [? [|]]. Qed.
Lemma joined_none n : nm_membership n = None → joined n = ∅.
Proof. unfold joined. by intros ->. Qed.
(** The copy comes first and the table that connects the others is dropped
    first, so no row is lost at whichever statement the migration stops. *)
Lemma migrate_steady d0 : steady (same_rows d0) (migrateNormalizedSourceDomains fault).
Proof.
  unfold migrateNormalizedSourceDomains. apply steady_bind; [apply steady_stmt; by intros d d' a Hd [= <- <-]|]. intros [|]; [|by intros k d Hd].
  set (J := λ d, same_rows d0 d ∧ joined (db_norm d) ⊆ db_source_domains d).
  set (K := λ d, same_rows d0 d ∧ nm_membership (db_norm d) = None).
  assert (∀ I I' {A B} (m : Sql A) (h : A → Sql B), (∀ k d, I d → match m (k, d) with ((_, d'), Ok _) => I' d' | ((_, d'), Err _) => same_rows d0 d' end) →
    (∀ a k d, I' d → same_rows d0 (h a (k, d)).1.2) → ∀ k d, I d → same_rows d0 (sql_mbind A B h m (k, d)).1.2) as Hseq.
  { intros I I' A B m h Hm Hh k d Hd. unfold sql_mbind. specialize (Hm k d Hd). destruct (m (k, d)) as [[k' d'] [a|e]]; [by apply Hh|done]. }
  assert (∀ (I I' : DB → Prop) f, (∀ d, I d → same_rows d0 d) → (∀ d, I d → I' (f d)) →
    ∀ k d, I d → match update fault f (k, d) with ((_, d'), Ok _) => I' d' | ((_, d'), Err _) => same_rows d0 d' end) as Hup.
  { intros I I' f H1 H2 k d Hd. cbn. destruct (fault k); [by apply H1|by apply H2]. }
  intros k d Hd. revert k d Hd. apply (Hseq (same_rows d0) J); [apply Hup; [done|]|intros _].
  { intros d [H1 H2]. unfold J, same_rows, all_source_rows, other_tables in *. cbn. rewrite <-H2. split; [split; [|done]|set_solver]. rewrite <-H1. set_solver. }
  apply (Hseq J K); [apply Hup; [by intros d [? _]|]|intros _].
  { intros d [[H1 H2] H3]. unfold K, same_rows, all_source_rows, other_tables in *. cbn. rewrite <-H2. split; [split; [|done]|done].
    rewrite <-H1. unfold joined at 1. cbn. set_solver. }
  assert (∀ f, (∀ n, nm_membership (f n) = nm_membership n) → ∀ k d, K d →
    match update fault (λ d, d <| db_norm ::= f |>) (k, d) with ((_, d'), Ok _) => K d' | ((_, d'), Err _) => same_rows d0 d' end) as Hdrop.
  { intros f Hf. apply Hup; [by intros d [? _]|]. intros d [[H1 H2] H3]. unfold K, same_rows, all_source_rows, other_tables in *. cbn.
    rewrite Hf, H3. split; [split; [|done]|done]. rewrite <-H1, !joined_none by (rewrite ?Hf; done). done. }
  apply (Hseq K K); [by apply Hdrop|intros _]. apply (Hseq K K); [by apply Hdrop|intros _]. by intros k d [? _].
Qed.
(** Opening never changes which rows the database has, whatever fails. *)
Lemma open_steady oe k d : same_rows d (NewBlocklistStore fault oe (k, d)).1.2.
Proof.
  assert (steady (same_rows d) (NewBlocklistStore fault oe)) as H; [|by apply H].
  unfold NewBlocklistStore, failing. destruct (oe_mkdir oe), (oe_open oe); try by intros ? ? ?.
  repeat (apply steady_bind; [by apply steady_wrap, steady_call || apply steady_add_column|intros _]).
  intros k' d' Hd'. unfold attempt. cbn [fst]. by apply migrate_steady.
Qed.
End Opening.
(** With nothing in the way the old tables are gone and the next start has
    nothing to migrate. *)
Lemma open_migrates oe d : oe_mkdir oe = None → oe_open oe = None →
  let '((_, d'), r) := NewBlocklistStore (λ _, None) oe (0%nat, d) in
  r = Ok () ∧ db_source_domains d' = all_source_rows d ∧ nm_membership (db_norm d') = None.
Proof.
  intros H1 H2. unfold NewBlocklistStore, failing. rewrite H1, H2. unfold attempt, wrap, add_column, migrateNormalizedSourceDomains.
  unfold mbind, sql_mbind, call, select, update, stmt, vacuum, mret, sql_mret. cbn -[bool_decide]. case_bool_decide as Hb; cbn; (split; [done|]); [by split|].
  apply eq_None_not_Some in Hb. split; [|done]. unfold all_source_rows. rewrite joined_none by done. set_solver.
Qed.
