(* ===== verification/Pagination.v ===== *)
(** * Query parameters of the controller's API

    internal/controller/pagination.go, with [time.ParseDuration], which it
    calls.  A parameter is the value the query string gives it, empty when it
    is absent. *)
From S2P Require Import Prelude GoStrings GoUrl.
From Stdlib Require Import Ascii.
#[local] Open Scope Z_scope.

(** ** time.ParseDuration

    Durations are nanoseconds.  [fraction f unit scale] is the float product
    [f * (unit / scale)], truncated: an argument. *)
Section ParseDuration.
Context (fraction : Z → Z → Z → Z).
Definition two63 : Z := 2 ^ 63.
(** The digits at the start of [s] and the rest. *)
Fixpoint digit_run (s : string) : string * string :=
  match s with
  | String c r => if is_digit c then let '(a, b) := digit_run r in (String c a, b) else ("", s)
  | "" => ("", "")
  end.
(** [leadingInt]: [None] is the overflow. *)
Fixpoint leadingInt (x : Z) (s : string) : option (Z * string) :=
  match s with
  | String c r =>
      if is_digit c then
        if two63 / 10 <? x then None
        else let x := 10 * x + (code c - 48) in if two63 <? x then None else leadingInt x r
      else Some (x, s)
  | "" => Some (x, "")
  end.
(** [leadingFraction]: the value, the scale and the rest; digits past the
    precision of 63 bits are read and ignored. *)
Fixpoint leadingFraction (x scale : Z) (overflow : bool) (s : string) : Z * Z * string :=
  match s with
  | String c r =>
      if is_digit c then
        if overflow then leadingFraction x scale true r
        else if (two63 - 1) / 10 <? x then leadingFraction x scale true r
        else let y := 10 * x + (code c - 48) in
             if two63 <? y then leadingFraction x scale true r else leadingFraction y (10 * scale) false r
      else (x, scale, s)
  | "" => (x, scale, "")
  end.
Definition unit_of (u : string) : option Z :=
  if str_eqb u "ns" then Some 1
  else if str_eqb u "us" || str_eqb u (String (ascii_of_N 194) (String (ascii_of_N 181) "s"))
       || str_eqb u (String (ascii_of_N 206) (String (ascii_of_N 188) "s")) then Some 1000
  else if str_eqb u "ms" then Some 1000000
  else if str_eqb u "s" then Some second
  else if str_eqb u "m" then Some minute
  else if str_eqb u "h" then Some hour
  else None.
Definition number_char (c : ascii) : bool := ascii_eqb c "." || is_digit c.
(** One term: its nanoseconds and the rest. *)
Definition duration_term (s : string) : option (Z * string) :=
  if negb (match s with String c _ => number_char c | "" => false end) then None
  else
    '(v, s1) ← leadingInt 0 s;
    let pre := negb (slen s =? slen s1)%nat in
    let '(f, scale, s2, post) :=
      match s1 with
      | String "." r => let '(f, scale, s2) := leadingFraction 0 1 false r in (f, scale, s2, negb (slen r =? slen s2)%nat)
      | _ => (0, 1, s1, false)
      end in
    if negb pre && negb post then None
    else
      let i := default (slen s2) (IndexFunc number_char s2) in
      if (i =? 0)%nat then None
      else
        unit ← unit_of (stake i s2);
        if two63 / unit <? v then None
        else
          let w := v * unit in
          let w := if 0 <? f then u64 (w + fraction f unit scale) else w in
          if two63 <? w then None else Some (w, sdrop i s2).
(** [fuel] bounds the terms by the length of the text: a term is not empty. *)
Fixpoint duration_terms (fuel : nat) (d : Z) (s : string) : option Z :=
  match s, fuel with
  | "", _ => Some d
  | _, O => None
  | _, S fuel =>
      '(v, rest) ← duration_term s;
      let d := d + v in
      if two63 <? d then None else duration_terms fuel d rest
  end.
Definition ParseDuration (s : string) : option Z :=
  let '(neg, s) := match s with
                   | String "-" r => (true, r)
                   | String "+" r => (false, r)
                   | _ => (false, s)
                   end in
  if str_eqb s "0" then Some 0
  else if str_eqb s "" then None
  else
    d ← duration_terms (slen s) 0 s;
    if neg then Some (- d) else if two63 - 1 <? d then None else Some d.
End ParseDuration.

(** ** The bounded parameters *)
Definition maxPageOffset : Z := 1000000.
Definition boundedLimit (raw : string) (fallback maximum : Z) : Z :=
  let value := if str_eqb raw "" then fallback else default fallback (Atoi raw) in
  if value <? 1 then fallback else if maximum <? value then maximum else value.
Definition boundedOffset (raw : string) : Z :=
  if str_eqb raw "" then 0
  else match Atoi raw with
       | None => 0
       | Some value => if value <? 0 then 0 else if maxPageOffset <? value then maxPageOffset else value
       end.
Definition boundedDuration (fraction : Z → Z → Z → Z) (raw : string) (fallback minimum maximum : Z) : Z :=
  if str_eqb raw "" then fallback
  else match ParseDuration fraction raw with
       | None => fallback
       | Some value => if (value <? minimum) || (maximum <? value) then fallback else value
       end.

Definition exact_fraction (f unit scale : Z) : Z := f * unit / scale.
Example duration_demo :
  ParseDuration exact_fraction <$> ["1h30m"; "1.5h"; "-250ms"; "0"; ""; "5"; ".s"; "9223372036s"; "9223372037s"; "1h "]
  = [Some (90 * minute); Some (90 * minute); Some (- 250000000); Some 0; None; None; None;
     Some (9223372036 * second); None; None].
Proof. vm_compute. reflexivity. Qed.

(** Whatever the query string holds, a page has at least one and at most
    [maximum] rows, the offset lies between 0 and a million, and a window of
    time between its bounds; a number in range is used as it is, a limit above
    the maximum is cut to it, and anything else gives the default. *)
Theorem page_params_bounded fraction limit offset window fallback maximum fd mn mx :
  1 ≤ fallback ≤ maximum → mn ≤ fd ≤ mx →
  1 ≤ boundedLimit limit fallback maximum ≤ maximum
  ∧ 0 ≤ boundedOffset offset ≤ maxPageOffset
  ∧ mn ≤ boundedDuration fraction window fd mn mx ≤ mx
  ∧ (∀ n, Atoi limit = Some n → 1 ≤ n → boundedLimit limit fallback maximum = Z.min n maximum)
  ∧ (∀ d, ParseDuration fraction window = Some d → mn ≤ d ≤ mx → boundedDuration fraction window fd mn mx = d)
  ∧ (Atoi limit = None → boundedLimit limit fallback maximum = fallback).
Proof.
  intros Hf Hd. unfold boundedLimit, boundedOffset, boundedDuration, maxPageOffset.
  assert (∀ n, Atoi limit = Some n → str_eqb limit "" = false) as Hne by (intros n Hn; by destruct limit).
  assert (∀ d, ParseDuration fraction window = Some d → str_eqb window "" = false) as Hwe by (intros d Hw; by destruct window).
  split_and!.
  1,2: destruct (str_eqb limit ""); cbn; repeat (case_match; bools); try lia.
  1-4: repeat (case_match; bools); lia.
  - intros n Hn H1. rewrite (Hne n Hn), Hn. cbn. repeat (case_match; bools); lia.
  - intros d Hw H1. rewrite (Hwe d Hw), Hw. destruct (_ || _) eqn:E; [|done]. apply orb_true_iff in E as [E|E]; bools; lia.
  - intros ->. destruct (str_eqb limit ""); cbn; repeat (case_match; bools); lia.
Qed.
Lemma page_params_bounded_witness :
  1 ≤ boundedLimit "900" 100 500 ≤ 500 ∧ 0 ≤ boundedOffset "-4" ≤ maxPageOffset
  ∧ minute ≤ boundedDuration exact_fraction "2h" (24 * hour) minute (720 * hour) ≤ 720 * hour.
Proof.
  destruct (page_params_bounded exact_fraction "900" "-4" "2h" 100 500 (24 * hour) minute (720 * hour))
    as (H1 & H2 & H3 & _); [lia|unfold hour, minute, second; lia|].
  exact (conj H1 (conj H2 H3)).
Defined.
