(* ===== verification/LogTime.v ===== *)
(** * The times of the query log, as text

    The columns of type DATETIME of internal/controller/querylog.go hold text:
    the vendored driver (modernc.org/sqlite) binds a [time.Time] as its
    [String], and SQLite compares the bytes.  This file is about that step: how
    a time is written ([formatTime]), how it comes back ([read_column],
    [parseQueryTS]), and when comparing texts is comparing instants; QueryLog.v
    orders and selects rows by these texts.  Formatting and parsing are those of
    the package time, for the layouts that occur: a layout is the list of its
    chunks. *)
From S2P Require Import Prelude GoStrings BlocklistDB.
From Stdlib Require Import Ascii.
#[local] Open Scope Z_scope.

(** ** Dates *)
(** Years are counted from March: [march Y] is the day number of the first of
    March of year [Y], [month_start] where the months begin after it. *)
Definition march (Y : Z) : Z := 365 * Y + Y / 4 - Y / 100 + Y / 400 - 719468.
Definition month_start (mp : Z) : Z := (153 * mp + 2) / 5.
Definition in_march '((y, m, d) : Z * Z * Z) : Z * Z * Z := if m <=? 2 then (y - 1, m + 9, d) else (y, m - 3, d).
Definition days_of (date : Z * Z * Z) : Z := let '(Y, mp, d) := in_march date in march Y + month_start mp + d - 1.
(** The date of a day after 1970-01-01. *)
Definition civil (z : Z) : Z * Z * Z :=
  let c := z + 719468 in
  let doe := c mod 146097 in
  let yoe := (doe - doe / 1460 + doe / 36524 - doe / 146096) / 365 in
  let doy := doe - (365 * yoe + yoe / 4 - yoe / 100) in
  let mp := (5 * doy + 2) / 153 in
  let m := if mp <? 10 then mp + 3 else mp - 9 in
  (yoe + c / 146097 * 400 + (if m <=? 2 then 1 else 0), m, doy - month_start mp + 1).
Definition isLeap (y : Z) : bool := (y mod 4 =? 0) && (negb (y mod 100 =? 0) || (y mod 400 =? 0)).
Definition daysIn (m y : Z) : Z :=
  if m =? 2 then (if isLeap y then 29 else 28) else if (m =? 4) || (m =? 6) || (m =? 9) || (m =? 11) then 30 else 31.

(** ** Writing *)
(** A time: the instant, the offset and the abbreviation of its location, the
    monotonic reading. *)
Record gotime := mkGT { gt_ns : Z; gt_off : Z; gt_zone : string; gt_mono : option Z }.
Definition digit (u : Z) : ascii := ascii_of_N (Z.to_N (48 + u)).
Fixpoint padded (w : nat) (u : Z) : string :=
  match w with O => "" | S w => padded w (u / 10) +:+ String (digit (u mod 10)) "" end.
Definition appendInt (x : Z) (w : nat) : string :=
  let u := Z.abs x in
  (if x <? 0 then "-" else "") +:+ (if (0 <? w)%nat && (u <? 10 ^ Z.of_nat w) then padded w u else Itoa u).
(** [appendNano] with trailing zeros trimmed. *)
Definition frac (ns : Z) : string := if ns =? 0 then "" else "." +:+ TrimRight (padded 9 ns) "0".
Definition date_text (days : Z) : string :=
  let '(y, m, d) := civil days in appendInt y 4 +:+ "-" +:+ appendInt m 2 +:+ "-" +:+ appendInt d 2.
Definition clock_text (s : Z) : string :=
  appendInt (s / 3600) 2 +:+ ":" +:+ appendInt (s / 60 mod 60) 2 +:+ ":" +:+ appendInt (s mod 60) 2.
Definition offset_text (colon : string) (off : Z) : string :=
  let zone := Z.quot off 60 in
  (if zone <? 0 then "-" else "+") +:+ appendInt (Z.abs zone / 60) 2 +:+ colon +:+ appendInt (Z.abs zone mod 60) 2.
(** Date and clock with [sep] between them, and the fraction. *)
Definition stamp (sep : string) (ns off : Z) : string :=
  let l := ns / second + off in
  date_text (l / 86400) +:+ sep +:+ clock_text (l mod 86400) +:+ frac (ns mod second).
Definition zone_text (t : gotime) : string := if str_eqb (gt_zone t) "" then offset_text "" (gt_off t) else gt_zone t.
Definition mono_text (m : option Z) : string :=
  match m with
  | None => ""
  | Some x =>
      let u := Z.abs x in
      let '(m1, m2) := (u / 10 ^ 9, u mod 10 ^ 9) in
      let '(m0, m1) := (m1 / 10 ^ 9, m1 mod 10 ^ 9) in
      " m=" +:+ (if x <? 0 then "-" else "+")
      +:+ (if m0 =? 0 then appendInt m1 0 else appendInt m0 0 +:+ appendInt m1 9) +:+ "." +:+ appendInt m2 9
  end.
(** What the driver writes: [time.Time.String]. *)
Definition formatTime (t : gotime) : string :=
  stamp " " (gt_ns t) (gt_off t) +:+ " " +:+ offset_text "" (gt_off t) +:+ " " +:+ zone_text t +:+ mono_text (gt_mono t).
Definition RFC3339Nano_text (ns off : Z) : string :=
  stamp "T" ns off +:+ (if off =? 0 then "Z" else offset_text ":" off).

(** ** Reading *)
(** The chunks of a layout; a fraction of a second may follow [CSecond]. *)
Inductive chunk := CYear | CMonth | CDay | CHour | CMinute | CSecond | COffset | COffsetColon | CISO | CZone | CLit (c : ascii).
Record fields := mkF { f_date : Z * Z * Z; f_secs : Z; f_ns : Z; f_off : option Z; f_utc : bool }.
Definition is_digit_at (s : string) (n : nat) : bool := match sdrop n s with String c _ => is_digit c | "" => false end.
Definition getnum (s : string) (fixed : bool) : option (Z * string) :=
  match s with
  | String c r =>
      if negb (is_digit c) then None
      else match r with
           | String d r' => if is_digit d then Some (10 * (code c - 48) + (code d - 48), r')
                            else if fixed then None else Some (code c - 48, r)
           | "" => if fixed then None else Some (code c - 48, r)
           end
  | "" => None
  end.
Definition num_in (lo hi : Z) (r : option (Z * string)) : option (Z * string) :=
  match r with Some (v, s) => if (lo <=? v) && (v <? hi) then Some (v, s) else None | None => None end.
Fixpoint span_digits (s : string) : string * string :=
  match s with
  | String c r => if is_digit c then let '(a, b) := span_digits r in (String c a, b) else ("", s)
  | "" => ("", "")
  end.
(** An optional fraction: [parseNanoseconds] of at most nine digits. *)
Definition opt_frac (s : string) : Z * string :=
  match s with
  | String c r =>
      if str_mem c ".," && is_digit_at r 0 then
        let '(ds, rest) := span_digits r in
        let ds := stake 9 ds in
        (default 0 (parse_digits 0 ds) * 10 ^ (9 - Z.of_nat (slen ds)), rest)
      else (0, s)
  | "" => (0, s)
  end.
(** A sign, two digits, [colon], two digits. *)
Definition parse_offset (colon : bool) (s : string) : option (Z * string) :=
  match s with
  | String c r =>
      '(hh, r) ← num_in 0 25 (getnum r true);
      r ← (if colon then match r with String c r => if ascii_eqb c ":" then Some r else None | "" => None end else Some r);
      '(mm, r) ← num_in 0 61 (getnum r true);
      if ascii_eqb c "+" then Some ((hh * 60 + mm) * 60, r)
      else if ascii_eqb c "-" then Some (- ((hh * 60 + mm) * 60), r) else None
  | "" => None
  end.
Definition parseSignedOffset (s : string) : nat :=
  match s with
  | String c r =>
      let ds := (span_digits r).1 in
      if (ascii_eqb c "-" || ascii_eqb c "+") && negb (str_eqb ds "") && (default 24 (parse_digits 0 ds) <=? 23) then S (slen ds) else 0%nat
  | "" => 0%nat
  end.
Fixpoint upper_run (fuel : nat) (s : string) : nat :=
  match fuel, s with
  | S n, String c r => if in_range 65 90 c then S (upper_run n r) else 0%nat
  | _, _ => 0%nat
  end.
(** The length of a zone abbreviation. *)
Definition parseTimeZone (s : string) : option nat :=
  if (slen s <? 3)%nat then None
  else if str_eqb (stake 4 s) "ChST" || str_eqb (stake 4 s) "MeST" then Some 4%nat
  else if str_eqb (stake 3 s) "GMT" then Some (3 + parseSignedOffset (sdrop 3 s))%nat
  else if str_mem (default " "%char (String.get 0 s)) "+-" then
    match parseSignedOffset s with O => None | n => Some n end
  else match upper_run 6 s with
       | 3%nat => Some 3%nat
       | 4%nat => if HasPrefix (sdrop 3 s) "T" || HasPrefix s "WITA" then Some 4%nat else None
       | 5%nat => if HasPrefix (sdrop 4 s) "T" then Some 5%nat else None
       | _ => None
       end.
Definition cut_space : string → string := TrimLeftFunc (λ c, ascii_eqb c " ").
Definition parse_chunk (c : chunk) (s : string) (f : fields) : option (fields * string) :=
  let '(y, m, d) := f_date f in
  let '(mkF _ secs ns off utc) := f in
  match c with
  | CYear =>
      let p := stake 4 s in
      if (slen p =? 4)%nat then v ← parse_nat_dec p; Some (mkF (v, m, d) secs ns off utc, sdrop 4 s) else None
  | CMonth => '(v, r) ← num_in 1 13 (getnum s true); Some (mkF (y, v, d) secs ns off utc, r)
  | CDay => '(v, r) ← getnum s true; Some (mkF (y, m, v) secs ns off utc, r)
  | CHour => '(v, r) ← num_in 0 24 (getnum s false); Some (mkF (y, m, d) (secs + v * 3600) ns off utc, r)
  | CMinute => '(v, r) ← num_in 0 60 (getnum s true); Some (mkF (y, m, d) (secs + v * 60) ns off utc, r)
  | CSecond => '(v, r) ← num_in 0 60 (getnum s true); let '(ns, r) := opt_frac r in Some (mkF (y, m, d) (secs + v) ns off utc, r)
  | COffset => '(o, r) ← parse_offset false s; Some (mkF (y, m, d) secs ns (Some o) utc, r)
  | COffsetColon => '(o, r) ← parse_offset true s; Some (mkF (y, m, d) secs ns (Some o) utc, r)
  | CISO =>
      if HasPrefix s "Z" then Some (mkF (y, m, d) secs ns off true, sdrop 1 s)
      else '(o, r) ← parse_offset true s; Some (mkF (y, m, d) secs ns (Some o) utc, r)
  | CZone =>
      if HasPrefix s "UTC" then Some (mkF (y, m, d) secs ns off true, sdrop 3 s)
      else n ← parseTimeZone s; Some (f, sdrop n s)
  | CLit c =>
      match s with
      | String c' r =>
          if ascii_eqb c " " then (if ascii_eqb c' " " then Some (f, cut_space s) else None)
          else if ascii_eqb c' c then Some (f, r) else None
      | "" => if ascii_eqb c " " then Some (f, s) else None
      end
  end.
Fixpoint parse_chunks (l : list chunk) (s : string) (f : fields) : option fields :=
  match l with
  | [] => if str_eqb s "" then Some f else None
  | c :: l => '(f, s) ← parse_chunk c s f; parse_chunks l s f
  end.
(** [time.Parse]: the instant and the offset of the location. *)
Definition Parse (l : list chunk) (s : string) : option (Z * Z) :=
  f ← parse_chunks l s (mkF (0, 1, 1) 0 0 None false);
  let '(y, m, d) := f_date f in
  if (1 <=? d) && (d <=? daysIn m y) then
    let off := if f_utc f then 0 else default 0 (f_off f) in
    Some ((days_of (y, m, d) * 86400 + f_secs f - off) * second + f_ns f, off)
  else None.
Definition ymd : list chunk := [CYear; CLit "-"; CMonth; CLit "-"; CDay].
Definition hm : list chunk := [CHour; CLit ":"; CMinute].
Definition hms : list chunk := hm ++ [CLit ":"; CSecond].
Definition RFC3339Nano : list chunk := ymd ++ [CLit "T"] ++ hms ++ [CISO].
Definition StringLayout : list chunk := ymd ++ [CLit " "] ++ hms ++ [CLit " "; COffset; CLit " "; CZone].
Definition BareLayout : list chunk := ymd ++ [CLit " "] ++ hms.
Fixpoint first_parse (ls : list (list chunk)) (s : string) : option (Z * Z) :=
  match ls with [] => None | l :: ls => match Parse l s with Some r => Some r | None => first_parse ls s end end.
(** The driver: [parseTime] of a DATETIME column (its hint, the format that
    matched last, only changes the order of attempts), which [Scan] turns into text
    again. *)
Definition parseTimeString (s : string) : option (Z * Z) :=
  let s := match Index s "m=" with Some (S n) => stake (S n) s | _ => s end in Parse StringLayout (TrimSpace s).
Definition parseTimeFormats : list (list chunk) :=
  [ymd ++ [CLit " "] ++ hms ++ [COffsetColon]; ymd ++ [CLit "T"] ++ hms ++ [COffsetColon];
   BareLayout; ymd ++ [CLit "T"] ++ hms; ymd ++ [CLit " "] ++ hm; ymd ++ [CLit "T"] ++ hm; ymd].
Definition parseTime (s : string) : option (Z * Z) :=
  match parseTimeString s with Some r => Some r | None => first_parse parseTimeFormats (TrimSuffix s "Z") end.
Definition read_column (s : string) : string :=
  match parseTime s with Some (ns, off) => RFC3339Nano_text ns off | None => s end.
(** [parseQueryTS]. *)
Definition parseQueryTS (s : string) : Z :=
  let s := match LastIndex s " m=" with Some (S n) => stake (S n) s | _ => s end in
  match first_parse [RFC3339Nano; StringLayout; BareLayout] s with Some (ns, _) => ns | None => zero_time end.
(** ** Comparing: the bytes *)
Fixpoint bytes_ltb (s t : string) : bool :=
  match s, t with
  | _, "" => false
  | "", _ => true
  | String c s, String d t => (code c <? code d) || ((code c =? code d) && bytes_ltb s t)
  end.

(** ** Dates: the calendar is a bijection that keeps the order *)
#[local] Ltac zdiv := Z.to_euclidean_division_equations; lia.
Lemma yoe_bounds doe : 0 <= doe < 146097 →
  let yoe := (doe - doe / 1460 + doe / 36524 - doe / 146096) / 365 in
  0 <= yoe < 400 ∧ 365 * yoe + yoe / 4 - yoe / 100 <= doe ∧ doe < 365 * (yoe + 1) + (yoe + 1) / 4 - (yoe + 1) / 100 + (yoe + 1) / 400.
Proof. intros H. cbv zeta. split; [zdiv|split; zdiv]. Qed.
Lemma march_mono Y Y' : Y <= Y' → march Y <= march Y'.
Proof. unfold march. intros. zdiv. Qed.
Lemma march_era k era : march (k + era * 400) = 365 * k + k / 4 - k / 100 + k / 400 + era * 146097 - 719468.
Proof. unfold march. zdiv. Qed.
Lemma civil_spec z :
  let '(Y, mp, d) := in_march (civil z) in
  z = march Y + month_start mp + d - 1 ∧ 0 <= mp < 12 ∧ 0 < d ∧ z < march (Y + 1) ∧ z < march Y + month_start (mp + 1).
Proof.
  unfold civil, in_march. cbv zeta. set (c := z + 719468).
  pose proof (Z.div_mod c 146097) as Hc. pose proof (Z.mod_pos_bound c 146097) as Hb.
  set (doe := c mod 146097) in *. set (era := c / 146097) in *.
  destruct (yoe_bounds doe) as (H1 & H2 & H3); [lia|]. set (yoe := (doe - _ + _ - _) / 365) in *.
  clearbody yoe. remember (doe - (365 * yoe + yoe / 4 - yoe / 100)) as doy eqn:Hdoy.
  assert (0 <= doy < 366) by zdiv. remember ((5 * doy + 2) / 153) as mp eqn:Hmp.
  assert (0 <= mp < 12) by zdiv.
  assert (month_start mp <= doy < month_start (mp + 1)) by (unfold month_start; zdiv).
  assert (yoe / 400 = 0) by zdiv.
  destruct (mp <? 10) eqn:E1.
  - assert (mp + 3 <=? 2 = false) as -> by lia. rewrite Z.add_0_r, Z.add_simpl_r.
    replace (yoe + era * 400 + 1) with ((yoe + 1) + era * 400) by lia. rewrite !march_era. unfold c in Hc. lia.
  - assert (mp - 9 <=? 2 = true) as -> by lia. replace (yoe + era * 400 + 1 - 1) with (yoe + era * 400) by lia.
    replace (yoe + era * 400 + 1) with ((yoe + 1) + era * 400) by lia. replace (mp - 9 + 9) with mp by lia.
    rewrite !march_era. unfold c in Hc. lia.
Qed.
Lemma civil_month z : 1 <= (civil z).1.2 <= 12.
Proof.
  unfold civil. cbv zeta. set (c := z + 719468). pose proof (Z.mod_pos_bound c 146097) as Hb. set (doe := c mod 146097) in *.
  destruct (yoe_bounds doe) as (H1 & H2 & H3); [lia|]. set (yoe := (doe - _ + _ - _) / 365) in *. clearbody yoe doe.
  remember (doe - (365 * yoe + yoe / 4 - yoe / 100)) as doy. assert (0 <= doy < 366) by zdiv. cbn [fst snd].
  case_match eqn:E; zdiv.
Qed.
Lemma days_of_civil z : days_of (civil z) = z.
Proof. pose proof (civil_spec z) as H. unfold days_of. destruct (in_march (civil z)) as [[Y mp] d]. lia. Qed.
Lemma civil_valid z : let '(y, m, d) := civil z in 1 <= m <= 12 ∧ 1 <= d <= daysIn m y.
Proof.
  pose proof (civil_spec z) as H. pose proof (civil_month z) as Hm. destruct (civil z) as [[y m] d]. cbn [fst snd] in Hm. split; [done|].
  assert (m = 1 ∨ m = 2 ∨ 3 <= m) as [->|[->|Hm3]] by lia.
  - cbn in H. unfold daysIn, month_start in *. cbn. zdiv.
  - cbn in H. unfold daysIn, isLeap. unfold march, month_start in *. cbn [Z.eqb].
    destruct (Z.eqb_spec (y mod 4) 0), (Z.eqb_spec (y mod 100) 0), (Z.eqb_spec (y mod 400) 0); cbn; zdiv.
  - unfold in_march in H. assert (m <=? 2 = false) as E by lia. rewrite E in H. destruct H as (H1 & _ & H3 & _ & H5).
    assert (m = 3 ∨ m = 4 ∨ m = 5 ∨ m = 6 ∨ m = 7 ∨ m = 8 ∨ m = 9 ∨ m = 10 ∨ m = 11 ∨ m = 12) as Hc by lia.
    clear E Hm Hm3. unfold month_start in *. destruct_or! Hc; subst m; (split; [lia|]); cbn; zdiv.
Qed.
(** Dates in the order of their days. *)
Definition date_ltb '((y, m, d) : Z * Z * Z) '((y', m', d') : Z * Z * Z) : bool :=
  (y <? y') || ((y =? y') && ((m <? m') || ((m =? m') && (d <? d')))).
Lemma civil_lt z z' : z < z' → date_ltb (civil z) (civil z') = true.
Proof.
  intros Hlt. pose proof (civil_spec z) as H. pose proof (civil_spec z') as H'.
  pose proof (civil_month z) as Hm. pose proof (civil_month z') as Hm'.
  destruct (civil z) as [[y m] d], (civil z') as [[y' m'] d']. cbn [fst snd] in *. unfold in_march in *.
  assert (∀ Y mp D Y' mp' D', z = march Y + month_start mp + D - 1 → z' = march Y' + month_start mp' + D' - 1 →
    z' < march (Y' + 1) → z' < march Y' + month_start (mp' + 1) → 0 <= mp < 12 → 0 <= mp' → 0 < D →
    Y < Y' ∨ Y = Y' ∧ (mp < mp' ∨ mp = mp' ∧ D < D')) as Hgo.
  { intros Y mp D Y' mp' D' E1 E2 L1 L2 B1 B2 B3. destruct (Z.lt_trichotomy Y Y') as [|[->|Hy]]; [by left| |].
    - right. split; [done|]. destruct (Z.lt_trichotomy mp mp') as [|[->|Hmp]]; [by left|right; lia|exfalso].
      assert (month_start (mp' + 1) <= month_start mp) by (unfold month_start; zdiv). lia.
    - exfalso. assert (march (Y' + 1) <= march Y) by (apply march_mono; lia). assert (0 <= month_start mp) by (unfold month_start; zdiv). lia. }
  unfold date_ltb. destruct (Z.leb_spec m 2), (Z.leb_spec m' 2); destruct H as (? & ? & ? & ? & ?), H' as (? & ? & ? & ? & ?);
    (edestruct Hgo as [|[? [|[? ?]]]]; [eassumption..|lia|lia|lia|lia|lia|lia]).
Qed.

(** ** Texts in the order of their numbers *)
#[local] Arguments String.append : simpl nomatch.
#[local] Arguments Z.ltb : simpl never.
#[local] Arguments Z.leb : simpl never.
#[local] Arguments Z.eqb : simpl never.
Lemma bytes_ltb_app a b x y : slen a = slen b → bytes_ltb a b = true → bytes_ltb (a +:+ x) (b +:+ y) = true.
Proof.
  revert b. induction a as [|c a IH]; intros [|d b] Hl H; try done. cbn in *. apply orb_true_iff. apply orb_true_iff in H as [H|H]; [by left|right].
  apply andb_true_iff in H as [-> H]. cbn. apply IH; [lia|done].
Qed.
Lemma bytes_ltb_prefix a x y : bytes_ltb (a +:+ x) (a +:+ y) = bytes_ltb x y.
Proof. induction a as [|c a IH]; [done|]. cbn. by rewrite Z.ltb_irrefl, Z.eqb_refl, IH. Qed.
Lemma bytes_ltb_irrefl a : bytes_ltb a a = false.
Proof. induction a as [|c a IH]; [done|]. cbn. by rewrite Z.ltb_irrefl, Z.eqb_refl, IH. Qed.
Lemma bytes_ltb_asym a b : bytes_ltb a b = true → bytes_ltb b a = false.
Proof.
  revert b. induction a as [|c a IH]; intros [|d b] H; try done. cbn in *.
  destruct (Z.lt_trichotomy (code c) (code d)) as [L|[E|L]].
  - assert (code d <? code c = false) as -> by lia. by assert (code d =? code c = false) as -> by lia.
  - rewrite E, Z.ltb_irrefl, Z.eqb_refl in *. by apply IH.
  - assert (code c <? code d = false) as Hn by lia. assert (code c =? code d = false) as Hn' by lia. by rewrite Hn, Hn' in H.
Qed.
Lemma bytes_ltb_trans a b c : bytes_ltb a b = true → bytes_ltb b c = true → bytes_ltb a c = true.
Proof.
  revert b c. induction a as [|x a IH]; intros [|y b] [|z c]; cbn; try done. rewrite !orb_true_iff, !andb_true_iff, !Z.ltb_lt, !Z.eqb_eq.
  intros [H1|[H1 H2]] [H3|[H3 H4]]; [left; lia..|right]. split; [lia|]. by eapply IH.
Qed.
Lemma bytes_ltb_total a b : bytes_ltb a b = true ∨ a = b ∨ bytes_ltb b a = true.
Proof.
  revert b. induction a as [|x a IH]; intros [|y b]; cbn; auto. rewrite !orb_true_iff, !andb_true_iff, !Z.ltb_lt, !Z.eqb_eq.
  destruct (Z.lt_trichotomy (code x) (code y)) as [H|[H|H]]; [auto| |auto]. destruct (IH b) as [?|[->|?]]; [auto| |auto].
  right. left. f_equal. unfold code in H. apply N2Z.inj in H.
  by rewrite <-(ascii_N_embedding x), <-(ascii_N_embedding y), H.
Qed.
Lemma code_digit u : 0 <= u < 10 → code (digit u) = 48 + u.
Proof. intros H. unfold code, digit. rewrite N_ascii_embedding by lia. lia. Qed.
Lemma is_digit_digit u : is_digit (digit (u mod 10)) = true.
Proof. unfold is_digit, in_range. pose proof (Z.mod_pos_bound u 10). rewrite code_digit; lia. Qed.
Lemma slen_digits w u : slen (padded w u) = w.
Proof. revert u. induction w as [|w IH]; intros u; [done|]. cbn [padded]. rewrite slen_app, IH. cbn. lia. Qed.
Lemma digits_forall w u : sforall is_digit (padded w u) = true.
Proof. revert u. induction w as [|w IH]; intros u; [done|]. cbn [padded]. rewrite sforall_app, IH. cbn. by rewrite is_digit_digit. Qed.
Lemma pow10_S w : 10 ^ Z.of_nat (S w) = 10 * 10 ^ Z.of_nat w.
Proof. rewrite Nat2Z.inj_succ, Z.pow_succ_r; lia. Qed.
Lemma digits_lt w u v : 0 <= u < v → v < 10 ^ Z.of_nat w → bytes_ltb (padded w u) (padded w v) = true.
Proof.
  revert u v. induction w as [|w IH]; intros u v Hu Hv; [cbn in Hv; lia|]. rewrite pow10_S in Hv. cbn [padded].
  destruct (Z.eq_dec (u / 10) (v / 10)) as [E|Hd].
  - rewrite E, bytes_ltb_prefix. cbn. rewrite !code_digit by (apply Z.mod_pos_bound; lia). apply orb_true_iff. left.
    zdiv.
  - apply bytes_ltb_app; [by rewrite !slen_digits|]. apply IH; zdiv.
Qed.
Lemma digits_field w u v x y : 0 <= u < 10 ^ Z.of_nat w → 0 <= v < 10 ^ Z.of_nat w →
  u < v ∨ u = v ∧ bytes_ltb x y = true → bytes_ltb (padded w u +:+ x) (padded w v +:+ y) = true.
Proof.
  intros Hu Hv [H|[-> H]]; [|by rewrite bytes_ltb_prefix]. apply bytes_ltb_app; [by rewrite !slen_digits|]. apply digits_lt; lia.
Qed.
Lemma appendInt_digits x w : 0 <= x < 10 ^ Z.of_nat (S w) → appendInt x (S w) = padded (S w) x.
Proof.
  intros H. unfold appendInt. rewrite Z.abs_eq by lia. assert (x <? 0 = false) as -> by lia.
  by rewrite (proj2 (Z.ltb_lt _ _) (proj2 H)).
Qed.
(** The years that take four digits. *)
Definition in_years (days : Z) : Prop := 0 <= (civil days).1.1 <= 9999.
Lemma date_text_digits days : in_years days →
  date_text days = padded 4 (civil days).1.1 +:+ "-" +:+ padded 2 (civil days).1.2 +:+ "-" +:+ padded 2 (civil days).2.
Proof.
  unfold in_years, date_text. pose proof (civil_valid days) as H. destruct (civil days) as [[y m] d]. cbn [fst snd]. intros Hy.
  assert (d <= 31) by (unfold daysIn in H; repeat case_match; lia). by rewrite !appendInt_digits by (cbn; lia).
Qed.
Lemma clock_text_digits s : 0 <= s < 86400 →
  clock_text s = padded 2 (s / 3600) +:+ ":" +:+ padded 2 (s / 60 mod 60) +:+ ":" +:+ padded 2 (s mod 60).
Proof. intros H. unfold clock_text. by rewrite !appendInt_digits by (cbn; zdiv). Qed.
Lemma date_text_lt z z' x y : in_years z → in_years z' → z < z' ∨ z = z' ∧ bytes_ltb x y = true →
  bytes_ltb (date_text z +:+ x) (date_text z' +:+ y) = true.
Proof.
  intros Hz Hz' [H|[-> H]]; [|by rewrite bytes_ltb_prefix]. apply bytes_ltb_app.
  { rewrite !date_text_digits by done. by rewrite !slen_app, !slen_digits. }
  rewrite !date_text_digits by done. unfold in_years in *. apply civil_lt in H. pose proof (civil_valid z) as V. pose proof (civil_valid z') as V'.
  destruct (civil z) as [[y1 m1] d1], (civil z') as [[y2 m2] d2]. cbn [fst snd] in *. unfold date_ltb in H.
  assert (d1 <= 31) by (unfold daysIn in V; repeat case_match; lia). assert (d2 <= 31) by (unfold daysIn in V'; repeat case_match; lia).
  apply digits_field; [cbn; lia..|]. destruct (Z.ltb_spec y1 y2); [by left|right]. split; [lia|]. rewrite bytes_ltb_prefix.
  apply digits_field; [cbn; lia..|]. destruct (Z.ltb_spec m1 m2); [by left|right]. split; [lia|]. rewrite bytes_ltb_prefix.
  apply digits_lt; cbn; lia.
Qed.
Lemma clock_text_lt s s' x y : 0 <= s < 86400 → 0 <= s' < 86400 → s < s' ∨ s = s' ∧ bytes_ltb x y = true →
  bytes_ltb (clock_text s +:+ x) (clock_text s' +:+ y) = true.
Proof.
  intros Hs Hs' [H|[-> H]]; [|by rewrite bytes_ltb_prefix]. rewrite !clock_text_digits by done.
  apply bytes_ltb_app; [by rewrite !slen_app, !slen_digits|].
  apply digits_field; [cbn; zdiv..|]. destruct (Z.ltb_spec (s / 3600) (s' / 3600)); [by left|right]. split; [zdiv|]. rewrite bytes_ltb_prefix.
  apply digits_field; [cbn; zdiv..|]. destruct (Z.ltb_spec (s / 60 mod 60) (s' / 60 mod 60)); [by left|right]. split; [zdiv|].
  rewrite bytes_ltb_prefix. apply digits_lt; cbn; zdiv.
Qed.

(** A fraction ends before the space that follows it. *)
Fixpoint zeros (n : nat) : string := match n with O => "" | S n => String "0" (zeros n) end.
Lemma slen_zeros n : slen (zeros n) = n.
Proof. induction n; cbn; congruence. Qed.
Lemma trim_zeros s : ∃ n, s = TrimRight s "0" +:+ zeros n.
Proof.
  unfold TrimRight. induction s as [|c s [n IH]]; [by exists 0%nat|]. cbn [TrimRightFunc].
  destruct (TrimRightFunc _ s) as [|d r] eqn:E.
  - rewrite IH. destruct (str_mem c "0") eqn:Ec; [|by exists n]. exists (S n). cbn in Ec. rewrite orb_false_r in Ec.
    apply ascii_eqb_eq in Ec as ->. done.
  - exists n. by rewrite IH at 1.
Qed.
Lemma above_zeros b n : sforall is_digit b = true → bytes_ltb b (zeros n) = true → (slen b < n)%nat.
Proof.
  revert n. induction b as [|c b IH]; intros [|n] Hd H; cbn in *; [done|lia|done|]. apply andb_true_iff in Hd as [Hc Hd].
  unfold is_digit, in_range in Hc. apply orb_true_iff in H as [H|H]; [change (code "0") with 48 in H; lia|].
  apply andb_true_iff in H as [_ H]. specialize (IH n Hd H). lia.
Qed.
Lemma trimmed_lt a b i j x y : sforall is_digit a = true → sforall is_digit b = true →
  (slen a + i = slen b + j)%nat → bytes_ltb (a +:+ zeros i) (b +:+ zeros j) = true →
  bytes_ltb (a +:+ String " " x) (b +:+ String " " y) = true.
Proof.
  revert b i j. induction a as [|c a IH]; intros [|d b] i j Ha Hb Hl H; cbn in Hl.
  - assert (i = j) as -> by lia. cbn [String.append] in H. by rewrite bytes_ltb_irrefl in H.
  - cbn in Hb |- *. apply andb_true_iff in Hb as [Hd _]. unfold is_digit, in_range in Hd. change (code " ") with 32. lia.
  - exfalso. apply above_zeros in H; [rewrite slen_app, slen_zeros in H; cbn in H; lia|].
    rewrite sforall_app, Ha. clear. induction i; done.
  - cbn in *. apply andb_true_iff in Ha as [_ Ha], Hb as [_ Hb]. apply orb_true_iff in H as [->|H]; [done|].
    apply andb_true_iff in H as [-> H]. rewrite (IH b i j Ha Hb ltac:(lia) H). apply orb_true_r.
Qed.
Lemma sforall_trim p s : sforall p s = true → sforall p (TrimRight s "0") = true.
Proof. intros H. destruct (trim_zeros s) as [n E]. rewrite E, sforall_app in H. by apply andb_true_iff in H as [H _]. Qed.
Lemma frac_lt f g x y : 0 <= f < g → g < second → bytes_ltb (frac f +:+ String " " x) (frac g +:+ String " " y) = true.
Proof.
  intros Hf Hg. unfold frac. assert (g =? 0 = false) as -> by lia. destruct (Z.eqb_spec f 0) as [_|Hf0]; [done|].
  rewrite !app_assoc, bytes_ltb_prefix. destruct (trim_zeros (padded 9 f)) as [i Ei], (trim_zeros (padded 9 g)) as [j Ej].
  apply trimmed_lt with i j; [by apply sforall_trim, digits_forall..| |].
  - apply (f_equal slen) in Ei, Ej. rewrite slen_app, slen_zeros, slen_digits in Ei, Ej. congruence.
  - rewrite <-Ei, <-Ej. apply digits_lt; [lia|exact Hg].
Qed.

(** Two times of one location within four-digit years. *)
Definition local (ns off : Z) : Z := ns / second + off.
Lemma stamp_lt sep ns ns' off x y : in_years (local ns off / 86400) → in_years (local ns' off / 86400) → ns < ns' →
  bytes_ltb (stamp sep ns off +:+ String " " x) (stamp sep ns' off +:+ String " " y) = true.
Proof.
  intros Hy Hy' Hlt. unfold stamp. fold (local ns off) (local ns' off). rewrite !app_assoc.
  assert (local ns off <= local ns' off) as Hl by (unfold local, second; zdiv).
  apply date_text_lt; [done..|]. destruct (Z.ltb_spec (local ns off / 86400) (local ns' off / 86400)); [by left|right].
  split; [zdiv|]. rewrite bytes_ltb_prefix. apply clock_text_lt; [apply Z.mod_pos_bound; lia..|].
  destruct (Z.ltb_spec (local ns off mod 86400) (local ns' off mod 86400)); [by left|right].
  assert (local ns off = local ns' off) as E by zdiv. split; [by rewrite E|]. unfold local in E. apply frac_lt; unfold second in *; zdiv.
Qed.
Definition same_location (t u : gotime) : Prop := gt_off t = gt_off u ∧ gt_zone t = gt_zone u.
Definition four_digits (t : gotime) : Prop := in_years (local (gt_ns t) (gt_off t) / 86400).
Lemma formatTime_lt t u : same_location t u → four_digits t → four_digits u → gt_ns t < gt_ns u →
  bytes_ltb (formatTime t) (formatTime u) = true.
Proof.
  intros [Ho Hz] Ht Hu Hlt. unfold formatTime. rewrite Ho in *. unfold four_digits in Ht. rewrite Ho in Ht. by apply stamp_lt.
Qed.
Lemma formatTime_mono t u : same_location t u → gt_ns t = gt_ns u → gt_mono t = None →
  bytes_ltb (formatTime t) (formatTime u) = bool_decide (is_Some (gt_mono u)).
Proof.
  intros [Ho Hz] Hn Hm. unfold formatTime, zone_text. rewrite Ho, Hz, Hn, Hm, !bytes_ltb_prefix.
  destruct (gt_mono u); [|done]. cbn [mono_text]. by repeat case_match.
Qed.
(** [timestamp >= ?] *)
Definition selected (since t : gotime) : bool := negb (bytes_ltb (formatTime t) (formatTime since)).
Lemma text_order since t : same_location t since → four_digits t → four_digits since → gt_mono t = None →
  selected since t = if gt_mono since then gt_ns since <? gt_ns t else gt_ns since <=? gt_ns t.
Proof.
  intros Hl Ht Hs Hm. unfold selected. destruct (Z.lt_trichotomy (gt_ns t) (gt_ns since)) as [H|[H|H]].
  - rewrite formatTime_lt by done. destruct (gt_mono since); lia.
  - rewrite formatTime_mono by done. destruct (gt_mono since); cbn; lia.
  - rewrite bytes_ltb_asym; [destruct (gt_mono since); cbn; lia|]. apply formatTime_lt; try done. by destruct Hl.
Qed.

(** ** Reading what was written *)
Lemma parse_digits_digits acc w u s : 0 <= u < 10 ^ Z.of_nat w →
  parse_digits acc (padded w u +:+ s) = parse_digits (acc * 10 ^ Z.of_nat w + u) s.
Proof.
  revert u s. induction w as [|w IH]; intros u s H.
  { cbn in H. cbn [padded]. rewrite app_nil_l. f_equal. cbn. lia. }
  rewrite pow10_S in H. cbn [padded]. rewrite app_assoc, IH by zdiv. rewrite app_cons, app_nil_l. cbn [parse_digits].
  rewrite is_digit_digit, code_digit by (apply Z.mod_pos_bound; lia). f_equal. rewrite pow10_S. zdiv.
Qed.
Lemma getnum_digits u r fixed : 0 <= u < 100 → getnum (padded 2 u +:+ r) fixed = Some (u, r).
Proof.
  intros H. cbn [padded]. rewrite !app_assoc, !app_cons, !app_nil_l. cbn [getnum]. rewrite !is_digit_digit. cbn [negb].
  rewrite !code_digit by (apply Z.mod_pos_bound; lia). do 2 f_equal. zdiv.
Qed.
Lemma num_in_some lo hi v s : lo <= v < hi → num_in lo hi (Some (v, s)) = Some (v, s).
Proof. intros H. cbn. assert ((lo <=? v) && (v <? hi) = true) as -> by lia. done. Qed.
Lemma span_digits_app a r : sforall is_digit a = true → is_digit_at r 0 = false → span_digits (a +:+ r) = (a, r).
Proof.
  intros Ha Hr. induction a as [|c a IH].
  - rewrite app_nil_l. destruct r as [|c r]; [done|]. cbn in Hr |- *. by rewrite Hr.
  - cbn in Ha. apply andb_true_iff in Ha as [Hc Ha]. rewrite app_cons. cbn [span_digits]. by rewrite Hc, IH.
Qed.
Lemma parse_digits_zeros a v n : parse_digits 0 a = Some v → parse_digits 0 (a +:+ zeros n) = Some (v * 10 ^ Z.of_nat n).
Proof.
  intros H. assert (∀ acc a, parse_digits acc a = Some v → parse_digits acc (a +:+ zeros n) = Some (v * 10 ^ Z.of_nat n)) as Hg; [|by apply Hg].
  clear. intros acc a. revert acc. induction a as [|c a IH]; intros acc H.
  - cbn in H. injection H as ->. rewrite app_nil_l. revert v. induction n as [|n IHn]; intros v; [cbn; f_equal; lia|].
    rewrite pow10_S. cbn [zeros parse_digits]. change (is_digit "0") with true. change (code "0") with 48. cbv iota. rewrite IHn. f_equal. lia.
  - rewrite app_cons. cbn [parse_digits] in H |- *. destruct (is_digit c); [|done]. by apply IH.
Qed.
Lemma parse_digits_some acc a : sforall is_digit a = true → ∃ v, parse_digits acc a = Some v.
Proof.
  revert acc. induction a as [|c a IH]; intros acc H; [by eexists|]. cbn in H |- *. apply andb_true_iff in H as [-> H]. by apply IH.
Qed.
(** The rest of the text begins with something that is no part of a fraction. *)
Definition stops (r : string) : Prop := match r with String c _ => is_digit c = false ∧ str_mem c ".," = false | "" => True end.
Lemma stake_all n s : (slen s <= n)%nat → stake n s = s.
Proof. revert s. induction n as [|n IH]; intros [|c s] H; cbn in *; try done; [lia|]. rewrite IH; [done|lia]. Qed.
Lemma opt_frac_none r : stops r → opt_frac r = (0, r).
Proof. destruct r as [|c r]; [done|]. intros [_ H]. cbn [opt_frac]. by rewrite H. Qed.
Lemma opt_frac_frac f r : 0 <= f < second → stops r → opt_frac (frac f +:+ r) = (f, r).
Proof.
  intros Hf Hr. unfold frac. destruct (Z.eqb_spec f 0) as [->|H0]; [by apply opt_frac_none|].
  destruct (trim_zeros (padded 9 f)) as [n En]. set (a := TrimRight (padded 9 f) "0") in *.
  assert (sforall is_digit a = true) as Ha by (apply sforall_trim, digits_forall).
  destruct (parse_digits_some 0 a Ha) as [v Hv].
  assert (parse_digits 0 (padded 9 f) = Some f) as Hd.
  { pose proof (parse_digits_digits 0 9 f "" Hf) as E. rewrite app_nil_r in E. by rewrite E. }
  assert (slen a + n = 9)%nat as Hl by (apply (f_equal slen) in En; rewrite slen_app, slen_zeros, slen_digits in En; lia).
  rewrite En, (parse_digits_zeros a v n Hv) in Hd. injection Hd as Hd.
  assert (a ≠ "") as Hne by (intros E; rewrite E in Hv; cbn in Hv; injection Hv as <-; lia).
  rewrite app_assoc, app_cons, app_nil_l. cbn [opt_frac]. change (str_mem "." ".,") with true. cbn [andb].
  assert (is_digit_at (a +:+ r) 0 = true) as ->.
  { destruct a as [|c a']; [done|]. cbn in Ha. rewrite app_cons. cbn. by apply andb_true_iff in Ha as [-> _]. }
  rewrite span_digits_app; [|done|destruct r; [done|]; by destruct Hr]. cbv zeta.
  rewrite (stake_all 9 a) by lia.
  rewrite Hv. cbn [default]. unfold id. replace (9 - Z.of_nat (slen a)) with (Z.of_nat n) by lia. by rewrite Hd.
Qed.

Lemma parse_offset_text colon off r : off mod 60 = 0 → Z.abs off < 86400 →
  parse_offset colon (offset_text (if colon then ":" else "") off +:+ r) = Some (off, r).
Proof.
  intros Hm Hb. unfold offset_text. set (z := Z.quot off 60). assert (off = z * 60) as E by (unfold z; zdiv).
  clearbody z. rewrite !appendInt_digits by (cbn; zdiv). rewrite !app_assoc.
  assert (parse_offset colon (String (if z <? 0 then "-" else "+") (padded 2 (Z.abs z / 60) +:+ (if colon then ":" else "") +:+ padded 2 (Z.abs z mod 60) +:+ r))
    = Some (off, r)) as H; [|by destruct (z <? 0)].
  cbn [parse_offset]. rewrite getnum_digits, num_in_some by zdiv. cbn [mbind option_bind].
  assert (num_in 0 61 (getnum (padded 2 (Z.abs z mod 60) +:+ r) true) = Some (Z.abs z mod 60, r)) as Hmm
    by (rewrite getnum_digits, num_in_some by zdiv; done).
  destruct colon; rewrite ?app_cons, !app_nil_l; [change (ascii_eqb ":" ":") with true|]; cbn [mbind option_bind]; rewrite Hmm; cbn [mbind option_bind];
    destruct (Z.ltb_spec z 0); cbn [ascii_eqb Ascii.eqb Bool.eqb andb]; do 3 f_equal; zdiv.
Qed.

Lemma parse_chunks_cons c l s f : parse_chunks (c :: l) s f = '(f, s) ← parse_chunk c s f; parse_chunks l s f.
Proof. done. Qed.
Lemma parse_lit c s f : c ≠ " "%char → parse_chunk (CLit c) (String c s) f = Some (f, s).
Proof. intros H. destruct f as [[[y m] d] secs ns o u]. cbn [parse_chunk f_date]. apply ascii_eqb_neq in H. by rewrite H, ascii_eqb_refl. Qed.
Lemma parse_space s f : HasPrefix s " " = false → parse_chunk (CLit " ") (String " " s) f = Some (f, s).
Proof.
  intros H. destruct f as [[[y m] d] secs ns o u]. cbn [parse_chunk f_date]. change (ascii_eqb " " " ") with true. cbv iota.
  do 2 f_equal. unfold cut_space. cbn [TrimLeftFunc]. change (ascii_eqb " " " ") with true. cbv iota.
  destruct s as [|c s]; [done|]. apply TrimLeft_stop. apply ascii_eqb_neq. intros ->. by destruct s.
Qed.
Lemma parse_ymd l days r f : in_years days →
  parse_chunks (ymd ++ l) (date_text days +:+ r) f = parse_chunks l r (mkF (civil days) (f_secs f) (f_ns f) (f_off f) (f_utc f)).
Proof.
  intros Hy. rewrite date_text_digits by done. pose proof (civil_valid days) as V. unfold in_years in Hy.
  destruct (civil days) as [[y m] d]. cbn [fst snd] in *. destruct f as [[[y0 m0] d0] secs ns o u].
  assert (d <= 31) by (unfold daysIn in V; repeat case_match; lia). cbn [f_secs f_ns f_off f_utc].
  unfold ymd. cbn [app]. rewrite parse_chunks_cons, !app_assoc. cbn [parse_chunk f_date].
  assert (stake 4 (padded 4 y +:+ "-" +:+ padded 2 m +:+ "-" +:+ padded 2 d +:+ r) = padded 4 y) as -> by apply (stake_app (padded 4 y)).
  assert (sdrop 4 (padded 4 y +:+ "-" +:+ padded 2 m +:+ "-" +:+ padded 2 d +:+ r) = "-" +:+ padded 2 m +:+ "-" +:+ padded 2 d +:+ r) as ->
    by apply (sdrop_app (padded 4 y)).
  rewrite slen_digits. assert (parse_nat_dec (padded 4 y) = Some y) as ->.
  { pose proof (parse_digits_digits 0 4 y "" ltac:(cbn; lia)) as E. rewrite app_nil_r in E. exact E. }
  cbn [mbind option_bind Nat.eqb]. rewrite parse_chunks_cons, app_cons, app_nil_l, parse_lit by done. cbn [mbind option_bind].
  rewrite parse_chunks_cons. cbn [parse_chunk f_date]. rewrite getnum_digits, num_in_some by lia. cbn [mbind option_bind].
  rewrite parse_chunks_cons, app_cons, app_nil_l, parse_lit by done. cbn [mbind option_bind].
  rewrite parse_chunks_cons. cbn [parse_chunk f_date]. by rewrite getnum_digits by lia.
Qed.
Lemma parse_hms l s ns r f : 0 <= s < 86400 → 0 <= ns < second → stops r →
  parse_chunks (hms ++ l) (clock_text s +:+ frac ns +:+ r) f = parse_chunks l r (mkF (f_date f) (f_secs f + s) ns (f_off f) (f_utc f)).
Proof.
  intros Hs Hn Hr. rewrite clock_text_digits by done. destruct f as [[[y m] d] secs ns0 o u]. cbn [f_date f_secs f_off f_utc].
  unfold hms, hm. cbn [app]. rewrite parse_chunks_cons, !app_assoc. cbn [parse_chunk f_date].
  rewrite getnum_digits, num_in_some by zdiv. cbn [mbind option_bind].
  rewrite parse_chunks_cons, app_cons, app_nil_l, parse_lit by done. cbn [mbind option_bind].
  rewrite parse_chunks_cons. cbn [parse_chunk f_date]. rewrite getnum_digits, num_in_some by zdiv. cbn [mbind option_bind].
  rewrite parse_chunks_cons, app_cons, app_nil_l, parse_lit by done. cbn [mbind option_bind].
  rewrite parse_chunks_cons. cbn [parse_chunk f_date]. rewrite getnum_digits, num_in_some by zdiv. cbn [mbind option_bind].
  rewrite opt_frac_frac by done. cbn [mbind option_bind]. do 2 f_equal. zdiv.
Qed.
(** A stamp followed by [r], read with a layout that continues with [l]. *)
Lemma parse_stamp c l ns off r : c = " "%char ∨ c = "T"%char → in_years (local ns off / 86400) → stops r →
  parse_chunks (ymd ++ CLit c :: hms ++ l) (stamp (String c "") ns off +:+ r) (mkF (0, 1, 1) 0 0 None false)
  = parse_chunks l r (mkF (civil (local ns off / 86400)) (local ns off mod 86400) (ns mod second) None false).
Proof.
  intros Hc Hy Hr. unfold stamp. fold (local ns off). rewrite !app_assoc, parse_ymd by done. rewrite parse_chunks_cons, app_cons, app_nil_l.
  assert (∀ f, parse_chunk (CLit c) (String c (clock_text (local ns off mod 86400) +:+ frac (ns mod second) +:+ r)) f
    = Some (f, clock_text (local ns off mod 86400) +:+ frac (ns mod second) +:+ r)) as Hl.
  { intros f. destruct Hc as [->| ->]; [|by apply parse_lit]. apply parse_space.
    rewrite clock_text_digits by (apply Z.mod_pos_bound; lia). cbn [padded]. rewrite !app_assoc. cbn.
    match goal with |- context [digit (?a mod 10)] => pose proof (is_digit_digit a) as Hd; destruct (digit (a mod 10)) end.
    by repeat match goal with b : bool |- _ => destruct b end. }
  rewrite Hl. cbn [mbind option_bind]. rewrite parse_hms; [done| |apply Z.mod_pos_bound; unfold second; lia|done]. apply Z.mod_pos_bound; lia.
Qed.
Lemma parsed_instant ns off o u : (if u : bool then 0 else default 0 o) = off →
  let f := mkF (civil (local ns off / 86400)) (local ns off mod 86400) (ns mod second) o u in
  (let '(y, m, d) := f_date f in
   if (1 <=? d) && (d <=? daysIn m y) then
     let off := if f_utc f then 0 else default 0 (f_off f) in
     Some ((days_of (y, m, d) * 86400 + f_secs f - off) * second + f_ns f, off)
   else None) = Some (ns, off).
Proof.
  intros Ho f. cbn [f f_date f_secs f_ns f_off f_utc]. rewrite Ho. pose proof (civil_valid (local ns off / 86400)) as V.
  pose proof (days_of_civil (local ns off / 86400)) as Hd. destruct (civil _) as [[y m] d].
  assert ((1 <=? d) && (d <=? daysIn m y) = true) as -> by lia. cbv zeta. rewrite Hd. do 2 f_equal. unfold local, second. zdiv.
Qed.

(** ** The round trip *)
(** Zones that are read back: a whole number of minutes less than a day from
    UTC, with an abbreviation that [time.Parse] takes. *)
Definition zone_char (c : ascii) : bool := in_range 65 90 c || is_digit c || str_mem c "+-he".
Definition readable (t : gotime) : bool :=
  (gt_off t mod 60 =? 0) && (Z.abs (gt_off t) <? 86400) && sforall zone_char (gt_zone t)
  && (if HasPrefix (gt_zone t) "UTC" then str_eqb (gt_zone t) "UTC" && (gt_off t =? 0)
      else bool_decide (parseTimeZone (gt_zone t) = Some (slen (gt_zone t)))).
(** [formatTime] without the monotonic reading. *)
Definition wall_text (t : gotime) : string :=
  stamp " " (gt_ns t) (gt_off t) +:+ " " +:+ offset_text "" (gt_off t) +:+ " " +:+ gt_zone t.
Lemma readable_zone t : readable t = true → ∃ c z, gt_zone t = String c z ∧ sforall zone_char (gt_zone t) = true.
Proof.
  unfold readable. rewrite !andb_true_iff. intros [[_ Hz] H]. destruct (gt_zone t) as [|c z] eqn:E; [by case_bool_decide|by eauto].
Qed.
Lemma formatTime_wall t : readable t = true → formatTime t = wall_text t +:+ mono_text (gt_mono t).
Proof.
  intros (c & z & E & _)%readable_zone. unfold formatTime, wall_text, zone_text. rewrite E. cbn [str_eqb String.eqb]. by rewrite !app_assoc.
Qed.
Lemma offset_head colon off r : ∃ c s, offset_text colon off +:+ r = String c s ∧ ascii_eqb c " " = false.
Proof. unfold offset_text. rewrite !app_assoc. destruct (_ <? 0); eexists _, _; (split; [by rewrite app_cons|done]). Qed.
Lemma no_space c s : ascii_eqb c " " = false → HasPrefix (String c s) " " = false.
Proof. intros H%ascii_eqb_neq. unfold HasPrefix. cbn [String.prefix]. destruct (ascii_dec " " c) as [E|]; [by destruct H|done]. Qed.
Lemma parse_wall t : readable t = true → four_digits t → Parse StringLayout (wall_text t) = Some (gt_ns t, gt_off t).
Proof.
  intros Hr Hy. destruct (readable_zone t Hr) as (zc & zr & Ez & Hzc). unfold readable in Hr. rewrite !andb_true_iff in Hr.
  destruct Hr as [[[Hm Hb] _] Hu]. unfold Parse, wall_text, StringLayout.
  assert (zone_char zc = true) as Hc by (rewrite Ez in Hzc; cbn in Hzc; by apply andb_true_iff in Hzc as [? _]).
  rewrite (parse_stamp " " [CLit " "; COffset; CLit " "; CZone]) by (by left || exact Hy || (split; reflexivity)).
  destruct (civil _) as [[y m] d] eqn:Ec.
  destruct (offset_head "" (gt_off t) (" " +:+ gt_zone t)) as (c & s & Eo & Hco).
  rewrite parse_chunks_cons, app_cons, app_nil_l, parse_space by (rewrite Eo; by apply no_space).
  cbn [mbind option_bind]. rewrite parse_chunks_cons. cbn [parse_chunk f_date].
  rewrite (parse_offset_text false) by lia. cbn [mbind option_bind].
  rewrite parse_chunks_cons, app_cons, app_nil_l, parse_space by (rewrite Ez; apply no_space, ascii_eqb_neq; by intros ->).
  cbn [mbind option_bind]. rewrite parse_chunks_cons. cbn [parse_chunk f_date].
  destruct (HasPrefix (gt_zone t) "UTC") eqn:Hp.
  - apply andb_true_iff in Hu as [->%str_eqb_eq Ho]. cbn [sdrop]. cbn [mbind option_bind parse_chunks]. rewrite str_eqb_refl.
    cbn [mbind option_bind]. rewrite <-Ec. apply parsed_instant. lia.
  - apply bool_decide_eq_true in Hu. rewrite Hu. cbn [mbind option_bind].
    assert (sdrop (slen (gt_zone t)) (gt_zone t) = "") as -> by (rewrite <-(app_nil_r (gt_zone t)) at 2; apply sdrop_app).
    cbn [parse_chunks]. rewrite str_eqb_refl. cbn [mbind option_bind]. rewrite <-Ec. by apply parsed_instant.
Qed.
Lemma parse_rfc ns off : off mod 60 = 0 → Z.abs off < 86400 → in_years (local ns off / 86400) →
  Parse RFC3339Nano (RFC3339Nano_text ns off) = Some (ns, off).
Proof.
  intros Hm Hb Hy. unfold Parse, RFC3339Nano_text, RFC3339Nano.
  assert (stops (if off =? 0 then "Z" else offset_text ":" off)) as Hs.
  { destruct (off =? 0); [done|]. unfold offset_text. by destruct (_ <? 0). }
  rewrite (parse_stamp "T" [CISO]) by (by right || exact Hy || exact Hs).
  destruct (civil _) as [[y m] d] eqn:Ec. rewrite parse_chunks_cons. cbn [parse_chunk f_date]. destruct (Z.eqb_spec off 0) as [->|Ho].
  - cbn [HasPrefix String.prefix sdrop mbind option_bind parse_chunks str_eqb String.eqb]. rewrite <-Ec. by apply parsed_instant.
  - assert (HasPrefix (offset_text ":" off) "Z" = false) as -> by (unfold offset_text; by destruct (_ <? 0)).
    rewrite <-(app_nil_r (offset_text ":" off)), (parse_offset_text true) by done. cbn [mbind option_bind parse_chunks]. rewrite str_eqb_refl.
    cbn [mbind option_bind]. rewrite <-Ec. by apply parsed_instant.
Qed.
(** The mark of the monotonic reading is found where it was written. *)
Definition plain (c : ascii) : bool := negb (ascii_eqb c "=") && negb (ascii_eqb c "m").
Lemma digit_plain c : is_digit c = true → plain c = true.
Proof.
  intros H. unfold plain. destruct (ascii_eqb c "=") eqn:E; [apply ascii_eqb_eq in E as ->; done|].
  destruct (ascii_eqb c "m") eqn:E'; [apply ascii_eqb_eq in E' as ->; done|done].
Qed.
Lemma digits_plain w u : sforall plain (padded w u) = true.
Proof. apply sforall_impl with is_digit, digits_forall. exact digit_plain. Qed.
Lemma appendInt_plain x w : sforall plain (appendInt x w) = true.
Proof.
  unfold appendInt. rewrite sforall_app. assert (sforall plain (if x <? 0 then "-" else "") = true) as -> by (by destruct (x <? 0)).
  cbn [andb]. case_match; [apply digits_plain|]. apply Itoa_forall; [done|]. intros d. apply digit_plain.
  unfold pretty_N_char, is_digit. by repeat case_match.
Qed.
Lemma offset_plain colon off : sforall plain colon = true → sforall plain (offset_text colon off) = true.
Proof. intros H. unfold offset_text. rewrite !sforall_app, !appendInt_plain, H. by destruct (_ <? 0). Qed.
Lemma stamp_plain sep ns off : sforall plain sep = true → sforall plain (stamp sep ns off) = true.
Proof.
  intros H. unfold stamp, date_text, clock_text, frac. destruct (civil _) as [[y m] d]. rewrite !sforall_app, !appendInt_plain, H.
  destruct (_ =? 0); [done|]. rewrite sforall_app. apply andb_true_iff. split; [done|]. by apply sforall_trim, digits_plain.
Qed.
Lemma zone_plain c : zone_char c = true → plain c = true.
Proof.
  intros H. unfold plain. destruct (ascii_eqb c "=") eqn:E; [apply ascii_eqb_eq in E as ->; done|].
  destruct (ascii_eqb c "m") eqn:E'; [apply ascii_eqb_eq in E' as ->; done|done].
Qed.
Lemma wall_plain t : sforall zone_char (gt_zone t) = true → sforall plain (wall_text t) = true.
Proof.
  intros H. unfold wall_text. rewrite !sforall_app, stamp_plain, offset_plain by done. cbn [andb].
  apply (sforall_impl _ plain) in H; [|exact zone_plain]. by rewrite H.
Qed.
Lemma LastIndex_plain s : sforall plain s = true → LastIndex s " m=" = None.
Proof.
  induction s as [|c s IH]; [done|]. intros H. cbn in H. apply andb_true_iff in H as [Hc H]. cbn [LastIndex]. rewrite IH by done.
  destruct (HasPrefix (String c s) " m=") eqn:E; [|done]. exfalso. apply HasPrefix_spec in E as [r E]. injection E as -> ->.
  by cbn in H.
Qed.
Lemma LastIndex_mark a b : sforall plain b = true → LastIndex (a +:+ " m=" +:+ b) " m=" = Some (slen a).
Proof.
  intros Hb. induction a as [|c a IH].
  - rewrite app_nil_l, !app_cons, app_nil_l. cbn [LastIndex]. rewrite LastIndex_plain by done. cbn. by destruct b.
  - rewrite app_cons. cbn [LastIndex]. by rewrite IH.
Qed.
Lemma Index_plain s : sforall plain s = true → Index s "m=" = None.
Proof.
  unfold Index. induction s as [|c s IH]; [done|]. intros H. cbn in H. apply andb_true_iff in H as [Hc H]. cbn [String.index]. rewrite IH by done.
  destruct (String.prefix "m=" (String c s)) eqn:E; [|done]. exfalso. apply (HasPrefix_spec (String c s)) in E as [r E]. injection E as -> _. done.
Qed.
Lemma Index_mark a b : sforall plain a = true → Index (a +:+ " m=" +:+ b) "m=" = Some (S (slen a)).
Proof.
  unfold Index. induction a as [|c a IH]; [intros _; by destruct b|]. intros H. cbn in H. apply andb_true_iff in H as [Hc H]. rewrite app_cons. cbn [String.index].
  rewrite IH by done. destruct (String.prefix "m=" _) eqn:E; [|done]. exfalso.
  apply (HasPrefix_spec (String c (a +:+ " m=" +:+ b))) in E as [r E]. injection E as -> _. done.
Qed.
Lemma mono_text_spec m : mono_text m = "" ∨ ∃ b, mono_text m = " m=" +:+ b ∧ sforall plain b = true.
Proof.
  destruct m as [x|]; [right|by left]. cbn [mono_text]. eexists. split; [reflexivity|].
  rewrite !sforall_app, appendInt_plain. apply andb_true_iff. split; [by destruct (x <? 0)|]. apply andb_true_iff. split; [|done].
  destruct (_ =? 0); [apply appendInt_plain|]. by rewrite sforall_app, !appendInt_plain.
Qed.
Lemma TrimRight_drop p a c : p c = true → TrimRightFunc p (a +:+ String c "") = TrimRightFunc p a.
Proof.
  intros H. induction a as [|d a IH]; [rewrite app_nil_l; cbn [TrimRightFunc]; by rewrite H|]. rewrite app_cons. cbn [TrimRightFunc]. by rewrite IH.
Qed.
Lemma wall_head t : four_digits t → ∃ c s, wall_text t = String c s ∧ is_digit c = true.
Proof.
  intros Hy. unfold wall_text, stamp. unfold four_digits, local in Hy. rewrite date_text_digits by done. cbn [padded].
  rewrite !app_assoc. eexists _, _. split; [by rewrite app_cons|]. apply is_digit_digit.
Qed.
Lemma wall_trim t sp : readable t = true → four_digits t → sp = "" ∨ sp = " " → TrimSpace (wall_text t +:+ sp) = wall_text t.
Proof.
  intros Hr Hy Hsp. destruct (wall_head t Hy) as (c & s & E & Hc). destruct (readable_zone t Hr) as (zc & zr & Ez & Hz).
  unfold TrimSpace. assert (∀ r, TrimLeftFunc is_space (wall_text t +:+ r) = wall_text t +:+ r) as Hl.
  { intros r. rewrite E, app_cons. apply TrimLeft_stop. unfold is_digit, is_space, in_range in *. lia. }
  rewrite Hl. assert (TrimRightFunc is_space (wall_text t +:+ sp) = TrimRightFunc is_space (wall_text t)) as ->
    by (destruct Hsp as [->| ->]; [by rewrite app_nil_r|by apply TrimRight_drop]).
  unfold wall_text. rewrite <-!app_assoc. apply TrimRight_app_id; [by rewrite Ez|]. apply sforall_impl with zone_char; [|done].
  intros d Hd. unfold zone_char in Hd. unfold is_space. destruct (ascii_eqb d " ") eqn:Es; [by apply ascii_eqb_eq in Es as ->|].
  apply negb_true_iff. unfold in_range, is_digit, in_range in *.
  destruct (str_mem d "+-he") eqn:Em; [|apply ascii_eqb_neq in Es; lia].
  cbn in Em. repeat (apply orb_true_iff in Em as [Em|Em]; [by apply ascii_eqb_eq in Em as ->|]). done.
Qed.
Lemma first_rfc_fails t : readable t = true → four_digits t → Parse RFC3339Nano (wall_text t) = None.
Proof.
  intros Hr Hy. unfold Parse, wall_text, stamp, RFC3339Nano. rewrite !app_assoc. fold (local (gt_ns t) (gt_off t)).
  rewrite parse_ymd by exact Hy. destruct (civil _) as [[y m] d]. by rewrite app_cons, app_nil_l.
Qed.
Lemma time_roundtrip t : readable t = true → four_digits t →
  parseQueryTS (formatTime t) = gt_ns t ∧ parseQueryTS (read_column (formatTime t)) = gt_ns t.
Proof.
  intros Hr Hy. pose proof (readable_zone t Hr) as (_ & _ & _ & Hz). pose proof (wall_plain t Hz) as Hp. rewrite formatTime_wall by done.
  assert (slen (wall_text t) ≠ 0%nat) as Hn by (destruct (wall_head t Hy) as (c & s & -> & _); done).
  assert (gt_off t mod 60 = 0 ∧ Z.abs (gt_off t) < 86400) as [Hm Hb] by (unfold readable in Hr; lia). split.
  - unfold parseQueryTS. assert (∀ r, r = "" ∨ (∃ b, r = " m=" +:+ b ∧ sforall plain b = true) →
      match LastIndex (wall_text t +:+ r) " m=" with Some (S n) => stake (S n) (wall_text t +:+ r) | _ => wall_text t +:+ r end = wall_text t) as ->.
    { intros r [->|(b & -> & H)]; [by rewrite app_nil_r, LastIndex_plain|]. rewrite LastIndex_mark by done.
      destruct (slen (wall_text t)) eqn:E; [done|]. rewrite <-E. apply stake_app. }
    + cbn [first_parse]. by rewrite first_rfc_fails, parse_wall.
    + apply mono_text_spec.
  - unfold read_column, parseTime. assert (parseTimeString (wall_text t +:+ mono_text (gt_mono t)) = Some (gt_ns t, gt_off t)) as ->.
    { unfold parseTimeString. destruct (mono_text_spec (gt_mono t)) as [->|(b & -> & H)].
      - rewrite app_nil_r, Index_plain, <-(app_nil_r (wall_text t)), wall_trim by auto. by apply parse_wall.
      - rewrite Index_mark by done. assert (stake (S (slen (wall_text t))) (wall_text t +:+ " m=" +:+ b) = wall_text t +:+ " ") as ->.
        { change (" m=" +:+ b) with (" " +:+ ("m=" +:+ b)). rewrite <-app_assoc.
          replace (S (slen (wall_text t))) with (slen (wall_text t +:+ " ")) by (rewrite slen_app; cbn; lia). apply stake_app. }
        rewrite wall_trim by auto. by apply parse_wall. }
    unfold parseQueryTS. assert (sforall plain (RFC3339Nano_text (gt_ns t) (gt_off t)) = true) as Hq.
    { unfold RFC3339Nano_text. rewrite sforall_app, stamp_plain by done. destruct (_ =? 0); [done|by apply offset_plain]. }
    rewrite LastIndex_plain by done. cbn [first_parse]. by rewrite parse_rfc.
Qed.

(** ** What the stored text promises *)
(** C36: The query log compares times as text.  Among times of one location (and
    years of four digits) that is the comparison of instants: an earlier time
    has the smaller text, and a condition [timestamp >= ?] selects an event
    exactly when it is not before the bound (after it, if the bound carries a
    monotonic reading, as every bound made from the clock does).  A stored time
    whose zone has an abbreviation that can be read comes back as the same
    instant, from a plain column and from an aggregate. *)
Theorem querylog_times since t : same_location t since → four_digits t → four_digits since → readable t = true →
  (∀ u, same_location t u → four_digits u → gt_ns t < gt_ns u → bytes_ltb (formatTime t) (formatTime u) = true)
  ∧ (gt_mono t = None → selected since t = if gt_mono since then gt_ns since <? gt_ns t else gt_ns since <=? gt_ns t)
  ∧ parseQueryTS (formatTime t) = gt_ns t ∧ parseQueryTS (read_column (formatTime t)) = gt_ns t.
Proof.
  intros Hl Ht Hs Hr. split; [intros u ? ? ?; by apply formatTime_lt|]. split; [by apply text_order|]. by apply time_roundtrip.
Qed.

(** How the time of a node's event arrives: decoding RFC 3339 keeps the
    controller's own location when the offsets agree, and otherwise makes one
    without a name. *)
Definition received (ns off ctl_off : Z) (ctl_zone : string) : gotime :=
  if off =? 0 then mkGT ns 0 "UTC" None else mkGT ns off (if off =? ctl_off then ctl_zone else "") None.
(** A controller in Berlin, in March. *)
Definition demo_now : Z := 1743163200 * second.
Definition demo_since : gotime := mkGT (demo_now - hour) 3600 "CET" (Some 5000000000).
Lemma querylog_times_witness :
  let t := received (demo_now - 60 * second) 3600 3600 "CET" in
  formatTime demo_since = "2025-03-28 12:00:00 +0100 CET m=+5.000000000"
  ∧ selected demo_since t = true ∧ parseQueryTS (read_column (formatTime t)) = demo_now - 60 * second.
Proof.
  cbv zeta. destruct (querylog_times demo_since (received (demo_now - 60 * second) 3600 3600 "CET")) as (_ & H1 & _ & H2).
  - by split.
  - by vm_compute.
  - by vm_compute.
  - by vm_compute.
  - split; [by vm_compute|]. split; [|exact H2]. rewrite H1; [by vm_compute|done].
Defined.

(** A node whose clock is set to UTC: an event of a minute ago is taken for
    older than an hour, so it is not shown, and the retention of an hour
    deletes it. *)
Example querylog_zones_mixed :
  let t := received (demo_now - 60 * second) 0 3600 "CET" in
  gt_ns demo_since < gt_ns t ∧ selected demo_since t = false ∧ bytes_ltb (formatTime t) (formatTime demo_since) = true.
Proof. by vm_compute. Qed.
(** A node in a third zone: its location has no name, the text cannot be read
    back and the entry is shown with the zero time. *)
Example querylog_zone_unnamed :
  let t := received demo_now 19800 3600 "CET" in
  formatTime t = "2025-03-28 17:30:00 +0530 +0530" ∧ read_column (formatTime t) = formatTime t
  ∧ parseQueryTS (formatTime t) = zero_time.
Proof. by vm_compute. Qed.
(** When the clocks are set back, the second hour is ordered before the first. *)
Example querylog_clocks_back :
  let first := mkGT (1761438600 * second) 7200 "CEST" None in
  let later := mkGT (1761440700 * second) 3600 "CET" None in
  gt_ns first < gt_ns later ∧ bytes_ltb (formatTime later) (formatTime first) = true.
Proof. by vm_compute. Qed.
