(* ===== verification/QueryLog.v ===== *)
(** * The controller's query log

    internal/controller/querylog.go.  A table is the list of its rows, oldest
    id first; a query is the function on rows that its SQL text says (an
    unknown value compares as false).  The time of a row is kept as its instant,
    in nanoseconds; the text that the database holds and compares is that of
    LogTime.v, in the location the time had ([times]).  [fail] is whether the
    database refuses a statement or a transaction; the JSON text of the answers
    column is an argument. *)
From S2P Require Import Prelude GoStrings GoNet Records Upstream Stats BlocklistDB LogTime.
From Stdlib Require Import Ascii.
#[local] Open Scope Z_scope.

(** Conversion to a signed 64-bit integer. *)
Definition i64 (z : Z) : Z := (z + 2 ^ 63) mod 2 ^ 64 - 2 ^ 63.

(** ** Data *)
Record QueryLogEntry := mkQE {
  qe_ID : Z; qe_Timestamp : Z; qe_Instance : string; qe_Client : string; qe_Name : string; qe_Domain : string;
  qe_Action : string; qe_Proto : string; qe_Upstream : string; qe_BlockList : string; qe_QType : string;
  qe_IPs : list string; qe_Answers : list Answer; qe_DurationUs : Z; qe_Cached : bool }.
Record StatsSample := mkSample {
  ss_Timestamp : Z; ss_Instance : string; ss_Queries : Z; ss_Blocked : Z; ss_Errors : Z; ss_DurationUs : Z }.
Record UpstreamErr := mkUErr { ue_Timestamp : Z; ue_Instance : string; ue_Domain : string; ue_Message : string }.
(** A row of [query_log]; columns added later may be unknown in old rows. *)
Record log_row := mkLogRow {
  lr_id : Z; lr_ts : Z; lr_instance : string; lr_client : string; lr_domain : string; lr_action : string;
  lr_upstream : string; lr_qtype : option string; lr_blocklist : option string; lr_ips : option string;
  lr_answers : option string; lr_duration : option Z; lr_cached : option Z; lr_proto : option string }.
Record QueryLogStore := mkQL {
  ql_rows : list log_row;
  ql_next : Z;                               (* the next id *)
  ql_samples : list StatsSample;
  ql_names : gmap string string;
  ql_errors : list UpstreamErr;
  ql_buf : list QueryLogEntry;               (* the channel *)
  ql_batch : list QueryLogEntry;             (* what the writer holds *)
  ql_stopped : bool;
  ql_dropped : Z;
  ql_retention : Z }.
#[export] Instance QueryLogStore_eta : Eta QueryLogStore := λ s,
  mkQL (ql_rows s) (ql_next s) (ql_samples s) (ql_names s) (ql_errors s) (ql_buf s) (ql_batch s) (ql_stopped s)
    (ql_dropped s) (ql_retention s).
Definition batchMax : nat := 500.
Definition bufMax : nat := 4096.
Definition defaultQueryLogRetention : Z := 720 * hour.
Definition NewQueryLogStore (rows : list log_row) (next : Z) (samples : list StatsSample) (names : gmap string string)
    (errors : list UpstreamErr) : QueryLogStore :=
  mkQL rows next samples names errors [] [] false 0 defaultQueryLogRetention.
(** The start of [NewQueryLogStore]: the steps that can fail.  The tables are
    created if they are missing; columns added later are unknown in old rows. *)
Definition open_query_log (oe : open_env) (wal schema : option string) (s : QueryLogStore) : res string QueryLogStore :=
  match oe_mkdir oe, oe_chmod_dir oe, oe_open oe, wal, schema with
  | Some e, _, _, _, _ => Err ("create query log db dir: " +:+ e)
  | _, Some e, _, _, _ => Err ("chmod query log db dir: " +:+ e)
  | _, _, Some e, _, _ => Err ("open db: " +:+ e)
  | _, _, _, Some e, _ => Err ("enable WAL: " +:+ e)
  | _, _, _, _, Some e => Err ("create schema: " +:+ e)
  | None, None, None, None, None => Ok s
  end.
(** A failing [chmod] of the file is only logged; one of its directory leaves
    the controller without a query log, though the database could be used. *)
Example log_lost_on_chmod s : open_query_log (mkOpen None (Some "operation not permitted") None) None None s
  = Err "chmod query log db dir: operation not permitted".
Proof. done. Qed.

(** ** Times as text

    Where the time of a row, and of a bound taken from the controller's clock,
    was read: offset, abbreviation and monotonic reading are written along. *)
Record place := mkPlace { pl_off : Z; pl_zone : string; pl_mono : option Z }.
Definition at_place (ns : Z) (p : place) : gotime := mkGT ns (pl_off p) (pl_zone p) (pl_mono p).
Record times := mkTimes {
  row_place : log_row → place; sample_place : StatsSample → place; error_place : UpstreamErr → place;
  clock_place : Z → place }.
Definition row_time (tm : times) (r : log_row) : gotime := at_place (lr_ts r) (row_place tm r).
Definition row_text (tm : times) (r : log_row) : string := formatTime (row_time tm r).
Definition sample_text (tm : times) (e : StatsSample) : string := formatTime (at_place (ss_Timestamp e) (sample_place tm e)).
Definition error_text (tm : times) (e : UpstreamErr) : string := formatTime (at_place (ue_Timestamp e) (error_place tm e)).
Definition bound (tm : times) (t : Z) : gotime := at_place t (clock_place tm t).
(** [timestamp >= ?]; its negation is [timestamp < ?]. *)
Definition not_before (text : string) (since : gotime) : bool := negb (bytes_ltb text (formatTime since)).

Section Log.
Context (tm : times) (enc : list Answer → string) (dec : string → list Answer).

(** ** Writing *)
(** [row] and the columns of the insert. *)
Definition row_of (id : Z) (e : QueryLogEntry) : log_row :=
  mkLogRow id (qe_Timestamp e) (qe_Instance e) (qe_Client e) (qe_Domain e) (qe_Action e) (qe_Upstream e)
    (Some (qe_QType e)) (Some (qe_BlockList e)) (Some (Join (qe_IPs e) ",")) (Some (enc (qe_Answers e)))
    (Some (qe_DurationUs e)) (Some (if qe_Cached e then 1 else 0)) (Some (qe_Proto e)).
Definition insert_row (s : QueryLogStore) (e : QueryLogEntry) : QueryLogStore :=
  s <| ql_rows ::= λ l, l ++ [row_of (ql_next s) e] |> <| ql_next ::= Z.succ |>.
Definition Insert (fail : bool) (e : QueryLogEntry) (s : QueryLogStore) : QueryLogStore :=
  if fail then s else insert_row s e.
(** One transaction for the batch. *)
Definition log_insertBatch (fail : bool) (entries : list QueryLogEntry) (s : QueryLogStore) : QueryLogStore :=
  if fail then s else foldl insert_row s entries.
Definition Enqueue (e : QueryLogEntry) (s : QueryLogStore) : QueryLogStore :=
  if (length (ql_buf s) <? bufMax)%nat then s <| ql_buf ::= λ b, b ++ [e] |>
  else s <| ql_dropped ::= λ n, u64 (n + 1) |>.
Definition flush (fail : bool) (s : QueryLogStore) : QueryLogStore :=
  (log_insertBatch fail (ql_batch s) s) <| ql_batch := [] |>.
(** The cases of [batchWriter]'s select. *)
Definition writer_recv (fail : bool) (s : QueryLogStore) : QueryLogStore :=
  if ql_stopped s then s
  else match ql_buf s with
       | [] => s
       | e :: b =>
           let s := s <| ql_buf := b |> <| ql_batch ::= λ l, l ++ [e] |> in
           if (batchMax <=? length (ql_batch s))%nat then flush fail s else s
       end.
Definition writer_tick (fail : bool) (s : QueryLogStore) : QueryLogStore :=
  if ql_stopped s then s else match ql_batch s with [] => s | _ => flush fail s end.
Definition Close (fail : bool) (s : QueryLogStore) : QueryLogStore :=
  (if ql_stopped s then s else match ql_batch s with [] => s | _ => flush fail s end) <| ql_stopped := true |>.

Definition RecordUpstreamError (fail : bool) (e : UpstreamErr) (s : QueryLogStore) : QueryLogStore :=
  if fail then s else s <| ql_errors ::= λ l, l ++ [e] |>.
Definition AddStatsSample (fail : bool) (e : StatsSample) (s : QueryLogStore) : QueryLogStore :=
  if fail then s else s <| ql_samples ::= λ l, l ++ [e] |>.
Definition SetClientName (fail : bool) (client name : string) (s : QueryLogStore) : QueryLogStore :=
  let name := TrimSpace name in
  if fail then s
  else if str_eqb name "" then s <| ql_names ::= delete client |> else s <| ql_names ::= <[client := name]> |>.
Definition ClientNames (fail : bool) (s : QueryLogStore) : option (gmap string string) :=
  if fail then None else Some (ql_names s).
Definition Retention (s : QueryLogStore) : Z := ql_retention s.
Definition DroppedEvents (s : QueryLogStore) : Z := ql_dropped s.
Definition ClearQueryLog (fail : bool) (s : QueryLogStore) : QueryLogStore := if fail then s else s <| ql_rows := [] |>.
Definition ClearStatsSamples (fail : bool) (s : QueryLogStore) : QueryLogStore := if fail then s else s <| ql_samples := [] |>.
Definition ClearUpstreamErrors (fail : bool) (instance : string) (s : QueryLogStore) : QueryLogStore :=
  if fail then s
  else s <| ql_errors ::= λ l, if str_eqb instance "" then [] else filter (λ e, ue_Instance e ≠ instance) l |>.
Definition prune_rows (t : Z) (s : QueryLogStore) : QueryLogStore :=
  s <| ql_rows ::= filter (λ r, not_before (row_text tm r) (bound tm t) = true) |>.
(** One round of [cleanupLoop]. *)
Definition cleanup (now : Z) (s : QueryLogStore) : QueryLogStore :=
  let t := now - ql_retention s in
  (prune_rows t s) <| ql_errors ::= filter (λ e, not_before (error_text tm e) (bound tm t) = true) |>
                   <| ql_samples ::= filter (λ e, not_before (sample_text tm e) (bound tm (now - 31 * 24 * hour)) = true) |>.
Definition SetRetention (now : Z) (fail : bool) (d : Z) (s : QueryLogStore) : QueryLogStore :=
  let d := if d <? hour then hour else d in
  let s := s <| ql_retention := d |> in
  if fail then s else prune_rows (now - d) s.

(** ** Reading *)
(** [p LIKE s]: [%] any text, [_] any character, letters of either case. *)
Fixpoint like (p s : string) : bool :=
  match p with
  | "" => str_eqb s ""
  | String c p' =>
      if ascii_eqb c "%" then
        (fix any (s : string) : bool := like p' s || match s with "" => false | String _ s' => any s' end) s
      else match s with
           | "" => false
           | String d s' => (ascii_eqb c "_" || ascii_eqb (lower_ascii c) (lower_ascii d)) && like p' s'
           end
  end.
Definition null_eqb (c : option string) (v : string) : bool := match c with Some x => str_eqb x v | None => false end.
(** A comparison of the integer column with the text "0" or "1". *)
Definition cached_eqb (c : option Z) (v : string) : bool := match c with Some x => str_eqb (Itoa x) v | None => false end.
Definition real_query (since : Z) (r : log_row) : bool :=
  not_before (row_text tm r) (bound tm since) && negb (str_eqb (lr_domain r) "health_check") && negb (str_eqb (lr_domain r) "").
Definition logFilter (names : gmap string string) (instance action cached filter proto : string) (r : log_row) : bool :=
  (if str_eqb instance "" then true else str_eqb (lr_instance r) instance)
  && (if str_eqb action "" then true else str_eqb (lr_action r) action)
  && (if str_eqb proto "dns" || str_eqb proto "doh" then null_eqb (lr_proto r) proto else true)
  && (if str_eqb cached "" then true else cached_eqb (lr_cached r) cached)
  && (if str_eqb filter "" then true
      else let p := "%" +:+ filter +:+ "%" in
           like p (ToLower (lr_client r))
           || match names !! lr_client r with Some n => like p (ToLower n) | None => false end
           || like p (ToLower (lr_domain r)) || like p (ToLower (lr_action r))).
Definition entry_of (names : gmap string string) (r : log_row) : QueryLogEntry :=
  mkQE (lr_id r) (parseQueryTS (read_column (row_text tm r))) (lr_instance r) (lr_client r) (default "" (names !! lr_client r)) (lr_domain r) (lr_action r)
    (default "" (lr_proto r)) (lr_upstream r) (default "" (lr_blocklist r)) (default "" (lr_qtype r))
    (match lr_ips r with Some x => if str_eqb x "" then [] else Split x "," | None => [] end)
    (match lr_answers r with Some x => if str_eqb x "" then [] else dec x | None => [] end)
    (default 0 (lr_duration r)) (match lr_cached r with Some c => negb (c =? 0) | None => false end).
(** [ORDER BY timestamp DESC, id DESC]. *)
Definition newer (a b : log_row) : Prop :=
  bytes_ltb (row_text tm b) (row_text tm a) = true ∨ (row_text tm a = row_text tm b ∧ lr_id b ≤ lr_id a).
#[export] Instance newer_dec : RelDecision newer.
Proof. intros a b. unfold newer. apply _. Defined.
Record log_query := mkLogQuery {
  lq_instance : string; lq_filter : string; lq_action : string; lq_cached : string; lq_proto : string; lq_since : Z }.
Definition matching (q : log_query) (s : QueryLogStore) : list log_row :=
  filter (λ r, real_query (lq_since q) r
             && logFilter (ql_names s) (lq_instance q) (lq_action q) (lq_cached q) (lq_filter q) (lq_proto q) r = true)
    (ql_rows s).
Definition Query (q : log_query) (offset limit : nat) (s : QueryLogStore) : list QueryLogEntry :=
  entry_of (ql_names s) <$> take limit (drop offset (merge_sort newer (matching q s))).
Definition QueryCount (q : log_query) (s : QueryLogStore) : Z := Z.of_nat (length (matching q s)).
End Log.

(** ** Counter series *)
Definition counterDelta (cur prev : Z) : Z := if prev <=? cur then cur - prev else cur.
Record aggregate := mkAgg {
  ag_total : Z; ag_blocked : Z; ag_errors : Z; ag_dur : Z;
  ag_per : gmap string (Z * Z);              (* queries and blocked of an instance *)
  ag_buckets : gmap Z (Z * Z);
  ag_last : gmap string StatsSample;
  ag_first : Z; ag_lastTS : Z }.
Definition no_stats : aggregate := mkAgg 0 0 0 0 ∅ ∅ ∅ zero_time zero_time.
Definition add_pair (dq db : Z) (p : option (Z * Z)) : Z * Z :=
  let '(q, b) := default (0, 0) p in (i64 (q + i64 dq), i64 (b + i64 db)).
(** One row of the scan. *)
Definition agg_step (secs : Z) (a : aggregate) (e : StatsSample) : aggregate :=
  let ts := ss_Timestamp e in
  let inst := ss_Instance e in
  let delta f := match ag_last a !! inst with Some p => counterDelta (f e) (f p) | None => 0 end in
  let dq := delta ss_Queries in
  let db := delta ss_Blocked in
  let bk := Z.quot (ts / second) secs in
  mkAgg (i64 (ag_total a + i64 dq)) (i64 (ag_blocked a + i64 db)) (i64 (ag_errors a + i64 (delta ss_Errors)))
    (u64 (ag_dur a + delta ss_DurationUs))
    (<[inst := add_pair dq db (ag_per a !! inst)]> (ag_per a))
    (<[bk := add_pair dq db (ag_buckets a !! bk)]> (ag_buckets a))
    (<[inst := e]> (ag_last a))
    (if (ag_first a =? zero_time) || (ts <? ag_first a) then ts else ag_first a)
    (if ag_lastTS a <? ts then ts else ag_lastTS a).
Definition aggregate_rows (secs : Z) (rows : list StatsSample) : aggregate := foldl (agg_step secs) no_stats rows.
Record StatsAggregate := mkSA {
  sa_TotalQueries : Z; sa_BlockedQueries : Z; sa_UpstreamErrors : Z;
  sa_AvgQPS : Z * Z;                         (* queries over nanoseconds; 0 over 1 when undefined *)
  sa_AvgUs : Z * Z;
  sa_PerInstance : gmap string (Z * Z);
  sa_Series : list (Z * (Z * Z)) }.
Definition by_time (a b : Z * (Z * Z)) : Prop := a.1 ≤ b.1.
#[export] Instance by_time_dec : RelDecision by_time.
Proof. intros a b. unfold by_time. apply _. Defined.
(** [AggregateStats] of the rows in the order of the scan; [None] is the
    division by a bucket of less than a second. *)
Definition AggregateStats (bucketSize : Z) (rows : list StatsSample) : option StatsAggregate :=
  let secs := Z.quot bucketSize second in
  if (secs =? 0) && negb (bool_decide (rows = [])) then None
  else
    let a := aggregate_rows secs rows in
    let rated := (0 <? ag_total a) && negb (ag_lastTS a =? zero_time) && (ag_first a <? ag_lastTS a) in
    Some (mkSA (ag_total a) (ag_blocked a) (ag_errors a)
      (if rated then (ag_total a, time_sub (ag_lastTS a) (ag_first a)) else (0, 1))
      (if 0 <? ag_total a then (ag_dur a, ag_total a) else (0, 1))
      (ag_per a)
      (merge_sort by_time (prod_map (λ bk, bk * secs * second) id <$> map_to_list (ag_buckets a)))).

(** ** Grouped queries

    [enum] lists the groups (the distinct keys) in the order the engine meets
    them, which decides between groups of the same rank. *)
Section Groups.
Context {A : Type}.
Definition count_if (p : A → bool) (rows : list A) : Z := Z.of_nat (length (filter (λ r, p r = true) rows)).
(** [AVG] of the values that are known: numerator and denominator. *)
Definition average (f : A → option Z) (rows : list A) : Z * Z :=
  match omap f rows with [] => (0, 1) | l => (foldr Z.add 0 l, Z.of_nat (length l)) end.
(** [ORDER BY rank DESC]. *)
Definition ranked {K} (rank : K → Z) (l : list K) : list K := stable_sort (λ a b, rank b <? rank a) l.
End Groups.
Definition enumerates_keys {A} (key : A → string) (rows : list A) (enum : list string) : Prop :=
  NoDup enum ∧ ∀ k, k ∈ enum ↔ k ∈ key <$> rows.

(** [MAX] and [MIN] of texts. *)
Definition max_text (l : list string) : string := match l with [] => "" | t :: l => foldl (λ a b, if bytes_ltb a b then b else a) t l end.
Definition min_text (l : list string) : string := match l with [] => "" | t :: l => foldl (λ a b, if bytes_ltb b a then b else a) t l end.
Section Reports.
Context (tm : times).
Definition in_instance (instance : string) (r : log_row) : bool :=
  if str_eqb instance "" then true else str_eqb (lr_instance r) instance.
Definition is_action (a : string) (r : log_row) : bool := str_eqb (lr_action r) a.
Definition select_rows (p : log_row → bool) (instance : string) (since : Z) (s : QueryLogStore) : list log_row :=
  filter (λ r, real_query tm since r && in_instance instance r && p r = true) (ql_rows s).
Definition group (key : log_row → string) (k : string) (rows : list log_row) : list log_row :=
  filter (λ r, key r = k) rows.

Record ClientStat := mkClientStat {
  cs_Client : string; cs_Name : string; cs_Kind : string; cs_Queries : Z; cs_Blocked : Z; cs_LastSeen : Z }.
Definition ClientStats (enum : list string) (instance : string) (since : Z) (limit : nat) (s : QueryLogStore)
    : list ClientStat :=
  let rows := select_rows (λ _, true) instance since s in
  (λ c, let g := group lr_client c rows in
        mkClientStat c (default "" (ql_names s !! c)) (if bool_decide (ParseIP c = []) then "client" else "ip")
          (Z.of_nat (length g)) (count_if (is_action "BLOCK") g) (parseQueryTS (max_text (row_text tm <$> g))))
    <$> take limit (ranked (λ c, Z.of_nat (length (group lr_client c rows))) enum).

Record TopDomain := mkTop { td_Domain : string; td_Queries : Z; td_Blocked : Z }.
Definition top_rows (instance : string) (since : Z) (action : string) (s : QueryLogStore) : list log_row :=
  select_rows (λ r, if str_eqb action "PASS" || str_eqb action "BLOCK" then is_action action r else true) instance since s.
Definition top_of (rows : list log_row) (d : string) : TopDomain :=
  let g := group lr_domain d rows in mkTop d (Z.of_nat (length g)) (count_if (is_action "BLOCK") g).
Definition TopDomains (enum : list string) (instance : string) (since : Z) (limit : nat) (action : string)
    (s : QueryLogStore) : list TopDomain :=
  let rows := top_rows instance since action s in
  top_of rows <$> take limit (ranked (λ d, td_Queries (top_of rows d)) enum).

Definition is_cached (v : Z) (r : log_row) : bool := match lr_cached r with Some c => c =? v | None => false end.
(** The durations an average of hits or misses takes. *)
Definition timed (v : Z) (r : log_row) : option Z :=
  match lr_duration r with Some d => if is_cached v r && (0 <? d) then Some d else None | None => None end.
Record TopCachedDomain := mkTopCached {
  tc_Domain : string; tc_CacheHits : Z; tc_CacheMisses : Z; tc_HitRate : Z * Z; tc_AvgCachedUs : Z * Z }.
Definition cached_of (rows : list log_row) (d : string) : TopCachedDomain :=
  let g := group lr_domain d rows in
  let hits := count_if (is_cached 1) g in
  let misses := count_if (is_cached 0) g in
  mkTopCached d hits misses (if 0 <? hits + misses then (100 * hits, hits + misses) else (0, 1)) (average (timed 1) g).
Definition TopCachedDomains (enum : list string) (instance : string) (since : Z) (offset limit : nat) (s : QueryLogStore)
    : list TopCachedDomain :=
  let rows := select_rows (is_action "PASS") instance since s in
  cached_of rows <$> take limit (drop offset (ranked (λ d, tc_CacheHits (cached_of rows d)) enum)).
Definition TopCachedDomainsCount (instance : string) (since : Z) (s : QueryLogStore) : Z :=
  Z.of_nat (length (remove_dups (lr_domain <$>
    select_rows (λ r, is_action "PASS" r && is_cached 1 r) instance since s))).
Record InstanceCacheStat := mkICS {
  ic_Queries : Z; ic_CachedQueries : Z; ic_PercentCached : Z * Z; ic_AvgCachedUs : Z * Z; ic_AvgFetchedUs : Z * Z }.
Definition CacheStats (enum : list string) (instance : string) (since : Z) (s : QueryLogStore)
    : gmap string InstanceCacheStat :=
  let rows := select_rows (is_action "PASS") instance since s in
  list_to_map ((λ i, let g := group lr_instance i rows in
    let n := Z.of_nat (length g) in
    let hits := count_if (is_cached 1) g in
    (i, mkICS n hits (if 0 <? n then (100 * hits, n) else (0, 1)) (average (timed 1) g) (average (timed 0) g))) <$> enum).

Record UpstreamErrorStat := mkUES {
  us_key : string * string * string; us_Count : Z; us_FirstSeen : Z; us_LastSeen : Z }.
Definition error_key (e : UpstreamErr) : string * string * string := (ue_Message e, ue_Domain e, ue_Instance e).
Definition error_rows (instance : string) (since : Z) (s : QueryLogStore) : list UpstreamErr :=
  filter (λ e, not_before (error_text tm e) (bound tm since) = true ∧ (instance = "" ∨ ue_Instance e = instance)) (ql_errors s).
Definition error_group (rows : list UpstreamErr) (k : string * string * string) : list UpstreamErr := filter (λ e, error_key e = k) rows.
Definition error_stat (rows : list UpstreamErr) (k : string * string * string) : UpstreamErrorStat :=
  let g := error_group rows k in
  mkUES k (Z.of_nat (length g)) (parseQueryTS (min_text (error_text tm <$> g))) (parseQueryTS (max_text (error_text tm <$> g))).
(** [ORDER BY COUNT( * ) DESC, MAX(timestamp) DESC]. *)
Definition error_before (rows : list UpstreamErr) (a b : string * string * string) : bool :=
  let n k := length (error_group rows k) in
  let last k := max_text (error_text tm <$> error_group rows k) in
  (n b <? n a)%nat || ((n a =? n b)%nat && bytes_ltb (last b) (last a)).
Definition UpstreamErrorStats (enum : list (string * string * string)) (instance : string) (since : Z) (limit : nat)
    (s : QueryLogStore) : list UpstreamErrorStat :=
  let rows := error_rows instance since s in
  error_stat rows <$> take limit (stable_sort (error_before rows) enum).
Definition UpstreamErrorCount (instance : string) (since : Z) (s : QueryLogStore) : Z :=
  Z.of_nat (length (error_rows instance since s)).
(** The rows of [AggregateStats] in the order of the scan, with the times it
    reads: [ORDER BY timestamp ASC]. *)
Definition stats_rows (instance : string) (since : Z) (s : QueryLogStore) : list StatsSample :=
  filter (λ e, not_before (sample_text tm e) (bound tm since) = true ∧ (instance = "" ∨ ss_Instance e = instance)) (ql_samples s).
Definition by_sample (a b : StatsSample) : bool := bytes_ltb (sample_text tm a) (sample_text tm b).
Definition scanned (e : StatsSample) : StatsSample :=
  mkSample (parseQueryTS (read_column (sample_text tm e))) (ss_Instance e) (ss_Queries e) (ss_Blocked e) (ss_Errors e) (ss_DurationUs e).
Definition stats_scan (instance : string) (since : Z) (s : QueryLogStore) : list StatsSample :=
  scanned <$> stable_sort by_sample (stats_rows instance since s).
End Reports.


(** ** Histories of the writer *)
Inductive log_op := LEnqueue (e : QueryLogEntry) | LInsert (fail : bool) (e : QueryLogEntry) | LRecv (fail : bool) | LTick (fail : bool) | LClose (fail : bool).
Section Writer.
Context (enc : list Answer → string).
Definition log_step (o : log_op) (s : QueryLogStore) : QueryLogStore :=
  match o with
  | LEnqueue e => Enqueue e s
  | LInsert fail e => Insert enc fail e s
  | LRecv fail => writer_recv enc fail s
  | LTick fail => writer_tick enc fail s
  | LClose fail => Close enc fail s
  end.
Definition log_run (ops : list log_op) (s : QueryLogStore) : QueryLogStore := foldl (λ s o, log_step o s) s ops.
(** The entries a history hands over, and those it takes. *)
Definition handed (o : log_op) : list QueryLogEntry := match o with LEnqueue e | LInsert false e => [e] | _ => [] end.
Definition taken (o : log_op) (s : QueryLogStore) : list QueryLogEntry :=
  match o with LEnqueue e => if (length (ql_buf s) <? bufMax)%nat then [e] else [] | _ => handed o end.
Fixpoint taken_by (ops : list log_op) (s : QueryLogStore) : list QueryLogEntry :=
  match ops with [] => [] | o :: ops => taken o s ++ taken_by ops (log_step o s) end.
Definition op_fails (o : log_op) : bool :=
  match o with LEnqueue _ => false | LInsert f _ | LRecv f | LTick f | LClose f => f end.
(** A row carries an entry. *)
Definition carries (r : log_row) (e : QueryLogEntry) : Prop := r = row_of enc (lr_id r) e.
End Writer.

(** ** The writer loses nothing it took *)
Section WriterFacts.
Context (enc : list Answer → string) (rows0 : list log_row) (next0 : Z).
Definition rows_for (es : list QueryLogEntry) : list log_row := imap (λ i e, row_of enc (next0 + Z.of_nat i) e) es.
(** [es] were written since the start, [acc] taken. *)
Record winv (ordered : Prop) (acc : list QueryLogEntry) (s : QueryLogStore) (es : list QueryLogEntry) : Prop := {
  wi_rows : ql_rows s = rows0 ++ rows_for es;
  wi_next : ql_next s = next0 + Z.of_nat (length es);
  wi_all : es ++ ql_batch s ++ ql_buf s ≡ₚ acc;
  wi_order : ordered → es ++ ql_batch s ++ ql_buf s = acc;
  wi_batch : (length (ql_batch s) < batchMax)%nat;
  wi_buf : (length (ql_buf s) ≤ bufMax)%nat;
  wi_stopped : ql_stopped s = true → ql_batch s = [] }.

Lemma rows_for_snoc es e : rows_for (es ++ [e]) = rows_for es ++ [row_of enc (next0 + Z.of_nat (length es)) e].
Proof. unfold rows_for. rewrite imap_app. cbn. by rewrite Nat.add_0_r. Qed.
(** Writing a batch. *)
Lemma inserted l s es :
  ql_rows s = rows0 ++ rows_for es → ql_next s = next0 + Z.of_nat (length es) →
  let s' := foldl (insert_row enc) s l in
  ql_rows s' = rows0 ++ rows_for (es ++ l) ∧ ql_next s' = next0 + Z.of_nat (length (es ++ l))
  ∧ ql_batch s' = ql_batch s ∧ ql_buf s' = ql_buf s ∧ ql_stopped s' = ql_stopped s.
Proof.
  revert s es. induction l as [|e l IH]; intros s es Hr Hn; cbn [foldl].
  { rewrite List.app_nil_r. done. }
  destruct (IH (insert_row enc s e) (es ++ [e])) as (H1 & H2 & H3).
  - cbn. by rewrite Hr, rows_for_snoc, (assoc_L (++)), Hn.
  - cbn. rewrite Hn, length_app. cbn. lia.
  - rewrite <-(assoc_L (++)) in H1, H2. done.
Qed.
Lemma flush_winv o acc s es :
  ql_rows s = rows0 ++ rows_for es → ql_next s = next0 + Z.of_nat (length es) →
  es ++ ql_batch s ++ ql_buf s ≡ₚ acc → (o → es ++ ql_batch s ++ ql_buf s = acc) → (length (ql_buf s) ≤ bufMax)%nat →
  winv o acc (flush enc false s) (es ++ ql_batch s).
Proof.
  intros Hr Hn Ha Ho Hb. destruct (inserted (ql_batch s) s es Hr Hn) as (H1 & H2 & H3 & H4 & H5).
  split; cbn; rewrite ?H4; try done.
  - by rewrite <-(assoc_L (++)).
  - intros Hord. rewrite <-(assoc_L (++)). by apply Ho.
  - unfold batchMax. lia.
Qed.
Lemma writer_step o acc s es op :
  winv o acc s es → op_fails op = false → (o → match op with LInsert _ _ => False | _ => True end) →
  ∃ es', winv o (acc ++ taken op s) (log_step enc op s) es'.
Proof.
  intros Hw Hf Ho. pose proof Hw as [Hr Hn Ha Hord Hb Hbuf Hst]. destruct op as [e|f e|f|f|f]; cbn [log_step taken handed op_fails] in *; subst;
    rewrite ?List.app_nil_r.
  - unfold Enqueue. destruct (_ <? _)%nat eqn:E; bools; [|rewrite List.app_nil_r; by exists es; split].
    exists es. split; cbn; try done; rewrite ?(assoc_L (++)).
    + rewrite <-Ha, !(assoc_L (++)). done.
    + intros H. rewrite <-(Hord H), !(assoc_L (++)). done.
    + rewrite length_app. cbn. lia.
  - destruct (inserted [e] s es Hr Hn) as (H1 & H2 & H3 & H4 & H5). cbn [foldl] in *. exists (es ++ [e]).
    change (Insert enc false e s) with (insert_row enc s e).
    split; rewrite ?H3, ?H4, ?H5; try done.
    + rewrite <-Ha, <-!(assoc_L (++)), (Permutation_app_comm [e]). by rewrite <-!(assoc_L (++)).
  - unfold writer_recv. destruct (ql_stopped s) eqn:Hs; [by exists es|]. destruct (ql_buf s) as [|e b] eqn:Hbu; [by exists es|].
    set (s1 := _ <| ql_batch ::= _ |>).
    assert (es ++ ql_batch s1 ++ ql_buf s1 = es ++ ql_batch s ++ e :: b) as E1 by (cbn; by rewrite <-!(assoc_L (++))).
    cbn [length] in Hbuf. destruct (_ <=? _)%nat eqn:E; bools.
    + eexists. apply flush_winv; [done|done|by rewrite E1|by rewrite E1|cbn; lia].
    + exists es. split; [done|done|by rewrite E1|by rewrite E1|done|cbn; lia|]. cbn. by rewrite Hs.
  - unfold writer_tick. destruct (ql_stopped s); [by exists es|]. destruct (ql_batch s) eqn:E; [by exists es|].
    rewrite <-E in *. eexists. by apply flush_winv.
  - unfold Close. destruct (ql_stopped s) eqn:Hs.
    { exists es. split; cbn; auto. }
    destruct (ql_batch s) eqn:E; [exists es; split; cbn; rewrite ?E in *; done|]. rewrite <-E in *.
    destruct (flush_winv o acc s es Hr Hn Ha Hord Hbuf) as [? ? ? ? ? ? ?]. eexists. split; cbn in *; done.
Qed.
Lemma writer_run o ops acc s es :
  winv o acc s es → Forall (λ op, op_fails op = false) ops →
  (o → Forall (λ op, match op with LInsert _ _ => False | _ => True end) ops) →
  ∃ es', winv o (acc ++ taken_by enc ops s) (log_run enc ops s) es'.
Proof.
  revert acc s es. induction ops as [|op ops IH]; intros acc s es Hw Hf Ho; [rewrite List.app_nil_r; by exists es|].
  inversion Hf as [|? ? Hop Hops]; subst. destruct (writer_step o acc s es op Hw Hop) as [es1 H1].
  { intros H. specialize (Ho H). by inversion Ho. }
  destruct (IH _ _ _ H1 Hops) as [es2 H2]; [intros H; specialize (Ho H); by inversion Ho|].
  exists es2. cbn [taken_by log_run foldl]. by rewrite (assoc_L (++)).
Qed.
End WriterFacts.

(** C25: The buffered writer of the query log loses and repeats nothing that it
    took: after any history of deliveries, direct inserts, writer rounds and a
    close, in which the database refused nothing, the rows are the earlier ones
    followed by rows with consecutive ids for some entries, and those entries,
    with what the writer and the channel still hold, are exactly the entries
    taken (in their order, when nothing was inserted directly); the channel and
    the batch stay within their bounds, and only the channel can hold anything
    once the store is closed. *)
Theorem querylog_no_loss enc ops rows next samples names errors :
  Forall (λ op, op_fails op = false) ops →
  let s0 := NewQueryLogStore rows next samples names errors in
  let s := log_run enc ops s0 in
  ∃ es, ql_rows s = rows ++ rows_for enc next es ∧ es ++ ql_batch s ++ ql_buf s ≡ₚ taken_by enc ops s0
    ∧ (Forall (λ op, match op with LInsert _ _ => False | _ => True end) ops →
       es ++ ql_batch s ++ ql_buf s = taken_by enc ops s0)
    ∧ (length (ql_batch s) < batchMax)%nat ∧ (length (ql_buf s) ≤ bufMax)%nat
    ∧ (ql_stopped s = true → ql_batch s = []).
Proof.
  intros Hf s0 s.
  destruct (writer_run enc rows next (Forall (λ op, match op with LInsert _ _ => False | _ => True end) ops) ops [] s0 [])
    as [es [H1 _ H2 H3 H4 H5 H6]]; [|done|done|by exists es].
  split; cbn; try done; try lia; unfold batchMax, bufMax; cbn; rewrite ?List.app_nil_r; lia || done.
Qed.
Definition demo_entry (t : Z) (d : string) : QueryLogEntry :=
  mkQE 0 t "node1" "10.0.0.9" "" d "PASS" "dns" "" "" "A" ["192.0.2.1"] [] 800 false.
Definition demo_answers (_ : list Answer) : string := "[]".
Lemma querylog_no_loss_witness :
  let ops := [LEnqueue (demo_entry 1 "a.org"); LEnqueue (demo_entry 2 "b.org"); LRecv false; LTick false; LClose false] in
  let s := log_run demo_answers ops (NewQueryLogStore [] 1 [] ∅ []) in
  ∃ es, ql_rows s = [] ++ rows_for demo_answers 1 es ∧ ql_rows s = rows_for demo_answers 1 [demo_entry 1 "a.org"]
    ∧ es ++ ql_batch s ++ ql_buf s ≡ₚ [demo_entry 1 "a.org"; demo_entry 2 "b.org"] ∧ ql_buf s = [demo_entry 2 "b.org"].
Proof.
  intros ops s.
  destruct (querylog_no_loss demo_answers ops [] 1 [] ∅ []) as (es & H1 & H2 & _); [repeat constructor|].
  exists es. split; [exact H1|]. split; [vm_compute; reflexivity|]. split; [exact H2|vm_compute; reflexivity].
Defined.

(** ** Paging *)
Lemma concat_pages {A} (L n : nat) (l : list A) :
  concat ((λ k, take L (drop (k * L) l)) <$> seq 0 n) = take (n * L) l.
Proof.
  induction n as [|n IH]; [done|]. rewrite seq_S, fmap_app, concat_app, IH. cbn [fmap list_fmap concat].
  rewrite List.app_nil_r. cbn [Nat.add]. rewrite take_take_drop. f_equal. lia.
Qed.
#[export] Instance newer_trans tm : Transitive (newer tm).
Proof.
  intros a b c. unfold newer. intros [H1|[H1 H2]] [H3|[H3 H4]].
  - left. by eapply bytes_ltb_trans.
  - left. by rewrite <-H3.
  - left. by rewrite H1.
  - right. split; [congruence|lia].
Qed.
#[export] Instance newer_total tm : Total (newer tm).
Proof.
  intros a b. unfold newer. destruct (bytes_ltb_total (row_text tm a) (row_text tm b)) as [H|[H|H]]; [by right; left| |by left; left].
  rewrite H. destruct (Z.le_ge_cases (lr_id a) (lr_id b)); [right|left]; by right.
Qed.
(** Newest first, by the instants. *)
Definition later (a b : log_row) : Prop := lr_ts b < lr_ts a ∨ (lr_ts a = lr_ts b ∧ lr_id b ≤ lr_id a).
(** The time of the row has the location of the controller's clock at [since],
    a year of four digits and no monotonic reading, and its text can be read. *)
Definition local_row (tm : times) (since : Z) (r : log_row) : Prop :=
  same_location (row_time tm r) (bound tm since) ∧ four_digits (row_time tm r) ∧ four_digits (bound tm since)
  ∧ gt_mono (row_time tm r) = None ∧ readable (row_time tm r) = true.
Lemma newer_later tm since a b : local_row tm since a → local_row tm since b → newer tm a b → later a b.
Proof.
  intros ([Ho Hz] & Hy & _ & Hm & _) ([Ho' Hz'] & Hy' & _ & Hm' & _).
  assert (same_location (row_time tm a) (row_time tm b)) as Hl by (split; congruence).
  assert (same_location (row_time tm b) (row_time tm a)) as Hl' by (split; congruence).
  unfold newer, later, row_text. destruct (Z.lt_trichotomy (lr_ts a) (lr_ts b)) as [H|[H|H]]; [| |by left].
  - pose proof (formatTime_lt _ _ Hl Hy Hy' H) as Hlt. intros [E|[E _]]; exfalso.
    + by rewrite (bytes_ltb_asym _ _ Hlt) in E.
    + by rewrite E, bytes_ltb_irrefl in Hlt.
  - pose proof (formatTime_mono _ _ Hl' (eq_sym H) Hm') as E. rewrite Hm in E. cbn in E. rewrite E.
    intros [[=]|[_ Hid]]. by right.
Qed.
Lemma matching_since tm q s r : r ∈ matching tm q s → local_row tm (lq_since q) r → lq_since q ≤ lr_ts r.
Proof.
  unfold matching, real_query. rewrite list_elem_of_filter, !andb_true_iff. intros [[[[Hn _] _] _] _] (Hl & Hy & Hy' & Hm & _).
  change (selected (bound tm (lq_since q)) (row_time tm r) = true) in Hn. rewrite text_order in Hn by done.
  destruct (gt_mono _) in Hn; cbn in Hn; lia.
Qed.

(** C37: The pages of the query log put together are the matching rows, each
    once, in descending order of the stored text of their times and then of
    their ids, and their number is the reported total: nothing is shown twice
    or skipped between pages, and the filter of the count is that of the
    pages.  When all matching rows carry the location of the controller's
    clock (one offset and one readable abbreviation, so no node in another
    time zone and no change of the clocks in the range), that is newest first,
    no entry is older than the bound asked for, and each is shown with the
    instant at which it happened. *)
Theorem querylog_paging tm dec q s L n :
  (length (matching tm q s) ≤ n * L)%nat →
  ∃ rows, concat ((λ k, Query tm dec q (k * L) L s) <$> seq 0 n) = entry_of tm dec (ql_names s) <$> rows
    ∧ rows ≡ₚ matching tm q s ∧ StronglySorted (newer tm) rows ∧ QueryCount tm q s = Z.of_nat (length rows)
    ∧ (Forall (local_row tm (lq_since q)) (matching tm q s) →
       StronglySorted later rows
       ∧ Forall (λ r, lq_since q ≤ lr_ts r ∧ qe_Timestamp (entry_of tm dec (ql_names s) r) = lr_ts r) rows).
Proof.
  intros Hn. set (rows := merge_sort (newer tm) (matching tm q s)). exists rows.
  assert (rows ≡ₚ matching tm q s) as Hp by apply merge_sort_Permutation.
  assert (StronglySorted (newer tm) rows) as Hs by (apply StronglySorted_merge_sort; apply _).
  split; [|split; [done|split; [done|split; [by unfold QueryCount; rewrite Hp|]]]].
  - unfold Query. erewrite list_fmap_ext.
    2: { intros i k _. rewrite fmap_take, fmap_drop. reflexivity. }
    etrans; [exact (concat_pages L n (entry_of tm dec (ql_names s) <$> rows))|]. rewrite take_ge; [done|]. by rewrite length_fmap, Hp.
  - intros Hl. assert (Forall (local_row tm (lq_since q)) rows) as Hl' by (by rewrite Hp). split.
    + clear Hp. induction Hs as [|r rs Hs IH Hr]; [constructor|]. inversion Hl' as [|? ? Hlr Hls]; subst. constructor; [by apply IH|].
      rewrite Forall_forall in *. intros x Hx. eapply newer_later; eauto.
    + rewrite Forall_forall in *. intros r Hr. split; [apply (matching_since tm q s); [by rewrite <-Hp|by apply Hl']|].
      destruct (Hl' r Hr) as (_ & Hy & _ & _ & Hrd). by apply time_roundtrip.
Qed.
Definition demo_log : QueryLogStore :=
  foldl (insert_row demo_answers) (NewQueryLogStore [] 1 [] {["10.0.0.9" := "kids"]} [])
    [demo_entry 5 "a.org"; demo_entry 9 "b.org"; demo_entry 5 "health_check"; demo_entry 7 "c.org"; demo_entry 9 "d.net"].
Definition demo_query : log_query := mkLogQuery "" "KID" "PASS" "0" "dns" 6.
(** Everything in one time zone. *)
Definition demo_times : times :=
  let utc := mkPlace 0 "UTC" None in mkTimes (λ _, utc) (λ _, utc) (λ _, utc) (λ _, mkPlace 0 "UTC" (Some 7000000000)).
Lemma querylog_paging_witness :
  let pages := concat ((λ k, Query demo_times (λ _, []) demo_query (k * 2) 2 demo_log) <$> seq 0 2) in
  (qe_Domain <$> pages) = ["d.net"; "b.org"; "c.org"]
  ∧ ∃ rows, pages = entry_of demo_times (λ _, []) (ql_names demo_log) <$> rows
    ∧ rows ≡ₚ matching demo_times demo_query demo_log ∧ StronglySorted later rows
    ∧ QueryCount demo_times demo_query demo_log = Z.of_nat (length rows).
Proof.
  intros pages. split; [vm_compute; reflexivity|].
  destruct (querylog_paging demo_times (λ _, []) demo_query demo_log 2 2) as (rows & H1 & H2 & _ & H4 & H5).
  - apply Nat.leb_le. vm_compute. reflexivity.
  - exists rows. split; [exact H1|]. split; [exact H2|]. split; [|exact H4]. apply H5.
    assert (matching demo_times demo_query demo_log = [row_of demo_answers 2 (demo_entry 9 "b.org"); row_of demo_answers 4 (demo_entry 7 "c.org");
      row_of demo_answers 5 (demo_entry 9 "d.net")]) as -> by (vm_compute; reflexivity).
    repeat constructor; vm_compute; congruence.
Defined.
Example demo_pages :
  (qe_Domain <$> Query demo_times (λ _, []) demo_query 0 2 demo_log, qe_Domain <$> Query demo_times (λ _, []) demo_query 2 2 demo_log,
   QueryCount demo_times demo_query demo_log) = (["d.net"; "b.org"], ["c.org"], 3).
Proof. vm_compute. reflexivity. Qed.
(** A node whose zone is two hours ahead: its older entry is shown above the
    newer one of a node in the controller's zone. *)
Example pages_of_mixed_zones :
  let utc := mkPlace 0 "UTC" None in
  let tm := mkTimes (λ r, if str_eqb (lr_domain r) "b.org" then mkPlace 7200 "CEST" None else utc) (λ _, utc) (λ _, utc) (λ _, utc) in
  let s := foldl (insert_row demo_answers) (NewQueryLogStore [] 1 [] ∅ []) [demo_entry (5 * second) "b.org"; demo_entry (9 * second) "a.org"] in
  qe_Domain <$> Query tm (λ _, []) (mkLogQuery "" "" "" "" "" 0) 0 9 s = ["b.org"; "a.org"].
Proof. vm_compute. reflexivity. Qed.
(** The text filter is a pattern: an underscore matches any character. *)
Example filter_is_pattern : like "%a_b%" "xaZby" = true.
Proof. reflexivity. Qed.

(** What is read back of a row. *)
Lemma entry_roundtrip tm enc dec names id e :
  readable (row_time tm (row_of enc id e)) = true → four_digits (row_time tm (row_of enc id e)) →
  dec (enc (qe_Answers e)) = qe_Answers e → enc (qe_Answers e) ≠ "" →
  Forall (λ i, i ≠ "" ∧ free_of "," i = true) (qe_IPs e) →
  entry_of tm dec names (row_of enc id e)
  = mkQE id (qe_Timestamp e) (qe_Instance e) (qe_Client e) (default "" (names !! qe_Client e)) (qe_Domain e) (qe_Action e)
      (qe_Proto e) (qe_Upstream e) (qe_BlockList e) (qe_QType e) (qe_IPs e) (qe_Answers e) (qe_DurationUs e) (qe_Cached e).
Proof.
  intros Hr Hy Hd He Hi. unfold entry_of, row_text. rewrite (proj2 (time_roundtrip _ Hr Hy)). cbn. apply str_eqb_neq in He. rewrite He, Hd.
  f_equal; [|by destruct (qe_Cached e)].
  destruct (qe_IPs e) as [|i l] eqn:E; [done|]. inversion Hi as [|? ? [Hne Hfr] Hrest]; subst.
  destruct (str_eqb (Join (i :: l) ",") "") eqn:Hj.
  - apply str_eqb_eq in Hj. destruct i; [done|]. by destruct l.
  - apply (Split_Join_sep ","); [done|]. constructor; [done|]. eapply Forall_impl; [exact Hrest|]. by intros ? [].
Qed.

(** ** Sums of counters *)
Lemma i64_add_l a b : i64 (i64 a + b) = i64 (a + b).
Proof.
  unfold i64. f_equal. replace ((a + 2 ^ 63) mod 2 ^ 64 - 2 ^ 63 + b + 2 ^ 63) with ((a + 2 ^ 63) mod 2 ^ 64 + b) by lia.
  rewrite Zplus_mod_idemp_l. f_equal. lia.
Qed.
Lemma i64_add_r a b : i64 (a + i64 b) = i64 (a + b).
Proof. by rewrite Z.add_comm, i64_add_l, Z.add_comm. Qed.
Lemma i64_small z : in_int64 z = true → i64 z = z.
Proof.
  unfold in_int64, min_int64, max_int64. intros H. bools. unfold i64. rewrite Z.mod_small by lia. lia.
Qed.
Lemma i64_range z : in_int64 (i64 z) = true.
Proof.
  unfold i64, in_int64, min_int64, max_int64. pose proof (Z.mod_pos_bound (z + 2 ^ 63) (2 ^ 64)).
  apply andb_true_iff. split; apply Z.leb_le; lia.
Qed.

Definition msum {K} `{Countable K} {A} (f : A → Z) (m : gmap K A) : Z := map_fold (λ _ v s, f v + s) 0 m.
Lemma msum_insert_new {K} `{Countable K} {A} (f : A → Z) (m : gmap K A) k v :
  m !! k = None → msum f (<[k := v]> m) = f v + msum f m.
Proof. intros Hk. unfold msum. rewrite map_fold_insert_L; [done| |done]. intros. lia. Qed.
Lemma msum_insert {K} `{Countable K} {A} (f : A → Z) (m : gmap K A) k v :
  msum f (<[k := v]> m) = f v - from_option f 0 (m !! k) + msum f m.
Proof.
  destruct (m !! k) as [w|] eqn:Hk; cbn.
  - rewrite <-insert_delete_eq, msum_insert_new by apply lookup_delete_eq.
    rewrite <-(insert_delete_id m k w Hk) at 2. rewrite msum_insert_new by apply lookup_delete_eq. lia.
  - rewrite msum_insert_new by done. lia.
Qed.
Lemma msum_empty {K} `{Countable K} {A} (f : A → Z) : msum f (∅ : gmap K A) = 0.
Proof. apply map_fold_empty. Qed.

(** The totals agree with the breakdowns, row by row. *)
Record agg_inv (a : aggregate) : Prop := {
  ai_per_q : ag_total a = i64 (msum fst (ag_per a));
  ai_per_b : ag_blocked a = i64 (msum snd (ag_per a));
  ai_bk_q : ag_total a = i64 (msum fst (ag_buckets a));
  ai_bk_b : ag_blocked a = i64 (msum snd (ag_buckets a)) }.
Lemma add_pair_fst dq db p : (add_pair dq db p).1 = i64 (from_option fst 0 p + i64 dq).
Proof. by destruct p as [[q b]|]. Qed.
Lemma add_pair_snd dq db p : (add_pair dq db p).2 = i64 (from_option snd 0 p + i64 db).
Proof. by destruct p as [[q b]|]. Qed.
Lemma sum_add (f : Z * Z → Z) {K} `{Countable K} (m : gmap K (Z * Z)) k p d :
  f p = i64 (from_option f 0 (m !! k) + i64 d) →
  i64 (msum f (<[k := p]> m)) = i64 (i64 (msum f m) + i64 d).
Proof.
  intros Hp. rewrite msum_insert, Hp. set (o := from_option f 0 (m !! k)).
  replace (i64 (o + i64 d) - o + msum f m) with (i64 (o + i64 d) + (msum f m - o)) by lia.
  rewrite !i64_add_l. f_equal. lia.
Qed.
Lemma agg_step_inv secs a e : agg_inv a → agg_inv (agg_step secs a e).
Proof.
  intros [H1 H2 H3 H4]. split; cbn; symmetry.
  - rewrite H1. apply sum_add, add_pair_fst.
  - rewrite H2. apply sum_add, add_pair_snd.
  - rewrite H3. apply sum_add, add_pair_fst.
  - rewrite H4. apply sum_add, add_pair_snd.
Qed.
Lemma aggregate_inv secs rows : agg_inv (aggregate_rows secs rows).
Proof.
  unfold aggregate_rows. assert (agg_inv no_stats) as H by (split; reflexivity). revert H. generalize no_stats.
  induction rows as [|e rows IH]; intros a Ha; [done|]. cbn [foldl]. apply IH, agg_step_inv, Ha.
Qed.

(** An instance whose counter never decreases: its total is last minus first. *)
Definition of_instance (i : string) (rows : list StatsSample) : list StatsSample := filter (λ e, ss_Instance e = i) rows.
Definition climbing (i : string) (rows : list StatsSample) : Prop :=
  StronglySorted (λ x y, ss_Queries x ≤ ss_Queries y) (of_instance i rows).
Lemma per_climbing secs i rows :
  climbing i rows →
  let a := aggregate_rows secs rows in
  ag_last a !! i = last (of_instance i rows)
  ∧ match of_instance i rows, last (of_instance i rows) with
    | x :: _, Some y => ∃ b, ag_per a !! i = Some (i64 (ss_Queries y - ss_Queries x), b)
    | _, _ => ag_per a !! i = None
    end.
Proof.
  unfold climbing, of_instance. induction rows as [|e rows IH] using rev_ind; [done|]. intros Hc.
  unfold aggregate_rows. rewrite foldl_app. cbn [foldl]. fold (aggregate_rows secs rows).
  rewrite filter_app in Hc |- *. rewrite filter_cons in Hc |- *. cbn [filter list_filter] in Hc |- *.
  destruct (decide (ss_Instance e = i)) as [He|He].
  - destruct IH as [Hl Hp]; [by eapply StronglySorted_app_1_l|]. rewrite last_snoc. cbn. rewrite He, !lookup_insert_eq.
    split; [done|]. rewrite Hl. set (l := filter _ rows) in *. destruct l as [|x l'] eqn:El.
    + cbn. rewrite Hp. eexists. cbn. do 2 f_equal. by replace (ss_Queries e - ss_Queries e) with 0 by lia.
    + destruct (last (x :: l')) as [y|] eqn:Ey; [|by apply last_None in Ey]. destruct Hp as [b Hb]. rewrite Hb. cbn.
      assert (ss_Queries y ≤ ss_Queries e) as Hle.
      { exact (StronglySorted_app_1_elem_of _ _ _ y e Hc (last_Some_elem_of _ _ Ey) (list_elem_of_here _ _)). }
      eexists. do 2 f_equal. unfold counterDelta. destruct (Z.leb_spec (ss_Queries y) (ss_Queries e)); [|lia].
      rewrite i64_add_l, i64_add_r. f_equal. lia.
  - rewrite List.app_nil_r in Hc |- *. destruct (IH Hc) as [Hl Hp]. cbn. by rewrite !lookup_insert_ne.
Qed.

(** The points of the series carry the buckets. *)
Lemma series_sum (f : Z * Z → Z) secs (m : gmap Z (Z * Z)) :
  foldr Z.add 0 ((λ p : Z * (Z * Z), f p.2) <$> merge_sort by_time (prod_map (λ bk, bk * secs * second) id <$> map_to_list m))
  = msum f m.
Proof.
  assert (∀ l k : list Z, l ≡ₚ k → foldr Z.add 0 l = foldr Z.add 0 k) as Hperm by (induction 1; cbn; lia).
  rewrite (Hperm _ _ (fmap_Permutation _ _ _ (merge_sort_Permutation _ _))), <-list_fmap_compose.
  unfold msum. rewrite map_fold_foldr. induction (map_to_list m) as [|[k v] l IH]; [done|]. cbn. by rewrite <-IH.
Qed.

(** The dashboard's totals are the sums of their breakdowns: for every scan
    of the samples and every bucket size of a second or more, the aggregation
    gives a result, whose numbers of queries and of blocked queries are (as
    signed 64-bit integers) the sums over the instances and over the points of
    the series; the series is in order of time; and an instance whose counter
    does not decrease along the scan is credited exactly its last minus its
    first reading, so that earlier activity is never counted twice. *)
Theorem querylog_totals_agree bucketSize rows :
  second ≤ bucketSize →
  ∃ r, AggregateStats bucketSize rows = Some r
    ∧ sa_TotalQueries r = i64 (msum fst (sa_PerInstance r))
    ∧ sa_TotalQueries r = i64 (foldr Z.add 0 ((λ p : Z * (Z * Z), p.2.1) <$> sa_Series r))
    ∧ sa_BlockedQueries r = i64 (msum snd (sa_PerInstance r))
    ∧ sa_BlockedQueries r = i64 (foldr Z.add 0 ((λ p : Z * (Z * Z), p.2.2) <$> sa_Series r))
    ∧ StronglySorted by_time (sa_Series r)
    ∧ ∀ i x l y, of_instance i rows = x :: l → last (x :: l) = Some y → climbing i rows →
        ∃ b, sa_PerInstance r !! i = Some (i64 (ss_Queries y - ss_Queries x), b).
Proof.
  intros Hb. unfold AggregateStats. assert (1 ≤ Z.quot bucketSize second) as Hq.
  { apply Z.quot_le_lower_bound; unfold second in *; lia. }
  destruct (Z.quot bucketSize second =? 0) eqn:E; bools; [lia|]. cbn [andb]. eexists. split; [reflexivity|]. cbn.
  destruct (aggregate_inv (Z.quot bucketSize second) rows) as [H1 H2 H3 H4].
  rewrite (series_sum fst), (series_sum snd). split_and!; [done..| |].
  - apply StronglySorted_merge_sort; [intros x y z; unfold by_time; lia|intros x y; unfold by_time; lia].
  - intros i x l y Hx Hy Hc. destruct (per_climbing (Z.quot bucketSize second) i rows Hc) as [_ Hp].
    rewrite Hx, Hy in Hp. exact Hp.
Qed.
Definition demo_samples : list StatsSample :=
  [mkSample (10 * second) "a" 100 10 0 0; mkSample (11 * second) "b" 7 0 0 0; mkSample (70 * second) "a" 130 12 1 900;
   mkSample (71 * second) "b" 3 1 0 0; mkSample (130 * second) "a" 131 12 1 950].
Lemma querylog_totals_agree_witness :
  sa_TotalQueries <$> AggregateStats minute demo_samples = Some 34 ∧
  ∃ r, AggregateStats minute demo_samples = Some r ∧ ∃ b, sa_PerInstance r !! "a" = Some (i64 (131 - 100), b).
Proof.
  split; [vm_compute; reflexivity|].
  destruct (querylog_totals_agree minute demo_samples) as (r & Hr & _ & _ & _ & _ & _ & H); [unfold minute, second; lia|].
  exists r. split; [exact Hr|].
  apply (H "a" (mkSample (10 * second) "a" 100 10 0 0)
           [mkSample (70 * second) "a" 130 12 1 900; mkSample (130 * second) "a" 131 12 1 950]
           (mkSample (130 * second) "a" 131 12 1 950)); [vm_compute; reflexivity|reflexivity|].
  unfold climbing. change (of_instance "a" demo_samples)
    with [mkSample (10 * second) "a" 100 10 0 0; mkSample (70 * second) "a" 130 12 1 900; mkSample (130 * second) "a" 131 12 1 950].
  repeat constructor; cbn; lia.
Defined.
