(* ===== verification/Fleet.v ===== *)
(** * The controller's fleet: its state and its desired configuration

    internal/controller/fleet.go and instance.go, the parts that do not talk to
    an instance: the structs, the fleet-wide defaults with the per-instance
    overrides, what an instance should have, validation of the high
    availability pair.  FleetPush.v distributes the configuration.

    Go's [Instance] objects are shared by pointer between the map of the fleet,
    their poll loops and running requests: [fl_heap] is the list of all
    instances ever made and a pointer its position; [fl_instances] names the
    registered ones.  A nil and an empty slice are both the empty list. *)
From S2P Require Import Prelude GoStrings GoNet Records Blocklist Upstream Stats HA Update Control Bus Release Client BlocklistDB.
From Stdlib Require Import Ascii.
#[local] Open Scope Z_scope.

(** ** Configuration records *)
Record InstanceConfig := mkICfg { ic_ID : string; ic_URL : string; ic_Token : string; ic_Label : string; ic_Claim : string }.
#[export] Instance InstanceConfig_eta : Eta InstanceConfig := λ c, mkICfg (ic_ID c) (ic_URL c) (ic_Token c) (ic_Label c) (ic_Claim c).
Record InstanceOverride := mkOver {
  ov_Upstream : option string;
  ov_BlockAction : option string;
  ov_Log : option bool;
  ov_DoHHTTPAddr : option string;
  ov_RateLimitQPS : option Z;
  ov_UpstreamServers : option (list UpstreamServer);
  ov_UpstreamRoutes : option (list UpstreamRoute);
  ov_UpstreamBootstrap : option (list UpstreamServer);
  ov_CacheSize : option Z;
  ov_Records : option (list RecordEntry) }.
#[export] Instance InstanceOverride_eta : Eta InstanceOverride := λ o,
  mkOver (ov_Upstream o) (ov_BlockAction o) (ov_Log o) (ov_DoHHTTPAddr o) (ov_RateLimitQPS o) (ov_UpstreamServers o)
    (ov_UpstreamRoutes o) (ov_UpstreamBootstrap o) (ov_CacheSize o) (ov_Records o).
Definition no_override : InstanceOverride := mkOver None None None None None None None None None None.
Definition is_nil {A} (o : option A) : bool := match o with None => true | Some _ => false end.
Definition IsEmpty (o : option InstanceOverride) : bool :=
  match o with
  | None => true
  | Some o => is_nil (ov_Upstream o) && is_nil (ov_BlockAction o) && is_nil (ov_Log o) && is_nil (ov_DoHHTTPAddr o)
      && is_nil (ov_RateLimitQPS o) && is_nil (ov_UpstreamServers o) && is_nil (ov_UpstreamRoutes o)
      && is_nil (ov_UpstreamBootstrap o) && is_nil (ov_CacheSize o) && is_nil (ov_Records o)
  end.
(** A set field of the partial override wins. *)
Definition or_else {A} (new old : option A) : option A := match new with Some _ => new | None => old end.
Definition mergeOverride (existing partial : option InstanceOverride) : option InstanceOverride :=
  match partial, existing with
  | None, _ => existing
  | _, None => partial
  | Some p, Some e =>
      Some (mkOver (or_else (ov_Upstream p) (ov_Upstream e)) (or_else (ov_BlockAction p) (ov_BlockAction e))
        (or_else (ov_Log p) (ov_Log e)) (or_else (ov_DoHHTTPAddr p) (ov_DoHHTTPAddr e))
        (or_else (ov_RateLimitQPS p) (ov_RateLimitQPS e)) (or_else (ov_UpstreamServers p) (ov_UpstreamServers e))
        (or_else (ov_UpstreamRoutes p) (ov_UpstreamRoutes e)) (or_else (ov_UpstreamBootstrap p) (ov_UpstreamBootstrap e))
        (or_else (ov_CacheSize p) (ov_CacheSize e)) (or_else (ov_Records p) (ov_Records e)))
  end.
Record HACluster := mkHAC {
  hc_Enabled : bool; hc_PrimaryInstance : string; hc_SecondaryInstance : string; hc_Primary : HAConfig; hc_Secondary : HAConfig }.
#[export] Instance HACluster_eta : Eta HACluster := λ c,
  mkHAC (hc_Enabled c) (hc_PrimaryInstance c) (hc_SecondaryInstance c) (hc_Primary c) (hc_Secondary c).
Definition no_cluster : HACluster := mkHAC false "" "" empty_ha empty_ha.

(** ** An instance *)
Record Instance := mkInst {
  in_Config : InstanceConfig;
  in_client : Client;
  in_claimCode : string;
  in_running : bool;                         (* its poll and watch loops *)
  in_online : bool;
  in_health : option HealthResponse;
  in_stats : option StatsResponse;
  in_last : Z;
  in_err : string;
  in_pingSamples : Z;
  in_pingSumMs : Z;
  in_pingAvgMs : Z * Z;                      (* a quotient *)
  in_pingLastMs : Z;
  in_appliedHash : string;
  in_lastUpstr : string;
  in_blHash : Z;
  in_haHash : string;
  in_blPushing : bool;
  in_blRetryAfter : Z;
  in_blForeign : bool }.
#[export] Instance Instance_eta : Eta Instance := λ i,
  mkInst (in_Config i) (in_client i) (in_claimCode i) (in_running i) (in_online i) (in_health i) (in_stats i) (in_last i)
    (in_err i) (in_pingSamples i) (in_pingSumMs i) (in_pingAvgMs i) (in_pingLastMs i) (in_appliedHash i) (in_lastUpstr i)
    (in_blHash i) (in_haHash i) (in_blPushing i) (in_blRetryAfter i) (in_blForeign i).
Definition new_instance (cfg : InstanceConfig) (now : Z) : Instance :=
  mkInst cfg (NewClient (ic_URL cfg) (ic_Token cfg)) "" false false None None now "" 0 0 (0, 1) 0 "" "" 0 "" false zero_time false.
#[export] Instance Instance_inhabited : Inhabited Instance := populate (new_instance (mkICfg "" "" "" "" "") 0).
Definition hasToken (i : Instance) : bool := negb (str_eqb (ic_Token (in_Config i)) "").
Definition configApplied (hash : string) (i : Instance) : bool := str_eqb (in_appliedHash i) hash.
Definition markConfigAppliedWith (hash upstr : string) (i : Instance) : Instance :=
  i <| in_appliedHash := hash |> <| in_lastUpstr := upstr |>.
Definition haConfigApplied (hash : string) (i : Instance) : bool := str_eqb (in_haHash i) hash.
Definition markHAApplied (hash : string) (i : Instance) : Instance := i <| in_haHash := hash |>.
Definition foreignBlocklistDetected (i : Instance) : Instance * bool :=
  if in_blForeign i then (i, false) else (i <| in_blForeign := true |>, true).
Definition reportedBlocklistHash (s : option StatsResponse) : Z := match s with None => 0 | Some s => st_BlocklistHash s end.
Definition markBlocklistApplied (hash : Z) (i : Instance) : Instance := i <| in_blHash := hash |>.
Definition blocklistPushBackoff : Z := 60 * second.
Definition tryBeginBlocklistPush (now : Z) (i : Instance) : Instance * bool :=
  if in_blPushing i || time_before now (in_blRetryAfter i) then (i, false) else (i <| in_blPushing := true |>, true).
Definition finishBlocklistPush (now : Z) (failed : bool) (hash : Z) (i : Instance) : Instance :=
  let i := i <| in_blPushing := false |> in
  if failed then i <| in_blRetryAfter := now + blocklistPushBackoff |>
  else i <| in_blRetryAfter := zero_time |> <| in_blHash := hash |> <| in_blForeign := false |>.

(** ** Import and update jobs *)
Record SourceStat := mkSrcStat { sst_URL : string; sst_Domains : Z; sst_LastUpdate : Z; sst_Error : string }.
(** The fields of [BlocklistStatus] that the fleet stores; the others are
    filled in when the status is read. *)
Record BlocklistStatus := mkBLS {
  bs_Running : bool; bs_SourceTotal : Z; bs_SourceDone : Z; bs_CurrentURL : string; bs_Domains : Z; bs_LastUpdate : Z;
  bs_Errors : list string }.
#[export] Instance BlocklistStatus_eta : Eta BlocklistStatus := λ s,
  mkBLS (bs_Running s) (bs_SourceTotal s) (bs_SourceDone s) (bs_CurrentURL s) (bs_Domains s) (bs_LastUpdate s) (bs_Errors s).
Definition no_status : BlocklistStatus := mkBLS false 0 0 "" 0 zero_time [].
Record UpdateJobStatus := mkJob {
  uj_Running : bool; uj_Channel : string; uj_Current : string; uj_Total : Z; uj_Completed : Z;
  uj_Results : gmap string string; uj_Error : string; uj_StartedAt : Z; uj_FinishedAt : Z }.
#[export] Instance UpdateJobStatus_eta : Eta UpdateJobStatus := λ j,
  mkJob (uj_Running j) (uj_Channel j) (uj_Current j) (uj_Total j) (uj_Completed j) (uj_Results j) (uj_Error j)
    (uj_StartedAt j) (uj_FinishedAt j).
Definition no_job : UpdateJobStatus := mkJob false "" "" 0 0 ∅ "" zero_time zero_time.

(** ** The fleet *)
Record Fleet := mkFleet {
  fl_instances : gmap string nat;
  fl_heap : list Instance;
  fl_bus : Bus;
  fl_queryLog : bool;                        (* the databases were opened *)
  fl_blocklistDB : bool;
  fl_blocklist : Blocklist;
  fl_blocklistSources : list string;
  fl_blocklistDisabled : gset string;
  fl_blRunning : bool;
  fl_blGen : Z;
  fl_blCancel : bool;                        (* an import can be cancelled *)
  fl_blStatus : BlocklistStatus;
  fl_blLastStart : Z;
  fl_blLoading : bool;
  fl_sourceStats : list SourceStat;
  fl_importLog : list string;
  fl_manualDomains : gset string;
  fl_manualAllowed : gset string;
  fl_autoUpdateHours : Z;
  fl_configPath : string;
  fl_defaultPolicy : option WirePolicy;
  fl_overrides : gmap string InstanceOverride;
  fl_dohHTTPAddr : string;
  fl_rateLimitQPS : Z;
  fl_cacheSize : Z;
  fl_cacheConfigured : bool;
  fl_upstreamServers : list UpstreamServer;
  fl_upstreamRoutes : list UpstreamRoute;
  fl_upstreamBootstrap : list UpstreamServer;
  fl_qlRetentionHours : Z;
  fl_records : list RecordEntry;
  fl_haCluster : HACluster;
  fl_releaseChannel : string;
  fl_updateJob : UpdateJobStatus;
  fl_release : option releaseCheck }.
#[export] Instance Fleet_eta : Eta Fleet := λ f,
  mkFleet (fl_instances f) (fl_heap f) (fl_bus f) (fl_queryLog f) (fl_blocklistDB f) (fl_blocklist f)
    (fl_blocklistSources f) (fl_blocklistDisabled f) (fl_blRunning f) (fl_blGen f) (fl_blCancel f) (fl_blStatus f)
    (fl_blLastStart f) (fl_blLoading f) (fl_sourceStats f) (fl_importLog f) (fl_manualDomains f) (fl_manualAllowed f)
    (fl_autoUpdateHours f) (fl_configPath f) (fl_defaultPolicy f) (fl_overrides f) (fl_dohHTTPAddr f) (fl_rateLimitQPS f)
    (fl_cacheSize f) (fl_cacheConfigured f) (fl_upstreamServers f) (fl_upstreamRoutes f) (fl_upstreamBootstrap f)
    (fl_qlRetentionHours f) (fl_records f) (fl_haCluster f) (fl_releaseChannel f) (fl_updateJob f) (fl_release f).
Definition NewFleet (configPath : string) (queryLog blocklistDB : bool) : Fleet :=
  mkFleet ∅ [] (NewBus 500) queryLog blocklistDB Blocklist.New [] ∅ false 0 false no_status zero_time false [] [] ∅ ∅ 0
    configPath None ∅ "" 0 0 false [] [] [] 0 [] no_cluster "" no_job (Some newReleaseCheck).
(** The instance a pointer refers to, and an assignment to its fields. *)
Definition inst (p : nat) (f : Fleet) : Instance := fl_heap f !!! p.
Definition upd (p : nat) (g : Instance → Instance) (f : Fleet) : Fleet := f <| fl_heap ::= alter g p |>.
Definition get (id : string) (f : Fleet) : option nat := fl_instances f !! id.

(** ** Settings *)
Definition ReleaseChannel (f : Fleet) : string :=
  if ValidUpdateChannel (fl_releaseChannel f) then fl_releaseChannel f else ChannelStable.
Definition SetReleaseChannelDefault (channel : string) (f : Fleet) : Fleet * option string :=
  if negb (ValidUpdateChannel channel) then (f, Some "release channel must be stable or dev")
  else (f <| fl_releaseChannel := channel |>, None).
Definition startReleaseCheck (fetch : string → option download) (now : Z) (f : Fleet) : Fleet :=
  match fl_release f with None => f | Some r => f <| fl_release := Some (start fetch now (fl_releaseChannel f) r) |> end.
Definition UpdateAvailable (version : string) (f : Fleet) : bool :=
  match fl_release f with None => false | Some r => available (fl_releaseChannel f) version r end.
Definition LatestVersion (f : Fleet) : string :=
  match fl_release f with None => "" | Some r => rc_version (fl_releaseChannel f) r end.
Definition with_ID (id : string) (p : WirePolicy) : WirePolicy :=
  mkWire id (wp_Networks p) (wp_Clients p) (wp_Allow p) (wp_Block p) (wp_BlockAction p) (wp_Log p) (wp_Upstream p).
Definition fleet_SetDefault (p : option WirePolicy) (f : Fleet) : Fleet := f <| fl_defaultPolicy := with_ID "default" <$> p |>.
Definition SetOverride (id : string) (o : option InstanceOverride) (f : Fleet) : Fleet :=
  match o with
  | Some o' => if IsEmpty o then f else f <| fl_overrides ::= <[id := o']> |>
  | None => f
  end.
(** The assignment of [SetInstanceOverride]. *)
Definition put_override (id : string) (o : option InstanceOverride) (f : Fleet) : Fleet :=
  match o with
  | Some o' => if IsEmpty o then f <| fl_overrides ::= delete id |> else f <| fl_overrides ::= <[id := o']> |>
  | None => f <| fl_overrides ::= delete id |>
  end.
Definition InstanceOverrideOf (id : string) (f : Fleet) : option InstanceOverride := fl_overrides f !! id.
Definition InstanceOverrides (f : Fleet) : gmap string InstanceOverride := fl_overrides f.
Definition SetDoHDefault (addr : string) (f : Fleet) : Fleet := f <| fl_dohHTTPAddr := addr |>.
Definition SetRateLimitQPSDefault (qps : Z) (f : Fleet) : Fleet := f <| fl_rateLimitQPS := if qps <? 0 then 0 else qps |>.
Definition SetCacheDefault (size : Z) (f : Fleet) : Fleet :=
  f <| fl_cacheSize := if size <? 0 then 0 else size |> <| fl_cacheConfigured := true |>.
Definition SetUpstreamDefault (servers : list UpstreamServer) (routes : list UpstreamRoute) (bootstrap : list UpstreamServer)
    (f : Fleet) : Fleet :=
  f <| fl_upstreamServers := servers |> <| fl_upstreamRoutes := routes |> <| fl_upstreamBootstrap := bootstrap |>.
Definition fleet_Upstream (f : Fleet) : list UpstreamServer * list UpstreamRoute := (fl_upstreamServers f, fl_upstreamRoutes f).
Definition QueryLogRetentionHours (f : Fleet) : Z := if fl_qlRetentionHours f <=? 0 then 720 else fl_qlRetentionHours f.
Definition queryLogRetentionChoices : list Z := [24; 168; 720; 4320; 8760].
Definition ValidQueryLogRetentionHours (h : Z) : bool := existsb (Z.eqb h) queryLogRetentionChoices.
Definition CacheConfig (f : Fleet) : Z := fl_cacheSize f.
Definition put_records (l : list RecordEntry) (f : Fleet) : Fleet := f <| fl_records := l |>.

(** ** What an instance should have *)
Definition clonePolicy (p : WirePolicy) : WirePolicy :=
  mkWire (wp_ID p) (wp_Networks p) (wp_Clients p) (wp_Allow p) (wp_Block p) (wp_BlockAction p) (wp_Log p) (wp_Upstream p).
Definition effectivePolicy (instID : string) (f : Fleet) : option WirePolicy :=
  match fl_overrides f !! instID with
  | None => fl_defaultPolicy f
  | Some o =>
      let m := match clonePolicy <$> fl_defaultPolicy f with
               | Some m => m
               | None => mkWire "default" [] [] [] [] "" false ""
               end in
      Some (mkWire (wp_ID m) (wp_Networks m) (wp_Clients m) (wp_Allow m) (wp_Block m)
              (default (wp_BlockAction m) (ov_BlockAction o)) (default (wp_Log m) (ov_Log o))
              (default (wp_Upstream m) (ov_Upstream o)))
  end.
(** A field of the override, or the fleet-wide value. *)
Definition overridden {A} (field : InstanceOverride → option A) (fleet : A) (id : string) (f : Fleet) : A :=
  match fl_overrides f !! id with Some o => default fleet (field o) | None => fleet end.
Definition effectiveDoHHTTPAddr (id : string) (f : Fleet) : string := overridden ov_DoHHTTPAddr (fl_dohHTTPAddr f) id f.
Definition effectiveRateLimitQPS (id : string) (f : Fleet) : Z := overridden ov_RateLimitQPS (fl_rateLimitQPS f) id f.
Definition effectiveCacheConfig (id : string) (f : Fleet) : Z := overridden ov_CacheSize (fl_cacheSize f) id f.
Definition cacheConfiguredFor (id : string) (f : Fleet) : bool :=
  fl_cacheConfigured f || match fl_overrides f !! id with Some o => negb (is_nil (ov_CacheSize o)) | None => false end.
Definition effectiveUpstream (id : string) (f : Fleet) : list UpstreamServer * list UpstreamRoute * list UpstreamServer :=
  (overridden ov_UpstreamServers (fl_upstreamServers f) id f, overridden ov_UpstreamRoutes (fl_upstreamRoutes f) id f,
   overridden ov_UpstreamBootstrap (fl_upstreamBootstrap f) id f).
Definition fleet_records (id : string) (f : Fleet) : list RecordEntry :=
  effectiveRecords (fl_records f) (fl_overrides f !! id ≫= ov_Records).
Definition effectiveHABConfig (instID : string) (f : Fleet) : option HAConfig :=
  let c := fl_haCluster f in
  if negb (hc_Enabled c) then None
  else if str_eqb (hc_PrimaryInstance c) instID then Some (hc_Primary c)
  else if str_eqb (hc_SecondaryInstance c) instID then Some (hc_Secondary c)
  else None.

(** ** References to removed servers *)
Definition spec_ref (s : Spec) : string := s_Type s +:+ ":" +:+ s_Address s.
Definition specs_of (text : string) : list Spec := match ParseSpec text with Ok l => l | Err _ => [] end.
Definition serverRefs (servers : list UpstreamServer) : gset string :=
  list_to_set (servers ≫= λ sv, spec_ref <$> specs_of (sv_Address sv)).
Definition removedServerRefs (prev cur : list UpstreamServer) : gset string := serverRefs prev ∖ serverRefs cur.
Definition orphan_warning (owner text : string) (s : Spec) : string :=
  "policy " +:+ owner +:+ ": upstream " +:+ Quote text +:+ " routes to " +:+ Quote (s_Address s)
  +:+ " which is not in the configured server pool (deleted or never configured); clear the policy's upstream override to stop queries going there".
Definition check_orphan (hit : string → bool) (owner text : string) : list string :=
  if str_eqb text "" then []
  else match List.find (λ s, hit (spec_ref s)) (specs_of text) with
       | Some s => [orphan_warning owner text s]
       | None => []
       end.
(** [ids] is the order of the overrides. *)
Definition orphanPolicyUpstreams (ids : list string) (hit : string → bool) (f : Fleet) : list string :=
  match fl_defaultPolicy f with Some p => check_orphan hit ("default (" +:+ wp_ID p +:+ ")") (wp_Upstream p) | None => [] end
  ++ (ids ≫= λ id, match fl_overrides f !! id ≫= ov_Upstream with
                   | Some u => check_orphan hit ("instance " +:+ id) u
                   | None => []
                   end).
Definition warnRemovedPolicyUpstreams (ids : list string) (prev cur : list UpstreamServer) (f : Fleet) : list string :=
  let removed := removedServerRefs prev cur in
  if bool_decide (removed = ∅) then [] else orphanPolicyUpstreams ids (λ r, bool_decide (r ∈ removed)) f.
Definition WarnOrphanPolicyUpstreams (ids : list string) (servers : list UpstreamServer) (f : Fleet) : list string :=
  orphanPolicyUpstreams ids (λ r, negb (bool_decide (r ∈ serverRefs servers))) f.
Definition nul_byte : string := String zero "".
Definition bootstrapKey (servers : list UpstreamServer) : string :=
  Join ((λ sv, sv_Name sv +:+ nul_byte +:+ sv_Address sv +:+ nul_byte +:+ Itoa (sv_TimeoutSec sv) +:+ nul_byte) <$> servers) "".

(** ** High availability *)
Definition validateHACluster (c : HACluster) : option string :=
  let a := hc_Primary c in
  let b := hc_Secondary c in
  if negb (hc_Enabled c) then None
  else if negb (str_eqb (ha_AuthPass a) (ha_AuthPass b)) then Some "both nodes must use the same VRRP authentication password"
  else if str_eqb (hc_PrimaryInstance c) "" || str_eqb (hc_SecondaryInstance c) "" || str_eqb (hc_PrimaryInstance c) (hc_SecondaryInstance c)
  then Some "high availability requires two different instances"
  else if str_eqb (ha_VirtualIP a) "" || negb (str_eqb (ha_VirtualIP a) (ha_VirtualIP b))
  then Some "both nodes must use the same virtual IP"
  else if (ha_VirtualRouterID a <? 1) || (255 <? ha_VirtualRouterID a) || negb (ha_VirtualRouterID a =? ha_VirtualRouterID b)
  then Some "both nodes must use the same virtual router ID from 1 to 255"
  else if negb (str_eqb (ha_NodeRole a) "primary") || negb (str_eqb (ha_NodeRole b) "secondary")
  then Some "node roles must be primary and secondary"
  else if ha_Priority a <=? ha_Priority b then Some "primary priority must be higher than secondary priority"
  else if negb (str_eqb (ha_Mode a) (ha_Mode b)) then Some "both nodes must use the same VRRP mode"
  else None.
Definition SetHAClusterDefault (c : HACluster) (f : Fleet) : Fleet * option string :=
  match validateHACluster c with
  | Some e => (f, Some e)
  | None => (f <| fl_haCluster := c |>, None)
  end.
Definition haPriorityDelta : Z := 20.
Definition reducePriority (p peer : Z) : Z :=
  if p <=? 0 then p
  else
    let p := p - haPriorityDelta in
    let q := peer - 1 in
    let p := if q <? p then q else p in
    if p <? 1 then 1 else p.

(** ** Small helpers *)
Definition cleanURLs (urls : list string) : list string := filter (λ u, u ≠ "") (TrimSpace <$> urls).
Definition hasTraversal (p : string) : bool := existsb (λ el, str_eqb el "..") (Split p "/").
(** [ResolveTokenFile]; [read] is the file system. *)
Definition ResolveTokenFile (read : string → option string) (cfg : InstanceConfig) : InstanceConfig :=
  let t := ic_Token cfg in
  if (slen t <=? 1)%nat || negb (HasPrefix t "@" || HasPrefix t "/") then cfg
  else
    let p := if HasPrefix t "@" then sdrop 1 t else t in
    if hasTraversal p then cfg
    else match read p with Some b => cfg <| ic_Token := b |> | None => cfg end.
