(* ===== verification/FleetPush.v ===== *)
(** * The controller's fleet: distributing the configuration

    internal/controller/fleet.go: the file it saves, the setters that
    persist and push, the reconcilers ([maybePush*]) and the poll loop of an
    instance (internal/controller/instance.go).  A method is a step of the
    state monad [FM] over the fleet and the state [W] of everything outside it:
    the network ([Transport]), the clock, the configuration file and the query
    log database ([World]).  A method is one step here: what other goroutines
    do while it waits for the network is not interleaved. *)
From S2P Require Import Prelude GoStrings GoNet Records Blocklist Upstream Stats HA Update Control Bus Release Client BlocklistDB QueryLog Fleet.
#[local] Open Scope Z_scope.

(** The contents of the configuration file, as [saveConfig] reads and writes it. *)
Record FileConfig := mkFC {
  fc_Listen : string; fc_Username : string; fc_Password : string; fc_PasswordHash : string;
  fc_DefaultPolicy : option WirePolicy;
  fc_InstancePolicies : gmap string InstanceOverride;
  fc_DoHHTTPAddr : string;
  fc_RateLimitQPS : Z;
  fc_UpstreamServers : list UpstreamServer;
  fc_UpstreamRoutes : list UpstreamRoute;
  fc_UpstreamBootstrap : list UpstreamServer;
  fc_CacheSize : Z;
  fc_QueryLogRetentionHours : Z;
  fc_BlocklistSources : list string;
  fc_BlocklistDisabled : list string;
  fc_BlocklistUpdateHours : Z;
  fc_Instances : list InstanceConfig;
  fc_Records : list RecordEntry;
  fc_HACluster : HACluster;
  fc_ReleaseChannel : string }.
Definition empty_file : FileConfig :=
  mkFC "" "" "" "" None ∅ "" 0 [] [] [] 0 0 [] [] 0 [] [] no_cluster "".
(** What the fleet tells the query log. *)
Inductive log_call :=
| CallSample (e : StatsSample)
| CallInsert (e : QueryLogEntry)
| CallEnqueue (e : QueryLogEntry)
| CallError (e : UpstreamErr)
| CallRetention (d : Z).

(** The fingerprints: SHA-256 of the JSON text. *)
Class Fingerprints := {
  effectiveHash : WirePolicy → string;
  upstreamHash : list UpstreamServer * list UpstreamRoute * list UpstreamServer → string;
  haConfigHash : HAConfig → string }.
(** The rest of the world; [w_readConfig] gives the empty configuration for a
    missing file and an error for one that is not YAML; [w_range] is the order
    in which a range over a map visits its keys. *)
Class World (W : Type) := {
  w_transport :: Transport W;
  w_now : W → W * Z;
  w_range : W → list string → list string;
  w_readConfig : string → W → res string FileConfig;
  w_writeConfig : string → FileConfig → W → W * option string;
  w_log : log_call → W → W;
  w_blockLabel : string → W → res string string }.

Section Push.
Context {W : Type} `{!World W} `{!Fingerprints}.

(** ** The monad *)
Definition FM (A : Type) : Type := Fleet * W → (Fleet * W) * A.
#[local] Instance fm_mret : MRet FM := λ A a s, (s, a).
#[local] Instance fm_mbind : MBind FM := λ A B g m s, let '(s, a) := m s in g a s.
Definition read {A} (g : Fleet → A) : FM A := λ s, (s, g s.1).
Definition write (g : Fleet → Fleet) : FM unit := λ '(f, w), ((g f, w), ()).
Definition write' {A} (g : Fleet → Fleet * A) : FM A := λ '(f, w), let '(f, a) := g f in ((f, w), a).
Definition now : FM Z := λ '(f, w), let '(w, t) := w_now w in ((f, w), t).
Definition range (g : Fleet → list string) : FM (list string) := λ '(f, w), ((f, w), w_range w (g f)).
Definition logs (c : log_call) : FM unit := λ '(f, w), ((f, if fl_queryLog f then w_log c w else w), ()).
Definition publish (e : Z → Event) : FM unit := t ← now; write (λ f, f <| fl_bus ::= Publish (e t) |>).
(** A method of the client of an instance. *)
Definition ctl {A} (p : nat) (m : Client → W → W * res string A) : FM (res string A) :=
  λ '(f, w), let '(w, r) := m (in_client (inst p f)) w in ((f, w), r).
Definition cfg_of (p : nat) : FM InstanceConfig := read (λ f, in_Config (inst p f)).
Definition id_of (p : nat) : FM string := c ← cfg_of p; mret (ic_ID c).
Definition token_of (p : nat) : FM bool := read (λ f, hasToken (inst p f)).
(** A loop over a list. *)
Fixpoint each {A B} (l : list A) (b : B) (body : A → B → FM B) : FM B :=
  match l with [] => mret b | x :: l => b ← body x b; each l b body end.

(** ** The configuration file *)
Definition key_list {A} (m : gmap string A) : list string := (map_to_list m).*1.
(** What the fleet writes: the settings of the file it does not own are kept. *)
Definition file_of (c : FileConfig) (instances : list InstanceConfig) (disabled : list string) (f : Fleet) : FileConfig :=
  mkFC (fc_Listen c) (fc_Username c) (fc_Password c) (fc_PasswordHash c)
    (fl_defaultPolicy f) (fl_overrides f) (fl_dohHTTPAddr f) (fl_rateLimitQPS f)
    (fl_upstreamServers f) (fl_upstreamRoutes f) (fl_upstreamBootstrap f) (fl_cacheSize f) (QueryLogRetentionHours f)
    (fl_blocklistSources f) disabled (fl_autoUpdateHours f)
    instances (fl_records f) (fl_haCluster f) (ReleaseChannel f).
Definition saveConfig : FM (option string) := λ '(f, w),
  let path := fl_configPath f in
  if str_eqb path "" then ((f, w), None)
  else match w_readConfig path w with
  | Err e => ((f, w), Some e)
  | Ok c =>
      let instances := omap (λ id, p ← fl_instances f !! id; Some (in_Config (inst p f))) (w_range w (key_list (fl_instances f))) in
      let '(w, e) := w_writeConfig path (file_of c instances (w_range w (elements (fl_blocklistDisabled f))) f) w in ((f, w), e)
  end.
(** [if f.configPath != "" { if err := f.saveConfig() ... log }]. *)
Definition persist : FM unit := saveConfig;; mret ().

(** ** Pushing one setting to every instance *)
(** The registered instances, in the order of the range. *)
Definition insts : FM (list nat) := ids ← range (λ f, key_list (fl_instances f)); read (λ f, omap (λ id, fl_instances f !! id) ids).
Definition results := gmap string string.
Definition outcome {A} (r : res string A) : string := match r with Ok _ => "ok" | Err e => e end.
Definition push_all (one : nat → string → FM string) : FM results :=
  l ← insts;
  each l ∅ (λ p res,
    id ← id_of p;
    tok ← token_of p;
    r ← (if tok : bool then one p id else mret "not adopted");
    mret (<[id := r]> res)).
Definition pushDoH : FM results := push_all (λ p id,
  want ← read (effectiveDoHHTTPAddr id); r ← ctl p (c_SetDoHHTTPAddr want); mret (outcome r)).
Definition pushRateLimit : FM results := push_all (λ p id,
  qps ← read (effectiveRateLimitQPS id); r ← ctl p (c_SetRateLimit qps 0); mret (outcome r)).
Definition pushCache : FM results := push_all (λ p id,
  size ← read (effectiveCacheConfig id); r ← ctl p (c_SetCacheConfig size); mret (outcome r)).
Definition pushRecords : FM results := push_all (λ p id,
  want ← read (fleet_records id); r ← ctl p (c_SetRecords want); mret (outcome r)).
(** Neither servers nor routes: the fleet does not manage the upstream. *)
Definition unmanaged (u : list UpstreamServer * list UpstreamRoute * list UpstreamServer) : bool :=
  bool_decide (u.1.1 = []) && bool_decide (u.1.2 = []).
Definition set_upstream (u : list UpstreamServer * list UpstreamRoute * list UpstreamServer) (c : Client) : W → W * res string unit :=
  c_SetUpstream u.1.1 u.1.2 u.2 c.
Definition pushUpstream : FM results := push_all (λ p id,
  want ← read (effectiveUpstream id);
  if unmanaged want then mret "no upstream configured" else r ← ctl p (set_upstream want); mret (outcome r)).
(** [appliedHashFor]. *)
Definition hash_for (id : string) (f : Fleet) : string :=
  match effectivePolicy id f with Some p => effectiveHash p | None => "" end.
(** [pushConfigs]: no adoption test here. *)
Definition pushConfigs : FM results :=
  l ← insts;
  each l ∅ (λ p res,
    id ← id_of p;
    eff ← read (effectivePolicy id);
    match eff with
    | None => mret (<[id := "no config"]> res)
    | Some e =>
        r ← ctl p (c_SetPolicy e);
        match r with
        | Err t => mret (<[id := t]> res)
        | Ok _ => write (λ f, upd p (markConfigAppliedWith (hash_for id f) (wp_Upstream e)) f);; mret (<[id := "ok"]> res)
        end
    end).
Definition PurgeCache : FM (results * Z) :=
  l ← insts;
  each l (∅, 0) (λ p '(res, total),
    id ← id_of p;
    tok ← token_of p;
    if tok : bool then
      r ← ctl p c_PurgeCache;
      mret (match r with Ok n => (<[id := "ok"]> res, total + n) | Err e => (<[id := e]> res, total) end)
    else mret (<[id := "not adopted"]> res, total)).

(** ** The setters *)
Definition SetDefaultPolicy (p : option WirePolicy) : FM results := write (fleet_SetDefault p);; persist;; pushConfigs.
Definition fleet_SetDoHHTTPAddr (addr : string) : FM results := write (SetDoHDefault addr);; persist;; pushDoH.
Definition SetRateLimitQPS (qps : Z) : FM results := write (SetRateLimitQPSDefault qps);; persist;; pushRateLimit.
Definition SetCache (size : Z) : FM results := write (SetCacheDefault size);; persist;; pushCache.
Definition fleet_SetUpstream (servers : list UpstreamServer) (routes : list UpstreamRoute) (bootstrap : list UpstreamServer)
    : FM results := write (SetUpstreamDefault servers routes bootstrap);; persist;; pushUpstream.
Definition fleet_SetRecords (l : list RecordEntry) : FM results := write (put_records l);; persist;; pushRecords.
Definition SetQueryLogRetentionDefault (hours : Z) : FM unit :=
  write (λ f, f <| fl_qlRetentionHours := hours |>);;
  h ← read QueryLogRetentionHours; logs (CallRetention (h * hour)).
Definition SetQueryLogRetention (hours : Z) : FM results := SetQueryLogRetentionDefault hours;; persist;; mret ∅.
Definition SetReleaseChannel (channel : string) : FM (option string) :=
  e ← write' (SetReleaseChannelDefault channel);
  match e with Some _ => mret e | None => saveConfig end.

(** [pushInstance]: a later failure replaces the text of an earlier one. *)
Definition note (what : string) (acc : string) {A} (r : res string A) : string :=
  match r with Ok _ => acc | Err e => what +:+ e end.
Definition pushInstance (id : string) : FM results :=
  ip ← read (get id);
  match ip with
  | None => mret {[id := "unknown instance"]}
  | Some p =>
      eff ← read (effectivePolicy id);
      wantDoH ← read (effectiveDoHHTTPAddr id);
      wantSize ← read (effectiveCacheConfig id);
      tok ← token_of p;
      if negb tok then mret {[id := "not adopted"]}
      else
        r1 ← ctl p (c_SetDoHHTTPAddr wantDoH);
        r2 ← ctl p (c_SetCacheConfig wantSize);
        qps ← read (effectiveRateLimitQPS id);
        r3 ← ctl p (c_SetRateLimit qps 0);
        recs ← read (fleet_records id);
        r4 ← ctl p (c_SetRecords recs);
        let res := note "records: " (note "rate_limit: " (note "cache: " (note "doh: " "ok" r1) r2) r3) r4 in
        r5 ← match eff with
             | None => mret (Ok ())
             | Some e =>
                 r ← ctl p (c_SetPolicy e);
                 match r with
                 | Err t => mret (Err t)
                 | Ok _ => write (λ f, upd p (markConfigAppliedWith (hash_for id f) (wp_Upstream e)) f);; mret (Ok ())
                 end
             end;
        match r5 with
        | Err t => mret {[id := t]}
        | Ok _ =>
            want ← read (effectiveUpstream id);
            if unmanaged want then mret {[id := res]}
            else r6 ← ctl p (set_upstream want); mret {[id := note "upstream: " res r6]}
        end
  end.
Definition SetInstanceOverride (id : string) (o : option InstanceOverride) : FM results :=
  write (put_override id o);; persist;; pushInstance id.

(** ** The blocklist *)
Definition AllowedDomains (f : Fleet) : list string := merge_sort String.le (elements (fl_manualAllowed f)).
Definition syncAllowed (f : Fleet) : Fleet := f <| fl_blocklist ::= SetAllowed (AllowedDomains f) |>.
(** [List] and [Allowed] range over the sets of the list. *)
Definition blocklist_List (f : Fleet) (w : W) : list string :=
  let b := fl_blocklist f in List (w_range w (elements (bl_exact b))) (w_range w (elements (bl_wild b))).
Definition blocklist_Allowed (f : Fleet) (w : W) : list string :=
  let b := fl_blocklist f in Allowed (w_range w (elements (bl_allowExact b))) (w_range w (elements (bl_allowWild b))).
Definition lists : FM (list string * list string) := λ '(f, w), ((f, w), (blocklist_List f w, blocklist_Allowed f w)).
Definition pushBlocklist : FM results :=
  write syncAllowed;;
  l ← lists;
  hash ← read (λ f, Checksum (fl_blocklist f));
  push_all (λ p id,
    now;;
    r ← ctl p (c_SetBlocklist l.1 l.2);
    now;;
    match r with
    | Err e => mret e
    | Ok _ => write (upd p (markBlocklistApplied hash));; mret "ok"
    end).
Definition maybePushBlocklist (p : nat) (reported : option StatsResponse) : FM unit :=
  tok ← token_of p;
  loading ← read fl_blLoading;
  if negb tok || loading then mret ()
  else
    write syncAllowed;;
    hash ← read (λ f, Checksum (fl_blocklist f));
    let rep := reportedBlocklistHash reported in
    if rep =? hash then write (upd p (markBlocklistApplied hash))
    else
      pushed ← read (λ f, in_blHash (inst p f));
      (if rep =? pushed then mret () else write (λ f, upd p (λ i, (foreignBlocklistDetected i).1) f));;
      t ← now;
      ok ← read (λ f, (tryBeginBlocklistPush t (inst p f)).2);
      write (upd p (λ i, (tryBeginBlocklistPush t i).1));;
      if negb ok then mret ()
      else
        l ← lists;
        r ← ctl p (c_SetBlocklist l.1 l.2);
        t ← (match r with Err _ => now | Ok _ => mret 0 end);
        write (upd p (finishBlocklistPush t (negb (is_ok r)) hash)).

(** ** The reconcilers *)
(** The pushed setting diverges from the reported one. *)
Definition reconcile {A} (p : nat) (diverges : bool) (m : Client → W → W * res string A) : FM unit :=
  tok ← token_of p;
  if negb diverges || negb tok then mret () else ctl p m;; mret ().
Definition maybePushDoH (p : nat) (reported : option StatsResponse) : FM unit :=
  id ← id_of p;
  want ← read (effectiveDoHHTTPAddr id);
  reconcile p (negb (str_eqb (match reported with Some s => st_DohHTTPAddr s | None => "" end) want)) (c_SetDoHHTTPAddr want).
Definition maybePushRateLimit (p : nat) (reported : option StatsResponse) : FM unit :=
  id ← id_of p;
  want ← read (effectiveRateLimitQPS id);
  reconcile p (negb (match reported with Some s => st_RateLimitQPS s | None => -1 end =? want)) (c_SetRateLimit want 0).
Definition maybePushCache (p : nat) (reported : option StatsResponse) : FM unit :=
  id ← id_of p;
  configured ← read (cacheConfiguredFor id);
  if negb configured then mret ()
  else
    want ← read (effectiveCacheConfig id);
    reconcile p (negb (match reported with Some s => st_CacheSize s | None => -1 end =? want)) (c_SetCacheConfig want).
Definition maybePushUpstream (p : nat) (reported : option StatsResponse) : FM unit :=
  id ← id_of p;
  want ← read (effectiveUpstream id);
  if unmanaged want then mret ()
  else
    let rep := match reported with
               | Some s => upstreamHash (st_UpstreamServers s, st_UpstreamRoutes s, st_BootstrapServers s)
               | None => ""
               end in
    reconcile p (negb (str_eqb (upstreamHash want) rep)) (set_upstream want).
(** Whether and what to push is [maybePushRecords] of Records.v. *)
Definition reconcileRecords (p : nat) (reported : option StatsResponse) : FM unit :=
  id ← id_of p;
  tok ← token_of p;
  l ← read (λ f, maybePushRecords (fl_records f) (fl_overrides f !! id ≫= ov_Records) tok (st_RecordsHash <$> reported));
  match l with None => mret () | Some want => ctl p (c_SetRecords want);; mret () end.
Definition maybePushConfig (p : nat) (reported : option StatsResponse) : FM unit :=
  id ← id_of p;
  eff ← read (effectivePolicy id);
  hash ← read (hash_for id);
  tok ← token_of p;
  match eff with
  | None => mret ()
  | Some e =>
      if str_eqb hash "" || negb tok then mret ()
      else
        let rep := match reported with Some s => st_Upstream s | None => "" end in
        applied ← read (λ f, configApplied hash (inst p f));
        if applied && str_eqb rep (wp_Upstream e) then mret ()
        else
          r ← ctl p (c_SetPolicy e);
          match r with Ok _ => write (upd p (markConfigAppliedWith hash (wp_Upstream e))) | Err _ => mret () end
  end.
Definition setAndApplyHA (p : nat) (cfg : HAConfig) : FM (res string unit) :=
  r ← ctl p (c_SetHAConfig cfg);
  match r with Err e => mret (Err e) | Ok _ => ctl p c_ApplyHA end.
Definition maybePushHA (p : nat) : FM unit :=
  id ← id_of p;
  cfg ← read (effectiveHABConfig id);
  tok ← token_of p;
  match cfg with
  | None => mret ()
  | Some c =>
      updating ← read (λ f, uj_Running (fl_updateJob f) && str_eqb (uj_Current (fl_updateJob f)) id);
      applied ← read (λ f, haConfigApplied (haConfigHash c) (inst p f));
      if negb tok || updating || applied then mret ()
      else
        r ← setAndApplyHA p c;
        match r with
        | Err _ => mret ()
        | Ok _ => write (λ f, upd p (markHAApplied (match effectiveHABConfig id f with Some c => haConfigHash c | None => "" end)) f)
        end
  end.

(** ** Polling *)
Definition poll_entry (t : Z) (label : string) : QueryLogEntry :=
  mkQE 0 t label "controller" "" "health_check" "POLL" "" "" "" "" [] [] 0 false.
(** What [poll] records of its two requests; [ms] is their latency. *)
Definition record_health (now ms : Z) (h : res string HealthResponse) (i : Instance) : Instance :=
  match h with
  | Ok h =>
      let n := in_pingSamples i + 1 in
      let sum := in_pingSumMs i + ms in
      i <| in_online := true |> <| in_health := Some h |> <| in_last := now |> <| in_err := "" |>
        <| in_pingSamples := n |> <| in_pingSumMs := sum |> <| in_pingAvgMs := (sum, n) |> <| in_pingLastMs := ms |>
  | Err e => i <| in_online := false |> <| in_err := e |>
  end.
Definition record_stats (s : res string StatsResponse) (i : Instance) : Instance :=
  match s with Ok s => i <| in_stats := Some s |> <| in_lastUpstr := st_Upstream s |> | Err _ => i end.
Definition ok_of {A} (r : res string A) : option A := match r with Ok a => Some a | Err _ => None end.
Definition reconcile_all (p : nat) (s : option StatsResponse) : FM unit :=
  maybePushConfig p s;; maybePushDoH p s;; maybePushRateLimit p s;; maybePushCache p s;; maybePushUpstream p s;;
  maybePushBlocklist p s;; reconcileRecords p s;; maybePushHA p.
Definition poll (p : nat) : FM unit :=
  start ← now;
  h ← ctl p c_Health;
  s ← ctl p c_Stats;
  stop ← now;
  t ← (match h with Ok _ => now | Err _ => mret 0 end);
  write (upd p (record_health t (Z.quot (time_sub stop start) 1000000) h));;
  write (upd p (record_stats s));;
  c ← cfg_of p;
  (match s with
   | Ok s => t ← now; logs (CallSample (mkSample t (ic_ID c) (st_QueriesTotal s) (st_BlockedTotal s) (st_UpstreamErr s) (st_DurationTotalUs s)))
   | Err _ => mret ()
   end);;
  match h with
  | Err _ => mret ()
  | Ok hr =>
      publish (λ t, mkFleetEvent (ic_ID c) (ic_Label c) "health" t (Some hr) (ok_of s) "" "" "" "" [] [] false "" 0);;
      reconcile_all p (ok_of s);;
      match s with Ok _ => t ← now; logs (CallInsert (poll_entry t (ic_Label c))) | Err _ => mret () end
  end.
End Push.

(** ** Running a method *)
Section Run.
Context {W : Type}.
#[local] Existing Instance fm_mret.
#[local] Existing Instance fm_mbind.
Implicit Types s : Fleet * W.
Lemma bind_at {A B} (m : FM A) (k : A → FM B) s : (m ≫= k) s = k (m s).2 (m s).1.
Proof. unfold mbind, fm_mbind. by destruct (m s). Qed.
Lemma read_at {A B} (g : Fleet → A) (k : A → FM B) s : (read g ≫= k) s = k (g s.1) s.
Proof. done. Qed.
Lemma bind_assoc_at {A B C} (m : FM A) (k : A → FM B) (l : B → FM C) s : ((m ≫= k) ≫= l) s = (m ≫= λ a, k a ≫= l) s.
Proof. unfold mbind, fm_mbind. by destruct (m s). Qed.
End Run.

(** ** What a method leaves alone *)
Section Keeps.
Context {W : Type} `{!World W} `{!Fingerprints} {B : Type} (g : Fleet → B).
#[local] Existing Instance fm_mret.
#[local] Existing Instance fm_mbind.
Definition keeps {A} (m : FM (W := W) A) : Prop := ∀ s, g (m s).1.1 = g s.1.
Lemma keeps_ret {A} (a : A) : keeps (mret a).
Proof. done. Qed.
Lemma keeps_bind {A C} (m : FM A) (k : A → FM C) : keeps m → (∀ a, keeps (k a)) → keeps (m ≫= k).
Proof.
  intros Hm Hk s. unfold mbind, fm_mbind. specialize (Hm s). destruct (m s) as [s' a]. cbn in *. by rewrite Hk.
Qed.
Lemma keeps_read {A} (h : Fleet → A) : keeps (read h).
Proof. done. Qed.
Lemma keeps_write h : (∀ f, g (h f) = g f) → keeps (write h).
Proof. intros Hh [f w]. apply Hh. Qed.
Lemma keeps_write' {A} (h : Fleet → Fleet * A) : (∀ f, g (h f).1 = g f) → keeps (write' h).
Proof. intros Hh [f w]. cbn. specialize (Hh f). by destruct (h f). Qed.
Lemma keeps_now : keeps now.
Proof. intros [f w]. cbn. by destruct (w_now w). Qed.
Lemma keeps_range h : keeps (range h).
Proof. by intros [f w]. Qed.
Lemma keeps_logs c : keeps (logs c).
Proof. by intros [f w]. Qed.
Lemma keeps_lists : keeps lists.
Proof. by intros [f w]. Qed.
Lemma keeps_ctl {A} p (m : Client → W → W * res string A) : keeps (ctl p m).
Proof. intros [f w]. cbn. by destruct (m _ w). Qed.
Lemma keeps_saveConfig : keeps saveConfig.
Proof.
  intros [f w]. unfold saveConfig. destruct (str_eqb _ _); [done|]. destruct (w_readConfig _ w); [|done].
  by destruct (w_writeConfig _ _ w).
Qed.
Lemma keeps_each {A C} (l : list A) (b : C) body : (∀ x c, keeps (body x c)) → keeps (each l b body).
Proof. intros Hb. revert b. induction l as [|x l IH]; intros b; [apply keeps_ret|]. by apply keeps_bind. Qed.
Lemma keeps_publish e : (∀ f b, g (f <| fl_bus := b |>) = g f) → keeps (publish e).
Proof. intros Hb. apply keeps_bind; [apply keeps_now|]. intros t. apply keeps_write. intros f. apply Hb. Qed.
End Keeps.
#[export] Hint Resolve keeps_ret keeps_read keeps_now keeps_range keeps_logs keeps_lists keeps_ctl keeps_saveConfig : keeps.
(** [keep] proves that a method keeps a component, by its structure. *)
Ltac keep :=
  repeat first
    [ done
    | progress auto with keeps
    | apply keeps_bind; [|intros]
    | apply keeps_each; intros
    | apply keeps_publish; intros
    | apply keeps_write; intros
    | apply keeps_write'; intros
    | match goal with |- keeps _ (match ?x with _ => _ end) => destruct x end ].
