(* ===== verification/FleetOps.v ===== *)
(** * The controller's fleet: instances, high availability and staged updates

    internal/controller/fleet.go, instance.go and update.go: registering,
    adopting and removing instances, the watch stream, the status shown for an
    instance, the high availability operations and the update job.  Same monad
    as FleetPush.v. *)
From S2P Require Import Prelude GoStrings GoNet Records Blocklist Upstream Stats HA Update Control Bus Release Client BlocklistDB QueryLog Fleet FleetPush.
#[local] Open Scope Z_scope.

Record InstanceStatus := mkIS {
  is_ID : string; is_Label : string; is_URL : string; is_Online : bool; is_Adopted : bool; is_ConfigSynced : bool;
  is_BlocklistSynced : bool; is_Health : option HealthResponse; is_Stats : option StatsResponse; is_LastOK : Z;
  is_Err : string; is_PingAvgMs : Z * Z; is_PingLastMs : Z; is_PingSamples : Z; is_UpdateAvailable : bool;
  is_LatestVersion : string }.
(** How the update of one node went on: the answers of the updater's status
    and of the health check, one round of the poll after the other. *)
Inductive phase := PStart | PUpdating | PRestart.
#[export] Instance phase_eq_dec : EqDecision phase.
Proof. solve_decision. Defined.

Section Ops.
Context {W : Type} `{!World W} `{!Fingerprints}.
#[local] Existing Instance fm_mret.
#[local] Existing Instance fm_mbind.
Notation FM := (FM (W := W)).

(** ** Registering and adopting *)
Definition unknown (id : string) : string := "controller: unknown instance " +:+ id.
(** The instance named [id], or the error of a method about an unknown one. *)
Definition with_instance {A} (id : string) (k : nat → FM (res string A)) : FM (res string A) :=
  ip ← read (get id); match ip with None => mret (Err (unknown id)) | Some p => k p end.
Definition label_of (p : nat) : FM string := c ← cfg_of p; mret (ic_Label c).
Definition Adopt (id code : string) : FM (res string unit) :=
  with_instance id (λ p,
    seeded ← read (λ f, in_claimCode (inst p f));
    let code := if str_eqb code "" && negb (str_eqb seeded "") then seeded else code in
    r ← ctl p (c_Adopt code);
    match r with
    | Err e => mret (Err e)
    | Ok a =>
        if negb (ar_Adopted a) then mret (Err ("controller: adoption rejected: " +:+ ar_Message a))
        else
          (if str_eqb (ar_Token a) "" then mret ()
           else
             write (upd p (λ i, i <| in_Config ::= λ c, c <| ic_Token := ar_Token a |> |> <| in_claimCode := "" |>
                                  <| in_client := NewClient (ic_URL (in_Config i)) (ar_Token a) |>));;
             persist;;
             maybePushConfig p None;;
             maybePushBlocklist p None);;
          label ← label_of p;
          publish (λ t, fleet_event id label "status" t "adopted" "");;
          mret (Ok ())
    end).
Definition register (cfg : InstanceConfig) (t : Z) (f : Fleet) : Fleet :=
  f <| fl_heap ::= λ h, h ++ [new_instance cfg t <| in_running := true |>] |>
    <| fl_instances ::= <[ic_ID cfg := length (fl_heap f)]> |>.
Definition fleet_Add (cfg : InstanceConfig) : FM (res string unit) :=
  if str_eqb (ic_ID cfg) "" then mret (Err "controller: instance requires id")
  else if str_eqb (ic_URL cfg) "" then mret (Err ("controller: instance " +:+ ic_ID cfg +:+ " requires url"))
  else
    let cfg := if str_eqb (ic_Label cfg) "" then cfg <| ic_Label := ic_ID cfg |> else cfg in
    t ← now;
    write (register cfg t);;
    persist;;
    (if str_eqb (ic_Claim cfg) "" then mret ()
     else
       r ← Adopt (ic_ID cfg) (ic_Claim cfg);
       match r with
       | Ok _ => mret ()
       | Err e => publish (λ t, fleet_event (ic_ID cfg) (ic_Label cfg) "status" t ("adopt failed: " +:+ e) "")
       end);;
    mret (Ok ()).
Definition stop (i : Instance) : Instance := i <| in_running := false |>.
Definition fleet_Remove (id : string) : FM unit :=
  ip ← read (get id);
  write (λ f, f <| fl_instances ::= delete id |>);;
  (match ip with Some p => write (upd p stop) | None => mret () end);;
  persist.
Definition SetClaimCode (id code : string) : FM unit :=
  ip ← read (get id); match ip with Some p => write (upd p (λ i, i <| in_claimCode := code |>)) | None => mret () end.
Definition SetLabel (id label : string) : FM (res string unit) :=
  with_instance id (λ p,
    write (upd p (λ i, i <| in_Config ::= λ c, c <| ic_Label := label |> |>));;
    publish (λ t, fleet_event id label "status" t "label updated" "");; mret (Ok ())).

(** ** Calls of one instance *)
Definition RestartInstance (id : string) : FM (res string unit) :=
  ip ← read (get id);
  match ip with
  | None => mret (Err ("instance " +:+ Quote id +:+ " not found"))
  | Some p => r ← ctl p c_Restart; mret (match r with Ok _ => Ok () | Err e => Err ("restart " +:+ id +:+ ": " +:+ e) end)
  end.
Definition fleet_SetPolicy (id : string) (pol : WirePolicy) : FM (res string unit) :=
  with_instance id (λ p,
    r ← ctl p (c_SetPolicy pol);
    match r with
    | Err e => mret (Err e)
    | Ok _ =>
        label ← label_of p;
        publish (λ t, fleet_event id label "policy" t ("set " +:+ wp_ID pol) (wp_ID pol));; mret (Ok ())
    end).
Definition GetAdoptStatus (id : string) : FM (res string AdoptStatus) := with_instance id (λ p, ctl p c_AdoptStatus).
Definition ResetAdoption (id : string) : FM (res string unit) :=
  with_instance id (λ p,
    r ← ctl p c_ResetAdoption;
    match r with
    | Err e => mret (Err e)
    | Ok _ => label ← label_of p; publish (λ t, fleet_event id label "status" t "adoption reset" "");; mret (Ok ())
    end).
Definition DeletePolicy (id policyID : string) : FM (res string unit) := with_instance id (λ p, ctl p (c_DeletePolicy policyID)).
Definition ListPolicies (id : string) : FM (res string (option WirePolicy * list WirePolicy)) :=
  with_instance id (λ p, ctl p c_ListPolicies).

(** ** The watch stream *)
Definition resolveBlockList (src domain : string) : FM string := λ '(f, w),
  ((f, w),
   if str_eqb src "" || str_eqb src "global" then
     match (if fl_blocklistDB f then w_blockLabel domain w else Ok "") with
     | Ok label => if str_eqb label "" then "global blocklist" else label
     | Err _ => "global blocklist"
     end
   else src).
Definition watch_entry (label block : string) (e : WatchEvent) : QueryLogEntry :=
  mkQE 0 (ev_At e) label (ev_Client e) "" (ev_Domain e) (ToUpper (ev_Type e)) (ev_Proto e) (ev_Upstream e) block (ev_QType e)
    (ev_IPs e) (ev_Answers e) (ev_DurationUs e) (ev_Cached e).
Definition on_watch (p : nat) (e : WatchEvent) : FM unit :=
  c ← cfg_of p;
  write (λ f, f <| fl_bus ::= Publish (mkFleetEvent (ic_ID c) (ic_Label c) (ev_Type e) (ev_At e) None (ev_Stats e) (ev_Client e)
    (ev_Domain e) (ev_Msg e) (ev_QType e) (ev_IPs e) (ev_Answers e) (ev_Cached e) (ev_Upstream e) (ev_DurationUs e)) |>);;
  (if str_eqb (ev_Type e) "block" || str_eqb (ev_Type e) "pass" then
     block ← (if str_eqb (ev_Type e) "block" then resolveBlockList (ev_BlockList e) (ev_Domain e) else mret "");
     logs (CallEnqueue (watch_entry (ic_Label c) block e))
   else mret ());;
  (if str_eqb (ev_Type e) "error" then logs (CallError (mkUErr (ev_At e) (ic_Label c) (ev_Domain e) (ev_Msg e))) else mret ()).

(** ** Status *)
Definition wantConfig (id : string) (f : Fleet) : option (string * string) :=
  match effectivePolicy id f with
  | Some e => if str_eqb (effectiveHash e) "" then None else Some (effectiveHash e, wp_Upstream e)
  | None => None
  end.
Definition status (p : nat) (f : Fleet) : InstanceStatus :=
  let i := inst p f in
  let c := in_Config i in
  let synced := match wantConfig (ic_ID c) f with
                | Some (hash, up) => configApplied hash i && (str_eqb up "" || str_eqb (in_lastUpstr i) up)
                | None => true
                end in
  let sum := Checksum (fl_blocklist f) in
  mkIS (ic_ID c) (ic_Label c) (ic_URL c) (in_online i) (hasToken i) synced
    (negb (sum =? 0) && (sum =? reportedBlocklistHash (in_stats i))) (in_health i) (in_stats i) (in_last i) (in_err i)
    (in_pingAvgMs i) (in_pingLastMs i) (in_pingSamples i)
    (match in_health i with Some h => UpdateAvailable (hr_Version h) f | None => false end)
    (match in_health i with Some _ => LatestVersion f | None => "" end).
Definition fleet_List : FM (list InstanceStatus) := l ← insts; read (λ f, (λ p, status p f) <$> l).
Definition fleet_Health : FM (gmap string (option HealthResponse)) :=
  l ← fleet_List; mret (foldl (λ m s, <[is_ID s := is_Health s]> m) ∅ l).

(** ** High availability *)
Definition HAStatuses : FM (gmap string HAStatus) :=
  l ← insts;
  each l ∅ (λ p out,
    id ← id_of p;
    r ← ctl p c_HAStatus;
    mret (<[id := match r with Ok st => st | Err e => mkHAStatus false false false false "UNAVAILABLE" "" e false end]> out)).
Definition haNode (id : string) : FM (res string nat) :=
  with_instance id (λ p, tok ← token_of p;
    mret (if tok : bool then Ok p else Err ("controller: instance " +:+ id +:+ " is not adopted"))).
Definition lift_err (e : option string) : res string unit := match e with None => Ok () | Some t => Err t end.
Definition setHAClusterPersisted (c : HACluster) : FM (res string unit) :=
  e ← write' (SetHAClusterDefault c);
  match e with
  | Some t => mret (Err t)
  | None => e ← saveConfig; mret (lift_err e)
  end.
Definition prefixed (what : string) (r : res string unit) : res string unit := match r with Ok _ => r | Err e => Err (what +:+ e) end.
Definition pushHAConfigToCluster (c : HACluster) : FM (res string unit) :=
  a ← haNode (hc_PrimaryInstance c);
  match a with
  | Err e => mret (Err e)
  | Ok a =>
      b ← haNode (hc_SecondaryInstance c);
      match b with
      | Err e => mret (Err e)
      | Ok b =>
          r ← ctl a (c_SetHAConfig (hc_Primary c));
          match r with
          | Err e => mret (Err ("primary: " +:+ e))
          | Ok _ => r ← ctl b (c_SetHAConfig (hc_Secondary c)); mret (prefixed "secondary: " r)
          end
      end
  end.
Definition DisableHA (c : HACluster) : FM (res string unit) :=
  let off := c <| hc_Enabled := false |> in
  if str_eqb (hc_PrimaryInstance c) "" && str_eqb (hc_SecondaryInstance c) "" then setHAClusterPersisted off
  else
    r ← each [hc_PrimaryInstance c; hc_SecondaryInstance c] (Ok ()) (λ id r,
      match r with
      | Err e => mret (Err e)
      | Ok _ =>
          if str_eqb id "" then mret (Ok ())
          else
            n ← haNode id;
            match n with
            | Err e => mret (Err e)
            | Ok p =>
                r ← ctl p c_DisableHA;
                match r with
                | Err e => mret (Err (id +:+ ": " +:+ e))
                | Ok _ => write (upd p (markHAApplied ""));; mret (Ok ())
                end
            end
      end);
    match r with Err e => mret (Err e) | Ok _ => setHAClusterPersisted off end.
Definition SetHACluster (c : HACluster) : FM (res string unit) :=
  match validateHACluster c with
  | Some e => mret (Err e)
  | None =>
      if negb (hc_Enabled c) then
        cur ← read fl_haCluster;
        let keep new old := if str_eqb new "" then old else new in
        DisableHA (c <| hc_PrimaryInstance := keep (hc_PrimaryInstance c) (hc_PrimaryInstance cur) |>
                     <| hc_SecondaryInstance := keep (hc_SecondaryInstance c) (hc_SecondaryInstance cur) |>)
      else
        r ← pushHAConfigToCluster c;
        match r with Err e => mret (Err e) | Ok _ => setHAClusterPersisted c end
  end.
(** The two members in turn, stopping at the first error. *)
Definition members (c : HACluster) (body : string → nat → FM (res string unit)) : FM (res string unit) :=
  each [hc_PrimaryInstance c; hc_SecondaryInstance c] (Ok ()) (λ id r,
    match r with
    | Err e => mret (Err e)
    | Ok _ => n ← haNode id; match n with Err e => mret (Err e) | Ok p => body id p end
    end).
Definition fleet_ValidateHA (c : HACluster) : FM (res string unit) :=
  match validateHACluster c with
  | Some e => mret (Err e)
  | None => members c (λ id p, r ← ctl p c_ValidateHA; mret (prefixed (id +:+ ": ") r))
  end.
Definition fleet_ApplyHA (c : HACluster) : FM (res string unit) :=
  r ← fleet_ValidateHA c;
  match r with
  | Err e => mret (Err e)
  | Ok _ =>
      members c (λ id p,
        r ← ctl p c_ApplyHA;
        match r with
        | Err e => mret (Err (id +:+ " apply failed after earlier node(s) may have applied: " +:+ e))
        | Ok _ =>
            let cfg := if str_eqb id (hc_PrimaryInstance c) then hc_Primary c else hc_Secondary c in
            write (upd p (markHAApplied (haConfigHash cfg)));; mret (Ok ())
        end)
  end.
(** The member's own configuration with its priority lowered below its peer's. *)
Definition with_priority (n : Z) (c : HAConfig) : HAConfig :=
  mkHA (ha_Enabled c) (ha_Mode c) (ha_NodeRole c) (ha_Interface c) (ha_SourceIP c) (ha_PeerIP c) (ha_VirtualIP c)
    (ha_VirtualRouterID c) n (ha_AdvertIntervalSec c) (ha_AuthPass c).
Definition member_config (degraded : bool) (c : HACluster) (id : string) : option HAConfig :=
  let lower a b := if degraded then with_priority (reducePriority (ha_Priority a) (ha_Priority b)) a else a in
  if negb (hc_Enabled c) || str_eqb id "" then None
  else if str_eqb (hc_PrimaryInstance c) id then Some (lower (hc_Primary c) (hc_Secondary c))
  else if str_eqb (hc_SecondaryInstance c) id then Some (lower (hc_Secondary c) (hc_Primary c))
  else None.
(** [degradeHAPriority] and [restoreHAPriority]. *)
Definition put_priority (degraded : bool) (what done_msg id : string) : FM (res string unit) :=
  c ← read fl_haCluster;
  match member_config degraded c id with
  | None => mret (Ok ())
  | Some cfg =>
      n ← haNode id;
      match n with
      | Err e => mret (Err e)
      | Ok p =>
          r ← setAndApplyHA p cfg;
          match r with
          | Err e => mret (Err (what +:+ ": " +:+ e))
          | Ok _ =>
              write (upd p (markHAApplied (haConfigHash cfg)));;
              publish (λ t, fleet_event id "" "status" t done_msg "");; mret (Ok ())
          end
      end
  end.
Definition degradeHAPriority (id : string) : FM (res string unit) :=
  put_priority true "degrade HA priority" "HA priority degraded for update" id.
Definition restoreHAPriority (id : string) : FM (res string unit) :=
  put_priority false "restore HA priority" "HA priority restored" id.

(** ** Staged updates *)
Definition setUpdateCurrent (id : string) (f : Fleet) : Fleet := f <| fl_updateJob ::= λ j, j <| uj_Current := id |> |>.
Definition finishUpdate (now : Z) (id result failure : string) (f : Fleet) : Fleet :=
  f <| fl_updateJob ::= λ j,
    let j := j <| uj_Results ::= <[id := result]> |> in
    if str_eqb failure "" then j <| uj_Completed ::= Z.succ |>
    else j <| uj_Error := failure |> <| uj_Running := false |> <| uj_Current := "" |> <| uj_FinishedAt := now |> |>.
Definition updateNodeTimeout : string := "10m0s".
(** The phase after the status poll of a round: [None] is the failure the
    remote updater reports. *)
Definition next_phase (ph : phase) (st : res string UpdateStatus) : res string phase :=
  match st with
  | Err _ => Ok (match ph with PStart => PStart | _ => PRestart end)
  | Ok s =>
      if us_Running s then Ok PUpdating
      else match ph with
           | PUpdating | PRestart => Ok PRestart
           | PStart => if str_eqb (us_LastError s) "" then Ok PRestart else Err ("remote updater: " +:+ us_LastError s)
           end
  end.
(** After the restart the node must answer a health request. *)
Definition health_gate (p : nat) (ph : phase) : FM bool :=
  match ph with PRestart => r ← ctl p c_Health; mret (is_ok r) | _ => mret false end.
(** The loop of [updateOne]; [rounds] is the number of ticks that come before
    the time is up. *)
Fixpoint await_update (rounds : nat) (p : nat) (ph : phase) : FM (res string unit) :=
  st ← ctl p c_UpdateStatus;
  match next_phase ph st with
  | Err e => mret (Err e)
  | Ok ph =>
      ok ← health_gate p ph;
      if ok : bool then mret (Ok ())
      else match rounds with
           | O => mret (Err ("node did not return online within " +:+ updateNodeTimeout))
           | S rounds => await_update rounds p ph
           end
  end.
Definition updateOne (rounds : nat) (p : nat) (channel : string) : FM (res string unit) :=
  r ← ctl p (c_StartUpdate channel);
  match r with Err e => mret (Err e) | Ok _ => await_update rounds p PStart end.
(** [runUpdateJob]; [rounds] gives the ticks of each node. *)
Fixpoint runUpdateJob (rounds : string → nat) (nodes : list (string * nat)) (channel : string) : FM unit :=
  match nodes with
  | [] =>
      t ← now;
      write (λ f, f <| fl_updateJob ::= λ j, j <| uj_Running := false |> <| uj_Current := "" |> <| uj_FinishedAt := t |> |>)
  | (id, p) :: nodes =>
      write (setUpdateCurrent id);;
      degradeHAPriority id;;
      r ← updateOne (rounds id) p channel;
      match r with
      | Err e => t ← now; write (finishUpdate t id ("failed: " +:+ e) e);; restoreHAPriority id;; mret ()
      | Ok _ => write (finishUpdate 0 id "updated" "");; restoreHAPriority id;; runUpdateJob rounds nodes channel
      end
  end.
(** The adopted nodes in the order of their names. *)
Definition update_nodes (f : Fleet) : list (string * nat) :=
  filter (λ n, hasToken (inst n.2 f) = true)
    (omap (λ id, p ← fl_instances f !! id; Some (id, p)) (merge_sort String.le (key_list (fl_instances f)))).
(** [StartUpdates] up to the goroutine it starts: the nodes of the job. *)
Definition StartUpdates (channel : string) : FM (res string (UpdateJobStatus * list (string * nat))) :=
  if negb (ValidUpdateChannel channel) then mret (Err "release channel must be stable or dev")
  else
    nodes ← read update_nodes;
    running ← read (λ f, uj_Running (fl_updateJob f));
    if running : bool then mret (Err "an instance update is already running")
    else
      t ← now;
      let job := mkJob true channel "" (Z.of_nat (length nodes)) 0 ∅ "" t zero_time in
      write (λ f, f <| fl_updateJob := job |>);; mret (Ok (job, nodes)).
End Ops.

(** ** Demonstrations *)
(** A network of nodes that accept everything, but for those at http://down;
    its state is the list of the requests. *)
Definition demo_reply : reply :=
  mkReply 200 "" (Ok (mkHealth 0 0 "v1.0.0" 0)) (Err "json") (Err "json") (Ok 0) (Err "json")
    (Ok (mkAdoptResponse true "t0k" "")) (Err "json") (Err "json") (Ok no_update).
#[export] Instance demo_transport : Transport (list client_request) := λ r l,
  (l ++ [r], if str_eqb (cq_Base r) "http://down" then Err "connection refused" else Ok demo_reply).
#[export] Instance demo_world : World (list client_request) := {|
  w_transport := demo_transport;
  w_now l := (l, Z.of_nat (length l) * second);
  w_range _ l := l;
  w_readConfig _ _ := Ok empty_file;
  w_writeConfig _ _ l := (l, None);
  w_log _ l := l;
  w_blockLabel _ _ := Ok "" |}.
#[export] Instance demo_fingerprints : Fingerprints := {|
  effectiveHash p := "p" +:+ wp_Upstream p +:+ wp_BlockAction p;
  upstreamHash u := "u" +:+ bootstrapKey u.1.1;
  haConfigHash c := "h" +:+ Itoa (ha_Priority c) |}.
Definition demo_config (id url : string) : InstanceConfig := mkICfg id url "s3cret" id "".
Definition demo_fleet : Fleet :=
  register (demo_config "c" "http://c") 0 (register (demo_config "b" "http://down") 0
    (register (demo_config "a" "http://a") 0 (NewFleet "" false false))).
(** Registering a name a second time replaces the instance without stopping
    the loops of the first one. *)
Example add_twice_keeps_polling :
  let s := (fleet_Add (demo_config "a" "http://new") (demo_fleet, [])).1 in
  in_running (inst 0 s.1) = true ∧ get "a" s.1 = Some 3%nat ∧ ic_URL (in_Config (inst 3 s.1)) = "http://new".
Proof. vm_compute. auto. Qed.
