(* ===== verification/UpdateJob.v ===== *)
(** * Staged updates

    The update job of internal/controller/update.go ([runUpdateJob] of
    FleetOps.v) as the nodes see it: the requests of a run, in their order, and
    how the job ends.  A run is observed in a world that notes every request
    and its answer. *)
From S2P Require Import Prelude GoStrings GoNet GoUrl Records Blocklist Upstream Stats HA Update Control Bus Release Client BlocklistDB QueryLog Fleet FleetPush FleetOps.
#[local] Open Scope Z_scope.

(** ** Requests noted *)
Notation call := (client_request * res string reply)%type.
Record noted (W : Type) := mkNoted { nt_world : W; nt_calls : list call }.
Arguments mkNoted {W}.
Arguments nt_world {W}.
Arguments nt_calls {W}.
Definition noting {W A} (f : W → W * A) (w : noted W) : noted W * A :=
  let '(w', a) := f (nt_world w) in (mkNoted w' (nt_calls w), a).
#[export] Instance noted_transport {W} `{!Transport W} : Transport (noted W) := λ r w,
  let '(w', a) := roundTrip r (nt_world w) in (mkNoted w' (nt_calls w ++ [(r, a)]), a).
#[export] Instance noted_world {W} `{!World W} : World (noted W) := {|
  w_transport := noted_transport;
  w_now := noting w_now;
  w_range w := w_range (nt_world w);
  w_readConfig path w := w_readConfig path (nt_world w);
  w_writeConfig path c := noting (w_writeConfig path c);
  w_log c w := mkNoted (w_log c (nt_world w)) (nt_calls w);
  w_blockLabel domain w := w_blockLabel domain (nt_world w) |}.

(** ** The requests of one node's turn *)
Definition accepted (a : res string reply) : bool := match a with Ok r => negb (400 <=? rp_status r) | Err _ => false end.
Definition healthy (a : res string reply) : bool :=
  match a with Ok r => negb (400 <=? rp_status r) && is_ok (rp_health r) | Err _ => false end.
Definition put_ha (cl : Client) (cfg : HAConfig) : client_request := client_req cl "PUT" "/api/v1/ha" (PHA cfg).
Definition apply_ha (cl : Client) : client_request := client_req cl "POST" "/api/v1/ha/apply" PNone.
Definition start_update (cl : Client) (channel : string) : client_request :=
  client_req cl "POST" ("/api/v1/update?channel=" +:+ QueryEscape channel) PNone.
Definition get_update (cl : Client) : client_request := client_req cl "GET" "/api/v1/update" PNone.
Definition get_health (cl : Client) : client_request := client_req cl "GET" "/api/v1/health" PNone.
(** The configuration is sent, and applied when it was accepted. *)
Definition ha_calls (cl : Client) (cfg : HAConfig) (l : list call) : Prop :=
  ∃ a, if accepted a then ∃ b, l = [(put_ha cl cfg, a); (apply_ha cl, b)] else l = [(put_ha cl cfg, a)].
Definition member_calls (cl : Client) (o : option HAConfig) (l : list call) : Prop :=
  match o with None => l = [] | Some cfg => ha_calls cl cfg l end.
(** The update is asked for and, when it was accepted, followed up; it
    succeeds with the node's answer to a health request. *)
Definition update_calls (cl : Client) (channel : string) (done : bool) (l : list call) : Prop :=
  ∃ a u, l = (start_update cl channel, a) :: u
    ∧ Forall (λ c, c.1 = get_update cl ∨ c.1 = get_health cl) u
    ∧ (if done then accepted a = true ∧ ∃ u' h, u = u' ++ [(get_health cl, h)] ∧ healthy h = true
       else accepted a = false → u = []).
(** The turn of node [n]: lower its priority if it is a member of the pair,
    update it, give it its own configuration back. *)
Definition node_calls (f : Fleet) (channel : string) (n : string * nat) (done : bool) (l : list call) : Prop :=
  let cl := in_client (inst n.2 f) in
  ∃ d u r, l = d ++ u ++ r
    ∧ member_calls cl (member_config true (fl_haCluster f) n.1) d
    ∧ update_calls cl channel done u
    ∧ member_calls cl (member_config false (fl_haCluster f) n.1) r.
(** The requests of a job that updated the first [k] nodes: their turns, then
    that of the node it stopped at, and nothing more. *)
Definition job_calls (f : Fleet) (channel : string) (nodes : list (string * nat)) (k : nat) (l : list call) : Prop :=
  ∃ turns last, l = concat turns ++ last
    ∧ Forall2 (λ n turn, node_calls f channel n true turn) (take k nodes) turns
    ∧ match nodes !! k with Some n => node_calls f channel n false last | None => last = [] end.

(** ** The requests of a method *)
Section Sends.
Context {W : Type} `{!World W} `{!Fingerprints} (f0 : Fleet).
#[local] Existing Instance fm_mret.
#[local] Existing Instance fm_mbind.
Notation FM := (FM (W := noted W)).
(** What the requests of a job depend on. *)
Definition same_nodes (f : Fleet) : Prop :=
  fl_instances f = fl_instances f0 ∧ fl_haCluster f = fl_haCluster f0 ∧
  ∀ p, in_client (inst p f) = in_client (inst p f0) ∧ hasToken (inst p f) = hasToken (inst p f0).
(** [m] makes the requests [l] and returns [a] with [P l a]. *)
Definition sends {A} (P : list call → A → Prop) (m : FM A) : Prop := ∀ f w l, same_nodes f →
  ∃ f' w' l' a, m (f, mkNoted w l) = ((f', mkNoted w' (l ++ l')), a) ∧ same_nodes f' ∧ P l' a.
Lemma sends_ret {A} (P : list call → A → Prop) a : P [] a → sends P (mret a).
Proof. intros HP f w l Hf. exists f, w, [], a. by rewrite List.app_nil_r. Qed.
Lemma sends_bind {A B} (P : list call → A → Prop) (Q : list call → B → Prop) m k :
  sends P m → (∀ l a, P l a → sends (λ l' b, Q (l ++ l') b) (k a)) → sends Q (m ≫= k).
Proof.
  intros Hm Hk f w l Hf. destruct (Hm f w l Hf) as (f1 & w1 & l1 & a & E1 & Hf1 & H1).
  destruct (Hk l1 a H1 f1 w1 (l ++ l1) Hf1) as (f2 & w2 & l2 & b & E2 & Hf2 & H2).
  exists f2, w2, (l1 ++ l2), b. split; [|done]. unfold mbind, fm_mbind. by rewrite E1, E2, List.app_assoc.
Qed.
Lemma sends_weaken {A} (P Q : list call → A → Prop) m : sends P m → (∀ l a, P l a → Q l a) → sends Q m.
Proof. intros Hm HPQ f w l Hf. destruct (Hm f w l Hf) as (f' & w' & l' & a & ? & ? & ?). exists f', w', l', a. auto. Qed.
Lemma sends_read {A} (g : Fleet → A) : (∀ f, same_nodes f → g f = g f0) → sends (λ l a, l = [] ∧ a = g f0) (read g).
Proof. intros Hg f w l Hf. exists f, w, [], (g f). rewrite List.app_nil_r, <- (Hg f Hf). done. Qed.
Lemma sends_now : sends (λ l _, l = []) now.
Proof.
  intros f w l Hf. unfold now. cbn. unfold noting. cbn. destruct (w_now w) as [w' t]. exists f, w', [], t. by rewrite List.app_nil_r.
Qed.
Lemma sends_write g : (∀ f, same_nodes f → same_nodes (g f)) → sends (λ l _, l = []) (write g).
Proof. intros Hg f w l Hf. exists (g f), w, [], (). rewrite List.app_nil_r. auto. Qed.
Lemma sends_publish e : sends (λ l _, l = []) (publish e).
Proof.
  eapply sends_bind; [apply sends_now|]. intros l t ->. eapply sends_weaken; [apply sends_write; by intros f Hf|]. by intros l a ->.
Qed.
(** One request to the instance at [p]. *)
Lemma sends_do {A} p what method path b (out : reply → res string A) :
  sends (λ l r, ∃ a, l = [(client_req (in_client (inst p f0)) method path b, a)]
     ∧ r = match a with Err e => Err e | Ok r => if 400 <=? rp_status r then Err (status_error what r) else out r end)
    (ctl p (λ c, do_as c what method path b out)).
Proof.
  intros f w l Hf. unfold ctl, do_as, roundTrip at 1. cbn. unfold noted_transport. cbn.
  destruct Hf as (H1 & H2 & H3). rewrite (proj1 (H3 p)). destruct (roundTrip _ w) as [w' a].
  exists f, w', [(client_req (in_client (inst p f0)) method path b, a)],
    (match a with Err e => Err e | Ok r => if 400 <=? rp_status r then Err (status_error what r) else out r end).
  destruct a as [r|e]; (split; [done|]); (split; [done|]); by eexists.
Qed.

(** ** The requests of the job's methods *)
Lemma same_upd p g f : (∀ i, in_client (g i) = in_client i ∧ hasToken (g i) = hasToken i) → same_nodes f → same_nodes (upd p g f).
Proof.
  intros Hg (H1 & H2 & H3). split_and!; [done..|]. intros q. unfold upd, inst. cbn.
  specialize (H3 q). unfold inst in H3. destruct (decide (p = q)) as [->|Hne].
  - rewrite list_lookup_total_alt, list_lookup_alter. rewrite list_lookup_total_alt in H3.
    rewrite decide_True by done. destruct (fl_heap f !! q) as [i|]; cbn [fmap option_fmap option_map default] in *; [|done].
    destruct H3 as [<- <-]. apply Hg.
  - by rewrite list_lookup_total_alter_ne.
Qed.
Lemma sends_setAndApplyHA p cfg :
  sends (λ l _, ha_calls (in_client (inst p f0)) cfg l) (setAndApplyHA p cfg).
Proof.
  eapply sends_bind; [apply sends_do|]. intros l r (a & -> & ->). unfold ha_calls.
  destruct a as [r|e]; [destruct (400 <=? rp_status r) eqn:E|].
  - apply sends_ret. exists (Ok r). unfold accepted. by rewrite E.
  - eapply sends_weaken; [apply sends_do|]. intros l x (b & -> & _). exists (Ok r). unfold accepted. rewrite E. by exists b.
  - apply sends_ret. by exists (Err e).
Qed.
Lemma sends_haNode id p :
  get id f0 = Some p → hasToken (inst p f0) = true → sends (λ l r, l = [] ∧ r = Ok p) (haNode id).
Proof.
  intros Hid Ht. eapply sends_bind; [apply (sends_read (get id)); intros f (E & _); unfold get; by rewrite E|].
  intros l o [-> ->]. rewrite Hid. eapply sends_bind; [apply (sends_read (λ f, hasToken (inst p f))); intros f (_ & _ & E); apply E|].
  intros l b [-> ->]. rewrite Ht. by apply sends_ret.
Qed.
Lemma sends_put_priority d x y id p :
  get id f0 = Some p → hasToken (inst p f0) = true →
  sends (λ l _, member_calls (in_client (inst p f0)) (member_config d (fl_haCluster f0) id) l) (put_priority d x y id).
Proof.
  intros Hid Ht. eapply sends_bind; [apply (sends_read fl_haCluster); by intros f (_ & E & _)|]. intros l c [-> ->].
  destruct (member_config _ _ _) as [cfg|]; [|by apply sends_ret]. cbn [app member_calls].
  eapply sends_bind; [by apply sends_haNode|]. intros l n [-> ->]. cbn [app].
  eapply sends_bind; [apply sends_setAndApplyHA|]. intros l r Hl. destruct r as [[]|e]; [|apply sends_ret; by rewrite List.app_nil_r].
  eapply sends_bind; [apply sends_write; intros f; by apply same_upd|]. intros ? ? ->.
  eapply sends_bind; [apply sends_publish|]. intros ? ? ->. apply sends_ret. by rewrite !List.app_nil_r.
Qed.
#[local] Ltac polls := repeat first [done|by left|by right|constructor].
Lemma sends_await rounds p ph :
  let cl := in_client (inst p f0) in
  sends (λ l r, Forall (λ c, c.1 = get_update cl ∨ c.1 = get_health cl) l
     ∧ (is_ok r = true → ∃ u h, l = u ++ [(get_health cl, h)] ∧ healthy h = true)) (await_update rounds p ph).
Proof.
  intros cl. revert ph. induction rounds as [|n IH]; intros ph; cbn [await_update].
  all: eapply sends_bind; [apply sends_do|]; intros l st (a & -> & _);
    destruct (next_phase ph st) as [ph'|e]; [|apply sends_ret; split; [polls|done]].
  all: eapply (sends_bind (λ l ok, (l = [] ∧ ok = false) ∨ ∃ h, l = [(get_health cl, h)] ∧ ok = healthy h));
    [destruct ph'; try (apply sends_ret; by left);
     eapply sends_bind; [apply sends_do|]; intros l r (h & -> & ->); apply sends_ret; right; exists h; split; [done|];
     unfold healthy; by destruct h as [r|]; [destruct (400 <=? rp_status r)|]|].
  all: intros l ok Hl; destruct ok.
  1,3: apply sends_ret; destruct Hl as [[_ [=]]|(h & -> & Hh)]; split;
    [polls|intros _; by exists [(get_update cl, a)], h].
  - apply sends_ret. split; [|done]. destruct Hl as [[-> _]|(h & -> & _)]; polls.
  - eapply sends_weaken; [apply IH|]. intros l' r [Hf Hr]. split.
    + destruct Hl as [[-> _]|(h & -> & _)]; polls.
    + intros Ho. destruct (Hr Ho) as (u & h & -> & Hh). exists ((get_update cl, a) :: l ++ u), h. split; [|done]. cbn. by rewrite !List.app_assoc.
Qed.
Lemma sends_updateOne rounds p channel :
  sends (λ l r, update_calls (in_client (inst p f0)) channel (is_ok r) l) (updateOne rounds p channel).
Proof.
  eapply sends_bind; [apply sends_do|]. intros l r (a & -> & ->).
  destruct a as [r|e]; [destruct (400 <=? rp_status r) eqn:E|].
  - apply sends_ret. by eexists (Ok r), [].
  - eapply sends_weaken; [apply sends_await|]. intros l x [Hf Hx]. exists (Ok r), l. split; [done|]. split; [done|].
    unfold accepted. rewrite E. destruct x; [|done]. split; [done|]. by apply Hx.
  - apply sends_ret. by eexists (Err e), [].
Qed.
End Sends.

(** ** Yielding the virtual address *)
Lemma reducePriority_bounds p peer :
  1 ≤ p → 1 ≤ reducePriority p peer ≤ p ∧ (2 ≤ peer → reducePriority p peer < peer).
Proof.
  intros Hp. unfold reducePriority, haPriorityDelta. destruct (p <=? 0) eqn:E; bools; [lia|].
  destruct (peer - 1 <? p - 20) eqn:E1; bools; [destruct (peer - 1 <? 1) eqn:E2|destruct (p - 20 <? 1) eqn:E2]; bools; lia.
Qed.

(** ** The update job *)
Section Job.
Context {W : Type} `{!World W} `{!Fingerprints}.
#[local] Existing Instance fm_mret.
#[local] Existing Instance fm_mbind.

Lemma job_setAndApplyHA p c : keeps fl_updateJob (setAndApplyHA (W := W) p c).
Proof. unfold setAndApplyHA. keep. Qed.
Lemma job_haNode id : keeps fl_updateJob (haNode (W := W) id).
Proof. unfold haNode, with_instance, token_of. keep. Qed.
Lemma job_put_priority d x y id : keeps fl_updateJob (put_priority (W := W) d x y id).
Proof.
  unfold put_priority. apply keeps_bind; [apply keeps_read|]. intros c. destruct (member_config d c id); [|apply keeps_ret].
  apply keeps_bind; [apply job_haNode|]. intros [n|e]; [|apply keeps_ret].
  apply keeps_bind; [apply job_setAndApplyHA|]. intros [|]; keep.
Qed.
Lemma job_await rounds p ph : keeps fl_updateJob (await_update (W := W) rounds p ph).
Proof. revert ph. induction rounds as [|n IH]; intros ph; cbn [await_update]; unfold health_gate; keep; apply IH. Qed.
Lemma job_updateOne rounds p ch : keeps fl_updateJob (updateOne (W := W) rounds p ch).
Proof. unfold updateOne. keep. apply job_await. Qed.
(** The errors of an update are not empty. *)
Lemma await_text rounds p ph s e : (await_update (W := W) rounds p ph s).2 = Err e → e ≠ "".
Proof.
  revert ph s. induction rounds as [|n IH]; intros ph s; cbn [await_update]; unfold mbind, fm_mbind.
  all: destruct (ctl p c_UpdateStatus s) as [s1 st]; destruct (next_phase ph st) as [ph'|t] eqn:En;
    [|intros [= <-]; unfold next_phase in En; destruct st as [st|]; [|done]; destruct (us_Running st); [done|]; destruct ph; try done;
      destruct (str_eqb _ _); [done|]; by injection En as <-].
  all: destruct (health_gate p ph' s1) as [s2 ok]; destruct ok; [done|].
  - by intros [= <-].
  - apply IH.
Qed.
(** A failed call has an error text. *)
Context (errors_have_text : ∀ r (w w' : W) e, roundTrip r w = (w', Err e) → e ≠ "").
Lemma updateOne_text rounds p ch s e : (updateOne (W := W) rounds p ch s).2 = Err e → e ≠ "".
Proof.
  unfold updateOne, mbind, fm_mbind. destruct s as [f w]. unfold ctl, c_StartUpdate, do, do_as.
  destruct (roundTrip _ w) as [w1 [r|t]] eqn:Hr.
  - destruct (400 <=? rp_status r); [by intros [= <-]|apply await_text].
  - intros [= <-]. by eapply errors_have_text.
Qed.

End Job.
Definition updated (ids : list string) (m : gmap string string) : gmap string string :=
  foldl (λ m id, <[id := "updated"]> m) m ids.
(** How the job ends: [k] nodes were updated; a node after them failed with [e], or there was none left. *)
Definition job_ended (nodes : list (string * nat)) (k : nat) (j0 j : UpdateJobStatus) : Prop :=
  uj_Running j = false ∧ uj_Current j = "" ∧ uj_Completed j = uj_Completed j0 + Z.of_nat k ∧
    ((k = length nodes ∧ uj_Error j = uj_Error j0 ∧ uj_Results j = updated nodes.*1 (uj_Results j0))
     ∨ ∃ id p, nodes !! k = Some (id, p) ∧ uj_Error j ≠ "" ∧
         uj_Results j = <[id := "failed: " +:+ uj_Error j]> (updated (take k nodes).*1 (uj_Results j0))).
(** The turns of the nodes are one after the other. *)
Lemma job_ended_cons id p nodes k now f f1 j :
  fl_updateJob f1 = fl_updateJob (setUpdateCurrent id f) →
  job_ended nodes k (fl_updateJob (finishUpdate now id "updated" "" f1)) j →
  job_ended ((id, p) :: nodes) (S k) (fl_updateJob f) j.
Proof.
  unfold finishUpdate. change (str_eqb "" "") with true. cbn. intros -> (H1 & H2 & H3 & Hc). cbn in *. split; [done|]. split; [done|]. split; [rewrite H3; lia|].
  destruct Hc as [(-> & ? & ?)|(id' & p' & ? & ? & ?)]; [by left|]. right. by exists id', p'.
Qed.
Lemma job_ended_failed id p nodes now f f1 e :
  e ≠ "" → fl_updateJob f1 = fl_updateJob (setUpdateCurrent id f) →
  job_ended ((id, p) :: nodes) 0 (fl_updateJob f) (fl_updateJob (finishUpdate now id ("failed: " +:+ e) e f1)).
Proof.
  intros He Hj. unfold finishUpdate. cbn. rewrite Hj. pose proof He as He'. apply str_eqb_neq in He'. rewrite He'.
  split; [done|]. split; [done|]. split; [cbn; lia|]. right. by exists id, p.
Qed.

Lemma named_NoDup {A} (m : gmap string A) l :
  NoDup l → NoDup ((omap (λ id, p ← m !! id; Some (id, p)) l).*1)
  ∧ ∀ x, x ∈ (omap (λ id, p ← m !! id; Some (id, p)) l).*1 → x ∈ l.
Proof.
  induction 1 as [|id l Hid Hl [IH1 IH2]]; [split; [constructor|done]|]. csimpl. destruct (m !! id); cbn.
  - split; [constructor; [|done]; intros H; by apply Hid, IH2|]. intros x [->|H]%elem_of_cons; [left|right; auto].
  - split; [done|]. intros x H. right. auto.
Qed.
Lemma filter_NoDup_fst {A B} (P : A * B → Prop) `{!∀ x, Decision (P x)} (l : list (A * B)) :
  NoDup l.*1 → NoDup (filter P l).*1.
Proof.
  induction l as [|[a b] l IH]; [done|]. intros [Ha Hl]%NoDup_cons. rewrite filter_cons. case_decide; [|auto].
  cbn. constructor; [|auto]. intros (y & Hya & Hy)%list_elem_of_fmap. apply Ha, list_elem_of_fmap. exists y.
  by apply list_elem_of_filter in Hy as [_ Hy].
Qed.
Lemma update_nodes_NoDup f : NoDup (update_nodes f).*1.
Proof.
  apply filter_NoDup_fst, named_NoDup. rewrite merge_sort_Permutation. apply NoDup_fst_map_to_list.
Qed.
Lemma updated_lookup ids m id : updated ids m !! id = if decide (id ∈ ids) then Some "updated" else m !! id.
Proof.
  unfold updated. induction ids as [|x ids IH] using rev_ind; [done|]. rewrite foldl_app. cbn.
  destruct (decide (x = id)) as [->|Hne].
  - rewrite lookup_insert_eq, decide_True; [done|]. apply elem_of_app. right. by left.
  - rewrite lookup_insert_ne, IH by done. destruct (decide (id ∈ ids)), (decide (id ∈ ids ++ [x])) as [H|H]; try done.
    + destruct H. apply elem_of_app. by left.
    + apply elem_of_app in H as [?|?%list_elem_of_singleton]; congruence.
Qed.
Lemma take_named (nodes : list (string * nat)) k i id p :
  NoDup nodes.*1 → nodes !! i = Some (id, p) → id ∈ (take k nodes).*1 ↔ (i < k)%nat.
Proof.
  intros Hn Hi. rewrite fmap_take. split.
  - intros (j & Hj)%list_elem_of_lookup. apply lookup_take_Some in Hj as [Hj Hjk].
    assert (i = j) as -> by (eapply NoDup_lookup; [exact Hn| |exact Hj]; by rewrite list_lookup_fmap, Hi). done.
  - intros Hk. apply list_elem_of_lookup. exists i. apply lookup_take_Some. split; [|done]. by rewrite list_lookup_fmap, Hi.
Qed.

Lemma StartUpdates_run {W} `{!World W} `{!Fingerprints} channel f (w : W) :
  StartUpdates channel (f, w) =
    if negb (ValidUpdateChannel channel) then ((f, w), Err "release channel must be stable or dev")
    else if uj_Running (fl_updateJob f) then ((f, w), Err "an instance update is already running")
    else
      let job := mkJob true channel "" (Z.of_nat (length (update_nodes f))) 0 ∅ "" (w_now w).2 zero_time in
      ((f <| fl_updateJob := job |>, (w_now w).1), Ok (job, update_nodes f)).
Proof.
  unfold StartUpdates. destruct (negb _); [done|]. unfold mbind, fm_mbind, read, mret, fm_mret. cbn [fst].
  destruct (uj_Running _); [done|]. unfold now. by destruct (w_now w).
Qed.


(** ** The run of a job *)
Section Run.
Context {W : Type} `{!World W} `{!Fingerprints}.
#[local] Existing Instance fm_mret.
#[local] Existing Instance fm_mbind.
Context (errors_have_text : ∀ r (w w' : W) e, roundTrip r w = (w', Err e) → e ≠ "").
Lemma noted_text r (w w' : noted W) e : roundTrip r w = (w', Err e) → e ≠ "".
Proof.
  unfold roundTrip. cbn. unfold noted_transport. destruct (roundTrip r (nt_world w)) as [w1 a] eqn:E. intros [= <- ->].
  by eapply errors_have_text.
Qed.
Lemma sends_keeps {A} f0 (P : list call → A → Prop) (m : FM (W := noted W) A) f w l :
  sends f0 P m → keeps fl_updateJob m → same_nodes f0 f →
  ∃ f' w' l' a, m (f, mkNoted w l) = ((f', mkNoted w' (l ++ l')), a) ∧ same_nodes f0 f' ∧ P l' a ∧ fl_updateJob f' = fl_updateJob f.
Proof.
  intros Hm Hk Hf. destruct (Hm f w l Hf) as (f' & w' & l' & a & E & ? & ?). exists f', w', l', a. split_and!; [done..|].
  specialize (Hk (f, mkNoted w l)). by rewrite E in Hk.
Qed.
(** A node is asked to yield and updated. *)
Lemma ask_run rounds f0 f w l id p channel :
  same_nodes f0 f → get id f0 = Some p → hasToken (inst p f0) = true →
  ∃ f' w' d u r, updateOne rounds p channel (degradeHAPriority id (f, mkNoted w l)).1 = ((f', mkNoted w' (l ++ d ++ u)), r)
    ∧ same_nodes f0 f' ∧ member_calls (in_client (inst p f0)) (member_config true (fl_haCluster f0) id) d
    ∧ update_calls (in_client (inst p f0)) channel (is_ok r) u ∧ fl_updateJob f' = fl_updateJob f ∧ ∀ e, r = Err e → e ≠ "".
Proof.
  intros Hf Hid Ht.
  destruct (sends_keeps f0 _ (degradeHAPriority id) f w l (sends_put_priority _ _ _ _ _ _ Hid Ht) (job_put_priority _ _ _ _) Hf)
    as (f1 & w1 & d & a & E1 & Hf1 & Hd & J1).
  destruct (sends_keeps f0 _ _ f1 w1 (l ++ d) (sends_updateOne _ rounds p channel) (job_updateOne _ _ _) Hf1)
    as (f2 & w2 & u & r & E2 & Hf2 & Hu & J2).
  exists f2, w2, d, u, r. rewrite E1. cbn [fst]. rewrite E2, List.app_assoc. split_and!; try done; [congruence|].
  intros e ->. eapply (updateOne_text (W := noted W)); [apply noted_text|]. by rewrite E2.
Qed.
Lemma restore_run f0 f w l id p :
  same_nodes f0 f → get id f0 = Some p → hasToken (inst p f0) = true →
  ∃ f' w' r a, restoreHAPriority id (f, mkNoted w l) = ((f', mkNoted w' (l ++ r)), a) ∧ same_nodes f0 f'
    ∧ member_calls (in_client (inst p f0)) (member_config false (fl_haCluster f0) id) r ∧ fl_updateJob f' = fl_updateJob f.
Proof.
  intros Hf Hid Ht. exact (sends_keeps f0 _ (restoreHAPriority id) f w l (sends_put_priority _ _ _ _ _ _ Hid Ht) (job_put_priority _ _ _ _) Hf).
Qed.
Definition of_job (f : Fleet) (n : string * nat) : Prop := get n.1 f = Some n.2 ∧ hasToken (inst n.2 f) = true.
Lemma runUpdateJob_run rounds f0 channel nodes f w l :
  Forall (of_job f0) nodes → same_nodes f0 f →
  ∃ f' w' calls k, runUpdateJob rounds nodes channel (f, mkNoted w l) = ((f', mkNoted w' (l ++ calls)), ())
    ∧ job_ended nodes k (fl_updateJob f) (fl_updateJob f') ∧ job_calls f0 channel nodes k calls.
Proof.
  intros Hn. revert f w l. induction Hn as [|[id p] nodes [Hid Ht] Hn IH]; intros f w l Hf; cbn [runUpdateJob].
  { unfold mbind, fm_mbind, now. cbn [w_now noted_world]. unfold noting. cbn [nt_world nt_calls]. destruct (w_now w) as [w1 t].
    eexists _, w1, [], 0%nat. rewrite List.app_nil_r. split; [done|].
    split; [unfold job_ended; cbn; split_and!; [done..|lia|by left]|]. exists [], []. split_and!; [done|constructor|done]. }
  rewrite bind_at. cbn [fst snd write]. rewrite bind_at. cbn [fst snd]. rewrite bind_at. cbn [fst snd].
  destruct (ask_run (rounds id) f0 (setUpdateCurrent id f) w l id p channel Hf Hid Ht)
    as (f1 & w1 & d & u & r & E & Hf1 & Hd & Hu & J1 & He). rewrite E. cbn [fst snd]. clear E.
  destruct r as [[]|e].
  - rewrite bind_at. cbn [fst snd write]. rewrite bind_at.
    destruct (restore_run f0 (finishUpdate 0 id "updated" "" f1) w1 (l ++ d ++ u) id p Hf1 Hid Ht)
      as (f2 & w2 & q & a & E & Hf2 & Hq & J2). rewrite E. cbn [fst snd]. clear E.
    destruct (IH f2 w2 ((l ++ d ++ u) ++ q) Hf2) as (f3 & w3 & calls & k & E & Hj & turns & last & -> & Ht2 & Hl).
    exists f3, w3, (concat ((d ++ u ++ q) :: turns) ++ last), (S k). split; [rewrite E; cbn [concat]; by rewrite <- !List.app_assoc|].
    rewrite J2 in Hj. split; [by eapply job_ended_cons|].
    exists ((d ++ u ++ q) :: turns), last. split; [done|]. split; [|done]. cbn [take]. constructor; [by exists d, u, q|done].
  - specialize (He e eq_refl). rewrite bind_at. destruct (sends_now f0 f1 w1 (l ++ d ++ u) Hf1) as (f2 & w2 & q0 & t & E & Hf2 & ->).
    rewrite E. cbn [fst snd write]. rewrite bind_at. cbn [fst snd write]. rewrite bind_at.
    assert (f2 = f1) as -> by (cbn in E; unfold noting in E; cbn in E; destruct (w_now w1); congruence). rewrite List.app_nil_r in *.
    destruct (restore_run f0 (finishUpdate t id ("failed: " +:+ e) e f1) w2 (l ++ d ++ u) id p Hf1 Hid Ht)
      as (f3 & w3 & q & a & E' & Hf3 & Hq & J2). rewrite E'. cbn [fst snd].
    exists f3, w3, (d ++ u ++ q), 0%nat. rewrite <- !List.app_assoc. split; [done|]. rewrite J2.
    split; [by apply job_ended_failed|]. exists [], (d ++ u ++ q). split; [done|]. split; [constructor|]. by exists d, u, q.
Qed.
Lemma update_nodes_of_job f : Forall (of_job f) (update_nodes f).
Proof.
  apply Forall_forall. intros [id p] [Ht Hin]%list_elem_of_filter. split; [|done]. apply list_elem_of_omap in Hin as (x & _ & Hx).
  cbn in *. unfold get. destruct (fl_instances f !! x) eqn:E; cbn in Hx; [|done]. by injection Hx as -> ->.
Qed.
End Run.

(** What a job that started afresh reports. *)
Lemma job_ended_results nodes k j0 j :
  job_ended nodes k j0 j → NoDup nodes.*1 → uj_Completed j0 = 0 → uj_Error j0 = "" → uj_Results j0 = ∅ →
  uj_Running j = false ∧ uj_Current j = "" ∧ (k ≤ length nodes)%nat ∧ uj_Completed j = Z.of_nat k
    ∧ (uj_Error j = "" ↔ k = length nodes)
    ∧ ∀ i id p, nodes !! i = Some (id, p) →
        uj_Results j !! id = if (i <? k)%nat then Some "updated" else if (i =? k)%nat then Some ("failed: " +:+ uj_Error j) else None.
Proof.
  intros (H1 & H2 & Hk & Hc) Hnd E1 E2 E3. rewrite E1 in Hk. rewrite E2, E3 in Hc. split; [done|]. split; [done|].
  split; [|split; [done|]].
  { destruct Hc as [[-> _]|(id & p & Hl & _)]; [done|]. apply lookup_lt_Some in Hl. lia. }
  destruct Hc as [(-> & -> & ->)|(id0 & p0 & Hl & Hne & ->)]; split; try done.
  - intros i id p Hi. rewrite updated_lookup, decide_True by (apply (list_elem_of_fmap_2 fst _ (id, p)); by eapply list_elem_of_lookup_2).
    apply lookup_lt_Some in Hi. by rewrite (proj2 (Nat.ltb_lt _ _) Hi).
  - split; [done|]. intros ->. apply lookup_lt_Some in Hl. lia.
  - intros i id p Hi. pose proof (take_named _ k i id p Hnd Hi) as Ht. destruct (decide (id0 = id)) as [->|Hid].
    + rewrite lookup_insert_eq. assert (i = k) as -> by (eapply NoDup_lookup; [exact Hnd| |]; by rewrite list_lookup_fmap, ?Hi, ?Hl).
      by rewrite Nat.ltb_irrefl, Nat.eqb_refl.
    + rewrite lookup_insert_ne, updated_lookup by done. destruct (Nat.ltb_spec i k).
      * by rewrite decide_True by (by apply Ht).
      * rewrite decide_False by (intros ?%Ht; lia). destruct (Nat.eqb_spec i k) as [->|]; [congruence|apply lookup_empty].
Qed.
Lemma named_sorted {A} (P : string * A → Prop) `{!∀ x, Decision (P x)} (R : string → string → Prop) (m : gmap string A) l :
  StronglySorted R l → StronglySorted R (filter P (omap (λ id, p ← m !! id; Some (id, p)) l)).*1.
Proof.
  induction 1 as [|id l Hl IH Hid]; [constructor|]. csimpl. destruct (m !! id) as [p|]; cbn -[filter]; [|done].
  rewrite filter_cons. case_decide; [|done]. cbn -[filter]. constructor; [done|]. apply Forall_forall.
  intros x ([y q] & -> & [_ Hy]%list_elem_of_filter)%list_elem_of_fmap. apply list_elem_of_omap in Hy as (z & Hz & E).
  destruct (m !! z); cbn in E; [|done]. injection E as -> ->. by eapply (proj1 (Forall_forall _ _)).
Qed.
Lemma update_nodes_sorted f : StronglySorted String.le (update_nodes f).*1.
Proof. apply named_sorted, (StronglySorted_merge_sort _). Qed.
Lemma update_nodes_elem f id p : (id, p) ∈ update_nodes f ↔ get id f = Some p ∧ hasToken (inst p f) = true.
Proof.
  unfold update_nodes, get. rewrite list_elem_of_filter, list_elem_of_omap. split.
  - intros [Ht (x & _ & Hx)]. destruct (fl_instances f !! x) eqn:E; cbn in Hx; [|done]. by injection Hx as -> ->.
  - intros [Hg Ht]. split; [done|]. exists id. rewrite Hg. split; [|done]. rewrite merge_sort_Permutation.
    apply list_elem_of_fmap. exists (id, p). split; [done|]. by apply elem_of_map_to_list.
Qed.

(** C26: A staged update always comes to an end, and one node at a time: however
    the nodes answer and however long they take, the job it starts ends with
    nothing running.  The adopted nodes, each once, are taken in the order of
    their names; some first [k] of them are reported updated, each of which
    accepted the update and then answered a health request; the one after
    them, if any, is reported with the error the job carries; the others are
    not reported.  The requests of the job are the turns of those [k] nodes,
    one after the other, then the turn of the node that failed, each turn
    talking to its own node only: no request goes to a later node.  The job
    carries an error exactly when it stopped before the last node.  A second
    job is refused while one runs.  (The network gives every failed call an
    error text; while the job runs nothing else changes the instances or the
    high availability pair.) *)
Theorem update_job_ends {W} `{!World W} `{!Fingerprints} rounds channel (s s1 : Fleet * noted W) job nodes :
  (∀ r (w w' : W) e, roundTrip r w = (w', Err e) → e ≠ "") →
  StartUpdates channel s = (s1, Ok (job, nodes)) →
  StronglySorted String.le nodes.*1 ∧ NoDup nodes.*1
  ∧ (∀ id p, (id, p) ∈ nodes ↔ get id s.1 = Some p ∧ hasToken (inst p s.1) = true)
  ∧ fl_updateJob s1.1 = job ∧ (∀ ch, ∃ t, (StartUpdates ch s1).2 = Err t) ∧
  let s2 := (runUpdateJob rounds nodes channel s1).1 in
  let j := fl_updateJob s2.1 in
  uj_Running j = false ∧ uj_Current j = "" ∧ ∃ k calls, (k ≤ length nodes)%nat ∧ uj_Completed j = Z.of_nat k
    ∧ (uj_Error j = "" ↔ k = length nodes)
    ∧ (∀ i id p, nodes !! i = Some (id, p) →
        uj_Results j !! id = if (i <? k)%nat then Some "updated" else if (i =? k)%nat then Some ("failed: " +:+ uj_Error j) else None)
    ∧ nt_calls s2.2 = nt_calls s.2 ++ calls ∧ job_calls s.1 channel nodes k calls.
Proof.
  intros Htext Hs. destruct s as [f [w l]]. rewrite StartUpdates_run in Hs.
  assert (∃ w0 t, w_now (mkNoted w l) = (mkNoted w0 l, t)) as (w0 & t & E)
    by (cbn; unfold noting; cbn; destruct (w_now w) as [w0 t]; by exists w0, t).
  rewrite E in Hs. destruct (negb _); [done|]. destruct (uj_Running _); [done|]. injection Hs as <- <- <-.
  split; [apply update_nodes_sorted|]. split; [apply update_nodes_NoDup|]. split; [apply update_nodes_elem|]. split; [done|]. split.
  { intros ch. rewrite StartUpdates_run. destruct (negb _); by eexists. }
  match goal with |- context [runUpdateJob rounds ?n channel (?f1, _)] =>
    destruct (runUpdateJob_run Htext rounds f channel n f1 w0 l (update_nodes_of_job f)) as (f2 & w2 & calls & k & -> & He & Hc);
      [done|] end.
  cbn [fst snd nt_calls]. apply job_ended_results in He; [|apply update_nodes_NoDup|done|done|done].
  destruct He as (H1 & H2 & H3). split; [done|]. split; [done|]. exists k, calls. by repeat (split; [apply H3|]).
Qed.
(** A run of three nodes, of which the second cannot be reached. *)
Definition noted_fleet : Fleet * noted (list client_request) := (demo_fleet, mkNoted [] []).
Lemma demo_text r (w w' : list client_request) e : @roundTrip _ w_transport r w = (w', Err e) → e ≠ "".
Proof. unfold roundTrip. cbn. unfold demo_transport. destruct (str_eqb _ _); [by intros [= _ <-]|done]. Qed.
Lemma update_job_ends_witness :
  let s1 := (StartUpdates "dev" noted_fleet).1 in
  let nodes := update_nodes demo_fleet in
  nodes = [("a", 0%nat); ("b", 1%nat); ("c", 2%nat)] ∧
  let s2 := (runUpdateJob (λ _, 3%nat) nodes "dev" s1).1 in
  uj_Results (fl_updateJob s2.1) = {["a" := "updated"; "b" := "failed: connection refused"]} ∧
  (cq_Method ∘ fst <$> nt_calls s2.2) = ["POST"; "GET"; "GET"; "POST"] ∧
  ∃ k, job_calls demo_fleet "dev" nodes k (nt_calls s2.2).
Proof.
  intros s1 nodes. split; [vm_compute; reflexivity|]. intros s2. split; [by_decision|]. split; [vm_compute; reflexivity|].
  destruct (update_job_ends (λ _, 3%nat) "dev" noted_fleet s1 (fl_updateJob s1.1) nodes demo_text)
    as (_ & _ & _ & _ & _ & _ & _ & k & calls & _ & _ & _ & _ & Hl & Hc); [vm_compute; reflexivity|].
  exists k. unfold s2. rewrite Hl. exact Hc.
Defined.

(** ** Yielding the virtual address *)
(** [own] is the configuration of the member [id] of the pair, [peer] the other's. *)
Definition member_of (c : HACluster) (id : string) (own peer : HAConfig) : Prop :=
  hc_Enabled c = true ∧ id ≠ "" ∧
  ((id = hc_PrimaryInstance c ∧ own = hc_Primary c ∧ peer = hc_Secondary c)
   ∨ (id = hc_SecondaryInstance c ∧ id ≠ hc_PrimaryInstance c ∧ own = hc_Secondary c ∧ peer = hc_Primary c)).
Lemma member_config_of d c id own peer :
  member_of c id own peer →
  member_config d c id = Some (if d then with_priority (reducePriority (ha_Priority own) (ha_Priority peer)) own else own).
Proof.
  intros (He & Hid & Hc). unfold member_config. rewrite He. apply str_eqb_neq in Hid. rewrite Hid. cbn [negb orb].
  destruct Hc as [(-> & -> & ->)|(-> & Hne & -> & ->)]; [by rewrite str_eqb_refl|].
  rewrite str_eqb_refl. assert (str_eqb (hc_PrimaryInstance c) (hc_SecondaryInstance c) = false) as -> by (apply str_eqb_neq; congruence).
  done.
Qed.
(** The calls of a job hold the turn of each node it reached. *)
Lemma job_calls_turn f channel nodes k l i n :
  job_calls f channel nodes k l → nodes !! i = Some n → (i ≤ k)%nat →
  ∃ before turn after, l = before ++ turn ++ after ∧ node_calls f channel n (i <? k)%nat turn.
Proof.
  intros (turns & last & -> & Hts & Hl) Hi Hik. destruct (decide (i = k)) as [->|Hne].
  - rewrite Hi in Hl. rewrite Nat.ltb_irrefl. exists (concat turns), last, []. by rewrite List.app_nil_r.
  - assert (take k nodes !! i = Some n) as Hn by (rewrite lookup_take_lt by lia; done).
    destruct (Forall2_lookup_l _ _ _ _ _ Hts Hn) as (turn & Ht & Hc). rewrite (proj2 (Nat.ltb_lt _ _)) by lia.
    apply list_elem_of_split_length in Ht as (t1 & t2 & -> & _). exists (concat t1), turn, (concat t2 ++ last).
    split; [|done]. rewrite concat_app. cbn [concat]. by rewrite <- !List.app_assoc.
Qed.

(** C27: A member of the high availability pair yields while it is updated.
    When the update job reaches a member of the enabled pair, it first sends
    it its own configuration with a lowered priority and, once that is
    accepted, has it applied; only then it asks for the update and follows it
    up; and after that, whether the update succeeded or failed, it sends back
    exactly the configured settings.  For a configured priority of at least 1
    the lowered one stays between 1 and the configured one, and is strictly
    below the peer's unless the peer is configured with the lowest priority
    1.  A node that refuses the lowered priority is updated all the same.
    (The network gives every failed call an error text; while the job runs
    nothing else changes the instances or the pair.) *)
Theorem ha_degrade_yields {W} `{!World W} `{!Fingerprints} rounds channel f (w : W) i id p own peer :
  (∀ r (w w' : W) e, roundTrip r w = (w', Err e) → e ≠ "") →
  member_of (fl_haCluster f) id own peer →
  update_nodes f !! i = Some (id, p) →
  let s := (runUpdateJob rounds (update_nodes f) channel (f, mkNoted w [])).1 in
  uj_Completed (fl_updateJob f) + Z.of_nat i ≤ uj_Completed (fl_updateJob s.1) →
  let cl := in_client (inst p f) in
  ∃ n before degrade update restore after,
    nt_calls s.2 = before ++ (degrade ++ update ++ restore) ++ after
    ∧ ha_calls cl (with_priority n own) degrade
    ∧ (∃ updated, update_calls cl channel updated update)
    ∧ ha_calls cl own restore
    ∧ (1 ≤ ha_Priority own → 1 ≤ n ≤ ha_Priority own ∧ (2 ≤ ha_Priority peer → n < ha_Priority peer)).
Proof.
  intros Htext Hm Hi s Hs cl.
  destruct (runUpdateJob_run Htext rounds f channel (update_nodes f) f w [] (update_nodes_of_job f))
    as (f2 & w2 & calls & k & E & (_ & _ & Hk & _) & Hc); [done|]. unfold s in *. rewrite E in *. cbn [fst snd nt_calls] in *.
  destruct (job_calls_turn f channel _ k calls i (id, p) Hc Hi) as (before & turn & after & -> & d & u & r & -> & Hd & Hu & Hr); [lia|].
  cbn [fst snd] in *. rewrite (member_config_of true _ _ own peer Hm) in Hd. rewrite (member_config_of false _ _ own peer Hm) in Hr.
  eexists _, before, d, u, r, after. split; [done|]. split; [exact Hd|]. split; [by eexists|]. split; [exact Hr|].
  apply reducePriority_bounds.
Qed.
Definition demo_ha_config (role : string) (prio : Z) : HAConfig :=
  mkHA true "unicast" role "eth0" "10.0.0.2" "10.0.0.3" "10.0.0.9/24" 51 prio 1 "pw".
Definition demo_cluster : HACluster := mkHAC true "a" "c" (demo_ha_config "primary" 150) (demo_ha_config "secondary" 100).
Lemma ha_degrade_yields_witness :
  validateHACluster demo_cluster = None ∧
  let f := demo_fleet <| fl_haCluster := demo_cluster |> in
  let s := (runUpdateJob (λ _, 3%nat) (update_nodes f) "dev" (f, mkNoted [] [])).1 in
  (fst <$> take 2 (nt_calls s.2)) = [put_ha (NewClient "http://a" "s3cret") (with_priority 99 (demo_ha_config "primary" 150));
                                     apply_ha (NewClient "http://a" "s3cret")] ∧
  ∃ n before degrade rest after, nt_calls s.2 = before ++ (degrade ++ rest) ++ after ∧ n < 100
    ∧ ha_calls (NewClient "http://a" "s3cret") (with_priority n (demo_ha_config "primary" 150)) degrade.
Proof.
  split; [vm_compute; reflexivity|]. intros f s. split; [vm_compute; reflexivity|].
  destruct (ha_degrade_yields (λ _, 3%nat) "dev" f ([] : list client_request) 0 "a" 0 (demo_ha_config "primary" 150)
    (demo_ha_config "secondary" 100) demo_text) as (n & b & d & u & r & a & E & Hd & _ & _ & Hn).
  - split; [reflexivity|]. split; [discriminate|]. left. split_and!; reflexivity.
  - vm_compute. reflexivity.
  - vm_compute. discriminate.
  - exists n, b, d, (u ++ r), a. split; [exact E|]. split; [|exact Hd].
    apply Hn; cbn; lia.
Defined.
