(* ===== verification/EventStream.v ===== *)
(** * The event stream, from a node to the query log

    [handleWatch] of internal/control/server.go writes the events of a channel
    as frames of text, [Client.Watch] of internal/control/client.go reads lines
    and decodes them, and [Instance.watch] of internal/controller/instance.go
    keeps a stream open and handles the events ([on_watch] of FleetOps.v).  The
    three, the byte stream between them and the node that notifies are the
    transition system [pstep]; the JSON codec is an argument. *)
From S2P Require Import Prelude GoStrings GoNet Dns Filter Cache RateLimit Records Blocklist Upstream Stats Server.
From S2P Require Import Bus Release Client BlocklistDB QueryLog Fleet FleetPush FleetOps.
From Stdlib Require Import Ascii.
#[local] Open Scope Z_scope.

Definition newline : ascii := ascii_of_nat 10.
Definition return_ : ascii := ascii_of_nat 13.

(** ** Reading lines: [bufio.Scanner] with a buffer of 1 MiB *)
Definition maxToken : Z := 1024 * 1024.
(** The unfinished line; a full buffer without a line break ends the scan. *)
Record scanner := mkScan { sc_pending : string; sc_failed : bool }.
Definition new_scanner : scanner := mkScan "" false.
Fixpoint drop_return (s : string) : string :=
  match s with
  | "" => ""
  | String c "" => if ascii_eqb c return_ then "" else s
  | String c r => String c (drop_return r)
  end.
Definition scan_byte (c : ascii) (sc : scanner) : scanner * list string :=
  if sc_failed sc then (sc, [])
  else if ascii_eqb c newline then (new_scanner, [drop_return (sc_pending sc)])
  else let p := sc_pending sc +:+ String c "" in (mkScan p (maxToken <=? Z.of_nat (slen p)), []).
Fixpoint scan (s : string) (sc : scanner) : scanner * list string :=
  match s with
  | "" => (sc, [])
  | String c s =>
      let '(sc, l) := scan_byte c sc in
      let '(sc, l') := scan s sc in (sc, l ++ l')
  end.
(** What is left when the reader ends. *)
Definition scan_end (sc : scanner) : list string :=
  if sc_failed sc || str_eqb (sc_pending sc) "" then [] else [drop_return (sc_pending sc)].

Section Codec.
Context (enc : WatchEvent → string) (dec : string → option WatchEvent).
(** A frame of the stream, and the frames of a list of events. *)
Definition frame (e : WatchEvent) : string := "data: " +:+ enc e +:+ String newline (String newline "").
Definition frames (l : list WatchEvent) : string := foldr (λ e s, frame e +:+ s) "" l.
(** The events in the bytes read so far, and after them if the stream ends. *)
Definition events_read (s : string) : list WatchEvent := watch_events dec (scan s new_scanner).2.
Definition events_at_end (sc : scanner) : list WatchEvent := watch_events dec (scan_end sc).

(** What the JSON codec promises for the events that occur ([good]): text is
    decoded to the event, a cut text is not decoded, and line breaks are
    escaped. *)
Record codec (good : WatchEvent → Prop) : Prop := {
  co_back : ∀ e, good e → dec (" " +:+ enc e) = Some e;
  co_cut : ∀ e p q, good e → enc e = p +:+ q → q ≠ "" → dec (" " +:+ p) = None;
  co_some : ∀ e, good e → enc e ≠ "";
  co_plain : ∀ e, good e → sforall (λ c, negb (ascii_eqb c newline) && negb (ascii_eqb c return_)) (enc e) = true }.

(** ** What is read is what was written *)
Definition fits (e : WatchEvent) : Prop := Z.of_nat (6 + slen (enc e)) < maxToken.
Definition inline (c : ascii) : bool := negb (ascii_eqb c newline) && negb (ascii_eqb c return_).

Lemma scan_app a b sc : scan (a +:+ b) sc = let '(sc, l) := scan a sc in let '(sc, l') := scan b sc in (sc, l ++ l').
Proof.
  revert sc. induction a as [|c a IH]; intros sc; [rewrite app_nil_l; cbn [scan]; by destruct (scan b sc)|].
  rewrite app_cons. cbn [scan]. destruct (scan_byte c sc) as [sc1 l1]. rewrite IH. destruct (scan a sc1) as [sc2 l2].
  destruct (scan b sc2) as [sc3 l3]. by rewrite (List.app_assoc l1 l2 l3).
Qed.
Lemma scan_failed s sc : sc_failed sc = true → scan s sc = (sc, []).
Proof. intros H. induction s as [|c s IH]; [done|]. cbn [scan]. unfold scan_byte. by rewrite H, IH. Qed.
Lemma drop_return_id s : sforall inline s = true → drop_return s = s.
Proof.
  induction s as [|c s IH]; [done|]. cbn [sforall]. intros [Hc Hs]%andb_true_iff. cbn [drop_return].
  destruct s as [|d s]; [|by rewrite IH]. unfold inline in Hc. apply andb_true_iff in Hc as [_ Hc]. apply negb_true_iff in Hc. by rewrite Hc.
Qed.
Lemma scan_byte_inline c p : inline c = true →
  scan_byte c (mkScan p false) = (mkScan (p +:+ String c "") (maxToken <=? Z.of_nat (slen (p +:+ String c ""))), []).
Proof. unfold inline, scan_byte. intros [Hc%negb_true_iff _]%andb_true_iff. cbn [sc_failed sc_pending]. by rewrite Hc. Qed.
Lemma scan_break p : scan_byte newline (mkScan p false) = (new_scanner, [drop_return p]).
Proof. done. Qed.
(** A stretch without a line break is kept, or fills the buffer. *)
Lemma scan_inline a p : sforall inline a = true → Z.of_nat (slen p) < maxToken →
  scan a (mkScan p false) = (mkScan (p +:+ a) false, []) ∧ Z.of_nat (slen (p +:+ a)) < maxToken
  ∨ sc_failed (scan a (mkScan p false)).1 = true ∧ (scan a (mkScan p false)).2 = [] ∧ maxToken <= Z.of_nat (slen (p +:+ a)).
Proof.
  revert p. induction a as [|c a IH]; intros p Ha Hp; [left; by rewrite app_nil_r|]. cbn [sforall] in Ha. apply andb_true_iff in Ha as [Hc Ha].
  cbn [scan]. rewrite scan_byte_inline by done. assert (p +:+ String c a = (p +:+ String c "") +:+ a) as E by (rewrite app_assoc; by rewrite app_cons, app_nil_l).
  destruct (Z.leb_spec maxToken (Z.of_nat (slen (p +:+ String c "")))) as [Hm|Hm].
  - right. rewrite scan_failed by done. cbn. split; [done|]. split; [done|]. rewrite E, slen_app. lia.
  - destruct (IH (p +:+ String c "") Ha Hm) as [[-> Hl]|(H1 & H2 & H3)]; rewrite E; [left; by rewrite List.app_nil_l|right].
    destruct (scan a _) as [sc l]. cbn in *. by rewrite H2.
Qed.

Context (good : WatchEvent → Prop) (Hco : codec good).
Definition content (e : WatchEvent) : string := "data: " +:+ enc e.
Lemma frame_content e : frame e = content e +:+ String newline (String newline "").
Proof. unfold frame, content. by rewrite app_assoc. Qed.
Lemma content_inline e : good e → sforall inline (content e) = true.
Proof. intros He. unfold content. rewrite sforall_app. apply (co_plain good Hco e He). Qed.
Lemma slen_content e : slen (content e) = (6 + slen (enc e))%nat.
Proof. unfold content. by rewrite slen_app. Qed.
Lemma line_content e : good e → watch_line dec (content e) = Some e.
Proof.
  intros He. unfold watch_line. rewrite slen_content. unfold content. rewrite !app_cons, app_nil_l. cbn.
  by apply (co_back good Hco).
Qed.
Lemma line_cut e p q : good e → content e = p +:+ q → q ≠ "" → watch_line dec p = None.
Proof.
  intros He E Hq. unfold watch_line. destruct (slen p <? 6)%nat eqn:Hl; [done|]. apply Nat.ltb_ge in Hl.
  do 6 (destruct p as [|? p]; [cbn in Hl; lia|]). unfold content in E. rewrite !app_cons, app_nil_l in E. injection E as <- <- <- <- <- <- E.
  cbn. change (String " " p) with (" " +:+ p). by apply (co_cut good Hco e p q).
Qed.
(** Two ways to split a text. *)
Lemma split_text (a b c d : string) : a +:+ b = c +:+ d → (∃ k, c = a +:+ k ∧ k ≠ "" ∧ b = k +:+ d) ∨ (∃ k, a = c +:+ k ∧ k +:+ b = d).
Proof.
  revert c. induction a as [|x a IH]; intros c E.
  - rewrite app_nil_l in E. destruct c as [|y c]; [right; by exists ""|left; by exists (String y c)].
  - destruct c as [|y c]; [right; exists (String x a); by rewrite app_nil_l in *|]. rewrite !app_cons in E. injection E as -> E.
    destruct (IH c E) as [(k & -> & Hk)|(k & -> & Hk)]; [left|right]; exists k; by rewrite app_cons.
Qed.
Lemma scan_frame e : good e →
  fits e ∧ scan (frame e) new_scanner = (new_scanner, [content e; ""])
  ∨ ¬ fits e ∧ sc_failed (scan (frame e) new_scanner).1 = true ∧ (scan (frame e) new_scanner).2 = [].
Proof.
  intros He. rewrite frame_content, scan_app. unfold fits. rewrite <-slen_content.
  destruct (scan_inline (content e) "" (content_inline e He) ltac:(done)) as [[E Hl]|(H1 & H2 & Hl)]; rewrite app_nil_l in *; unfold new_scanner.
  - left. rewrite E. split; [done|]. cbn. by rewrite drop_return_id by by apply content_inline.
  - right. split; [lia|]. destruct (scan (content e) _) as [sc l]. cbn [fst snd] in *. subst l. by rewrite scan_failed.
Qed.
Lemma at_end_failed sc : sc_failed sc = true → events_at_end sc = [].
Proof. unfold events_at_end, scan_end. by intros ->. Qed.
(** The beginning of a frame yields its event at most. *)
Lemma read_cut e r k : good e → frame e = r +:+ k → k ≠ "" →
  ∃ n m, events_read r = take n [e] ∧ events_read r ++ events_at_end (scan r new_scanner).1 = take m [e].
Proof.
  intros He E Hk. rewrite frame_content in E. symmetry in E. apply split_text in E as [(q & E & Hq & _)|(q & -> & E)].
  - exists 0%nat. unfold events_read. assert (sforall inline r = true) as Hr.
    { pose proof (content_inline e He) as H. rewrite E, sforall_app in H. by apply andb_true_iff in H as [H _]. }
    destruct (scan_inline r "" Hr ltac:(done)) as [[Es Hl]|(H1 & H2 & Hl)]; rewrite ?app_nil_l in *; unfold new_scanner.
    + rewrite Es. cbn [fst snd]. exists 0%nat. split; [done|]. unfold events_at_end, scan_end. cbn [sc_failed sc_pending orb].
      destruct (str_eqb r ""); [done|]. rewrite drop_return_id by done. cbn -[watch_line]. by rewrite (line_cut e r q).
    + rewrite H2. exists 0%nat. split; [done|]. by rewrite at_end_failed.
  - unfold events_read. rewrite scan_app.
    destruct (scan_inline (content e) "" (content_inline e He) ltac:(done)) as [[Es Hl]|(H1 & H2 & Hl)]; rewrite ?app_nil_l in *; unfold new_scanner.
    + rewrite Es. destruct q as [|c q].
      * exists 0%nat, 1%nat. split; [done|]. cbn [scan fst snd app watch_events omap]. unfold events_at_end, scan_end. cbn [sc_failed sc_pending orb].
        assert (str_eqb (content e) "" = false) as -> by done. rewrite drop_return_id by by apply content_inline. cbn -[watch_line]. by rewrite line_content.
      * exists 1%nat, 1%nat. rewrite app_cons in E. injection E as -> E.
        assert (q = "") as -> by (destruct q as [|c q]; [done|]; rewrite app_cons in E; injection E as _ E; by apply app_eq_nil in E as [_ ?]).
        cbn [scan]. rewrite scan_break. cbn [fst snd app]. rewrite drop_return_id by by apply content_inline.
        unfold watch_events. cbn -[watch_line]. by rewrite line_content.
    + exists 0%nat, 0%nat. destruct (scan (content e) _) as [sc l]. cbn [fst snd] in *. subst l. rewrite scan_failed by done. cbn [fst snd app].
      by rewrite at_end_failed.
Qed.
(** Whatever part of the stream has been read, the events are the first ones
    that were written; all of them once it is read and no frame was too long. *)
Lemma read_prefix es r w : Forall good es → r +:+ w = frames es →
  ∃ n m, events_read r = take n es ∧ events_read r ++ events_at_end (scan r new_scanner).1 = take m es
    ∧ (w = "" → Forall fits es → n = length es ∧ (scan r new_scanner).1 = new_scanner).
Proof.
  intros Hg. revert r w. induction Hg as [|e es He Hes IH]; intros r w E.
  - apply app_eq_nil in E as [-> ->]. by exists 0%nat, 0%nat.
  - cbn [frames foldr] in E. fold (frames es) in E. apply split_text in E as [(k & E & Hk & Ew)|(k & -> & E)].
    + destruct (read_cut e r k He E Hk) as (n & m & H1 & H2). exists (n `min` 1)%nat, (m `min` 1)%nat. rewrite H2, H1.
      split; [by destruct n as [|[|]]|]. split; [by destruct m as [|[|]]|]. intros ->. symmetry in Ew. by apply app_eq_nil in Ew as [? _].
    + unfold events_read. rewrite scan_app. destruct (scan_frame e He) as [[Hf Es]|(Hf & H1 & H2)].
      * rewrite Es. destruct (IH k w E) as (n & m & I1 & I2 & I3). unfold events_read in I1, I2. destruct (scan k new_scanner) as [sc l].
        cbn [fst snd] in *. exists (S n), (S m).
        assert (watch_events dec ([content e; ""] ++ l) = e :: watch_events dec l) as ->
          by (unfold watch_events; cbn -[watch_line]; by rewrite line_content).
        cbn [take app]. rewrite <-I1, <-I2. split; [done|]. split; [done|]. intros Hw [_ Hfs]%Forall_cons. destruct (I3 Hw Hfs) as [-> ?]. done.
      * exists 0%nat, 0%nat. destruct (scan (frame e) new_scanner) as [sc l]. cbn [fst snd] in *. subst l. rewrite scan_failed by done.
        cbn [fst snd app]. rewrite at_end_failed by done. split; [done|]. split; [done|]. by intros _ [? _]%Forall_cons.
Qed.
End Codec.

(** ** What a node notifies *)
Definition host_event (e : WatchEvent) : Prop := ev_Type e ∈ (["block"; "pass"; "error"] : list string).
Definition notify_all (es : list WatchEvent) (w : Watch) : Watch := foldl (λ w e, Notify e w) w es.
(** [s'] is [s] after some events of queries were notified. *)
Definition notified (s s' : Server) : Prop := ∃ es, Forall host_event es ∧ s_watch s' = notify_all es (s_watch s).
Definition emitting {A} (m : M A) : Prop := ∀ s s' a, m s = Some (s', a) → notified s s'.
#[export] Instance notified_po : PreOrder notified.
Proof.
  split; [by intros s; exists []|]. intros s1 s2 s3 (es & He & E) (es' & He' & E'). exists (es ++ es'). split; [by apply Forall_app|].
  unfold notify_all. rewrite foldl_app. by rewrite E', E.
Qed.
Lemma notified_same s s' : s_watch s' = s_watch s → notified s s'.
Proof. intros H. by exists []. Qed.
Lemma emitting_ret {A} (a : A) : emitting (mret a).
Proof. intros s s' b [= <- _]. done. Qed.
Lemma emitting_bind {A B} (m : M A) (f : A → M B) : emitting m → (∀ a, emitting (f a)) → emitting (m ≫= f).
Proof.
  intros Hm Hf s s' b H. unfold mbind, M_bind in H. destruct (m s) as [[s1 a]|] eqn:E; [|done]. cbn in H. etrans; [by eapply Hm|by eapply Hf].
Qed.
Lemma emitting_get : emitting Server.get.
Proof. by intros s s' a [= <- _]. Qed.
Lemma emitting_modify f : (∀ s, s_watch (f s) = s_watch s) → emitting (modify f).
Proof. intros Hf s s' a [= <- _]. by apply notified_same. Qed.
Lemma emitting_notify e : host_event e → emitting (notify e).
Proof. intros He s s' a [= <- _]. exists [e]. split; [by constructor|done]. Qed.
Lemma emitting_allow e key : emitting (allow_m e key).
Proof. intros s s' a. unfold allow_m. destruct (allow _ _ _ _). intros [= <- _]. by apply notified_same. Qed.
Lemma emitting_DoHit e k r : emitting (DoHit e k r).
Proof.
  intros s s' a. unfold DoHit, mbind, option_bind. destruct (Get _ _ _ _ _) as [[c [m|]]|]; [intros [= <- _]; by apply notified_same| |done].
  destruct r as [m|]; [|intros [= <- _]; by apply notified_same].
  destruct (Set_ k (Some m) (e_set e) c); [|done]. intros [= <- _]. by apply notified_same.
Qed.
Create HintDb events.
#[local] Hint Resolve emitting_ret emitting_get emitting_allow emitting_DoHit : events.
Ltac emits := repeat first
  [ done | solve [auto with events] | apply emitting_modify; done
  | apply emitting_notify; unfold host_event; cbn; set_solver
  | apply emitting_bind; [|intros ?] | case_match ].
Lemma emitting_override spec : emitting (overrideResolver spec).
Proof. unfold overrideResolver. emits. Qed.
Lemma emitting_failure e req client domain msg : emitting (upstream_failure e req client domain msg).
Proof. unfold upstream_failure, notifyUpstreamError, count. emits. Qed.
#[local] Hint Resolve emitting_override emitting_failure : events.
Lemma emitting_block e req resp client domain l proto : emitting (notifyBlock e req resp client domain l proto).
Proof. unfold notifyBlock. emits. Qed.
Lemma emitting_pass e req out client domain proto up ips cached : emitting (notifyPass e req out client domain proto up ips cached).
Proof. unfold notifyPass. emits. Qed.
Lemma emitting_logq client domain : emitting (logq client domain).
Proof. unfold logq. emits. Qed.
#[local] Hint Resolve emitting_block emitting_pass emitting_logq : events.
Lemma emitting_relay e req client domain proto r label : emitting (relay e req client domain proto r label).
Proof. unfold relay. emits. Qed.
#[local] Hint Resolve emitting_relay : events.
Lemma emitting_forward e ip req q client domain proto override : emitting (forward e ip req q client domain proto override).
Proof. unfold forward. emits. Qed.
#[local] Hint Resolve emitting_forward : events.
Lemma emitting_question e ip id proto client req q : emitting (serve_question e ip id proto client req q).
Proof. unfold serve_question, count. emits. Qed.
#[local] Hint Resolve emitting_question : events.
(** Answering a query changes the watchers by notifying events of queries. *)
Lemma emitting_serve e ip id proto req : emitting (serve e ip id proto req).
Proof. unfold serve, count. emits. Qed.
#[local] Hint Resolve emitting_serve : events.
Lemma emitting_doh e r : emitting (handleDoH e r).
Proof. unfold handleDoH. emits. Qed.

(** ** Watchers during a step of the node *)
Inductive watch_step (w : Watch) : Watch → Prop :=
| wk_notify es : Forall host_event es → watch_step w (notify_all es w)
| wk_open : watch_step w (watch_open w)
| wk_recv ch e w' : watch_recv ch w = Some (e, w') → watch_step w w'
| wk_close ch : watch_step w (watch_close ch w).
Lemma srv_step_watch s s' : srv_step s s' → watch_step (s_watch s) (s_watch s').
Proof.
  assert (notified s s' → watch_step (s_watch s) (s_watch s')) as Hn by (intros (es & He & ->); by apply wk_notify).
  assert (s_watch s' = s_watch s → watch_step (s_watch s) (s_watch s')) as Hs by (intros E; by apply Hn, notified_same).
  assert (∀ {A} (m : M A) a, emitting m → m s = Some (s', a) → watch_step (s_watch s) (s_watch s')) as Hm by (intros A m a H E; by eapply Hn, H).
  intros H. destruct H as [e ip id proto req s' out _ H|e r s' out _ H|sv rt b s' err H|n s' ok H|s' u H|recs s' u H|qps burst|listen addr s' err H|s' u H|st _|b _| |ch e w H|ch].
  - eapply Hm, H. apply emitting_serve.
  - eapply Hm, H. apply emitting_doh.
  - eapply Hm, H. unfold SetUpstream. emits.
  - apply Hs. revert H. unfold SetCacheConfig, mbind, option_bind. destruct (n <? 0); [by intros [= <- _]|].
    destruct (SetMaxEntries _ _); [by intros [= <- _]|done].
  - eapply Hm, H. by apply emitting_modify.
  - eapply Hm, H. by apply emitting_modify.
  - by apply Hs.
  - eapply Hm, H. unfold SetDoHHTTPAddr, stopDoHPlainLocked. emits.
  - eapply Hm, H. by apply emitting_modify.
  - by apply Hs.
  - by apply Hs.
  - apply wk_open.
  - by eapply wk_recv.
  - apply wk_close.
Qed.
Lemma watch_step_wf w w' : watch_step w w' → watch_wf w → watch_wf w'.
Proof.
  intros [es _| |ch e w'' Hr|ch] Hw; [|eauto with blip..]. unfold notify_all. revert w Hw. induction es as [|e es IH]; intros w Hw; [done|]. cbn. apply IH. auto with blip.
Qed.
(** A registered channel only grows, by events that were notified. *)
Lemma notify_all_buf es w ch buf : w_chans w !! ch = Some buf →
  ∃ acc, acc `sublist_of` es ∧ w_chans (notify_all es w) !! ch = Some (buf ++ acc).
Proof.
  unfold notify_all. revert w buf. induction es as [|e es IH]; intros w buf H; cbn [foldl].
  - exists []. by rewrite List.app_nil_r.
  - assert (∃ acc, acc `sublist_of` [e] ∧ w_chans (Notify e w) !! ch = Some (buf ++ acc)) as (acc & Ha & Hl).
    { unfold Notify. destruct (negb _); [exists []; rewrite List.app_nil_r; split; [apply sublist_nil_l|done]|]. cbn. rewrite lookup_fmap, H. cbn.
      unfold try_send. destruct (_ <? _)%nat; cbn; [by exists [e]|exists []; rewrite List.app_nil_r; split; [apply sublist_nil_l|done]]. }
    destruct (IH _ _ Hl) as (acc' & Ha' & Hl'). exists (acc ++ acc'). split; [by apply (sublist_app acc [e] acc' es)|]. by rewrite List.app_assoc.
Qed.
Definition buffered (ch : nat) (w : Watch) : list WatchEvent := default [] (w_chans w !! ch).
Definition registered (ch : nat) (w : Watch) : Prop := is_Some (w_chans w !! ch).
(** What a step added to a channel from which nothing was taken. *)
Definition gained (ch : nat) (w w' : Watch) : list WatchEvent := skipn (length (buffered ch w)) (buffered ch w').
Lemma gained_prefix ch w w' : buffered ch w `prefix_of` buffered ch w' → buffered ch w' = buffered ch w ++ gained ch w w'.
Proof. unfold gained. intros [l ->]. by rewrite drop_app_length. Qed.
Lemma watch_step_gains w w' ch : watch_step w w' → watch_wf w → registered ch w → registered ch w' →
  buffered ch w `prefix_of` buffered ch w' → Forall host_event (gained ch w w').
Proof.
  intros Hs Hw [buf Hb] [buf' Hb']. unfold gained, buffered. rewrite Hb, Hb'. cbn. intros Hpre.
  assert (∃ acc, buf' = buf ++ acc ∧ Forall host_event acc) as (acc & -> & Ha).
  { destruct Hs as [es He| |ch' e w'' Hr|ch'].
    - destruct (notify_all_buf es w ch buf Hb) as (acc & H1 & H2). rewrite Hb' in H2. injection H2 as ->. exists acc. split; [done|].
      rewrite Forall_forall in He |- *. intros x Hx. apply He. by eapply elem_of_sublist.
    - cbn in Hb'. destruct Hw as [_ _ Hn]. specialize (Hn ch ltac:(by eexists)). rewrite lookup_insert_ne in Hb' by lia. rewrite Hb in Hb'.
      injection Hb' as ->. exists []. by rewrite List.app_nil_r.
    - unfold watch_recv in Hr. destruct (w_chans w !! ch') as [[|e' l]|] eqn:El; [done| |done]. injection Hr as -> <-. cbn in Hb'.
      destruct (decide (ch' = ch)) as [->|Hne].
      + rewrite lookup_insert_eq in Hb'. rewrite El in Hb. injection Hb as <-. injection Hb' as ->. apply prefix_length in Hpre. cbn in Hpre. lia.
      + rewrite lookup_insert_ne in Hb' by done. rewrite Hb in Hb'. injection Hb' as ->. exists []. by rewrite List.app_nil_r.
    - cbn in Hb'. apply lookup_delete_Some in Hb' as [_ Hb']. rewrite Hb in Hb'. injection Hb' as ->. exists []. by rewrite List.app_nil_r. }
  by rewrite drop_app_length.
Qed.

(** A blocked query puts its event into every channel that has room. *)
Definition block_event (e : env) (req : Msg) (client domain list_ proto : string) : WatchEvent :=
  mkEvent "block" (e_at e) None client domain proto (qType req) [] (answersFor e (base_reply req)) "" (durationUs e) false "" list_.
Definition blocking_list (s : Server) (ip : IP) (id domain : string) : string :=
  if global_blocked s ip id domain then "global" else BlockSource (s_store s) ip id domain.
Lemma run_bind {A B} (m : M A) (f : A → M B) s s' a : m s = Some (s', a) → (m ≫= f) s = f a s'.
Proof. intros H. unfold mbind, M_bind. by rewrite H. Qed.
Lemma blocked_watch e ip id proto client req q s a :
  q_Qclass q ≠ ClassCHAOS → block_action s ip id (TrimSuffix (q_Name q) ".") = Some a → HasWatchers (s_watch s) = true →
  ∃ s', serve_question e ip id proto client req q s = Some (s', applyBlockAction (base_reply req) q a)
    ∧ s_watch s' = Notify (block_event e req client (TrimSuffix (q_Name q) ".") (blocking_list s ip id (TrimSuffix (q_Name q) ".")) proto) (s_watch s).
Proof.
  intros Hc Hb Hw. unfold serve_question. apply Z.eqb_neq in Hc. rewrite Hc. rewrite run_get. unfold block_action, blocking_list in *.
  set (d := TrimSuffix (q_Name q) ".") in *.
  assert (∀ l s, HasWatchers (s_watch s) = true →
    notifyBlock e req (base_reply req) client d l proto s = Some (set_watch (Notify (block_event e req client d l proto) (s_watch s)) s, tt)) as Hn.
  { intros l s1 H1. unfold notifyBlock. rewrite run_get, H1. done. }
  destruct (global_blocked s ip id d).
  - injection Hb as <-. rewrite (run_bind (count AddBlocked) _ s (set_cnt (AddBlocked (s_cnt s)) s) tt) by done. erewrite run_bind by by apply Hn.
    eexists. split; [reflexivity|done].
  - destruct (Classify (s_store s) ip id d) as [[[[] action] override] lg]; [|done]. injection Hb as <-.
    rewrite (run_bind (count AddBlocked) _ s (set_cnt (AddBlocked (s_cnt s)) s) tt) by done. erewrite run_bind by by apply Hn.
    destruct lg; (eexists; split; [reflexivity|done]).
Qed.
Lemma blocked_gained e ip id proto req q rest a s ch :
  watch_wf (s_watch s) → (verdict e ip s).2 = true → m_Question req = q :: rest → q_Qclass q ≠ ClassCHAOS →
  let d := TrimSuffix (q_Name q) "." in
  block_action s ip id d = Some a → registered ch (s_watch s) → (length (buffered ch (s_watch s)) < watchBuffer)%nat →
  ∃ s', serve e ip id proto req s = Some (s', applyBlockAction (base_reply req) q a)
    ∧ registered ch (s_watch s')
    ∧ buffered ch (s_watch s') = buffered ch (s_watch s)
        ++ [block_event e req (if str_eqb id "" then ip_string ip else id) d (blocking_list s ip id d) proto].
Proof.
  intros Hwf Hv Hq Hc d Hb [buf Hr] Hroom. destruct (verdict e ip s) as [rl ok] eqn:Hvd. cbn in Hv. subst ok.
  assert (HasWatchers (s_watch s) = true) as Hw.
  { unfold HasWatchers. destruct Hwf as [-> _ _]. apply Z.ltb_lt. assert (size (w_chans (s_watch s)) ≠ 0%nat); [|lia].
    apply map_size_non_empty_iff. intros E. by rewrite E in Hr. }
  rewrite (serve_run e ip id proto req q rest s rl Hq Hvd). set (s1 := set_cnt _ _).
  destruct (blocked_watch e ip id proto (if str_eqb id "" then ip_string ip else id) req q s1 a Hc Hb Hw) as (s2 & -> & H2).
  eexists. split; [reflexivity|]. unfold registered, buffered in *. cbn. rewrite H2, Hr in *. unfold Notify.
  change (s_watch s1) with (s_watch s). rewrite Hw. cbn [negb w_chans]. rewrite lookup_fmap, Hr. split; [by eexists|].
  cbn in Hroom |- *. change (Datatypes.id buf) with buf in Hroom. unfold try_send. apply Nat.ltb_lt in Hroom. by rewrite Hroom.
Qed.

(** ** The path of the events *)
(** The keepalive of [handleWatch]; the counters without the pool. *)
Definition keepalive (t : Z) (stats : option StatsResponse) : WatchEvent :=
  let st := match stats with
            | None => Stats zero_counters
            | Some s => mkStats (st_Cached s) (st_QueriesTotal s) (st_BlockedTotal s) (st_UpstreamErr s) (st_Upstream s) (st_BlocklistCount s)
                          (st_BlocklistHash s) (st_DohHTTPAddr s) (st_RateLimitQPS s) (st_RateLimited s) (st_DurationTotalUs s)
                          (st_CacheSize s) [] [] (st_BootstrapServers s) (st_RecordsHash s)
            end in
  mkEvent "stats" t (Some st) "" "" "" "" [] [] "" 0 false "" "".
(** A connection: the node's channel and whether its handler still runs, the
    bytes on the way, the client's scanner; and, for the proofs, the events
    written, the bytes read and the events handed on. *)
Record conn := mkConn {
  cn_chan : nat; cn_open : bool; cn_wire : string; cn_scan : scanner;
  cn_sent : list WatchEvent; cn_read : string; cn_got : list WatchEvent }.
#[export] Instance conn_eta : Eta conn := λ c,
  mkConn (cn_chan c) (cn_open c) (cn_wire c) (cn_scan c) (cn_sent c) (cn_read c) (cn_got c).
Definition dialled (w : Watch) : conn := mkConn (w_next w) true "" new_scanner [] "" [].
(** Where the loop of [Instance.watch] is. *)
Inductive watch_phase := Dialing | Streaming (c : conn) | Waiting (until : Z) | Stopped.
(** The log of reconnects: at most every fifteen seconds, or each fiftieth. *)
Record watch_log := mkWL { wl_reconnects : Z; wl_last : Z; wl_lines : nat }.
Definition note_reconnect (t : Z) (l : watch_log) : watch_log :=
  let say := (15 * second <? time_sub t (wl_last l)) || (wl_reconnects l mod 50 =? 0) in
  mkWL (wl_reconnects l + 1) (if say then t else wl_last l) (if say then S (wl_lines l) else wl_lines l).

Section Path.
Context {W : Type} `{!World W} (enc : WatchEvent → string) (dec : string → option WatchEvent) (good : WatchEvent → Prop) (p : nat).
#[local] Existing Instance fm_mret.
#[local] Existing Instance fm_mbind.
(** The callback of the stream, for the events of some lines. *)
Definition deliver (es : list WatchEvent) (st : Fleet * W) : Fleet * W := (each es () (λ e _, on_watch p e) st).1.
Record path := mkPath {
  pa_node : Server; pa_ctl : Fleet * W; pa_phase : watch_phase; pa_clock : Z; pa_log : watch_log;
  pa_dials : list Z;                         (* when it connected, the last first *)
  pa_given : list WatchEvent;                (* what the stream's channels were given *)
  pa_got : list WatchEvent }.                (* what the controller was handed *)
#[export] Instance path_eta : Eta path := λ s,
  mkPath (pa_node s) (pa_ctl s) (pa_phase s) (pa_clock s) (pa_log s) (pa_dials s) (pa_given s) (pa_got s).
(** The channel the stream is fed from. *)
Definition source (s : path) : option nat := match pa_phase s with Streaming c => if cn_open c then Some (cn_chan c) else None | _ => None end.
(** The node moves to [n]. *)
Definition node_moves (n : Server) (s : path) : path :=
  s <| pa_node := n |>
    <| pa_given ::= λ g, g ++ match source s with Some ch => gained ch (s_watch (pa_node s)) (s_watch n) | None => [] end |>.
Definition ended (c : conn) (s : path) : path :=
  let es := events_at_end dec (cn_scan c) in
  s <| pa_ctl := deliver es (pa_ctl s) |> <| pa_got ::= λ g, g ++ es |>
    <| pa_log ::= note_reconnect (pa_clock s) |> <| pa_phase := Waiting (pa_clock s + second) |>.
Definition has_read (r w : string) (c : conn) (s : path) : path :=
  let '(sc, lines) := scan r (cn_scan c) in
  let es := watch_events dec lines in
  s <| pa_ctl := deliver es (pa_ctl s) |> <| pa_got ::= λ g, g ++ es |>
    <| pa_phase := Streaming (c <| cn_wire := w |> <| cn_scan := sc |> <| cn_read ::= λ b, b +:+ r |> <| cn_got ::= λ g, g ++ es |>) |>.
(** The stream at work: [handleWatch] takes an event from its channel and
    writes it, and the client reads some of the bytes that are on the way. *)
Inductive flow_step (s : path) : path → Prop :=
| st_send c e w : pa_phase s = Streaming c → cn_open c = true → watch_recv (cn_chan c) (s_watch (pa_node s)) = Some (e, w) →
    flow_step s (s <| pa_node := set_watch w (pa_node s) |>
                     <| pa_phase := Streaming (c <| cn_wire ::= λ b, b +:+ frame enc e |> <| cn_sent ::= λ l, l ++ [e] |>) |>)
| st_read c r w : pa_phase s = Streaming c → cn_wire c = r +:+ w → flow_step s (has_read r w c s).
Inductive pstep (s : path) : path → Prop :=
| ps_stream s' : flow_step s s' → pstep s s'
(** Queries, configuration and other streams; nothing else takes from this
    stream's channel or closes it. *)
| ps_node n : srv_step (pa_node s) n →
    (∀ ch, source s = Some ch → registered ch (s_watch n) ∧ buffered ch (s_watch (pa_node s)) `prefix_of` buffered ch (s_watch n)
       ∧ Forall good (gained ch (s_watch (pa_node s)) (s_watch n))) →
    pstep s (node_moves n s)
(** [handlePolicy]. *)
| ps_policy e : ev_Type e = "policy" → good e → pstep s (node_moves (set_watch (Notify e (s_watch (pa_node s))) (pa_node s)) s)
(** [handleWatch]: a keepalive, the end of the request. *)
| ps_tick c st : pa_phase s = Streaming c → cn_open c = true → good (keepalive (pa_clock s) st) →
    let e := keepalive (pa_clock s) st in
    pstep s (s <| pa_phase := Streaming (c <| cn_wire ::= λ b, b +:+ frame enc e |> <| cn_sent ::= λ l, l ++ [e] |>) |>)
| ps_leave c : pa_phase s = Streaming c → cn_open c = true →
    pstep s (s <| pa_node := set_watch (watch_close (cn_chan c) (s_watch (pa_node s))) (pa_node s) |>
               <| pa_phase := Streaming (c <| cn_open := false |>) |>)
(** [Client.Watch]: connecting, or failing to. *)
| ps_dial : pa_phase s = Dialing →
    pstep s (s <| pa_node := set_watch (watch_open (s_watch (pa_node s))) (pa_node s) |>
               <| pa_phase := Streaming (dialled (s_watch (pa_node s))) |> <| pa_dials ::= cons (pa_clock s) |>)
| ps_refused : pa_phase s = Dialing →
    pstep s (s <| pa_log ::= note_reconnect (pa_clock s) |> <| pa_phase := Waiting (pa_clock s + second) |> <| pa_dials ::= cons (pa_clock s) |>)
(** The stream ends, and what is on the way is lost. *)
| ps_end c : pa_phase s = Streaming c → pstep s (ended c s)
| ps_wait u : pa_phase s = Waiting u → u <= pa_clock s → pstep s (s <| pa_phase := Dialing |>)
| ps_stop : (pa_phase s = Dialing ∨ ∃ u, pa_phase s = Waiting u) → pstep s (s <| pa_phase := Stopped |>)
| ps_time t : pa_clock s <= t → pstep s (s <| pa_clock := t |>)
(** Everything else the controller does, whatever it is: the theorems about
    every path hold in spite of it, and those about what a stream delivers are
    about [flow_step]. *)
| ps_other st : pstep s (s <| pa_ctl := st |>).
Definition path_start (n : Server) (st : Fleet * W) (t : Z) : path := mkPath n st Dialing t (mkWL 0 zero_time 0) [] [] [].

(** ** What holds along the path *)
(** The events that are not keepalives. *)
Definition events (l : list WatchEvent) : list WatchEvent := filter (λ e, ev_Type e ≠ "stats") l.
Record conn_ok (c : conn) : Prop := {
  ck_good : Forall good (cn_sent c);
  ck_bytes : cn_read c +:+ cn_wire c = frames enc (cn_sent c);
  ck_scan : cn_scan c = (scan (cn_read c) new_scanner).1;
  ck_got : cn_got c = events_read dec (cn_read c) }.
Definition on_the_way (c : conn) (s : path) : list WatchEvent := if cn_open c then buffered (cn_chan c) (s_watch (pa_node s)) else [].
(** [before] is what earlier connections delivered. *)
Definition accounted (s : path) : Prop :=
  match pa_phase s with
  | Streaming c => conn_ok c ∧ (cn_open c = true → registered (cn_chan c) (s_watch (pa_node s))) ∧ Forall good (on_the_way c s)
      ∧ ∃ before, pa_got s = before ++ cn_got c ∧ events (before ++ cn_sent c) ++ on_the_way c s `sublist_of` pa_given s
  | _ => events (pa_got s) `sublist_of` pa_given s
  end.
Definition path_inv (s : path) : Prop := watch_wf (s_watch (pa_node s)) ∧ accounted s.
Context (Hco : codec enc dec good).
#[local] Arguments frames : simpl never.
Lemma frames_app l l' : frames enc (l ++ l') = frames enc l +:+ frames enc l'.
Proof. unfold frames. induction l as [|e l IH]; [by rewrite app_nil_l|]. cbn. by rewrite IH, app_assoc. Qed.
Lemma events_app l l' : events (l ++ l') = events l ++ events l'.
Proof. apply filter_app. Qed.
Lemma events_sub l : events l `sublist_of` l.
Proof. apply sublist_filter. Qed.
Lemma events_mono l l' : l `sublist_of` l' → events l `sublist_of` events l'.
Proof.
  intros H. induction H as [|x l l' H IH|x l l' H IH]; [done| |]; unfold events in *.
  - rewrite !filter_cons. case_decide; [by constructor|done].
  - rewrite filter_cons. case_decide; [by constructor|done].
Qed.
(** Writing [e] on a connection. *)
Lemma conn_ok_send c e : good e → conn_ok c → conn_ok (c <| cn_wire ::= λ b, b +:+ frame enc e |> <| cn_sent ::= λ l, l ++ [e] |>).
Proof.
  intros He [H1 H2 H3 H4]. destruct c. cbn in *. split; cbn; [by apply Forall_app; auto| |done|done].
  rewrite frames_app, <-H2, app_assoc. unfold frames at 1. cbn. by rewrite app_nil_r.
Qed.
Lemma conn_ok_read r w c : cn_wire c = r +:+ w → conn_ok c →
  let '(sc, lines) := scan r (cn_scan c) in
  conn_ok (c <| cn_wire := w |> <| cn_scan := sc |> <| cn_read ::= λ b, b +:+ r |> <| cn_got ::= λ g, g ++ watch_events dec lines |>).
Proof.
  intros Hw [H1 H2 H3 H4]. destruct c as [ch op wire sc0 sent rd got]. cbn in *. subst wire.
  destruct (scan r sc0) as [sc lines] eqn:E. assert (scan (rd +:+ r) new_scanner = (sc, (scan rd new_scanner).2 ++ lines)) as Es.
  { rewrite scan_app. destruct (scan rd new_scanner) as [sc1 l1]. cbn in H3. subst sc1. by rewrite E. }
  split; cbn; [done|by rewrite app_assoc|by rewrite Es|]. unfold events_read. rewrite Es, H4. cbn. unfold watch_events, events_read. by rewrite omap_app.
Qed.
(** What a connection hands on, now and at its end, is a beginning of what was written. *)
Lemma conn_ok_prefix c : conn_ok c →
  cn_got c `sublist_of` cn_sent c ∧ cn_got c ++ events_at_end dec (cn_scan c) `sublist_of` cn_sent c.
Proof.
  intros [H1 H2 H3 H4]. destruct (read_prefix enc dec good Hco (cn_sent c) (cn_read c) (cn_wire c) H1 H2) as (n & m & E1 & E2 & _).
  rewrite H4, H3, E2, E1. split; apply sublist_take.
Qed.
Lemma inv_delivered s : path_inv s → events (pa_got s) `sublist_of` pa_given s.
Proof.
  intros [_ H]. unfold accounted in H. destruct (pa_phase s) as [|c|u|]; try done. destruct H as (Hc & _ & _ & b & -> & H).
  etrans; [|exact H]. apply sublist_inserts_r. apply events_mono. apply sublist_app; [done|]. by apply conn_ok_prefix.
Qed.

Lemma buffered_open w : watch_wf w → registered (w_next w) (watch_open w) ∧ buffered (w_next w) (watch_open w) = [].
Proof. intros Hw. unfold registered, buffered. cbn. by rewrite lookup_insert_eq. Qed.
(** A step of the node that keeps the stream's channel. *)
Lemma inv_moves n s : path_inv s → watch_wf (s_watch n) →
  (∀ ch, source s = Some ch → registered ch (s_watch n) ∧ buffered ch (s_watch (pa_node s)) `prefix_of` buffered ch (s_watch n)
     ∧ Forall good (gained ch (s_watch (pa_node s)) (s_watch n))) →
  path_inv (node_moves n s).
Proof.
  intros [_ Ha] Hn Hs. split; [done|]. destruct s as [nd ct ph ck lg di gv gt]. unfold accounted, node_moves, source, on_the_way in *. cbn in *.
  destruct ph as [|c|u|]; rewrite ?List.app_nil_r; try done. destruct Ha as (Hc & Hr & Hg & b & Hb & Hsub). split; [done|].
  destruct (cn_open c) eqn:E in Hr, Hg, Hsub, Hs |- *; [|split; [done|]; split; [done|]; exists b; by rewrite !List.app_nil_r in *]. destruct (Hs _ eq_refl) as (H1 & H3%gained_prefix & H2). split; [done|]. split.
  - rewrite H3. apply Forall_app. by split.
  - exists b. split; [done|]. rewrite H3, List.app_assoc. by apply sublist_app.
Qed.
Lemma inv_send c e w s : path_inv s → pa_phase s = Streaming c → cn_open c = true →
  watch_recv (cn_chan c) (s_watch (pa_node s)) = Some (e, w) →
  path_inv (s <| pa_node := set_watch w (pa_node s) |>
              <| pa_phase := Streaming (c <| cn_wire ::= λ b, b +:+ frame enc e |> <| cn_sent ::= λ l, l ++ [e] |>) |>).
Proof.
  intros [Hw Ha] Hp Ho Hr. destruct s as [nd ct ph ck lg di gv gt]. cbn in *. subst ph. unfold accounted, on_the_way in Ha. cbn in Ha.
  rewrite Ho in Ha. destruct Ha as (Hc & Hreg & Hg & b & Hb & Hsub). unfold watch_recv in Hr. unfold buffered in Hg, Hsub.
  destruct (w_chans (s_watch nd) !! cn_chan c) as [[|e' buf]|] eqn:El; [done| |done]. injection Hr as -> <-. cbn in Hg, Hsub.
  apply Forall_cons in Hg as [He Hg]. split.
  - eapply watch_recv_wf; [exact Hw|]. unfold watch_recv. by rewrite El.
  - unfold accounted, on_the_way. cbn. destruct c as [chn op wire sc sent rd got]. cbn in *. subst op. unfold buffered. cbn [w_chans]. rewrite lookup_insert_eq. cbn [default]. change (id buf) with buf.
    split; [by apply (conn_ok_send (mkConn chn true wire sc sent rd got))|]. split; [intros _; unfold registered; cbn [w_chans]; rewrite lookup_insert_eq; by eexists|]. split; [done|].
    exists b. split; [done|]. etrans; [|exact Hsub]. rewrite List.app_assoc, (events_app (b ++ sent) [e]), <-List.app_assoc.
    apply sublist_app; [done|]. change (e :: buf) with ([e] ++ buf). apply sublist_app; [apply events_sub|done].
Qed.
Lemma inv_tick c e s : path_inv s → pa_phase s = Streaming c → good e → ev_Type e = "stats" →
  path_inv (s <| pa_phase := Streaming (c <| cn_wire ::= λ b, b +:+ frame enc e |> <| cn_sent ::= λ l, l ++ [e] |>) |>).
Proof.
  intros [Hw Ha] Hp He Ht. split; [done|]. destruct s as [nd ct ph ck lg di gv gt]. cbn in *. subst ph. unfold accounted, on_the_way in *. cbn in *.
  destruct Ha as (Hc & Hreg & Hg & b & Hb & Hsub). split; [by apply conn_ok_send|]. destruct c. split; [done|]. split; [done|]. exists b. split; [done|].
  cbn in *. rewrite List.app_assoc, events_app. assert (events [e] = []) as -> by (unfold events; rewrite filter_cons; by rewrite decide_False by tauto).
  by rewrite List.app_nil_r.
Qed.
Lemma inv_read r w c s : path_inv s → pa_phase s = Streaming c → cn_wire c = r +:+ w → path_inv (has_read r w c s).
Proof.
  intros [Hw Ha] Hp Hr. destruct s as [nd ct ph ck lg di gv gt]. cbn in *. subst ph. unfold has_read.
  pose proof (conn_ok_read r w c Hr) as Hk. destruct (scan r (cn_scan c)) as [sc lines]. unfold accounted, on_the_way in Ha. cbn in Ha.
  destruct Ha as (Hc & Hreg & Hg & b & Hb & Hsub). specialize (Hk Hc). split; [done|]. unfold accounted, on_the_way. cbn. split; [done|].
  destruct c. cbn in *. split; [done|]. split; [done|]. exists b. split; [by rewrite Hb, List.app_assoc|done].
Qed.
Lemma inv_end c s : path_inv s → pa_phase s = Streaming c → path_inv (ended c s).
Proof.
  intros [Hw Ha] Hp. destruct s as [nd ct ph ck lg di gv gt]. cbn in *. subst ph. unfold accounted, on_the_way in Ha. cbn in Ha.
  destruct Ha as (Hc & Hreg & Hg & b & Hb & Hsub). split; [done|]. unfold accounted. cbn. subst gt. etrans; [|exact Hsub].
  apply sublist_inserts_r, events_mono. rewrite <-List.app_assoc. apply sublist_app; [done|]. by apply conn_ok_prefix.
Qed.
Lemma inv_leave c s : path_inv s → pa_phase s = Streaming c → cn_open c = true →
  path_inv (s <| pa_node := set_watch (watch_close (cn_chan c) (s_watch (pa_node s))) (pa_node s) |>
              <| pa_phase := Streaming (c <| cn_open := false |>) |>).
Proof.
  intros [Hw Ha] Hp Ho. destruct s as [nd ct ph ck lg di gv gt]. cbn in *. subst ph. unfold accounted, on_the_way in Ha. cbn in Ha.
  destruct Ha as (Hc & Hreg & Hg & b & Hb & Hsub). split; [cbn; auto with blip|]. unfold accounted, on_the_way. cbn.
  split; [by destruct Hc; split|]. split; [done|]. split; [done|]. exists b. split; [done|]. rewrite List.app_nil_r. etrans; [|exact Hsub].
  by apply sublist_inserts_r.
Qed.
Lemma inv_dial s : path_inv s → pa_phase s = Dialing →
  path_inv (s <| pa_node := set_watch (watch_open (s_watch (pa_node s))) (pa_node s) |>
              <| pa_phase := Streaming (dialled (s_watch (pa_node s))) |> <| pa_dials ::= cons (pa_clock s) |>).
Proof.
  intros [Hw Ha] Hp. destruct s as [nd ct ph ck lg di gv gt]. cbn in *. subst ph. unfold accounted in Ha. cbn in Ha.
  destruct (buffered_open _ Hw) as [H1 H2]. split; [cbn; auto with blip|]. unfold accounted, on_the_way. cbn. rewrite H2.
  split; [by split|]. split; [done|]. split; [done|]. exists gt. by rewrite !List.app_nil_r.
Qed.
(** The channel of the stream is registered. *)
Lemma source_registered ch s : path_inv s → source s = Some ch → registered ch (s_watch (pa_node s)).
Proof.
  intros [_ Ha] Hs. unfold source, accounted in *. destruct (pa_phase s) as [|c| |]; try done. destruct (cn_open c) eqn:E; [|done].
  injection Hs as <-. by apply Ha.
Qed.
Lemma policy_gains e ch s : path_inv s → ev_Type e = "policy" → good e → source s = Some ch →
  let w := s_watch (pa_node s) in
  registered ch (Notify e w) ∧ buffered ch w `prefix_of` buffered ch (Notify e w) ∧ Forall good (gained ch w (Notify e w)).
Proof.
  intros Hi He Hg Hs. cbv zeta. destruct (source_registered ch s Hi Hs) as [buf Hb].
  destruct (notify_all_buf [e] _ _ _ Hb) as (acc & Ha & Hl). change (notify_all [e] _) with (Notify e (s_watch (pa_node s))) in Hl.
  unfold registered, gained, buffered. rewrite Hb, Hl. cbn. rewrite drop_app_length. split; [by eexists|]. split; [by exists acc|].
  rewrite Forall_forall. intros x Hx. eapply elem_of_sublist in Hx; [|exact Ha]. by apply list_elem_of_singleton in Hx as ->.
Qed.
Lemma inv_idle s s' : path_inv s → pa_node s' = pa_node s → pa_given s' = pa_given s → pa_got s' = pa_got s →
  (pa_phase s' = pa_phase s ∨ ∀ c, pa_phase s' ≠ Streaming c) → path_inv s'.
Proof.
  intros Hi H1 H2 H3 H4. pose proof (inv_delivered s Hi) as Hd. destruct Hi as [Hw Ha]. unfold path_inv, accounted, on_the_way in *. rewrite H1, H2, H3.
  split; [done|]. destruct H4 as [->|H4]; [done|]. destruct (pa_phase s') as [|c|u|]; try done. by destruct (H4 c).
Qed.
Lemma path_inv_stream s s' : path_inv s → flow_step s s' → path_inv s'.
Proof. intros Hi [c e w Hp Ho Hr|c r w Hp Hr]; [by eapply inv_send|by apply inv_read]. Qed.
Lemma path_inv_step s s' : path_inv s → pstep s s' → path_inv s'.
Proof.
  intros Hi Hs. pose proof Hi as [Hw Ha]. destruct Hs as [s' Hs|n Hn Hc|e He Hg|c st Hp Ho Hg e|c Hp Ho|Hp|Hp|c Hp|u Hp _|_|t _|st].
  - by eapply path_inv_stream.
  - apply srv_step_watch in Hn. apply inv_moves; [done|by eapply watch_step_wf|done].
  - apply inv_moves; [done|cbn; auto with blip|]. intros ch Hch. apply (policy_gains e ch s Hi He Hg Hch).
  - by eapply inv_tick.
  - by apply inv_leave.
  - by apply inv_dial.
  - eapply inv_idle; [exact Hi|done|done|done|by right].
  - by apply inv_end.
  - eapply inv_idle; [exact Hi|done|done|done|by right].
  - eapply inv_idle; [exact Hi|done|done|done|by right].
  - eapply inv_idle; [exact Hi|done|done|done|by left].
  - eapply inv_idle; [exact Hi|done|done|done|by left].
Qed.

(** *** At most one connection a second *)
Fixpoint spaced (l : list Z) : Prop := match l with t :: ((u :: _) as l') => u + second <= t ∧ spaced l' | _ => True end.
Definition paced (s : path) : Prop :=
  spaced (pa_dials s) ∧
  match pa_dials s with
  | [] => True
  | t :: _ => t <= pa_clock s ∧ match pa_phase s with
                                | Dialing => t + second <= pa_clock s
                                | Waiting u => t + second <= u
                                | Streaming _ | Stopped => True
                                end
  end.
Lemma paced_step s s' : paced s → pstep s s' → paced s'.
Proof.
  intros Hp Hs. destruct s as [nd ct ph ck lg di gv gt]. unfold paced in *.
  destruct Hs as [s' [c e w Hc ? ?|c r w Hc ?]|n ? ?|e ? ?|c st Hc ? ? e|c Hc ?|Hc|Hc|c Hc|u Hc Hu|[Hc|[u Hc]]|t Ht|st]; unfold has_read; cbn in *; subst;
    try (destruct (scan _ _)); cbn; destruct Hp as [H1 H2]; destruct di as [|t0 di]; try destruct ph; cbn in *; simplify_eq; intuition lia.
Qed.

(** *** What a stream at work delivers *)
(** What the stream has been given and not yet dropped; nothing of it is left
    to do; [es] is what [s'] delivered more than [s]. *)
Definition held (c : conn) (s : path) : list WatchEvent := cn_sent c ++ buffered (cn_chan c) (s_watch (pa_node s)).
Definition drained (s : path) : Prop :=
  ∃ c, pa_phase s = Streaming c ∧ cn_wire c = "" ∧ buffered (cn_chan c) (s_watch (pa_node s)) = [].
Record delivers (c : conn) (s : path) (es : list WatchEvent) (c' : conn) (s' : path) : Prop := {
  dl_phase : pa_phase s' = Streaming c';
  dl_open : cn_open c' = cn_open c;
  dl_chan : cn_chan c' = cn_chan c;
  dl_held : held c' s' = held c s;
  dl_conn : cn_got c' = cn_got c ++ es;
  dl_got : pa_got s' = pa_got s ++ es;
  dl_ctl : pa_ctl s' = deliver es (pa_ctl s) }.
Lemma deliver_app es es' st : deliver (es ++ es') st = deliver es' (deliver es st).
Proof.
  unfold deliver. revert st. induction es as [|e es IH]; intros st; [done|]. cbn [app each]. rewrite !bind_at.
  destruct (on_watch p e st) as [st' []]. cbn [fst snd]. apply IH.
Qed.
Lemma delivers_refl c s : pa_phase s = Streaming c → delivers c s [] c s.
Proof. intros Hp. by split; rewrite ?List.app_nil_r. Qed.
Lemma delivers_trans c s es c1 s1 es1 c2 s2 : delivers c s es c1 s1 → delivers c1 s1 es1 c2 s2 → delivers c s (es ++ es1) c2 s2.
Proof.
  intros [] []. split; [done|congruence..| | |].
  - rewrite dl_conn1, dl_conn0. by rewrite List.app_assoc.
  - rewrite dl_got1, dl_got0. by rewrite List.app_assoc.
  - by rewrite dl_ctl1, dl_ctl0, deliver_app.
Qed.
Lemma flow_step_delivers c s s' : pa_phase s = Streaming c → flow_step s s' → ∃ es c', delivers c s es c' s'.
Proof.
  intros Hp [c1 e w Hp1 Ho Hr|c1 r w Hp1 Hr]; rewrite Hp in Hp1; injection Hp1 as <-.
  - exists [], (c <| cn_wire ::= λ b, b +:+ frame enc e |> <| cn_sent ::= λ l, l ++ [e] |>). destruct c, s. cbn in *. subst.
    split; cbn; try done; [|by rewrite List.app_nil_r..]. unfold held, buffered, watch_recv in *. cbn in *.
    destruct (w_chans _ !! _) as [[|e' buf]|]; [done| |done]. injection Hr as -> <-. cbn. rewrite lookup_insert_eq. cbn. by rewrite <-List.app_assoc.
  - unfold has_read. destruct (scan r (cn_scan c)) as [sc lines]. eexists _, _. by split.
Qed.
Lemma stream_delivers c s s' : pa_phase s = Streaming c → rtc flow_step s s' → ∃ es c', delivers c s es c' s'.
Proof.
  intros Hp Hr. revert c Hp. induction Hr as [s|s s1 s2 H1 _ IH]; intros c Hp; [exists [], c; by apply delivers_refl|].
  destruct (flow_step_delivers c s s1 Hp H1) as (es & c1 & D1). destruct (IH c1 (dl_phase _ _ _ _ _ D1)) as (es' & c2 & D2).
  exists (es ++ es'), c2. by eapply delivers_trans.
Qed.
Lemma path_inv_streams s s' : path_inv s → rtc flow_step s s' → path_inv s'.
Proof. intros Hi H. induction H as [|s s1 s2 H1 _ IH]; [done|]. by eapply IH, path_inv_stream. Qed.
(** However the stream is scheduled, when it has nothing left to do it has
    delivered all it held. *)
Lemma drained_delivers s s' c : path_inv s → pa_phase s = Streaming c → Forall (fits enc) (held c s) →
  rtc flow_step s s' → drained s' →
  ∃ es, cn_got c ++ es = held c s ∧ pa_got s' = pa_got s ++ es ∧ pa_ctl s' = deliver es (pa_ctl s).
Proof.
  intros Hi Hp Hf Hr (c2 & Hp2 & Hw & Hb). destruct (stream_delivers c s s' Hp Hr) as (es & c' & [D1 D2 D3 D4 D5 D6 D7]).
  rewrite D1 in Hp2. injection Hp2 as <-. exists es. split; [|done]. rewrite <-D5, <-D4. unfold held. rewrite Hb, List.app_nil_r.
  pose proof (path_inv_streams s s' Hi Hr) as [_ Ha]. unfold accounted in Ha. rewrite D1 in Ha. destruct Ha as ([K1 K2 K3 K4] & _).
  destruct (read_prefix enc dec good Hco _ _ _ K1 K2) as (n & m & E1 & _ & E3). rewrite K4, E1. unfold held in D4. rewrite Hb, List.app_nil_r in D4.
  destruct (E3 Hw) as [-> _]; [by rewrite D4|]. by rewrite firstn_all.
Qed.
(** And it gets there. *)
Lemma drains n : ∀ s c, pa_phase s = Streaming c → cn_open c = true →
  length (buffered (cn_chan c) (s_watch (pa_node s))) = n → ∃ s', rtc flow_step s s' ∧ drained s'.
Proof.
  induction n as [|n IH]; intros s c Hp Ho Hn.
  - exists (has_read (cn_wire c) "" c s). split; [apply rtc_once, st_read; [done|by rewrite app_nil_r]|].
    apply length_zero_iff_nil in Hn. unfold has_read, drained. destruct (scan _ _). eexists. by destruct s.
  - destruct (w_chans (s_watch (pa_node s)) !! cn_chan c) as [[|e buf]|] eqn:El; unfold buffered in Hn; rewrite El in Hn; try done.
    assert (∃ w, watch_recv (cn_chan c) (s_watch (pa_node s)) = Some (e, w) ∧ w_chans w !! cn_chan c = Some buf) as (w & Hr & Hb).
    { unfold watch_recv. rewrite El. eexists. split; [done|]. cbn. by rewrite lookup_insert_eq. }
    edestruct IH as (s' & H1 & H2); [| | |exists s'; split; [eapply rtc_l; [by eapply (st_send s c e w)|exact H1]|exact H2]].
    + reflexivity.
    + by destruct c.
    + unfold buffered. destruct s, c. cbn in *. rewrite Hb. cbn in *. lia.
Qed.

Lemma path_reach n st t s : watch_wf (s_watch n) → rtc pstep (path_start n st t) s → path_inv s ∧ paced s.
Proof.
  intros Hw H. assert (path_inv (path_start n st t) ∧ paced (path_start n st t)) as H0 by (split; [split; [done|apply sublist_nil_l]|done]).
  induction H as [s|s1 s2 s3 H12 _ IH]; [done|]. apply IH. destruct H0. split; [by eapply path_inv_step|by eapply paced_step].
Qed.

(** *** What the controller writes down *)
Definition loggable (e : WatchEvent) : bool := str_eqb (ev_Type e) "block" || str_eqb (ev_Type e) "pass".
(** [x] is the entry of [e] for the instance named [label]; the list an event
    names is kept, and the lists of the node's global list are looked up. *)
Definition entry_for (label : string) (e : WatchEvent) (x : QueryLogEntry) : Prop :=
  ∃ block, x = watch_entry label block e
    ∧ (ev_Type e = "pass" → block = "")
    ∧ (ev_Type e = "block" → ev_BlockList e ≠ "" → ev_BlockList e ≠ "global" → block = ev_BlockList e).
Context (store_of : W → QueryLogStore) (Henq : ∀ x w, store_of (w_log (CallEnqueue x) w) = Enqueue x (store_of w)).
Context (Herr : ∀ x w, ∃ fail, store_of (w_log (CallError x) w) = RecordUpstreamError fail x (store_of w)).
Lemma buf_error fail x q : ql_buf (RecordUpstreamError fail x q) = ql_buf q.
Proof. unfold RecordUpstreamError. by destruct fail. Qed.
Lemma block_label src domain f w : ∃ block, resolveBlockList src domain (f, w) = ((f, w), block) ∧ (src ≠ "" → src ≠ "global" → block = src).
Proof.
  unfold resolveBlockList. eexists. split; [reflexivity|]. intros H1 H2. apply str_eqb_neq in H1, H2. by rewrite H1, H2.
Qed.
Lemma enqueued x f w : fl_queryLog f = true → (length (ql_buf (store_of w)) < bufMax)%nat →
  ∃ w', logs (CallEnqueue x) (f, w) = ((f, w'), ()) ∧ ql_buf (store_of w') = ql_buf (store_of w) ++ [x].
Proof.
  intros Hq Hb. unfold logs. rewrite Hq. eexists. split; [reflexivity|]. rewrite Henq. unfold Enqueue.
  apply Nat.ltb_lt in Hb. by rewrite Hb.
Qed.
Lemma on_watch_log e f w : fl_queryLog f = true → (length (ql_buf (store_of w)) < bufMax)%nat →
  let st := (on_watch p e (f, w)).1 in
  fl_queryLog st.1 = true ∧ in_Config (inst p st.1) = in_Config (inst p f)
  ∧ ∃ xs, ql_buf (store_of st.2) = ql_buf (store_of w) ++ xs
      ∧ Forall2 (entry_for (ic_Label (in_Config (inst p f)))) (if loggable e then [e] else []) xs.
Proof.
  intros Hq Hb. unfold on_watch. rewrite !bind_at. cbn [cfg_of read fst snd]. set (c := in_Config (inst p f)).
  match goal with |- context [write ?g (f, w)] => set (f1 := g f); change (write g (f, w)) with ((f1, w), ()) end. assert (fl_queryLog f1 = true) as Hq1 by (by destruct f).
  assert (in_Config (inst p f1) = c) as Hc by (by destruct f). cbn [fst snd].
  change (str_eqb (ev_Type e) "block" || str_eqb (ev_Type e) "pass") with (loggable e).
  assert (∃ w', (if loggable e then
       block ← (if str_eqb (ev_Type e) "block" then resolveBlockList (ev_BlockList e) (ev_Domain e) else mret "");
       logs (CallEnqueue (watch_entry (ic_Label c) block e)) else mret ()) (f1, w) = ((f1, w'), ())
    ∧ ∃ xs, ql_buf (store_of w') = ql_buf (store_of w) ++ xs ∧ Forall2 (entry_for (ic_Label c)) (if loggable e then [e] else []) xs) as (w' & -> & xs & Hx & Hf).
  { destruct (loggable e) eqn:El; [|exists w; split; [done|]; exists []; by rewrite List.app_nil_r]. rewrite bind_at.
    assert (∃ block, (if str_eqb (ev_Type e) "block" then resolveBlockList (ev_BlockList e) (ev_Domain e) else mret "") (f1, w) = ((f1, w), block)
      ∧ entry_for (ic_Label c) e (watch_entry (ic_Label c) block e)) as (block & -> & He).
    { destruct (str_eqb (ev_Type e) "block") eqn:Et; [|exists ""; split; [done|]; exists ""; apply str_eqb_neq in Et; done].
      destruct (block_label (ev_BlockList e) (ev_Domain e) f1 w) as (block & -> & Hbl). exists block. split; [done|]. exists block.
      apply str_eqb_eq in Et. split; [done|]. rewrite Et. split; [done|auto]. }
    cbn [fst snd]. destruct (enqueued (watch_entry (ic_Label c) block e) f1 w Hq1 Hb) as (w' & -> & Hw'). exists w'. split; [done|].
    exists [watch_entry (ic_Label c) block e]. split; [done|]. by repeat constructor. }
  clearbody f1. cbn [fst snd]. destruct (str_eqb (ev_Type e) "error"); [unfold logs; rewrite Hq1|]; cbn [fst snd]; [|by eauto]. split; [done|]. split; [done|]. exists xs.
  split; [|done]. destruct (Herr (mkUErr (ev_At e) (ic_Label c) (ev_Domain e) (ev_Msg e)) w') as [fail ->]. by rewrite buf_error.
Qed.
(** The events of a stream that are blocked or passed queries are queued for
    the query log, in order, as long as there is room. *)
Lemma deliver_log es f w : fl_queryLog f = true → (length (ql_buf (store_of w)) + length es <= bufMax)%nat →
  ∃ xs, ql_buf (store_of (deliver es (f, w)).2) = ql_buf (store_of w) ++ xs
    ∧ Forall2 (entry_for (ic_Label (in_Config (inst p f)))) (filter (λ e, loggable e = true) es) xs.
Proof.
  unfold deliver. revert f w. induction es as [|e es IH]; intros f w Hq Hb; [exists []; by rewrite List.app_nil_r|]. cbn [each]. rewrite bind_at.
  destruct (on_watch_log e f w Hq ltac:(cbn in Hb; lia)) as (H1 & H2 & xs & H3 & H4). destruct (on_watch p e (f, w)) as [[f' w'] []]. cbn [fst snd] in *.
  assert (length xs <= 1)%nat as Hl by (apply Forall2_length in H4; rewrite <-H4; by destruct (loggable e); cbn; lia).
  destruct (IH f' w' H1) as (ys & H5 & H6); [rewrite H3, length_app; cbn in Hb; lia|]. exists (xs ++ ys). split; [by rewrite H5, H3, List.app_assoc|].
  rewrite H2 in H6. rewrite filter_cons. destruct (loggable e); cbn [decide decide_rel]; [rewrite decide_True by done|rewrite decide_False by done].
  - change (e :: ?l) with ([e] ++ l). by apply Forall2_app.
  - apply Forall2_length in H4 as H7. destruct xs; [|done]. done.
Qed.
(** The two together: what a drained stream held is in the query log's queue. *)
Lemma drained_logged s s' c f w : path_inv s → pa_phase s = Streaming c → Forall (fits enc) (held c s) →
  rtc flow_step s s' → drained s' → pa_ctl s = (f, w) →
  fl_queryLog f = true → (length (ql_buf (store_of w)) + length (held c s) <= bufMax)%nat →
  ∃ es xs, cn_got c ++ es = held c s ∧ ql_buf (store_of (pa_ctl s').2) = ql_buf (store_of w) ++ xs
    ∧ Forall2 (entry_for (ic_Label (in_Config (inst p f)))) (filter (λ e, loggable e = true) es) xs.
Proof.
  intros Hi Hp Hf Hr Hd Hc Hq Hb. destruct (drained_delivers s s' c Hi Hp Hf Hr Hd) as (es & H1 & H2 & ->). rewrite Hc.
  destruct (deliver_log es f w Hq) as (xs & H3 & H4); [|by exists es, xs].
  apply (f_equal length) in H1. rewrite length_app in H1. lia.
Qed.
(** What is still to be delivered ends with the last event that is held. *)
Lemma held_last s c es l e : path_inv s → pa_phase s = Streaming c → cn_got c ++ es = cn_sent c ++ l ++ [e] →
  ∃ es', es = es' ++ [e].
Proof.
  intros [_ Ha] Hp E. unfold accounted in Ha. rewrite Hp in Ha. destruct Ha as (Hc & _). apply conn_ok_prefix in Hc as [Hs _].
  apply sublist_length in Hs. destruct (List.exists_last (l := es)) as (es' & x & ->).
  - intros ->. apply (f_equal length) in E. rewrite !length_app in E. cbn in E. lia.
  - exists es'. rewrite !List.app_assoc in E. by apply app_inj_tail in E as [_ ->].
Qed.
(** A blocked query is a step of the path that feeds its stream. *)
Lemma blocked_moves e ip id proto req q rest a s c :
  path_inv s → pa_phase s = Streaming c → cn_open c = true →
  let n := pa_node s in let d := TrimSuffix (q_Name q) "." in
  clock_ok e → (verdict e ip n).2 = true → m_Question req = q :: rest → q_Qclass q ≠ ClassCHAOS → block_action n ip id d = Some a →
  (length (buffered (cn_chan c) (s_watch n)) < watchBuffer)%nat →
  let ev := block_event e req (if str_eqb id "" then ip_string ip else id) d (blocking_list n ip id d) proto in
  good ev →
  ∃ n', serve e ip id proto req n = Some (n', applyBlockAction (base_reply req) q a)
    ∧ pstep s (node_moves n' s)
    ∧ buffered (cn_chan c) (s_watch n') = buffered (cn_chan c) (s_watch n) ++ [ev].
Proof.
  intros Hi Hp Ho n d Hk Hv Hq Hc Hb Hroom ev Hg.
  assert (source s = Some (cn_chan c)) as Hs by (unfold source; by rewrite Hp, Ho).
  pose proof (source_registered _ _ Hi Hs) as Hr. pose proof Hi as [Hw _].
  destruct (blocked_gained e ip id proto req q rest a n (cn_chan c) Hw Hv Hq Hc Hb Hr Hroom) as (n' & Hn & Hr' & Hbuf).
  exists n'. split; [done|]. split; [|done]. apply ps_node; [exact (ss_query n e ip id proto req n' _ Hk Hn)|].
  intros ch. rewrite Hs. intros [= <-]. split; [done|]. unfold gained. fold n. rewrite Hbuf. split; [by apply prefix_app_r|].
  rewrite drop_app_length. by constructor.
Qed.
End Path.

(** ** Properties *)
Section Claims.
Context {W : Type} `{!World W} (enc : WatchEvent → string) (dec : string → option WatchEvent) (good : WatchEvent → Prop).

(** C12: The event stream keeps the order and invents nothing.  However queries,
    keepalives, reads, broken connections and reconnects interleave, the block,
    pass, error and policy events handed to the controller are, in order and
    without repetition, among those the node put into the stream's channels;
    connections are opened at least a second apart.  While a stream is open and
    no frame is too long for the reader, nothing that was put into its channel
    is lost: the stream can always be worked off, and however the sends and
    reads are scheduled, once it is, exactly what it held has been handed to
    the callback, each event once, in order. *)
Theorem events_in_order p n st t s :
  codec enc dec good → watch_wf (s_watch n) → rtc (pstep enc dec good p) (path_start n st t) s →
  events (pa_got s) `sublist_of` pa_given s
  ∧ spaced (pa_dials s)
  ∧ ∀ c, pa_phase s = Streaming c → cn_open c = true → Forall (fits enc) (held c s) →
    (∃ s', rtc (flow_step enc dec p) s s' ∧ drained s')
    ∧ ∀ s', rtc (flow_step enc dec p) s s' → drained s' →
      ∃ es, cn_got c ++ es = held c s ∧ pa_got s' = pa_got s ++ es ∧ pa_ctl s' = deliver p es (pa_ctl s).
Proof.
  intros Hco Hw Hr. destruct (path_reach enc dec good p Hco n st t s Hw Hr) as [Hi [Hd _]]. split; [by eapply inv_delivered|]. split; [done|].
  intros c Hp Ho Hf. split; [by eapply drains|]. intros s' Hs Hdr. by apply (drained_delivers enc dec good p Hco s s' c).
Qed.

(** C11: A blocked query reaches the query log.  When the node answers a blocked
    query while the controller's stream is open, no frame is too long, and the
    channel and the log's queue have room, then the stream can be worked off;
    and however its sends and reads are scheduled, once it is, the controller
    has queued for the query log, after whatever was under way, an entry with
    action BLOCK, the client, the name without its last dot, the transport and
    the instance's label, and the blocklist the policy names. *)
Theorem blocked_query_logged (store_of : W → QueryLogStore) p n st t s c e ip id proto req q rest a :
  codec enc dec good →
  (∀ x w, store_of (w_log (CallEnqueue x) w) = Enqueue x (store_of w)) →
  (∀ x w, ∃ fail, store_of (w_log (CallError x) w) = RecordUpstreamError fail x (store_of w)) →
  watch_wf (s_watch n) → rtc (pstep enc dec good p) (path_start n st t) s →
  pa_phase s = Streaming c → cn_open c = true →
  let node := pa_node s in let d := TrimSuffix (q_Name q) "." in
  let client := if str_eqb id "" then ip_string ip else id in let list_ := blocking_list node ip id d in
  let ev := block_event e req client d list_ proto in
  clock_ok e → (verdict e ip node).2 = true → m_Question req = q :: rest → q_Qclass q ≠ ClassCHAOS →
  block_action node ip id d = Some a →
  (length (buffered (cn_chan c) (s_watch node)) < watchBuffer)%nat → good ev → Forall (fits enc) (held c s ++ [ev]) →
  fl_queryLog (pa_ctl s).1 = true → (length (ql_buf (store_of (pa_ctl s).2)) + length (held c s) < bufMax)%nat →
  ∃ n', serve e ip id proto req node = Some (n', applyBlockAction (base_reply req) q a)
    ∧ pstep enc dec good p s (node_moves n' s)
    ∧ (∃ s', rtc (flow_step enc dec p) (node_moves n' s) s' ∧ drained s')
    ∧ ∀ s', rtc (flow_step enc dec p) (node_moves n' s) s' → drained s' →
      ∃ before x, ql_buf (store_of (pa_ctl s').2) = ql_buf (store_of (pa_ctl s).2) ++ before ++ [x]
        ∧ qe_Action x = "BLOCK" ∧ qe_Client x = client ∧ qe_Domain x = d ∧ qe_Proto x = proto ∧ qe_QType x = qType req
        ∧ qe_Instance x = ic_Label (in_Config (inst p (pa_ctl s).1))
        ∧ (list_ ≠ "" → list_ ≠ "global" → qe_BlockList x = list_).
Proof.
  intros Hco Henq Herr Hw Hr Hp Ho node d client list_ ev Hk Hv Hq Hc Hb Hroom Hg Hf Hl Hq2.
  destruct (path_reach enc dec good p Hco n st t s Hw Hr) as [Hi _].
  destruct (blocked_moves enc dec good p e ip id proto req q rest a s c Hi Hp Ho Hk Hv Hq Hc Hb Hroom Hg) as (n' & Hn & Hst & Hbuf).
  exists n'. split; [done|]. split; [done|]. pose proof (path_inv_step enc dec good p Hco _ _ Hi Hst) as Hi'.
  assert (held c (node_moves n' s) = held c s ++ [ev]) as Hh
    by (unfold held; change (pa_node (node_moves n' s)) with n'; rewrite Hbuf; apply List.app_assoc).
  split; [by eapply drains|]. intros s' Hs' Hd. destruct (pa_ctl s) as [f w] eqn:Ect. cbn [fst snd] in *.
  destruct (drained_logged enc dec good p Hco store_of Henq Herr (node_moves n' s) s' c f w Hi' Hp) as (es & xs & H2 & H3 & Hxs); try done.
  { by rewrite Hh. } { rewrite Hh, length_app. cbn. lia. }
  rewrite Hh in H2. unfold held in H2. rewrite <-List.app_assoc in H2.
  destruct (held_last enc dec good Hco (node_moves n' s) c es _ _ Hi' Hp H2) as (es' & ->).
  rewrite filter_app in Hxs. apply Forall2_app_inv_l in Hxs as (before & last & _ & Hlast & ->).
  rewrite filter_cons, decide_True in Hlast by done. apply Forall2_cons_inv_l in Hlast as (x & l' & Hx & Hnil & ->).
  apply Forall2_nil_inv_l in Hnil as ->. exists before, x. destruct Hx as (block & -> & _ & Hblk).
  split_and!; [done..|]. intros H6 H7. by apply Hblk.
Qed.
End Claims.

(** ** A sample path for the witnesses *)
Definition log_world_log (c : log_call) (q : QueryLogStore) : QueryLogStore :=
  match c with
  | CallEnqueue x => Enqueue x q
  | CallError x => RecordUpstreamError false x q
  | _ => q
  end.
#[export] Instance log_world : World QueryLogStore := {|
  w_transport := λ _ w, (w, Err "connection refused");
  w_now w := (w, 0);
  w_range _ l := l;
  w_readConfig _ _ := Err "none";
  w_writeConfig _ _ w := (w, None);
  w_log := log_world_log;
  w_blockLabel _ _ := Ok "ads" |}.
Definition demo_ask : Msg := Records.demo_query "ads.example." TypeA.
Definition demo_blocked : WatchEvent := block_event demo_env demo_ask "192.168.1.5" "ads.example" "global" ProtoDNS.
(** A codec for this event and one keepalive. *)
Definition demo_enc (e : WatchEvent) : string := if str_eqb (ev_Type e) "block" then "{b}" else "{k}".
Definition demo_dec (s : string) : option WatchEvent :=
  if str_eqb s " {b}" then Some demo_blocked else if str_eqb s " {k}" then Some (keepalive 0 None) else None.
Definition demo_good (e : WatchEvent) : Prop := e = demo_blocked ∨ e = keepalive 0 None.
Lemma demo_codec : codec demo_enc demo_dec demo_good.
Proof.
  split.
  - intros e [->| ->]; reflexivity.
  - assert (∀ c p q, String "{" (String c "}") = p +:+ q → q ≠ "" → slen p ≠ 3%nat) as Hcut.
    { intros c p q E Hq Hp. destruct p as [|c1 [|c2 [|c3 [|]]]]; try discriminate Hp. rewrite !app_cons in E. injection E as _ _ _ E. by destruct q. }
    intros e p q He E Hq. assert (demo_enc e = "{b}" ∨ demo_enc e = "{k}") as Hb by (destruct He as [->| ->]; auto).
    unfold demo_dec. rewrite E in Hb. assert (p ≠ "{b}" ∧ p ≠ "{k}") as [H1 H2].
    { split; intros ->; destruct Hb as [Hb|Hb]; symmetry in Hb; by apply Hcut in Hb. }
    rewrite app_cons, app_nil_l. destruct (str_eqb _ " {b}") eqn:E1; [apply str_eqb_eq in E1; by injection E1 as ->|].
    destruct (str_eqb _ " {k}") eqn:E2; [apply str_eqb_eq in E2; by injection E2 as ->|done].
  - intros e [->| ->]; done.
  - intros e [->| ->]; reflexivity.
Qed.
Definition demo_ctl : Fleet * QueryLogStore :=
  (register (demo_config "kitchen" "https://kitchen") 0 (NewFleet "" true false), NewQueryLogStore [] 1 [] ∅ []).
(** The stream is up and has carried one keepalive. *)
Definition demo_conn : conn := mkConn 0 true (frame demo_enc (keepalive 0 None)) new_scanner [keepalive 0 None] "" [].
Definition demo_path : path (W := QueryLogStore) :=
  mkPath (set_watch (watch_open no_watch) demo_server) demo_ctl (Streaming demo_conn) 0 (mkWL 0 zero_time 0) [0] [] [].
Lemma demo_path_reach : rtc (pstep demo_enc demo_dec demo_good 0) (path_start demo_server demo_ctl 0) demo_path.
Proof.
  eapply rtc_l; [by apply ps_dial|]. apply rtc_once.
  match goal with |- pstep _ _ _ _ ?s _ => exact (ps_tick demo_enc demo_dec demo_good 0 s (dialled no_watch) None eq_refl eq_refl (or_intror eq_refl)) end.
Qed.
Lemma demo_watch_wf : watch_wf (s_watch demo_server).
Proof. apply no_watch_wf. Qed.
Lemma demo_fits l : Forall (fits demo_enc) l.
Proof.
  apply Forall_forall. intros e _. unfold fits, demo_enc. assert (∀ b : bool, 6 + slen (if b then "{b}" else "{k}") = 9)%nat as H by (by intros []).
  rewrite H. unfold maxToken. lia.
Qed.
Lemma events_in_order_witness :
  spaced (pa_dials demo_path) ∧
  ∃ s', rtc (flow_step demo_enc demo_dec 0) demo_path s' ∧ drained s'
    ∧ pa_got s' = [keepalive 0 None] ∧ pa_ctl s' = deliver 0 [keepalive 0 None] demo_ctl.
Proof.
  destruct (events_in_order demo_enc demo_dec demo_good 0 demo_server demo_ctl 0 demo_path demo_codec demo_watch_wf demo_path_reach) as (_ & Hd & H).
  split; [exact Hd|]. destruct (H demo_conn eq_refl eq_refl (demo_fits _)) as ((s' & H1 & H2) & H3).
  destruct (H3 s' H1 H2) as (es & H4 & H5 & H6). change (es = [keepalive 0 None]) in H4. subst es.
  exists s'. split; [exact H1|]. split; [exact H2|]. split; [exact H5|exact H6].
Defined.
Lemma blocked_query_logged_witness :
  ∃ n' a s' before x, serve demo_env demo_ip "" ProtoDNS demo_ask (pa_node demo_path) = Some (n', a)
    ∧ rtc (flow_step demo_enc demo_dec 0) (node_moves n' demo_path) s' ∧ drained s'
    ∧ ql_buf (pa_ctl s').2 = before ++ [x]
    ∧ qe_Action x = "BLOCK" ∧ qe_Client x = "192.168.1.5" ∧ qe_Domain x = "ads.example" ∧ qe_Instance x = "kitchen".
Proof.
  destruct (blocked_query_logged demo_enc demo_dec demo_good (λ w, w) 0 demo_server demo_ctl 0 demo_path demo_conn
    demo_env demo_ip "" ProtoDNS demo_ask (mkQuestion "ads.example." TypeA ClassINET) [] ActionZero demo_codec)
    as (n' & H1 & _ & (s' & H2 & H3) & H4).
  - reflexivity.
  - intros x w. by exists false.
  - apply demo_watch_wf.
  - apply demo_path_reach.
  - reflexivity.
  - reflexivity.
  - unfold clock_ok. cbn. lia.
  - vm_compute. reflexivity.
  - reflexivity.
  - done.
  - vm_compute. reflexivity.
  - vm_compute. lia.
  - left. vm_compute. reflexivity.
  - apply demo_fits.
  - reflexivity.
  - vm_compute. lia.
  - destruct (H4 s' H2 H3) as (b & x & H5 & H6 & H7 & H8 & _ & _ & H9 & _).
    exists n', (applyBlockAction (base_reply demo_ask) (mkQuestion "ads.example." TypeA ClassINET) ActionZero), s', b, x.
    split; [exact H1|]. split; [exact H2|]. split; [exact H3|]. split; [exact H5|]. split; [exact H6|]. split; [exact H7|]. split; [exact H8|exact H9].
Defined.

(** What the stream holds when it breaks is lost: no event is sent again. *)
Example broken_stream_loses :
  let n := set_watch (Notify demo_blocked (watch_open no_watch)) demo_server in
  let s := node_moves n demo_path in
  let s1 := s <| pa_node := set_watch (watch_close 0 (s_watch n)) n |> <| pa_phase := Streaming (demo_conn <| cn_open := false |>) |> in
  let s2 := ended demo_dec 0 (demo_conn <| cn_open := false |>) s1 in
  pa_given s2 = [demo_blocked] ∧ pa_got s2 = [] ∧ pa_phase s2 = Waiting second ∧ w_chans (s_watch (pa_node s2)) = ∅.
Proof. vm_compute. auto. Qed.
