(* ===== verification/Import.v ===== *)
(** * The controller's blocklist: sources, import and hand-kept lists

    internal/controller/fleet.go from [BlocklistSources] to
    [runBlocklistImport].  The methods return the goroutines they start; a
    goroutine is a value that [run_goroutine] advances by one step, so that an
    execution is a sequence of operator actions and goroutine steps ([sys_step])
    and two imports, or an import and the stores of the hand-kept lists, can
    interleave.  The steps of an import end where the source asks whether it is
    still the current one, and between that question and the lock it takes
    next.  The database is that of BlocklistDB.v, the downloads are
    [FetchSource] of Blocklist.v; what they answer, the order in which they
    start and the texts of durations are arguments ([import_env]). *)
From S2P Require Import Prelude GoStrings Records Blocklist Upstream Stats HA Update Control Bus Release Client BlocklistDB QueryLog Fleet FleetPush.
#[local] Open Scope Z_scope.

(** The database, as a part of the world. *)
Class Store (W : Type) := { w_db : W → nat * DB; w_put_db : nat * DB → W → W; w_fault : nat → option string }.

(** ** Goroutines *)
(** An import under way, after its metadata were read. *)
Record merge := mkMerge {
  mg_all : list string;                      (* the configured sources *)
  mg_urls : list string;                     (* the enabled ones *)
  mg_meta : gmap string SourceMeta;
  mg_merged : gset string;
  mg_stats : list SourceStat;
  mg_failed : Z;
  mg_next : nat }.
#[export] Instance merge_eta : Eta merge := λ m,
  mkMerge (mg_all m) (mg_urls m) (mg_meta m) (mg_merged m) (mg_stats m) (mg_failed m) (mg_next m).
Inductive iphase :=
| IBegin
| IFetched (m : merge)                       (* all downloads have ended *)
| IMerge (m : merge)                         (* the next source is to be merged *)
| IStatus (m : merge)                        (* it was; the progress is to be shown *)
| ICheck (m : merge)                         (* all sources are merged *)
| IApply (m : merge)                         (* and the import was still current *)
| IPushed (r : results)                      (* the list was distributed *)
| IDefer (applied : bool)
| IFinish (applied : bool).                  (* still current in the deferred call *)
Inductive persist_kind := PManual | PAllowed | PList.
Inductive goroutine :=
| GImport (gen : Z) (ph : iphase)
| GSnap (k : persist_kind)                   (* is to read what it stores *)
| GStore (r : replacement)                   (* is to store it *)
| GLoad                                      (* [LoadBlocklistCache] *)
| GRestore (rows : gset string).
(** What an import meets: the download of a source and its duration, the order
    in which the downloads start, the whole duration. *)
Record import_env := mkIEnv {
  ie_fetch : nat → string → Validators → res fetch_error FetchResult;
  ie_took : nat → string;
  ie_order : list nat;
  ie_total : string }.

Section Imports.
Context {W : Type} `{!World W} `{!Fingerprints} `{!Store W} (hms : Z → string) (err_text : fetch_error → string).
#[local] Existing Instance fm_mret.
#[local] Existing Instance fm_mbind.
Notation FM := (FM (W := W)).
Definition sql {A} (m : Sql A) : FM (res string A) := λ '(f, w), let '(s, r) := m (w_db w) in ((f, w_put_db s w), r).
(** Only when the database was opened. *)
Definition if_db {A} (m : FM A) (none : A) : FM A := b ← read fl_blocklistDB; if b : bool then m else mret none.

(** ** The import log *)
Definition capped (l : list string) : list string := if (300 <? length l)%nat then drop (length l - 300) l else l.
Definition logImport (line : string) : FM unit :=
  t ← now; write (λ f, f <| fl_importLog ::= λ l, capped (l ++ [hms t +:+ " " +:+ line]) |>).
Definition ClearImportLog : FM unit := write (λ f, f <| fl_importLog := [] |>).

(** ** Sources *)
Definition enabled_sources (f : Fleet) : list string := filter (λ u, u ∉ fl_blocklistDisabled f) (fl_blocklistSources f).
Definition startBlocklistImport : FM (list goroutine) :=
  write (λ f, f <| fl_blGen ::= Z.succ |>);;
  gen ← read fl_blGen;
  t ← now;
  write (λ f, f <| fl_blLastStart := t |> <| fl_blCancel := true |> <| fl_blRunning := true |>
                <| fl_blStatus := mkBLS true (Z.of_nat (length (enabled_sources f))) 0 "" 0 zero_time [] |> <| fl_importLog := [] |>);;
  n ← read (λ f, Z.of_nat (length (fl_blocklistSources f)));
  on ← read (λ f, bs_SourceTotal (fl_blStatus f));
  now;;
  (if on <? n then logImport ("starting import of " +:+ Itoa on +:+ " enabled source(s) (" +:+ Itoa (n - on) +:+ " disabled)")
   else logImport ("starting import of " +:+ Itoa n +:+ " source(s)"));;
  mret [GImport gen IBegin].
Definition SetBlocklistSourcesDefault (urls : list string) : FM unit := write (λ f, f <| fl_blocklistSources := cleanURLs urls |>).
Definition SetBlocklistSources (urls : list string) : FM (list goroutine) :=
  write (λ f, f <| fl_blocklistSources := cleanURLs urls |>
                <| fl_blocklistDisabled ::= λ X, X ∩ list_to_set (cleanURLs urls) |>);;
  persist;; startBlocklistImport.
Definition SetBlocklistSourceEnabled (url : string) (enabled : bool) : FM (list goroutine) :=
  write (λ f, f <| fl_blocklistDisabled ::= λ X, if enabled then X ∖ {[url]} else {[url]} ∪ X |>);;
  persist;; startBlocklistImport.
Definition SetBlocklistDisabled (urls : list string) : FM unit :=
  write (λ f, f <| fl_blocklistDisabled := list_to_set (cleanURLs urls) |>).
Definition SetAutoUpdateHours (h : Z) : FM unit := write (λ f, f <| fl_autoUpdateHours := if h <? 0 then 0 else h |>);; persist.
(** One tick of [StartAutoUpdater]. *)
Definition auto_update : FM (list goroutine) :=
  hours ← read fl_autoUpdateHours;
  ready ← read (λ f, (0 <? hours) && negb (bool_decide (fl_blocklistSources f = [])) && negb (fl_blRunning f));
  last ← read (λ f, bs_LastUpdate (fl_blStatus f));
  if negb ready then mret []
  else if last =? zero_time then startBlocklistImport
  else t ← now; if i64 (hours * hour) <=? time_sub t last then startBlocklistImport else mret [].
(** [BlocklistStatus]: the stored fields and those filled in on reading. *)
Record BlocklistView := mkBLV {
  bv_status : BlocklistStatus; bv_Sources : list string; bv_Disabled : list string; bv_SourceStats : list SourceStat;
  bv_Log : list string; bv_AutoUpdateHours : Z; bv_NextUpdate : Z }.
Definition BlocklistStatus_read : FM BlocklistView :=
  off ← range (λ f, elements (fl_blocklistDisabled f));
  read (λ f,
    let st := fl_blStatus f in
    let hours := fl_autoUpdateHours f in
    mkBLV (if bs_Running st then st else st <| bs_Domains := Count (fl_blocklist f) |>)
      (fl_blocklistSources f) off (fl_sourceStats f) (fl_importLog f) hours
      (if (0 <? hours) && negb (bs_LastUpdate st =? zero_time) then bs_LastUpdate st + i64 (hours * hour) else zero_time)).

(** ** Storing in the background *)
Definition persistManual : FM (list goroutine) := if_db (mret [GSnap PManual]) [].
Definition persistAllowed : FM (list goroutine) := if_db (mret [GSnap PAllowed]) [].
Definition persistBlocklist : FM (list goroutine) := if_db (mret [GSnap PList]) [].
Definition ManualDomains (f : Fleet) : list string := merge_sort String.le (elements (fl_manualDomains f)).
Definition snap (k : persist_kind) : FM replacement :=
  match k with
  | PManual => l ← read ManualDomains; mret (RHand TManual l)
  | PAllowed => l ← read AllowedDomains; mret (RHand TAllow l)
  | PList => l ← lists; mret (RBlocklist l.1)
  end.

(** ** Hand-kept domains *)
Definition LoadManualDomains : FM unit :=
  if_db (r ← sql (loadDomainSet w_fault TManual);
         match r with Ok m => write (λ f, f <| fl_manualDomains := m |>) | Err _ => mret () end) ().
Definition AddManualDomain (domain : string) : FM (list goroutine) :=
  let d := NormalizeDomain domain in
  if str_eqb d "" then mret []
  else
    write (λ f, f <| fl_manualDomains ::= λ X, {[d]} ∪ X |>);;
    write (λ f, f <| fl_blocklist ::= Add d |>);;
    a ← persistManual; b ← persistBlocklist; mret (a ++ b).
Definition RemoveManualDomain (domain : string) : FM (list goroutine) :=
  let d := NormalizeDomain domain in
  known ← read (λ f, bool_decide (d ∈ fl_manualDomains f));
  if str_eqb d "" || negb known then mret []
  else
    write (λ f, f <| fl_manualDomains ::= λ X, X ∖ {[d]} |>);;
    write (λ f, f <| fl_blocklist ::= Remove d |>);;
    a ← persistManual; b ← persistBlocklist; mret (a ++ b).
Definition ClearManualDomains : FM (list goroutine) :=
  manual ← range (λ f, elements (fl_manualDomains f));
  write (λ f, f <| fl_manualDomains := ∅ |>);;
  write (λ f, f <| fl_blocklist ::= λ b, foldl (λ b d, Remove d b) b manual |>);;
  a ← persistManual; b ← persistBlocklist; mret (a ++ b).
Definition LoadAllowedDomains : FM unit :=
  if_db (r ← sql (loadDomainSet w_fault TAllow);
         match r with Ok m => write (λ f, f <| fl_manualAllowed := m |>);; write syncAllowed | Err _ => mret () end) ().
Definition AddAllowedDomain (domain : string) : FM (list goroutine) :=
  let d := NormalizeDomain domain in
  if str_eqb d "" then mret []
  else
    write (λ f, f <| fl_manualAllowed ::= λ X, {[d]} ∪ X |>);;
    write (λ f, f <| fl_blocklist ::= AddAllowed d |>);; persistAllowed.
Definition RemoveAllowedDomain (domain : string) : FM (list goroutine) :=
  let d := NormalizeDomain domain in
  known ← read (λ f, bool_decide (d ∈ fl_manualAllowed f));
  if str_eqb d "" || negb known then mret []
  else
    write (λ f, f <| fl_manualAllowed ::= λ X, X ∖ {[d]} |>);;
    write (λ f, f <| fl_blocklist ::= RemoveAllowed d |>);; persistAllowed.
Definition ClearAllowedDomains : FM (list goroutine) :=
  write (λ f, f <| fl_manualAllowed := ∅ |> <| fl_blocklist ::= SetAllowed [] |>);; persistAllowed.

(** ** At startup *)
Definition LoadSourceStats : FM unit :=
  if_db (
    r ← sql (LoadSourceMeta w_fault);
    match r with
    | Err _ => mret ()
    | Ok m =>
        order ← range (λ _, elements (dom m));
        write (λ f,
          let stat u := (λ x, mkSrcStat (sm_URL x) (sm_Domains x) (sm_LastUpdate x) (sm_Error x)) <$> m !! u in
          let known := omap stat (remove_dups (fl_blocklistSources f)) in
          let other := omap stat (filter (λ u, u ∉ fl_blocklistSources f) order) in
          let latest := foldl (λ t x, if t <? sst_LastUpdate x then sst_LastUpdate x else t) zero_time known in
          f <| fl_sourceStats := stable_sort (λ a b, str_ltb (sst_URL a) (sst_URL b)) (known ++ other) |>
            <| fl_blStatus ::= λ b, if latest =? zero_time then b else b <| bs_LastUpdate := latest |> |>)
    end) ().
Definition LoadBlocklistCache : FM (list goroutine) := if_db (write (λ f, f <| fl_blLoading := true |>);; mret [GLoad]) [].
Definition restore (rows : gset string) : FM (list goroutine) :=
  enum ← range (λ _, elements rows);
  write (λ f, if (0 <? Z.of_nat (size rows)) && (Count (fl_blocklist f) =? 0)
              then f <| fl_blocklist ::= FromDomainsMap enum |> else f);;
  write (λ f, f <| fl_blStatus ::= λ b, b <| bs_Domains := Count (fl_blocklist f) |> |> <| fl_blLoading := false |>);;
  mret [].

(** ** The import *)
Definition current (gen : Z) : FM bool := read (λ f, fl_blGen f =? gen).
Definition count_of (X : gset string) : Z := Z.of_nat (size X).
Definition kept_validators (m : merge) (u : string) : Validators :=
  match mg_meta m !! u with Some x => mkVal (sm_ETag x) (sm_LastModified x) | None => mkVal "" "" end.
Definition position (m : merge) (i : nat) : string :=
  "[" +:+ Itoa (Z.of_nat (S i)) +:+ "/" +:+ Itoa (Z.of_nat (length (mg_urls m))) +:+ "] ".
Definition add_error (e : string) (f : Fleet) : Fleet := f <| fl_blStatus ::= λ s, s <| bs_Errors ::= λ l, l ++ [e] |> |>.

Definition import_nothing : FM (iphase * list goroutine) :=
  write (λ f, f <| fl_blStatus ::= λ s, s <| bs_Errors := ["no blocklist sources configured"] |> |> <| fl_sourceStats := [] |>);;
  logImport "no blocklist sources configured — list cleared";;
  if_db (sql (PruneSources w_fault []);; mret ()) ();;
  pushBlocklist;;
  gs ← persistBlocklist; mret (IDefer false, gs).
Definition import_manual_only : FM (iphase * list goroutine) :=
  n ← read (λ f, Z.of_nat (length (fl_blocklistSources f)));
  logImport ("all " +:+ Itoa n +:+ " configured source(s) are disabled — keeping only manual domains");;
  enum ← range (λ f, elements (fl_manualDomains f));
  write (λ f, f <| fl_blocklist ::= FromDomainsMap enum |>);;
  gs ← persistBlocklist; pushBlocklist;; mret (IDefer false, gs).
Definition previous_meta : FM (gmap string SourceMeta) :=
  if_db (r ← sql (LoadSourceMeta w_fault); mret (match r with Ok m => m | Err _ => ∅ end)) ∅.
Definition import_begin (e : import_env) : FM (iphase * list goroutine) :=
  now;;
  all ← read fl_blocklistSources;
  urls ← read enabled_sources;
  if bool_decide (all = []) then import_nothing
  else if bool_decide (urls = []) then import_manual_only
  else
    meta ← previous_meta;
    manual ← read fl_manualDomains;
    let m := mkMerge all urls meta manual [] 0 0 in
    (if 0 <? count_of manual then logImport ("seeding " +:+ Itoa (count_of manual) +:+ " manually added domain(s)") else mret ());;
    each (ie_order e) () (λ i _, now;; logImport (position m i +:+ "fetching " +:+ nth i urls ""));;
    mret (IFetched m, []).
(** The stored snapshot of a source, empty when it cannot be read. *)
Definition fallback (u : string) : FM (gset string) :=
  if_db (r ← sql (LoadSourceDomains w_fault u); mret (match r with Ok X => X | Err _ => ∅ end)) ∅.
Definition or_previous (n : Z) (prev : option SourceMeta) : Z :=
  if n =? 0 then match prev with Some x => sm_Domains x | None => 0 end else n.
(** What a source contributes, its statistics and its validators. *)
Definition merge_source (e : import_env) (m : merge) (i : nat) (u : string) : FM (gset string * SourceStat * Validators * bool) :=
  let at_ := position m i in
  let v := kept_validators m u in
  let prev := mg_meta m !! u in
  match ie_fetch e i u v with
  | Err er =>
      logImport (at_ +:+ "failed: " +:+ err_text er);;
      X ← fallback u;
      let n := or_previous (count_of X) prev in
      logImport (if 0 <? n then at_ +:+ "keeping previous snapshot (" +:+ Itoa n +:+ " domains)"
                 else at_ +:+ "no fallback snapshot available");;
      mret (X, mkSrcStat u n (match prev with Some x => sm_LastUpdate x | None => zero_time end) (err_text er), v, true)
  | Ok fr =>
      let nv := fr_Validators fr in
      let nv := if str_eqb (v_ETag nv) "" && str_eqb (v_LastModified nv) "" then v else nv in
      if fr_NotModified fr then
        logImport (at_ +:+ "unchanged since last fetch, keeping snapshot");;
        X ← fallback u;
        t ← now;
        mret (X, mkSrcStat u (or_previous (count_of X) prev) t "", nv, false)
      else
        let X := fr_Domains fr in
        logImport (at_ +:+ "ok: " +:+ Itoa (count_of X) +:+ " domains in " +:+ ie_took e i);;
        t ← now;
        rows ← range (λ _, elements X);
        if_db (sql (ReplaceSourceDomains w_fault u rows);; mret ()) ();;
        mret (X, mkSrcStat u (count_of X) t "", nv, false)
  end.
Definition store_meta (st : SourceStat) (v : Validators) : FM unit :=
  if_db (sql (ReplaceSourceMeta w_fault (mkMeta (sst_URL st) (sst_Domains st) (sst_LastUpdate st) (sst_Error st) (v_ETag v) (v_LastModified v)));;
         mret ()) ().
Definition import_merge (e : import_env) (gen : Z) (m : merge) : FM (iphase * list goroutine) :=
  let i := mg_next m in
  let u := nth i (mg_urls m) "" in
  '(X, st, v, bad) ← merge_source e m i u;
  store_meta st v;;
  let m := m <| mg_merged ::= λ Y, Y ∪ X |> <| mg_stats ::= λ l, l ++ [st] |> <| mg_failed ::= λ n, if bad : bool then n + 1 else n |>
             <| mg_next := S i |> in
  c ← current gen;
  mret (if c : bool then IStatus m else IDefer false, []).
Definition import_status (m : merge) : FM (iphase * list goroutine) :=
  write (λ f, f <| fl_blStatus ::= λ s, s <| bs_CurrentURL := nth (Nat.pred (mg_next m)) (mg_urls m) "" |>
                                         <| bs_SourceDone := Z.of_nat (mg_next m) |>
                                         <| bs_SourceTotal := Z.of_nat (length (mg_urls m)) |>
                                         <| bs_Domains := count_of (mg_merged m) |> |>
                <| fl_sourceStats := mg_stats m |>);;
  mret (if (mg_next m <? length (mg_urls m))%nat then IMerge m else ICheck m, []).
Definition import_apply (m : merge) : FM (iphase * list goroutine) :=
  let n := count_of (mg_merged m) in
  let none := "no domains fetched from any source (" +:+ Itoa (mg_failed m) +:+ " failed)" in
  if n =? 0 then
    write (λ f, add_error none f <| fl_sourceStats := mg_stats m |>);;
    logImport (none +:+ " — keeping previous merged list");;
    mret (IDefer false, [])
  else
    logImport ("merged " +:+ Itoa n +:+ " domains from " +:+ Itoa (Z.of_nat (length (mg_urls m))) +:+ " source(s)");;
    before ← read (λ f, Checksum (fl_blocklist f));
    enum ← range (λ _, elements (mg_merged m));
    write (λ f, f <| fl_blocklist ::= FromDomainsMap enum |>);;
    after ← read (λ f, Checksum (fl_blocklist f));
    if_db (sql (PruneSources w_fault (mg_all m));; sql (checkpoint w_fault);; mret ()) ();;
    if after =? before then
      logImport ("list unchanged (" +:+ Itoa n +:+ " domains) — skipping persist + distribute");;
      mret (IDefer true, [])
    else
      gs ← persistBlocklist;
      logImport "persisted merged list to local cache";;
      logImport ("distributing " +:+ Itoa n +:+ " domains to instances");;
      r ← pushBlocklist;
      mret (IPushed r, gs).
Definition import_pushed (gen : Z) (r : results) : FM (iphase * list goroutine) :=
  c ← current gen;
  if negb c then mret (IDefer true, [])
  else
    ids ← range (λ _, key_list r);
    let bad := omap (λ id, x ← r !! id; if str_eqb x "ok" then None else Some (id +:+ ": " +:+ x)) ids in
    let total := Z.of_nat (length ids) in
    let text := Join bad "; " in
    (if bool_decide (bad = []) then mret () else write (add_error ("distribution: " +:+ text)));;
    logImport ("distributed to " +:+ Itoa (total - Z.of_nat (length bad)) +:+ "/" +:+ Itoa total +:+ " instance(s)");;
    (if bool_decide (bad = []) then mret () else logImport ("distribution errors: " +:+ text));;
    mret (IDefer true, []).
Definition import_finish (e : import_env) (applied : bool) : FM (list goroutine) :=
  write (λ f, f <| fl_blRunning := false |> <| fl_blCancel := false |>
                <| fl_blStatus ::= λ s, s <| bs_Running := false |> <| bs_Domains := Count (fl_blocklist f) |> |>);;
  (if applied then t ← now; write (λ f, f <| fl_blStatus ::= λ s, s <| bs_LastUpdate := t |> |>) else mret ());;
  errs ← read (λ f, Z.of_nat (length (bs_Errors (fl_blStatus f))));
  logImport ("finished in " +:+ ie_total e +:+ (if 0 <? errs then " · " +:+ Itoa errs +:+ " error(s)" else ""));;
  publish (λ t, fleet_event "" "" "status" t "blocklist update finished" "");;
  mret [].
(** One step of [runBlocklistImport] and of its deferred call. *)
Definition import_step (e : import_env) (gen : Z) (ph : iphase) : FM (list goroutine) :=
  let go (m : FM (iphase * list goroutine)) := '(ph, gs) ← m; mret (GImport gen ph :: gs) in
  let guarded (next : iphase) := go (c ← current gen; mret (if c : bool then next else IDefer false, [])) in
  match ph with
  | IBegin => go (import_begin e)
  | IFetched m => guarded (IMerge m)
  | IMerge m => go (import_merge e gen m)
  | IStatus m => go (import_status m)
  | ICheck m => guarded (IApply m)
  | IApply m => go (import_apply m)
  | IPushed r => go (import_pushed gen r)
  | IDefer applied => c ← current gen; mret (if c : bool then [GImport gen (IFinish applied)] else [])
  | IFinish applied => import_finish e applied
  end.
Definition run_goroutine (e : import_env) (g : goroutine) : FM (list goroutine) :=
  match g with
  | GImport gen ph => import_step e gen ph
  | GSnap k => r ← snap k; mret [GStore r]
  | GStore r => sql (replace w_fault r);; mret []
  | GLoad => r ← sql (LoadSet w_fault);
             match r with Ok rows => mret [GRestore rows] | Err _ => write (λ f, f <| fl_blLoading := false |>);; mret [] end
  | GRestore rows => restore rows
  end.

(** ** Executions *)
Inductive action :=
| ASources (urls : list string) | AToggle (url : string) (on : bool) | ATick
| AAddManual (d : string) | ARemoveManual (d : string) | AClearManual
| AAddAllowed (d : string) | ARemoveAllowed (d : string) | AClearAllowed.
Definition act (a : action) : FM (list goroutine) :=
  match a with
  | ASources urls => SetBlocklistSources urls
  | AToggle url on => SetBlocklistSourceEnabled url on
  | ATick => auto_update
  | AAddManual d => AddManualDomain d
  | ARemoveManual d => RemoveManualDomain d
  | AClearManual => ClearManualDomains
  | AAddAllowed d => AddAllowedDomain d
  | ARemoveAllowed d => RemoveAllowedDomain d
  | AClearAllowed => ClearAllowedDomains
  end.
(** The goroutines are steps in any order; [ERun k] advances the [k]-th. *)
Inductive event := EAct (a : action) | ERun (k : nat) (e : import_env).
Definition sys : Type := (Fleet * W) * list goroutine.
Definition sys_step (ev : event) (s : sys) : sys :=
  match ev with
  | EAct a => let '(fw, new) := act a s.1 in (fw, s.2 ++ new)
  | ERun k e =>
      match s.2 !! k with
      | None => s
      | Some g => let '(fw, new) := run_goroutine e g s.1 in (fw, take k s.2 ++ new ++ drop (S k) s.2)
      end
  end.
Definition sys_run (evs : list event) (s : sys) : sys := foldl (λ s ev, sys_step ev s) s evs.
End Imports.

(** ** One import by itself *)
Section Facts.
Context {W : Type} `{!World W} `{!Fingerprints} `{!Store W} (hms : Z → string) (err_text : fetch_error → string).
Context (Hput : ∀ x (w : W), w_db (w_put_db x w) = x) (Hclock : ∀ w : W, w_db (w_now w).1 = w_db w).
Context (Hsound : ∀ j, w_fault (W := W) j = None).
#[local] Existing Instance fm_mret.
#[local] Existing Instance fm_mbind.
Notation FM := (FM (W := W)).
Implicit Types s : Fleet * W.
(** What an import looks at and, until it is applied, does not change. *)
Definition core (f : Fleet) := (fl_blGen f, fl_blocklist f, fl_blocklistDB f, fl_manualDomains f).
Lemma keeps_sql {B A} (g : Fleet → B) (m : Sql A) : keeps g (sql m).
Proof. intros [f w]. unfold sql. cbn. by destruct (m (w_db w)). Qed.
#[local] Hint Resolve keeps_sql : keeps.
Lemma keeps_log {B} (g : Fleet → B) line :
  (∀ f h, g (f <| fl_importLog ::= h |>) = g f) → keeps g (logImport hms line).
Proof. intros Hg. unfold logImport. keep. Qed.
#[local] Hint Extern 1 (keeps _ (logImport _ _)) => apply keeps_log; done : keeps.
(** Steps that leave the database alone. *)
Definition db_alone {A} (m : FM A) : Prop := ∀ s, w_db (m s).1.2 = w_db s.2.
Lemma alone_bind {A B} (m : FM A) (k : A → FM B) : db_alone m → (∀ a, db_alone (k a)) → db_alone (m ≫= k).
Proof. intros Hm Hk s. rewrite bind_at, Hk. apply Hm. Qed.
Lemma alone_now : db_alone now.
Proof. intros [f w]. unfold now. cbn. pose proof (Hclock w) as Hw. by destruct (w_now w). Qed.
Lemma alone_pure {A} (m : FM A) : (∀ s, (m s).1.2 = s.2) → db_alone m.
Proof. intros Hm s. by rewrite Hm. Qed.
Lemma alone_write g : db_alone (write g).
Proof. apply alone_pure. by intros []. Qed.
Lemma alone_range g : db_alone (range g).
Proof. apply alone_pure. by intros []. Qed.
Lemma alone_log line : db_alone (logImport hms line).
Proof. apply alone_bind; [apply alone_now|]. intros t. apply alone_write. Qed.
(** Statements that succeed. *)
Lemma sql_select {A} (g : DB → A) s : (sql (select w_fault g) s).2 = Ok (g (w_db s.2).2) ∧ (w_db (sql (select w_fault g) s).1.2).2 = (w_db s.2).2.
Proof. destruct s as [f w]. unfold sql, select, stmt. cbn. destruct (w_db w) as [k d]. rewrite Hsound. cbn. by rewrite Hput. Qed.
Lemma if_db_on {A} (m : FM A) n s : fl_blocklistDB s.1 = true → if_db m n s = m s.
Proof. intros Hd. unfold if_db. by rewrite read_at, Hd. Qed.
Lemma fallback_ok u s :
  fl_blocklistDB s.1 = true →
  (fallback u s).2 = snapshot u (w_db s.2).2 ∧ (w_db (fallback u s).1.2).2 = (w_db s.2).2 ∧ core (fallback u s).1.1 = core s.1.
Proof.
  intros Hd. assert (keeps core (fallback (W := W) u)) as Hk by (unfold fallback, if_db; keep).
  unfold fallback. rewrite if_db_on by done. rewrite bind_at. unfold LoadSourceDomains.
  destruct (sql_select (snapshot u) s) as [-> Hw]. split_and!; [done..|]. specialize (Hk s). unfold fallback in Hk.
  rewrite if_db_on in Hk by done. rewrite bind_at in Hk. exact Hk.
Qed.

(** Storing the list of one source leaves the snapshots of the others. *)
Lemma store_other u rows u' s :
  u' ≠ u → snapshot u' (w_db (sql (ReplaceSourceDomains w_fault u rows) s).1.2).2 = snapshot u' (w_db s.2).2.
Proof.
  intros Hu. destruct s as [f w]. unfold sql. cbn. destruct (w_db w) as [k d].
  pose proof (runs_replace w_fault (RSource u rows) k d) as Hr. pose proof (replace_atomic w_fault (RSource u rows) k d) as Ha.
  cbn [replace] in Hr, Ha. destruct (ReplaceSourceDomains w_fault u rows (k, d)) as [[k' d'] [[]|er]]; cbn; rewrite Hput; cbn.
  - injection Hr as <-. by apply snapshot_other.
  - by rewrite (Ha _ _ _ eq_refl).
Qed.

Section Run.
Context (e : import_env) (meta : gmap string SourceMeta) (db0 : DB).
Definition validators_of (u : string) : Validators :=
  match meta !! u with Some x => mkVal (sm_ETag x) (sm_LastModified x) | None => mkVal "" "" end.
(** What a source contributes: the fresh list, or its last good snapshot when
    the download fails or the server reports no change. *)
Definition contribution (i : nat) (u : string) : gset string :=
  match ie_fetch e i u (validators_of u) with
  | Ok fr => if fr_NotModified fr then snapshot u db0 else fr_Domains fr
  | Err _ => snapshot u db0
  end.
Lemma merge_source_ok m i u s :
  mg_meta m = meta → fl_blocklistDB s.1 = true → snapshot u (w_db s.2).2 = snapshot u db0 →
  let r := merge_source hms err_text e m i u s in
  r.2.1.1.1 = contribution i u ∧ core r.1.1 = core s.1
  ∧ ∀ u', u' ≠ u → snapshot u' (w_db r.1.2).2 = snapshot u' (w_db s.2).2.
Proof.
  intros Hm Hd Hs. cbn zeta. unfold merge_source, contribution, kept_validators. rewrite Hm. fold (validators_of u).
  assert (∀ line, fl_blocklistDB (logImport hms line s).1.1 = true) as Hd' by (intros line; rewrite <-Hd; by apply (keeps_log fl_blocklistDB)).
  assert (∀ line, core (logImport hms line s).1.1 = core s.1) as Hc by (intros line; by apply (keeps_log core)).
  assert (∀ line, w_db (logImport hms line s).1.2 = w_db s.2) as Hw by (intros line; apply alone_log).
  assert (∀ s', core (now s').1.1 = core s'.1) as Hn by apply keeps_now.
  destruct (ie_fetch e i u (validators_of u)) as [fr|er]; [destruct (fr_NotModified fr)|];
    rewrite bind_at; cbv beta; match goal with |- context [logImport hms ?l s] => set (line := l) end; specialize (Hd' line); specialize (Hc line); specialize (Hw line);
    revert Hd' Hc Hw; destruct (logImport hms line s) as [s1 []]; cbn [fst snd]; intros Hd1 Hc1 Hw1; clear line; rewrite bind_at.
  - destruct (fallback_ok u s1 Hd1) as (F1 & F2 & F3). rewrite F1, Hw1, bind_at, <-Hs. cbn [fst snd mret fm_mret].
    split_and!; [done|by rewrite Hn, F3|]. intros u' _. by rewrite alone_now, F2, Hw1.
  - assert (fl_blocklistDB (now s1).1.1 = true) as Hd2 by (rewrite <-Hd1; by apply keeps_now).
    assert (w_db (now s1).1.2 = w_db s.2) as Hw2 by by rewrite alone_now. assert (core (now s1).1.1 = core s.1) as Hc2 by by rewrite Hn.
    revert Hd2 Hw2 Hc2. destruct (now s1) as [s2 t]. cbn [fst snd]. clear s1 Hd1 Hc1 Hw1. intros Hd1 Hw1 Hc1. rename s2 into s1.
    rewrite bind_at. assert ((range (W := W) (λ _, elements (fr_Domains fr)) s1).1 = s1) as -> by by destruct s1.
    generalize (range (W := W) (λ _, elements (fr_Domains fr)) s1).2. intros rows.
    rewrite bind_at, if_db_on by done. rewrite bind_at. cbn [fst snd mret fm_mret].
    split_and!; [done|by rewrite (keeps_sql core)|]. intros u' Hu. rewrite <-Hw1. by apply store_other.
  - destruct (fallback_ok u s1 Hd1) as (F1 & F2 & F3). rewrite F1, Hw1, bind_at, <-Hs. cbn [fst snd mret fm_mret].
    set (line := if _ : bool then _ else _). split_and!; [done|by rewrite (keeps_log core), F3|].
    intros u' _. by rewrite alone_log, F2, Hw1.
Qed.
(** The import while it merges: [i] sources are done. *)
Record at_source (f0 : Fleet) (urls : list string) (i : nat) (m : merge) (s : Fleet * W) : Prop := {
  as_urls : mg_urls m = urls;
  as_meta : mg_meta m = meta;
  as_next : mg_next m = i;
  as_merged : mg_merged m = fl_manualDomains f0 ∪ ⋃ imap contribution (take i urls);
  as_core : core s.1 = core f0;
  as_db : ∀ u, u ∈ drop i urls → snapshot u (w_db s.2).2 = snapshot u db0 }.
Lemma store_meta_ok st v s :
  fl_blocklistDB s.1 = true →
  core (store_meta st v s).1.1 = core s.1 ∧ ∀ u, snapshot u (w_db (store_meta st v s).1.2).2 = snapshot u (w_db s.2).2.
Proof.
  intros Hd. unfold store_meta. rewrite if_db_on, bind_at by done. cbn [fst snd mret fm_mret]. split; [apply (keeps_sql core)|].
  intros u. destruct s as [f w]. unfold sql, ReplaceSourceMeta, update, stmt. cbn. destruct (w_db w) as [k d].
  rewrite Hsound. cbn. by rewrite Hput.
Qed.
Lemma current_at gen s : current gen s = (s, fl_blGen s.1 =? gen).
Proof. done. Qed.
(** One source: it is merged, then shown. *)
Lemma merge_round f0 gen urls i u m s :
  fl_blGen f0 = gen → fl_blocklistDB f0 = true → NoDup urls → urls !! i = Some u → at_source f0 urls i m s →
  ∃ m' s1 s2, import_step hms err_text e gen (IMerge m) s = (s1, [GImport gen (IStatus m')])
    ∧ import_step hms err_text e gen (IStatus m') s1 = (s2, [GImport gen (if (S i <? length urls)%nat then IMerge m' else ICheck m')])
    ∧ at_source f0 urls (S i) m' s2.
Proof.
  intros Hg Hd Hnd Hu [A1 A2 A3 A4 A5 A6].
  assert (fl_blocklistDB s.1 = true) as Hs by (injection A5; congruence).
  assert (u ∈ drop i urls) as Hin by (rewrite (drop_S _ _ _ Hu); set_solver).
  assert (nth i urls "" = u) as Hnth by by apply nth_lookup_Some.
  pose proof (merge_source_ok m i u s A2 Hs (A6 u Hin)) as (R1 & R2 & R3).
  unfold import_step at 1, import_merge. rewrite !bind_at, A3, A1, Hnth.
  destruct (merge_source hms err_text e m i u s) as [s1 [[[X st] v] bad]]. cbn [fst snd] in R1, R2, R3 |- *. subst X.
  assert (fl_blocklistDB s1.1 = true) as Hs1 by (rewrite A5 in R2; injection R2; congruence).
  destruct (store_meta_ok st v s1 Hs1) as [S1 S2]. rewrite !bind_at, current_at.
  assert (fl_blGen (store_meta st v s1).1.1 = gen) as Hgen by (rewrite R2, A5 in S1; injection S1; congruence).
  rewrite Hgen, Z.eqb_refl. cbn [fst snd mret fm_mret].
  revert S1 S2 Hgen. generalize (store_meta st v s1).1. intros s2 S1 S2 Hgen.
  eexists _, s2, _. split; [reflexivity|]. unfold import_step, import_status. rewrite !bind_at.
  split; [cbn; rewrite A1; reflexivity|]. destruct s2 as [f2 w2]. cbn in S1, S2.
  split; cbn; [done..| | |].
  - rewrite A4, (take_S_r _ _ _ Hu), imap_app, union_list_app_L. cbn. rewrite length_take_le by (apply lookup_lt_Some in Hu; lia).
    rewrite Nat.add_0_r. set_solver.
  - rewrite <-A5, <-R2, <-S1. done.
  - intros u' Hu'. rewrite S2, R3, A6; [done|rewrite (drop_S _ _ _ Hu); set_solver|].
    rewrite (drop_S _ _ _ Hu) in *. apply list_elem_of_lookup in Hu' as [j Hj]. rewrite lookup_drop in Hj.
    intros ->. pose proof (NoDup_lookup _ _ _ _ Hnd Hu Hj). lia.
Qed.
(** Running the first goroutine [n] times. *)
Definition steps (n : nat) (x : sys (W := W)) : sys := sys_run hms err_text (replicate n (ERun 0 e)) x.
Lemma steps_add n k x : steps (n + k) x = steps k (steps n x).
Proof. unfold steps, sys_run. by rewrite replicate_add, foldl_app. Qed.
Lemma steps_S n x : steps (S n) x = steps n (steps 1 x).
Proof. apply (steps_add 1). Qed.
Lemma step_import gen ph gs s : steps 1 (s, GImport gen ph :: gs) =
  ((import_step hms err_text e gen ph s).1, (import_step hms err_text e gen ph s).2 ++ gs).
Proof. unfold steps, sys_run. cbn. destruct (import_step hms err_text e gen ph s) as [s' l]. by rewrite drop_0. Qed.
Lemma merge_all f0 gen urls k i m s :
  fl_blGen f0 = gen → fl_blocklistDB f0 = true → NoDup urls → (i + k = length urls)%nat → at_source f0 urls i m s →
  ∃ m' s', steps (2 * k) (s, [GImport gen (if (i <? length urls)%nat then IMerge m else ICheck m)]) = (s', [GImport gen (ICheck m')])
    ∧ at_source f0 urls (length urls) m' s'.
Proof.
  intros Hg Hd Hnd. revert i m s. induction k as [|k IH]; intros i m s Hk Ha.
  - assert ((i <? length urls)%nat = false) as -> by (apply Nat.ltb_ge; lia). exists m, s. split; [done|].
    by replace (length urls) with i by lia.
  - destruct (lookup_lt_is_Some_2 urls i) as [u Hu]; [lia|].
    destruct (merge_round _ _ _ _ _ _ _ Hg Hd Hnd Hu Ha) as (m1 & s1 & s2 & E1 & E2 & A2).
    assert ((i <? length urls)%nat = true) as -> by (apply Nat.ltb_lt; lia).
    replace (2 * S k)%nat with (S (S (2 * k))) by lia. rewrite steps_S, step_import, E1. cbn [fst snd app].
    rewrite steps_S, step_import, E2. apply (IH (S i)); [lia|done].
Qed.
(** The entries of a set, as the blocklist holds them. *)
Definition holds (X : gset string) (f : Fleet) : Prop :=
  bl_exact (fl_blocklist f) = exacts (elements X) ∧ bl_wild (fl_blocklist f) = wilds (elements X).
Lemma FromDomainsMap_order (X : gset string) enum b :
  enum ≡ₚ elements X →
  bl_exact (FromDomainsMap enum b) = exacts (elements X) ∧ bl_wild (FromDomainsMap enum b) = wilds (elements X).
Proof.
  intros He. rewrite FromDomainsMap_spec. cbn.
  split; apply set_eq; intros x; rewrite ?elem_exacts, ?elem_wilds; by setoid_rewrite He.
Qed.
Definition entries (f : Fleet) := (fl_blGen f, bl_exact (fl_blocklist f), bl_wild (fl_blocklist f)).
Lemma entries_sync f : entries (syncAllowed f) = entries f.
Proof. unfold entries, syncAllowed, SetAllowed. cbn. by destruct (foldl _ _ _) as [[? ?] ?]. Qed.
Lemma entries_push : keeps entries (pushBlocklist (W := W)).
Proof. unfold pushBlocklist, push_all, insts, id_of, cfg_of, token_of. keep. apply entries_sync. Qed.
Context (Hrange : ∀ (w : W) l, w_range w l ≡ₚ l).
Lemma keeps_if_db {B A} (g : Fleet → B) (m : FM A) n : keeps g m → keeps g (if_db m n).
Proof. intros Hm. unfold if_db. keep. Qed.
Lemma keeps_persist {B} (g : Fleet → B) : keeps g (persistBlocklist (W := W)).
Proof. unfold persistBlocklist, if_db. keep. Qed.
#[local] Hint Resolve entries_push keeps_persist keeps_if_db : keeps.
Definition lands (v : Z * gset string * gset string → Z * gset string * gset string) {A} (m : FM A) : Prop :=
  ∀ s, entries (m s).1.1 = v (entries s.1).
Lemma lands_bind {A B} v (m : FM A) (k : A → FM B) : keeps entries m → (∀ a, lands v (k a)) → lands v (m ≫= k).
Proof. intros Hm Hk s. rewrite bind_at, Hk. by rewrite Hm. Qed.
Lemma lands_set {B} (X : gset string) (k : FM B) :
  keeps entries k →
  lands (λ E, (E.1.1, exacts (elements X), wilds (elements X)))
    (enum ← range (λ _, elements X); write (λ f, f <| fl_blocklist ::= FromDomainsMap enum |>);; k).
Proof.
  intros Hk [f w]. rewrite bind_at. cbn [range fst snd]. rewrite bind_at, Hk. cbn [write fst snd]. unfold entries. cbn.
  destruct (FromDomainsMap_order X (w_range w (elements X)) (fl_blocklist f) (Hrange _ _)) as [H1 H2]. by rewrite H1, H2.
Qed.
Lemma apply_lands m s :
  entries (import_apply hms m s).1.1 =
  if count_of (mg_merged m) =? 0 then entries s.1
  else (fl_blGen s.1, exacts (elements (mg_merged m)), wilds (elements (mg_merged m))).
Proof.
  unfold import_apply. destruct (count_of (mg_merged m) =? 0).
  - apply (lands_bind (λ E, E)); [keep|]. intros _. apply lands_bind; [auto with keeps|]. by intros _ s'.
  - apply (lands_bind (λ E, (E.1.1, exacts (elements (mg_merged m)), wilds (elements (mg_merged m))))); [auto with keeps|].
    intros _. apply lands_bind; [auto with keeps|]. intros before. apply lands_set. keep.
Qed.
Lemma gen_entries f f' : entries f = entries f' → fl_blGen f = fl_blGen f'.
Proof. unfold entries. congruence. Qed.
Definition stored (gs : list goroutine) : Prop := gs = [] ∨ gs = [GSnap PList].
Lemma persist_stored s : stored (persistBlocklist s).2.
Proof. unfold persistBlocklist, if_db. rewrite read_at. destruct (fl_blocklistDB s.1); [by right|by left]. Qed.
Lemma apply_shape m s :
  stored (import_apply hms m s).2.2
  ∧ ((∃ b, (import_apply hms m s).2.1 = IDefer b) ∨ ∃ r, (import_apply hms m s).2.1 = IPushed r).
Proof.
  unfold import_apply. destruct (count_of (mg_merged m) =? 0); rewrite !bind_at; [split; [by left|left; by eexists]|].
  case_match; rewrite !bind_at; [split; [by left|left; by eexists]|].
  split; [apply persist_stored|right; by eexists].
Qed.
Lemma pushed_ok gen r s :
  entries (import_pushed hms gen r s).1.1 = entries s.1 ∧ (import_pushed hms gen r s).2 = (IDefer true, []).
Proof.
  split.
  - assert (keeps entries (import_pushed hms gen r)) as Hk; [|apply Hk]. unfold import_pushed, current. keep.
  - unfold import_pushed. rewrite bind_at. destruct (negb _); [done|]. by rewrite !bind_at.
Qed.
Lemma finish_ok b s :
  let r := import_finish hms e b s in
  r.2 = [] ∧ entries r.1.1 = entries s.1 ∧ fl_blRunning r.1.1 = false ∧ bs_Running (fl_blStatus r.1.1) = false.
Proof.
  assert (keeps entries (import_finish hms e b)) as Hk by (unfold import_finish; keep).
  cbn zeta. split; [unfold import_finish; by rewrite !bind_at|]. split; [apply Hk|].
  unfold import_finish. rewrite bind_at. set (rest := _ ≫= _).
  assert (keeps (λ f, (fl_blRunning f, bs_Running (fl_blStatus f))) rest) as Hr by (subst rest; keep).
  generalize dependent rest. intros rest Hr. destruct s as [f w].
  specialize (Hr (write (λ f, f <| fl_blRunning := false |> <| fl_blCancel := false |>
                <| fl_blStatus ::= λ b, b <| bs_Running := false |> <| bs_Domains := Count (fl_blocklist f) |> |>) (f, w)).1).
  by injection Hr.
Qed.
(** The question whether the import is still the current one. *)
Lemma check_step gen m s :
  fl_blGen s.1 = gen → import_step hms err_text e gen (ICheck m) s = (s, [GImport gen (IApply m)]).
Proof. intros Hg. unfold import_step. rewrite bind_at, bind_at, current_at, Hg, Z.eqb_refl. done. Qed.
Lemma fetched_step gen m s :
  fl_blGen s.1 = gen → import_step hms err_text e gen (IFetched m) s = (s, [GImport gen (IMerge m)]).
Proof. intros Hg. unfold import_step. rewrite bind_at, bind_at, current_at, Hg, Z.eqb_refl. done. Qed.
Lemma defer_step gen b s :
  fl_blGen s.1 = gen → import_step hms err_text e gen (IDefer b) s = (s, [GImport gen (IFinish b)]).
Proof. intros Hg. unfold import_step. rewrite bind_at, current_at, Hg, Z.eqb_refl. done. Qed.
(** From the end of the merge to the end of the import. *)
Lemma import_tail gen m s :
  fl_blGen s.1 = gen →
  ∃ n s' gs, (n ≤ 5)%nat ∧ steps n (s, [GImport gen (ICheck m)]) = (s', gs) ∧ stored gs
    ∧ fl_blRunning s'.1 = false ∧ bs_Running (fl_blStatus s'.1) = false
    ∧ entries s'.1 = if count_of (mg_merged m) =? 0 then entries s.1
                     else (fl_blGen s.1, exacts (elements (mg_merged m)), wilds (elements (mg_merged m))).
Proof.
  intros Hg. pose proof (apply_lands m s) as Hl. destruct (apply_shape m s) as [Hs Hph].
  assert (steps 1 (s, [GImport gen (ICheck m)]) = (s, [GImport gen (IApply m)])) as E1.
  { by rewrite step_import, check_step. }
  assert (fl_blGen (import_apply hms m s).1.1 = gen) as Hg1.
  { rewrite <-Hg. unfold entries in Hl. destruct (_ =? 0); by injection Hl. }
  revert Hl Hs Hph Hg1 E1.
  assert (steps 1 (s, [GImport gen (IApply m)]) = ((import_apply hms m s).1, GImport gen (import_apply hms m s).2.1 :: (import_apply hms m s).2.2)) as E2.
  { rewrite step_import. cbn [import_step]. rewrite bind_at. destruct (import_apply hms m s) as [s1 [ph gs]]. cbn. by rewrite List.app_nil_r. }
  revert E2. destruct (import_apply hms m s) as [s1 [ph gs]]. cbn [fst snd]. intros E2 Hl Hs Hph Hg1 E1.
  assert (∀ b s2, entries s2.1 = entries s1.1 → ∃ s', steps 2 (s2, GImport gen (IDefer b) :: gs) = (s', gs)
    ∧ fl_blRunning s'.1 = false ∧ bs_Running (fl_blStatus s'.1) = false ∧ entries s'.1 = entries s1.1) as Hend.
  { intros b s2 He. destruct (finish_ok b s2) as (F1 & F2 & F3 & F4). eexists. split.
    - rewrite steps_S, step_import, defer_step by (by rewrite (gen_entries _ _ He)). cbn [fst snd app].
      rewrite step_import. cbn [import_step]. rewrite F1. reflexivity.
    - split_and!; [done..|]. by rewrite F2. }
  destruct Hph as [[b ->] | [r ->]].
  - destruct (Hend b s1 eq_refl) as (s' & E3 & ? & ? & He). exists 4%nat, s', gs. split_and!; [lia| |done..|by rewrite He].
    by rewrite steps_S, E1, steps_S, E2.
  - destruct (pushed_ok gen r s1) as [P1 P2].
    destruct (Hend true (import_pushed hms gen r s1).1 P1) as (s' & E3 & ? & ? & He).
    exists 5%nat, s', gs. split_and!; [lia| |done..|by rewrite He].
    rewrite steps_S, E1, steps_S, E2, steps_S, step_import. cbn [import_step]. rewrite bind_at, P2. exact E3.
Qed.
(** The beginning: the metadata are read and the hand-kept domains seed the result. *)
Definition stored_meta (d : DB) : gmap string SourceMeta := map_imap (λ u r, Some (row_to_meta u r)) (db_meta d).
Lemma alone_each {A} (l : list nat) (b : A) body : (∀ x c, db_alone (body x c)) → db_alone (each l b body).
Proof. intros Hb. revert b. induction l as [|x l IH]; intros b; [done|]. apply alone_bind; [apply Hb|]. intros c. apply IH. Qed.
Lemma previous_meta_ok s :
  fl_blocklistDB s.1 = true →
  (previous_meta s).2 = stored_meta (w_db s.2).2 ∧ (w_db (previous_meta s).1.2).2 = (w_db s.2).2 ∧ core (previous_meta s).1.1 = core s.1.
Proof.
  intros Hd. unfold previous_meta. rewrite if_db_on, bind_at by done. unfold LoadSourceMeta.
  destruct (sql_select stored_meta s) as [H1 H2]. unfold stored_meta in *. rewrite H1. split_and!; [done..|]. apply (keeps_sql core).
Qed.
Lemma begin_ok f w :
  fl_blocklistDB f = true → enabled_sources f ≠ [] → meta = stored_meta (w_db w).2 → db0 = (w_db w).2 →
  ∃ s1 m, import_begin hms e (f, w) = (s1, (IFetched m, [])) ∧ at_source f (enabled_sources f) 0 m s1.
Proof.
  intros Hd Hen Hmeta Hdb. unfold import_begin. rewrite bind_at.
  assert (core (now (f, w)).1.1 = core f) as Hc by apply (keeps_now core (f, w)).
  assert (fl_blocklistSources (now (f, w)).1.1 = fl_blocklistSources f) as Hs by apply (keeps_now _ (f, w)).
  assert (enabled_sources (now (f, w)).1.1 = enabled_sources f) as He by apply (keeps_now _ (f, w)).
  pose proof (alone_now (f, w)) as Hw. cbn [snd] in Hw. revert Hc Hs He Hw. generalize (now (f, w)).1. intros s Hc Hs He Hw.
  rewrite !read_at, Hs, He. rewrite bool_decide_eq_false_2 by (intros Hn; apply Hen; unfold enabled_sources; by rewrite Hn).
  rewrite bool_decide_eq_false_2 by done.
  destruct (previous_meta_ok s) as (M1 & M2 & M3); [rewrite <-Hd; by injection Hc|]. rewrite bind_at, M1.
  rewrite Hc in M3. rewrite Hw in M1, M2. revert M2 M3. generalize (previous_meta s).1. intros s2 Hw2 Hc2.
  rewrite read_at. set (m := mkMerge _ _ _ _ _ _ _). rewrite bind_at.
  set (seed := if _ : bool then _ else _).
  assert (keeps core seed ∧ db_alone seed) as [K1 D1] by (subst seed; case_match; split; [auto with keeps|apply alone_log|done|done]).
  rewrite bind_at. set (fetches := each _ _ _).
  assert (keeps core fetches ∧ db_alone fetches) as [K2 D2].
  { split; [subst fetches; keep|]. apply alone_each. intros i []. apply alone_bind; [apply alone_now|]. intros _. apply alone_log. }
  eexists _, m. split; [reflexivity|]. split; cbn; [done| |done| | |].
  - by rewrite Hmeta, <-Hw.
  - assert (fl_manualDomains s2.1 = fl_manualDomains f) as -> by (by injection Hc2). set_solver.
  - by rewrite K2, K1, Hc2.
  - intros u _. by rewrite D2, D1, Hw2, Hdb.
Qed.
Lemma import_alone f w gen :
  fl_blocklistDB f = true → fl_blGen f = gen → NoDup (enabled_sources f) → enabled_sources f ≠ [] →
  meta = stored_meta (w_db w).2 → db0 = (w_db w).2 →
  let M := fl_manualDomains f ∪ ⋃ imap contribution (enabled_sources f) in
  ∃ n s' gs, (n ≤ 2 * length (enabled_sources f) + 7)%nat ∧ steps n ((f, w), [GImport gen IBegin]) = (s', gs) ∧ stored gs
    ∧ fl_blRunning s'.1 = false ∧ bs_Running (fl_blStatus s'.1) = false
    ∧ entries s'.1 = if count_of M =? 0 then entries f else (gen, exacts (elements M), wilds (elements M)).
Proof.
  intros Hd Hg Hnd Hen Hm Hdb M. destruct (begin_ok f w Hd Hen Hm Hdb) as (s1 & m0 & E1 & A1).
  assert (∀ s : Fleet * W, core s.1 = core f → fl_blGen s.1 = gen) as Hgen by (intros s Hc; rewrite <-Hg; by injection Hc).
  destruct (merge_all f gen (enabled_sources f) (length (enabled_sources f)) 0 m0 s1 Hg Hd Hnd eq_refl A1) as (m1 & s2 & E2 & A2).
  destruct (import_tail gen m1 s2) as (n & s' & gs & Hn & E3 & Hgs & R1 & R2 & He); [by apply Hgen, A2|].
  exists (2 + (2 * length (enabled_sources f) + n))%nat, s', gs. split_and!; [lia| |done..|].
  - rewrite !steps_add, (steps_S 1), step_import. cbn [import_step]. rewrite bind_at, E1. cbn [fst snd mret fm_mret app].
    rewrite step_import, fetched_step by apply Hgen, A1. cbn [fst snd app].
    assert ((0 <? length (enabled_sources f))%nat = true) as Hpos by (apply Nat.ltb_lt; destruct (enabled_sources f); [done|cbn; lia]).
    rewrite Hpos in E2. by rewrite E2.
  - rewrite He, (as_merged _ _ _ _ _ A2), take_ge by done. fold M. destruct (count_of M =? 0).
    + pose proof (as_core _ _ _ _ _ A2) as Hc. pose proof (f_equal (λ c, c.1.1.1) Hc : fl_blGen s2.1 = fl_blGen f) as Hb.
      pose proof (f_equal (λ c, c.1.1.2) Hc : fl_blocklist s2.1 = fl_blocklist f) as Hl. unfold entries. by rewrite Hb, Hl.
    + by rewrite Hgen by apply A2.
Qed.
End Run.
End Facts.

(** C24: An import that runs alone, with at least one enabled source and no
    source listed twice, whatever the downloads give: after at most 2n + 7
    steps for n enabled sources it has ended and no longer shows as
    running, and the merged list holds exactly the hand-kept domains and, for
    each enabled source, the downloaded list, or its last good snapshot when
    the download failed or the server reported no change.  A source that fails
    therefore never takes its domains away, and an import without any domain
    leaves the list as it was.  The only goroutine left is the one that stores
    the list.  The database must answer; the order of map iterations, the
    network of the nodes and the clock are arbitrary. *)
Theorem import_merges {W : Type} `{!World W} `{!Fingerprints} `{!Store W} hms err_text e f (w : W) :
  (∀ x (w : W), w_db (w_put_db x w) = x) → (∀ w : W, w_db (w_now w).1 = w_db w) → (∀ (w : W) l, w_range w l ≡ₚ l) →
  (∀ j, w_fault (W := W) j = None) →
  fl_blocklistDB f = true → NoDup (enabled_sources f) → enabled_sources f ≠ [] →
  let db := (w_db w).2 in
  let M := fl_manualDomains f ∪ ⋃ imap (contribution e (stored_meta db) db) (enabled_sources f) in
  ∃ n s gs, (n ≤ 2 * length (enabled_sources f) + 7)%nat
    ∧ sys_run hms err_text (replicate n (ERun 0 e)) ((f, w), [GImport (fl_blGen f) IBegin]) = (s, gs)
    ∧ (gs = [] ∨ gs = [GSnap PList])
    ∧ fl_blRunning s.1 = false ∧ bs_Running (fl_blStatus s.1) = false
    ∧ bl_exact (fl_blocklist s.1) = (if decide (M = ∅) then bl_exact (fl_blocklist f) else exacts (elements M))
    ∧ bl_wild (fl_blocklist s.1) = (if decide (M = ∅) then bl_wild (fl_blocklist f) else wilds (elements M)).
Proof.
  intros Hput Hclock Hrange Hsound Hd Hnd Hen db M.
  destruct (import_alone hms err_text Hput Hclock Hsound e (stored_meta db) db Hrange f w (fl_blGen f) Hd eq_refl Hnd Hen eq_refl eq_refl)
    as (n & s & gs & Hn & Hs & Hgs & R1 & R2 & He).
  exists n, s, gs. split_and!; [done..| |]; fold M in He; unfold entries in He.
  all: assert ((count_of M =? 0) = bool_decide (M = ∅)) as Hc
    by (unfold count_of; case_bool_decide as Hb; [by rewrite Hb, size_empty|
        apply Z.eqb_neq; intros Hz; apply Hb, leibniz_equiv, size_empty_iff; lia]).
  all: rewrite Hc in He; destruct (decide (M = ∅)) as [HM|HM];
    [rewrite bool_decide_eq_true_2 in He by done|rewrite bool_decide_eq_false_2 in He by done];
    pose proof (f_equal (λ x, x.1.2) He : bl_exact (fl_blocklist s.1) = _) as H1;
    pose proof (f_equal snd He : bl_wild (fl_blocklist s.1) = _) as H2; first [exact H1|exact H2].
Qed.

(** A concrete store: the clock stands still, every request fails. *)
#[export] Instance import_world : World (nat * DB) := {|
  w_transport := λ _ w, (w, Err "connection refused");
  w_now w := (w, 7);
  w_range _ l := l;
  w_readConfig _ _ := Ok empty_file;
  w_writeConfig _ _ w := (w, None);
  w_log _ w := w;
  w_blockLabel _ _ := Ok "" |}.
#[export] Instance import_store : Store (nat * DB) := {| w_db w := w; w_put_db x _ := x; w_fault _ := None |}.
#[export] Instance import_fingerprints : Fingerprints := {|
  effectiveHash p := "p" +:+ wp_Upstream p; upstreamHash u := "u" +:+ bootstrapKey u.1.1; haConfigHash _ := "h" |}.
Definition import_db : DB := empty_db <| db_source_domains := {[("http://b/", "old.example"); ("http://b/", "ads.example")]} |>.
Definition import_fleet : Fleet :=
  NewFleet "" false true <| fl_blocklistSources := ["http://a/"; "http://b/"; "http://c/"] |>
    <| fl_blocklistDisabled := {["http://c/"]} |> <| fl_manualDomains := {["mine.example"]} |> <| fl_blRunning := true |>.
Definition import_downloads : import_env := mkIEnv
  (λ i _ _, if (i =? 0)%nat then Ok (mkFetch {["ads.example"; "*.track.example"]} (mkVal "" "") false) else Err FE_http)
  (λ _, "1s") [0; 1]%nat "2s".
Notation import_run := (sys_run (λ _, "12:00:00") (λ _, "refused")).
Lemma import_merges_witness :
  let db := import_db in
  let M := fl_manualDomains import_fleet ∪ ⋃ imap (contribution import_downloads (stored_meta db) db) (enabled_sources import_fleet) in
  enabled_sources import_fleet = ["http://a/"; "http://b/"] ∧
  elements M ≡ₚ ["mine.example"; "ads.example"; "*.track.example"; "old.example"] ∧
  ∃ n s gs, (n ≤ 11)%nat
    ∧ import_run (replicate n (ERun 0 import_downloads)) ((import_fleet, (0%nat, db)), [GImport 0 IBegin]) = (s, gs)
    ∧ (gs = [] ∨ gs = [GSnap PList])
    ∧ fl_blRunning s.1 = false ∧ bs_Running (fl_blStatus s.1) = false
    ∧ bl_exact (fl_blocklist s.1) = (if decide (M = ∅) then bl_exact (fl_blocklist import_fleet) else exacts (elements M))
    ∧ bl_wild (fl_blocklist s.1) = (if decide (M = ∅) then bl_wild (fl_blocklist import_fleet) else wilds (elements M)).
Proof.
  intros db M. split; [vm_compute; reflexivity|]. split; [apply (bool_decide_unpack _); vm_compute; exact I|].
  refine (import_merges (λ _, "12:00:00") (λ _, "refused") import_downloads import_fleet (0%nat, db) _ _ _ _ _ _ _);
    [done..| |]; apply (bool_decide_unpack _); vm_compute; exact I.
Defined.

(** ** Imports that overlap *)
Section Superseded.
Context {W : Type} `{!World W} `{!Fingerprints} `{!Store W} (hms : Z → string) (err_text : fetch_error → string) (e : import_env).
#[local] Existing Instance fm_mret.
#[local] Existing Instance fm_mbind.
(** What only the import that owns the status may change. *)
Definition owned (f : Fleet) :=
  (fl_blocklist f, fl_blStatus f, fl_sourceStats f, fl_blRunning f, fl_blCancel f, fl_blGen f).
#[local] Hint Resolve keeps_sql : keeps.
#[local] Hint Extern 1 (keeps _ (logImport _ _)) => apply keeps_log; done : keeps.
Lemma merge_owned m i u : keeps owned (merge_source (W := W) hms err_text e m i u).
Proof. unfold merge_source, fallback, if_db. case_match; [case_match|]; keep. Qed.
(** An import that another one has superseded ends at its next question, and
    changes nothing but its log and the stored snapshots before. *)
Lemma superseded_ends gen ph (s : Fleet * W) :
  fl_blGen s.1 ≠ gen → match ph with IBegin | IStatus _ | IApply _ | IFinish _ => False | _ => True end →
  owned (import_step hms err_text e gen ph s).1.1 = owned s.1
  ∧ ((import_step hms err_text e gen ph s).2 = [] ∨ ∃ b, (import_step hms err_text e gen ph s).2 = [GImport gen (IDefer b)]).
Proof.
  intros Hg Hph. apply Z.eqb_neq in Hg.
  destruct ph as [|m|m|m|m|m|r|b|b]; try done; unfold import_step; rewrite !bind_at.
  - rewrite current_at, Hg. split; [done|right; by eexists].
  - assert (keeps owned (a ← merge_source hms err_text e m (mg_next m) (nth (mg_next m) (mg_urls m) "");
      (let '(X, st, v, bad) := a in store_meta (W := W) st v;; mret (st, X, bad)))) as Hk.
    { apply keeps_bind; [apply merge_owned|]. intros [[[X st] v] bad]. unfold store_meta, if_db. keep. }
    specialize (Hk s). unfold import_merge. rewrite bind_at in Hk. rewrite bind_at.
    destruct (merge_source _ _ _ _ _ _ s) as [s1 [[[X st] v] bad]]. cbn [fst snd] in Hk |- *.
    rewrite bind_at in Hk. rewrite !bind_at, current_at. cbn [fst snd mret fm_mret] in Hk |- *.
    assert (fl_blGen (store_meta st v s1).1.1 = fl_blGen s.1) as -> by (unfold owned in Hk; by injection Hk).
    rewrite Hg. split; [done|right; by eexists].
  - rewrite current_at, Hg. split; [done|right; by eexists].
  - unfold import_pushed. rewrite bind_at, current_at, Hg. split; [done|right; by eexists].
  - rewrite current_at, Hg. split; [done|by left].
Qed.
End Superseded.

(** The question and the lock that follows it are two steps: the deferred call
    of an import that has failed, asked while it was current, still clears the
    running mark of the import that has begun since. *)
Example stale_finish_clears_running :
  let s0 := ((import_fleet, (0%nat, import_db)), [GImport 0 (IDefer false)]) in
  let s := import_run [ERun 0 import_downloads; EAct (AToggle "http://c/" true); ERun 0 import_downloads] s0 in
  s.2 = [GImport 1 IBegin] ∧ fl_blRunning s.1.1 = false ∧ fl_blCancel s.1.1 = false.
Proof. vm_compute. auto. Qed.
(** Each store of the hand-kept domains reads them and writes them later, so
    that two of them can end in the wrong order: the domain added last is not
    in the database, and is lost at the next start. *)
Example stores_in_the_wrong_order :
  let run := [EAct (AAddManual "a.example"); ERun 0 import_downloads; EAct (AAddManual "b.example")] ++
             replicate 2 (ERun 2 import_downloads) ++ [ERun 0 import_downloads] in
  let s := import_run run ((import_fleet, (0%nat, import_db)), []) in
  s.2 = [GSnap PList; GSnap PList] ∧ "b.example" ∈ fl_manualDomains s.1.1 ∧ "b.example" ∉ db_manual s.1.2.2.
Proof. split_and!; [vm_compute; reflexivity|apply (bool_decide_unpack _); vm_compute; exact I..]. Qed.
(** Removing a hand-kept domain unblocks it although a source contains it. *)
Example removing_unblocks_a_source_domain :
  let s0 := (import_fleet <| fl_manualDomains := {["ads.example"]} |> <| fl_blocklist ::= FromDomainsMap ["ads.example"; "x.example"] |>,
             (0%nat, import_db)) in
  let f := (RemoveManualDomain "ads.example" s0).1.1 in
  "ads.example" ∉ bl_exact (fl_blocklist f) ∧ "ads.example" ∈ snapshot "http://b/" import_db.
Proof. split; apply (bool_decide_unpack _); vm_compute; exact I. Qed.
(** Emptying the sources keeps the list, whatever the log says. *)
Example no_sources_keeps_the_list :
  let s0 := (import_fleet <| fl_blocklist ::= FromDomainsMap ["ads.example"] |>, (0%nat, import_db)) in
  let s := import_run (EAct (ASources []) :: replicate 3 (ERun 0 import_downloads)) (s0, []) in
  "ads.example" ∈ bl_exact (fl_blocklist s.1.1)
  ∧ "12:00:00 no blocklist sources configured — list cleared" ∈ fl_importLog s.1.1.
Proof. split; apply (bool_decide_unpack _); vm_compute; exact I. Qed.
(** An import that fetched nothing leaves no time of a last update, so that the
    updater starts another one at its next tick. *)
Example failed_import_is_retried_at_once :
  let f := NewFleet "" false true <| fl_blocklistSources := ["http://b/"] |> <| fl_autoUpdateHours := 24 |>
             <| fl_blStatus ::= λ b, b <| bs_LastUpdate := 5 |> |> in
  let down := mkIEnv (λ _ _ _, Err FE_http) (λ _, "1s") [0%nat] "2s" in
  let s := import_run (EAct (AToggle "http://b/" true) :: replicate 8 (ERun 0 down)) ((f, (0%nat, empty_db)), []) in
  s.2 = [] ∧ fl_blRunning s.1.1 = false ∧ bs_LastUpdate (fl_blStatus s.1.1) = zero_time
  ∧ (import_run [EAct ATick] s).2 = [GImport 2 IBegin].
Proof. vm_compute. auto. Qed.
(** The validators of a download are stored even when its domains could not
    be: the next import is answered "not modified" and merges a snapshot that
    does not exist, and so does every one after it. *)
Definition full_disk : Store (nat * DB) :=
  {| w_db w := w; w_put_db x _ := x; w_fault j := if (j =? 2)%nat then Some "disk full" else None |}.
Example unsaved_download_is_lost :
  let f := NewFleet "" false true <| fl_blocklistSources := ["http://a/"; "http://b/"] |> in
  let e := mkIEnv (λ i u v, if (i =? 1)%nat then Ok (mkFetch {["b.example"]} (mkVal "" "") false)
                            else if str_eqb (v_ETag v) "v1" then Ok (mkFetch ∅ (mkVal "v1" "") true)
                            else Ok (mkFetch {["a.example"]} (mkVal "v1" "") false)) (λ _, "1s") [] "2s" in
  let imports n := sys_run (Store0 := full_disk) (λ _, "12:00:00") (λ _, "refused")
    (concat (replicate n (EAct (AToggle "http://a/" true) :: replicate 16 (ERun 0 e)))) ((f, (0%nat, empty_db)), []) in
  bl_exact (fl_blocklist (imports 1%nat).1.1) = {["a.example"; "b.example"]}
  ∧ bl_exact (fl_blocklist (imports 2%nat).1.1) = {["b.example"]}
  ∧ bl_exact (fl_blocklist (imports 3%nat).1.1) = {["b.example"]}
  ∧ bs_Errors (fl_blStatus (imports 3%nat).1.1) = [] ∧ (imports 3%nat).2 = [].
Proof. split_and!; apply (bool_decide_unpack _); vm_compute; exact I. Qed.
