(* ===== verification/Profile.v ===== *)
(** * The device profile of the controller

    internal/controller/mobileconfig.go: an Apple configuration profile that
    makes a device use the resolver over HTTPS.  [xml_EscapeText] is
    [xml.EscapeText] on text whose bytes above 127 are valid UTF-8; a UUID is
    made from the random bytes it is given. *)
From S2P Require Import Prelude GoStrings GoNet.
From Stdlib Require Import Ascii.
#[local] Open Scope Z_scope.

Definition host_label_char (c : ascii) : bool :=
  in_range 97 122 c || in_range 65 90 c || in_range 48 57 c || ascii_eqb c "-".
Definition starts_with (c : ascii) (s : string) : bool := match s with String d _ => ascii_eqb c d | "" => false end.
Definition ends_with (c : ascii) (s : string) : bool := starts_with c (sdrop (slen s - 1) s).
(** The checks of one label. *)
Definition valid_label (l : string) : bool :=
  negb (slen l =? 0)%nat && (slen l <=? 63)%nat && negb (starts_with "-" l) && negb (ends_with "-" l)
  && sforall host_label_char l.
Definition normalizeProfileHost (host : string) : res string string :=
  if str_eqb host "" then Err "host is required"
  else if ContainsAny host "/?#@ " || Contains host "://" then Err "invalid host (hostname or IP only, no scheme/path/port)"
  else
    let ip := ParseIP (Trim host "[]") in
    if negb (bool_decide (ip = [])) then
      Ok (match To4 ip with None => "[" +:+ ip_string ip +:+ "]" | Some _ => ip_string ip end)
    else if (253 <? slen host)%nat then Err "invalid host (too long)"
    else if forallb valid_label (Split host ".") then Ok host
    else Err "invalid host (bad hostname)".

(** [profileUUID] of sixteen random bytes. *)
Definition uuid_bytes (b : list Z) : list Z :=
  alter (λ x, Z.lor (Z.land x 63) 128) 8%nat (alter (λ x, Z.lor (Z.land x 15) 64) 6%nat b).
Definition profileUUID (b : list Z) : string :=
  let b := uuid_bytes b in
  let part i n := ToUpper (Join (hex_byte <$> take n (drop i b)) "") in
  Join [part 0%nat 4%nat; part 4%nat 2%nat; part 6%nat 2%nat; part 8%nat 2%nat; part 10%nat 6%nat] "-".

Definition replacement_char : string := String (ascii_of_N 239) (String (ascii_of_N 191) (String (ascii_of_N 189) "")).
Definition xml_escape_char (c : ascii) : string :=
  if code c =? 34 then "&#34;"
  else if code c =? 39 then "&#39;"
  else if code c =? 38 then "&amp;"
  else if code c =? 60 then "&lt;"
  else if code c =? 62 then "&gt;"
  else if code c =? 9 then "&#x9;"
  else if code c =? 10 then "&#xA;"
  else if code c =? 13 then "&#xD;"
  else if code c <? 32 then replacement_char
  else String c "".
Fixpoint profileEsc (s : string) : string := match s with "" => "" | String c s => xml_escape_char c +:+ profileEsc s end.

Definition newline : string := String (ascii_of_N 10) "".
Definition tabs (n : nat) : string := String.concat "" (replicate n (String (ascii_of_N 9) "")).
Definition quoted (s : string) : string := dquote +:+ s +:+ dquote.
Definition plist_line (n : nat) (s : string) : string := tabs n +:+ s +:+ newline.
Definition key_line (n : nat) (k : string) : string := plist_line n ("<key>" +:+ k +:+ "</key>").
Definition text_entry (n : nat) (k v : string) : string := key_line n k +:+ plist_line n ("<string>" +:+ v +:+ "</string>").
Definition int_entry (n : nat) (k v : string) : string := key_line n k +:+ plist_line n ("<integer>" +:+ v +:+ "</integer>").
(** The template; [u1] to [u4] are the random bytes of the four identifiers. *)
Definition buildDoHMobileConfig (u1 u2 u3 u4 : list Z) (host serverURL : string) : string :=
  let display := profileEsc (host +:+ " DoH") in
  Join [
    plist_line 0 ("<?xml version=" +:+ quoted "1.0" +:+ " encoding=" +:+ quoted "UTF-8" +:+ "?>");
    plist_line 0 ("<!DOCTYPE plist PUBLIC " +:+ quoted "-//Apple//DTD PLIST 1.0//EN" +:+ " "
            +:+ quoted "http://www.apple.com/DTDs/PropertyList-1.0.dtd" +:+ ">");
    plist_line 0 ("<plist version=" +:+ quoted "1.0" +:+ ">");
    plist_line 0 "<dict>";
    text_entry 1 "PayloadDescription" "Adds BlipDNS DoH to iOS 14 / macOS Big Sur and newer";
    text_entry 1 "PayloadDisplayName" display;
    text_entry 1 "PayloadType" "Configuration";
    text_entry 1 "PayloadScope" "System";
    key_line 1 "PayloadContent";
    plist_line 1 "<array>"; plist_line 2 "<dict>";
    key_line 3 "DNSSettings"; plist_line 3 "<dict>";
    text_entry 4 "DNSProtocol" "HTTPS";
    text_entry 4 "ServerURL" (profileEsc serverURL);
    plist_line 3 "</dict>";
    int_entry 3 "OnDemandEnabled" "1";
    key_line 3 "OnDemandRules"; plist_line 3 "<array>"; plist_line 4 "<dict>";
    text_entry 5 "Action" "Connect";
    plist_line 4 "</dict>"; plist_line 3 "</array>";
    text_entry 3 "PayloadType" "com.apple.dnsSettings.managed";
    text_entry 3 "PayloadIdentifier" ("com.apple.dnsSettings.managed." +:+ profileUUID u1);
    text_entry 3 "PayloadDisplayName" display;
    text_entry 3 "PayloadDescription" "Configures device to use BlipDNS over HTTPS";
    text_entry 3 "PayloadUUID" (profileUUID u2);
    int_entry 3 "PayloadVersion" "1";
    plist_line 2 "</dict>"; plist_line 1 "</array>";
    text_entry 1 "PayloadIdentifier" (profileUUID u3);
    text_entry 1 "PayloadUUID" (profileUUID u4);
    int_entry 1 "PayloadVersion" "1";
    key_line 1 "PayloadRemovalDisallowed"; plist_line 1 "<false/>";
    plist_line 0 "</dict>"; plist_line 0 "</plist>" ] "".

(** [handleDoHMobileConfig] on the query parameters: the error of a 400, or the
    host and the URL of the profile. *)
Definition profile_port (raw : string) : option Z :=
  let p := TrimSpace raw in
  if str_eqb p "" then Some 443
  else n ← Atoi p; if (n <? 1) || (65535 <? n) then None else Some n.
Definition bad_client_id (id : string) : bool :=
  (64 <? slen id)%nat || ContainsAny id ("/?# " +:+ String (ascii_of_N 9) "").
Definition server_url (host : string) (port : Z) (clientID : string) : string :=
  "https://" +:+ host +:+ (if port =? 443 then "" else ":" +:+ Itoa port) +:+ "/dns-query"
  +:+ (if str_eqb clientID "" then "" else "/" +:+ clientID).
Definition profile_params (host port client_id : string) : res string (string * string) :=
  match normalizeProfileHost (TrimSpace host) with
  | Err e => Err e
  | Ok h =>
      match profile_port port with
      | None => Err "invalid port (1-65535)"
      | Some n =>
          let id := TrimSpace client_id in
          if bad_client_id id then Err "invalid client_id (max 64 chars, no /?# or spaces)"
          else Ok (h, server_url h n id)
      end
  end.

Example profile_demo :
  (profile_params " dns.example.com " "" "kids", profile_params "[2001:DB8::1]" "8443" "", profile_params "h/x" "" "",
   profile_params "a..b" "" "", profile_params "10.0.0.1" "65536" "")
  = (Ok ("dns.example.com", "https://dns.example.com/dns-query/kids"),
     Ok ("[2001:db8::1]", "https://[2001:db8::1]:8443/dns-query"),
     Err "invalid host (hostname or IP only, no scheme/path/port)", Err "invalid host (bad hostname)", Err "invalid port (1-65535)").
Proof. vm_compute. reflexivity. Qed.

(** ** What ends up in a profile *)
(** Reading the escaped text back. *)
Definition entities : list (string * Z) :=
  [("&#34;", 34); ("&#39;", 39); ("&amp;", 38); ("&lt;", 60); ("&gt;", 62); ("&#x9;", 9); ("&#xA;", 10); ("&#xD;", 13)].
Fixpoint xml_text (skip : nat) (s : string) : string :=
  match s with
  | "" => ""
  | String c r =>
      match skip with
      | S k => xml_text k r
      | O => match List.find (λ e, HasPrefix s e.1) entities with
             | Some (e, d) => String (ascii_of_N (Z.to_N d)) (xml_text (slen e - 1) r)
             | None => String c (xml_text 0 r)
             end
      end
  end.
Definition xml_char (c : ascii) : bool := (32 <=? code c) || (code c =? 9) || (code c =? 10) || (code c =? 13).
Definition markup (c : ascii) : bool := (code c =? 60) || (code c =? 62) || (code c =? 34) || (code c =? 39).
Definition host_char (c : ascii) : bool := host_label_char c || ascii_eqb c "." || ascii_eqb c ":" || ascii_eqb c "[" || ascii_eqb c "]".

Lemma xml_char_back c t : xml_char c = true → xml_text 0 (xml_escape_char c +:+ t) = String c (xml_text 0 t).
Proof. intros Hc. destruct c as [[] [] [] [] [] [] [] []]; vm_compute in Hc; try discriminate Hc; destruct t; reflexivity. Qed.
Lemma profileEsc_back s : sforall xml_char s = true → xml_text 0 (profileEsc s) = s.
Proof.
  induction s as [|c s IH]; cbn [sforall profileEsc]; [done|]. intros [Hc Hs]%andb_true_iff.
  by rewrite xml_char_back, IH.
Qed.
Lemma profileEsc_plain s : sforall (λ c, negb (markup c)) (profileEsc s) = true.
Proof.
  induction s as [|c s IH]; cbn [profileEsc]; [done|]. rewrite sforall_app, IH, andb_true_r.
  destruct c as [[] [] [] [] [] [] [] []]; reflexivity.
Qed.
Lemma Split_forall p sep s :
  forallb (sforall p) (Split s sep) = true → sforall (λ c, p c || ascii_eqb c sep) s = true.
Proof.
  induction s as [|c s IH]; [done|]. cbn [Split sforall].
  destruct (ascii_eqb c sep) eqn:Hc; cbn [forallb].
  - intros Hs. rewrite IH by exact Hs. by rewrite orb_true_r.
  - pose proof (Split_nonempty s sep) as Hne. destruct (Split s sep) as [|w ws]; [done|]. cbn [forallb sforall] in *.
    intros [[H1 H2]%andb_true_iff H3]%andb_true_iff. rewrite H1, IH by (by rewrite H2, H3). done.
Qed.
Lemma hex_digit_host v : host_char (hex_digit (Z.land v 15)) = true.
Proof.
  pose proof (Z.land_ones v 4 ltac:(done)) as H. change (Z.ones 4) with 15 in H. rewrite H.
  pose proof (Z.mod_pos_bound v (2 ^ 4) ltac:(done)) as [Hlo Hhi]. revert Hlo Hhi. generalize (v mod 2 ^ 4). intros n Hlo Hhi.
  assert (n ∈ seqZ 0 16) as Hn by (apply elem_of_seqZ; lia). revert n Hn Hlo Hhi.
  apply (Forall_forall (λ n, 0 ≤ n → n < 2 ^ 4 → host_char (hex_digit n) = true)). vm_compute. repeat constructor.
Qed.
Lemma hex_group_host fuel v acc : sforall host_char acc = true → sforall host_char (hex_group fuel v acc) = true.
Proof.
  revert v acc. induction fuel as [|k IH]; intros v acc Ha; [done|]. cbn [hex_group].
  assert (sforall host_char (String (hex_digit (Z.land v 15)) acc) = true) as H by (cbn [sforall]; by rewrite hex_digit_host).
  destruct (_ =? 0); [done|by apply IH].
Qed.
Lemma Join_forall p sep l : sforall p sep = true → Forall (λ w, sforall p w = true) l → sforall p (Join l sep) = true.
Proof.
  intros Hs. induction 1 as [|w l Hw Hl IH]; [done|]. destruct l as [|w' l]; [done|].
  rewrite Join_cons by done. by rewrite !sforall_app, Hw, Hs, IH.
Qed.
Lemma ipv4_host ip : sforall host_char (ipv4_string ip) = true.
Proof.
  apply Join_forall; [done|]. apply Forall_forall. intros w (z & -> & _)%list_elem_of_fmap. apply Itoa_forall; [done|].
  intros d. unfold pretty_N_char. by repeat case_match.
Qed.
Lemma ipv6_host ip : sforall host_char (ipv6_string ip) = true.
Proof.
  assert (∀ l, sforall host_char (Join ((λ g, hex_group 4 g "") <$> l) ":") = true) as H.
  { intros l. apply Join_forall; [done|]. apply Forall_forall. intros w (z & -> & _)%list_elem_of_fmap. by apply hex_group_host. }
  unfold ipv6_string. destruct (best_run _) as [i l]. destruct (l =? 0)%nat; [done|]. by rewrite !sforall_app, !H.
Qed.
Lemma parseIPv6_length s ip : parseIPv6 s = Some ip → length ip = 16%nat.
Proof.
  unfold parseIPv6. destruct (bool_decide _ && _); [by intros [= <-]|].
  destruct (v6_groups 8 _ _ _) as [[[b e] r]|]; cbn -[Nat.ltb]; [|done]. destruct (negb (str_eqb r "")); [intros [=]|]. destruct e as [e|].
  - destruct (length b <? 16)%nat eqn:E; [|done]. apply Nat.ltb_lt in E. intros [= <-].
    rewrite !length_app, length_replicate, length_take, length_drop. lia.
  - destruct (length b =? 16)%nat eqn:E; [|done]. intros [= <-]. by apply Nat.eqb_eq.
Qed.
Lemma parseIPv4_length s ip : parseIPv4 s = Some ip → length ip = 4%nat.
Proof.
  unfold parseIPv4. destruct (Split s dot) as [|a [|b [|c [|d [|? ?]]]]]; try done.
  destruct (parse_octet a), (parse_octet b), (parse_octet c), (parse_octet d); try done. by intros [= <-].
Qed.
Lemma ParseIP_length s : ParseIP s ≠ [] → length (ParseIP s) = 16%nat.
Proof.
  unfold ParseIP, ParseIP_opt. destruct (ParseAddr s) as [a|] eqn:Ha; [cbn|done]. intros _. revert Ha.
  unfold ParseAddr, as16. destruct (str_mem _ _); [done|]. destruct (IndexAny _ _); [|done].
  assert (length a = 4%nat ∨ length a = 16%nat → length (if (length a =? 4)%nat then v4InV6Prefix ++ a else a) = 16%nat) as H.
  { intros [E|E]; rewrite E; cbn; [|done]. by rewrite E. }
  assert (parseIPv4 s = Some a ∨ parseIPv6 s = Some a → length (if (length a =? 4)%nat then v4InV6Prefix ++ a else a) = 16%nat) as Hp
    by (intros [E%parseIPv4_length|E%parseIPv6_length]; apply H; [by left|by right]).
  intros Ha. apply Hp. destruct (sdrop _ _) as [|x r]; [by right|].
  revert Ha. clear. generalize (parseIPv4 s), (parseIPv6 s). intros o4 o6.
  destruct x as [[] [] [] [] [] [] [] []]; intros Ha; first [by right|by left].
Qed.
Lemma ip_string_host ip : length ip = 16%nat → sforall host_char (ip_string ip) = true.
Proof.
  intros Hl. unfold ip_string. rewrite Hl. cbn [Nat.eqb]. destruct (To4 ip); [apply ipv4_host|apply ipv6_host].
Qed.
Lemma normalized_host host h : normalizeProfileHost host = Ok h → sforall host_char h = true.
Proof.
  unfold normalizeProfileHost. destruct (str_eqb host ""); [done|]. destruct (_ || _); [done|].
  case_bool_decide as Hip; cbn [negb].
  - destruct (253 <? _)%nat; [done|]. destruct (forallb valid_label (Split host ".")) eqn:Hl; [|done]. intros [= <-].
    apply (sforall_impl (λ c, host_label_char c || ascii_eqb c ".")).
    + intros c. unfold host_char. rewrite !orb_true_iff. tauto.
    + apply Split_forall, forallb_forall. intros l Hin. rewrite forallb_forall in Hl. specialize (Hl l Hin).
      unfold valid_label in Hl. by bools.
  - pose proof (ip_string_host _ (ParseIP_length _ Hip)) as Hs. intros [= <-].
    destruct (To4 _); [done|]. rewrite !sforall_app, Hs. done.
Qed.
Definition printable (c : ascii) : bool := 32 <=? code c.
Lemma host_printable c : host_char c = true → xml_char c = true.
Proof. destruct c as [[] [] [] [] [] [] [] []]; vm_compute; done. Qed.

(** A client id may hold a percent sign, which ends up in the URL as it is:
    the URL is malformed, or names another client. *)
Example percent_in_client_id :
  (λ r, match r with Ok p => p.2 | Err e => e end) <$> [profile_params "h" "" "100%"; profile_params "h" "" "a%2Fb"]
  = ["https://h/dns-query/100%"; "https://h/dns-query/a%2Fb"].
Proof. vm_compute. reflexivity. Qed.
