(* ===== verification/Web.v ===== *)
(** * The controller's web API

    internal/controller/server.go: every handler behind [Server.Handler], the
    gate in front of them, first-run setup with the credentials it writes into
    the configuration file, and the pages.  A handler is a step of the state
    monad [HM] over the server ([Web]): the sessions of Auth.v, the fleet of
    Fleet.v with the world of FleetPush.v, the controller's updater.

    The body of a request is what decoding it as the struct the handler wants
    gives ([bodies]; one that is too long does not decode), a query parameter
    is its first value, and the path is the one [ServeMux] dispatches (it
    redirects paths that are not clean before).  Files and YAML are arguments;
    so are the clock, random bytes and the outcome of each SQL query. *)
From S2P Require Import Prelude GoStrings GoNet GoUrl Dns Records Blocklist Upstream Stats HA Update Control Bus Release Client.
From S2P Require Import BlocklistDB LogTime QueryLog Pagination Auth Fleet FleetPush FleetOps Import Profile.
From Stdlib Require Import Ascii QArith_base.
#[local] Open Scope Z_scope.

(** The query log database and the files, as parts of the world. *)
Class LogStore (W : Type) := { w_ql : W → QueryLogStore; w_put_ql : QueryLogStore → W → W }.
Class Files (W : Type) := {
  w_read : string → W → res string string;                       (* a missing file is empty *)
  w_replace : string → string → W → W * option string }.         (* by a temporary file and a rename *)

(** ** Requests and responses *)
Record settings := mkSettings {
  sg_Scope : string; sg_Policy : option WirePolicy; sg_Instance : string; sg_Override : option InstanceOverride;
  sg_DoHHTTPAddr : option string; sg_RateLimitQPS : option Z; sg_CacheSize : option Z; sg_Retention : option Z;
  sg_Servers : option (list UpstreamServer); sg_Routes : option (list UpstreamRoute);
  sg_Bootstrap : option (list UpstreamServer); sg_Channel : option string }.
Record bodies := mkBodies {
  bd_login : res string (string * string);
  bd_setup : res string (string * string * string * string);     (* token, username, password, confirm *)
  bd_key : res string (string * Z);
  bd_instance : res string InstanceConfig;
  bd_id : res string string;
  bd_policy : res string WirePolicy;
  bd_code : string;                                              (* decoding errors are ignored *)
  bd_label : string;
  bd_records : res string (list RecordEntry);
  bd_settings : res string settings;
  bd_cluster : res string HACluster;
  bd_client : res string (string * string);
  bd_probe : res string (list UpstreamServer * string);
  bd_action : res string (string * string);
  bd_domain : res string (string * bool);
  bd_sources : res string (list string * option Z * bool);
  bd_source : res string (string * bool) }.
Record request := mkReq {
  rq_Method : string;
  rq_Path : string;
  rq_Query : string → string;
  rq_Cookie : option string;
  rq_Authorization : string;
  rq_RemoteAddr : string;
  rq_TLS : bool;
  rq_Flusher : bool;
  rq_Body : bodies }.
(** The sums over the instances; floats are exact fractions, as in QueryLog.v. *)
Record cache_total := mkTotal {
  ct_Queries : Z; ct_CachedQueries : Z; ct_PercentCached : Q; ct_AvgCachedUs : Q; ct_AvgFetchedUs : Q }.
Inductive content :=
| WText (msg : string)
| WOk
| WAck (what id : string)
| WKeys (l : list APIKeyInfo) | WKey (id secret : string) (expires : Z)
| WSelf (version : string) (st : UpdateStatus) | WUpdating (st : UpdateStatus)
| WJob (j : UpdateJobStatus)
| WInstances (l : list InstanceStatus)
| WPolicies (p : option WirePolicy * list WirePolicy) | WAdoptStatus (a : AdoptStatus)
| WEntries (l : list QueryLogEntry)
| WQueries (l : list QueryLogEntry) (total : Z) (has_more : bool)
| WRecords (l : list RecordEntry)
| WApplied (r : results)
| WSettings (policy : option WirePolicy) (overrides : gmap string InstanceOverride) (doh : string) (qps : Z)
    (servers : list UpstreamServer) (routes : list UpstreamRoute) (bootstrap : list UpstreamServer) (cache retention : Z)
    (records : list RecordEntry) (channel : string)
| WChannel (c : string)
| WHA (c : HACluster) (l : gmap string HAStatus)
| WHealth (l : gmap string (option HealthResponse)) (dropped : option Z)
| WClients (l : list ClientStat) | WNames (m : gmap string string)
| WStats (a : StatsAggregate) | WTop (l : list TopDomain)
| WCache (total : cache_total) (per : gmap string InstanceCacheStat) (live limit : gmap string Z)
    (top : list TopCachedDomain) (top_total : Z)
| WErrors (total : Z) (l : list UpstreamErrorStat)
| WProbe (domain : string) (l : list ProbeResult)
| WEvents (ch : nat) (backlog : list Event)
| WPurged (r : results) (n : Z)
| WBlocklist (domains allowed : list string) (total : Z) (sources : list string) (st : BlocklistView)
| WLines (l : list string)
| WSources (sources : list string) (st : BlocklistView) | WStatus (st : BlocklistView)
| WImport (sources : list string)
| WProfile (text : string)
| WFile (type bytes : string)
| WRedirect (to : string)
| WPanic.                                    (* net/http drops the connection *)
(** [wr_Challenge] is the WWW-Authenticate header. *)
Record response := mkResp { wr_Status : Z; wr_Body : content; wr_Cookie : option Cookie; wr_Challenge : bool }.
Definition fail (msg : string) (code : Z) : response := mkResp code (WText msg) None false.
Definition ok (c : content) : response := mkResp 200 c None false.
Definition bad_method : response := fail "method not allowed" 405.
Definition unauthorized : response := mkResp 401 (WText "unauthorized") None true.
Definition auth_text (e : auth_error) : string :=
  match e with
  | errBadCreds => "invalid username or password"
  | errLocked => "too many failed attempts, try again later"
  | errNoAuthCfg => "auth not configured"
  | errRandom => "random source failed"
  | errKeyLabel => "label must be 1-64 characters"
  | errKeyTTL => "ttl must be positive and at most 30 days"
  end.

(** ** Goroutines a handler leaves behind *)
Inductive job := JImport (g : goroutine) | JUpdate (nodes : list (string * nat)) (channel : string) | JSelf (channel : string).

(** What one request meets: the clock at each place it is read, the order of
    the keys, random bytes, the outcome of its [n]-th SQL query, the probes. *)
Record wenv := mkWEnv {
  we_now : Z; we_keyNow : Z; we_keyOrder : list string;
  we_login : login_env; we_key : key_env; we_cookieNow : Z;
  we_time : Z;
  we_sql : nat → option string;
  we_fraction : Z → Z → Z → Z;
  we_groups : list (string * string * string) → list (string * string * string);
  we_validName : string → bool; we_lookup : string → list IP; we_ctxErr : option string;
  we_run : nat → kind → string → res up_error (option Msg) * Z;
  we_readToken : string → option string;
  we_version : string;
  we_random : nat → list Z;
  we_times : times }.

(** ** The credentials in the configuration file

    A YAML document as yaml.v3 gives it; the content of a mapping is the list
    of its keys and values in turn. *)
Inductive ykind := YDocument | YSequence | YMapping | YScalar | YAlias.
#[export] Instance ykind_eq_dec : EqDecision ykind.
Proof. solve_decision. Defined.
Inductive ynode := mkY (kind : ykind) (tag value : string) (content : list ynode).
Definition y_kind (n : ynode) : ykind := match n with mkY k _ _ _ => k end.
Definition y_value (n : ynode) : string := match n with mkY _ _ v _ => v end.
Definition y_content (n : ynode) : list ynode := match n with mkY _ _ _ c => c end.
Definition text_node (v : string) : ynode := mkY YScalar "!!str" v [].
Definition retext (v : string) (n : ynode) : ynode := match n with mkY _ _ _ c => mkY YScalar "!!str" v c end.
(** The closure [set]: the first key of that name, or a new pair at the end. *)
Fixpoint set_key (key value : string) (l : list ynode) : list ynode :=
  match l with
  | k :: v :: rest => if str_eqb (y_value k) key then k :: retext value v :: rest else k :: v :: set_key key value rest
  | _ => l ++ [text_node key; text_node value]
  end.
(** The first pair of that key is removed. *)
Fixpoint drop_key (key : string) (l : list ynode) : list ynode :=
  match l with
  | k :: v :: rest => if str_eqb (y_value k) key then rest else k :: v :: drop_key key rest
  | _ => l
  end.
Definition set_credentials (username hash : string) (l : list ynode) : list ynode :=
  drop_key "password" (set_key "password_hash" hash (set_key "username" username l)).
Definition empty_document : ynode := mkY YDocument "" "" [mkY YMapping "" "" []].

Section Web.
Context {W : Type} `{!World W} `{!Fingerprints} `{!Store W} `{!LogStore W} `{!Files W}.
Context (hms : Z → string) (compare : string → string → option bcrypt_error) (generate : string → option string).
Context (pool_text : pool_error → string) (answers : string → list Answer).
Context (yaml_read : string → res string ynode) (yaml_print : ynode → res string string).
Context (ui : option (string → option string)) (mime : string → string).

Definition persistCredentials (path username hash : string) (w : W) : W * option string :=
  match w_read path w with
  | Err e => (w, Some e)
  | Ok text =>
      match (if str_eqb text "" then Ok empty_document else yaml_read text) with
      | Err e => (w, Some e)
      | Ok (mkY k t v (mkY YMapping t' v' l :: rest)) =>
          match yaml_print (mkY k t v (mkY YMapping t' v' (set_credentials username hash l) :: rest)) with
          | Err e => (w, Some e)
          | Ok out => w_replace path out w
          end
      | Ok _ => (w, Some "config root must be a YAML mapping")
      end
  end.

(** ** The server *)
Record Web := mkWeb {
  wb_auth : Auth;
  wb_fleet : Fleet;
  wb_world : W;
  wb_configPath : string;
  wb_setupToken : string;
  wb_self : UpdateStatus;                    (* of the [SelfUpdater] *)
  wb_probe : string * option resolver;       (* [probeBootKey] and [probeBoot] of the fleet *)
  wb_jobs : list job }.
#[export] Instance Web_eta : Eta Web := λ s,
  mkWeb (wb_auth s) (wb_fleet s) (wb_world s) (wb_configPath s) (wb_setupToken s) (wb_self s) (wb_probe s) (wb_jobs s).
Definition NewServerWithConfig (username password : string) (fleet : Fleet) (configPath setupToken : string) (w : W) : Web :=
  mkWeb (NewAuth compare generate username password) fleet w configPath setupToken no_update ("", None) [].
Definition web_NewServer (username password : string) (fleet : Fleet) (w : W) : Web :=
  NewServerWithConfig username password fleet "" "" w.
(** [None] is a failed read of random bytes. *)
Definition NewSetupToken (b : option (list Z)) : option string := (λ b, Join (hex_byte <$> take 24 b) "") <$> b.

Definition HM (A : Type) : Type := Web → Web * A.
#[local] Instance hm_mret : MRet HM := λ A a s, (s, a).
#[local] Instance hm_mbind : MBind HM := λ A B g m s, let '(s, a) := m s in g a s.
Definition ask {A} (g : Web → A) : HM A := λ s, (s, g s).
Definition on_auth {A} (g : Auth → Auth * A) : HM A := λ s, let '(a, x) := g (wb_auth s) in (s <| wb_auth := a |>, x).
Definition on_fleet {A} (m : FM (W := W) A) : HM A := λ s,
  let '((f, w), x) := m (wb_fleet s, wb_world s) in (s <| wb_fleet := f |> <| wb_world := w |>, x).
Definition fleet_get {A} (g : Fleet → A) : HM A := ask (λ s, g (wb_fleet s)).
Definition leave (l : list job) : HM unit := λ s, (s <| wb_jobs ::= λ k, k ++ l |>, ()).
(** A method of the fleet that starts goroutines. *)
Definition begin_jobs (m : FM (W := W) (list goroutine)) : HM unit := gs ← on_fleet m; leave (JImport <$> gs).
Definition reply_to {A} (code : Z) (r : res string A) (k : A → content) : HM response :=
  mret (match r with Err e => fail e code | Ok a => ok (k a) end).
(** A query of the log database, and a statement that changes it. *)
Definition log_get {A} (e : wenv) (n : nat) (g : QueryLogStore → A) : HM (res string A) :=
  ask (λ s, match we_sql e n with Some t => Err t | None => Ok (g (w_ql (wb_world s))) end).
Definition log_do (e : wenv) (g : bool → QueryLogStore → QueryLogStore) : HM (res string unit) := λ s,
  let fails := we_sql e 0%nat in
  let w := wb_world s in
  (s <| wb_world := w_put_ql (g (negb (is_nil fails)) (w_ql w)) w |>, match fails with Some t => Err t | None => Ok () end).
Definition with_log (k : HM response) : HM response :=
  b ← fleet_get fl_queryLog; if b : bool then k else mret (fail "query log not available" 503).
Definition is_meth (r : request) (m : string) : bool := str_eqb (rq_Method r) m.
Definition only (m : string) (r : request) (k : HM response) : HM response := if is_meth r m then k else mret bad_method.
Definition decoded {A} (code : Z) (b : res string A) (k : A → HM response) : HM response :=
  match b with Err e => mret (fail e code) | Ok a => k a end.
(** Some handlers do not show the error of the decoder. *)
Definition decoded_quietly {A} (b : res string A) (k : A → HM response) : HM response :=
  match b with Err _ => mret (fail "bad request" 400) | Ok a => k a end.

(** ** Sessions *)
Definition authed (e : wenv) (r : request) : HM bool := on_auth (Authed (we_now e) (rq_Cookie r)).
Definition requireAuth (h : wenv → request → HM response) (e : wenv) (r : request) : HM response :=
  a ← authed e r;
  k ← ask (λ s, validAPIKey (we_keyOrder e) (we_keyNow e) (bearerToken (rq_Authorization r)) (wb_auth s));
  if negb a && negb k then mret unauthorized else h e r.
Definition login (e : wenv) (username password : string) (r : request) : HM (res auth_error string) :=
  on_auth (Login compare (we_login e) username password (ClientIP (rq_RemoteAddr r))).
Definition signed_in (e : wenv) (r : request) (id : string) : response :=
  mkResp 200 WOk (Some (MintCookie (rq_TLS r) (we_cookieNow e) id)) false.
Definition handleLogin (e : wenv) (r : request) : HM response :=
  only "POST" r (decoded_quietly (bd_login (rq_Body r)) (λ '(u, p),
    c ← ask (λ s, Configured (wb_auth s));
    if negb c then mret (fail "authentication not configured" 403)
    else
      id ← login e u p r;
      mret (match id with
            | Err errLocked => fail "too many attempts" 429
            | Err _ => fail "invalid credentials" 401
            | Ok id => signed_in e r id
            end))).
Definition handleSetup (e : wenv) (r : request) : HM response :=
  only "POST" r (
    c ← ask (λ s, Configured (wb_auth s));
    if c : bool then mret (fail "setup already completed" 403)
    else decoded_quietly (bd_setup (rq_Body r)) (λ '(token, user, pass, confirm),
      want ← ask wb_setupToken;
      if str_eqb want "" || negb (slen token =? slen want)%nat || negb (str_eqb token want)
      then mret (fail "invalid setup token" 403)
      else
        let user := TrimSpace user in
        if (slen user <? 1)%nat || (64 <? slen user)%nat then mret (fail "username must be between 1 and 64 characters" 400)
        else if (slen pass <? 8)%nat || (72 <? slen pass)%nat then mret (fail "password must be between 8 and 72 characters" 400)
        else if negb (str_eqb pass confirm) then mret (fail "passwords do not match" 400)
        else match generate pass with
             | None => mret (fail "could not secure password" 500)
             | Some hash =>
                 path ← ask wb_configPath;
                 if str_eqb path "" then mret (fail "setup persistence is unavailable" 500)
                 else
                   err ← (λ s, let '(w, err) := persistCredentials path user hash (wb_world s) in (s <| wb_world := w |>, err));
                   match err with
                   | Some _ => mret (fail "could not save credentials" 500)
                   | None =>
                       done ← on_auth (Configure compare user hash);
                       if negb done then mret (fail "setup already completed" 403)
                       else
                         id ← login e user pass r;
                         mret (match id with Err _ => fail "could not start session" 500 | Ok id => signed_in e r id end)
                   end
             end)).
Definition handleLogout (e : wenv) (r : request) : HM response :=
  only "POST" r (
    on_auth (λ a, (Destroy (rq_Cookie r) a, ()));;
    mret (mkResp 200 WOk (Some (ClearCookie (rq_TLS r))) false)).
Definition handleAPIKeys (e : wenv) (r : request) : HM response :=
  a ← authed e r;
  if negb a then mret unauthorized
  else if is_meth r "GET" then ask (λ s, ok (WKeys (ListAPIKeys (we_keyOrder e) (wb_auth s))))
  else if is_meth r "POST" then
    decoded_quietly (bd_key (rq_Body r)) (λ '(label, hours),
      k ← on_auth (CreateAPIKey (we_key e) label (i64 (hours * hour)));
      mret (match k with Err t => fail (auth_text t) 400 | Ok (id, secret, exp) => ok (WKey id secret exp) end))
  else if is_meth r "DELETE" then
    found ← on_auth (RevokeAPIKey (rq_Query r "id"));
    mret (if found : bool then ok WOk else fail "unknown key" 404)
  else mret bad_method.

(** ** Updates *)
Definition handleSelfUpdate (e : wenv) (r : request) : HM response :=
  if is_meth r "GET" then ask (λ s, ok (WSelf (ControllerVersion (we_version e)) (wb_self s)))
  else if is_meth r "POST" then
    let channel := rq_Query r "channel" in
    if negb (ValidUpdateChannel channel) then mret (fail "channel must be stable or dev" 400)
    else
      err ← (λ s, let '(st, err) := self_StartUpdate channel (wb_self s) in (s <| wb_self := st |>, err));
      match err with
      | Some UE_channel => mret (fail "channel must be stable or dev" 409)
      | Some UE_running => mret (fail "update already running" 409)
      | None => leave [JSelf channel];; ask (λ s, ok (WUpdating (wb_self s)))
      end
  else mret bad_method.
Definition handleInstanceUpdate (e : wenv) (r : request) : HM response :=
  if is_meth r "GET" then fleet_get (λ f, ok (WJob (fl_updateJob f)))
  else if is_meth r "POST" then
    current ← fleet_get ReleaseChannel;
    let requested := rq_Query r "channel" in
    let channel := if str_eqb requested "" then current else requested in
    j ← on_fleet (StartUpdates channel);
    match j with
    | Err t => mret (fail t 409)
    | Ok (j, nodes) => leave [JUpdate nodes channel];; mret (ok (WJob j))
    end
  else mret bad_method.

(** ** Instances *)
Definition handleInstances (e : wenv) (r : request) : HM response :=
  if is_meth r "GET" then l ← on_fleet fleet_List; mret (ok (WInstances l))
  else if is_meth r "POST" then
    decoded 400 (bd_instance (rq_Body r)) (λ cfg,
      let cfg := ResolveTokenFile (we_readToken e) cfg in
      a ← on_fleet (fleet_Add cfg); reply_to 400 a (λ _, WAck "added" (ic_ID cfg)))
  else mret bad_method.
Definition handleInstanceRestart (e : wenv) (r : request) : HM response :=
  only "POST" r (decoded 400 (bd_id (rq_Body r)) (λ id,
    if str_eqb id "" then mret (fail "id required" 400)
    else a ← on_fleet (RestartInstance id); reply_to 400 a (λ _, WAck "restarting" id))).
(** The parameters of the query log pages. *)
Definition outcome_param (r : request) : string :=
  let a := ToUpper (TrimSpace (rq_Query r "action")) in if str_eqb a "PASS" || str_eqb a "BLOCK" then a else "".
Definition cached_param (r : request) : string :=
  let c := TrimSpace (rq_Query r "cached") in if str_eqb c "0" || str_eqb c "1" then c else "".
Definition proto_param (r : request) : string :=
  let p := ToLower (TrimSpace (rq_Query r "proto")) in if str_eqb p "dns" || str_eqb p "doh" then p else "".
Definition since_param (e : wenv) (r : request) : Z :=
  we_time e - boundedDuration (we_fraction e) (rq_Query r "since") (24 * hour) minute (30 * 24 * hour).
Definition log_params (e : wenv) (r : request) : log_query :=
  mkLogQuery (rq_Query r "instance") (rq_Query r "filter") (outcome_param r) (cached_param r) (proto_param r) (since_param e r).
Definition page_limit (r : request) (fallback maximum : Z) : Z := boundedLimit (rq_Query r "limit") fallback maximum.
Definition page_offset (r : request) : Z := boundedOffset (rq_Query r "offset").
Definition log_page (e : wenv) (r : request) : HM (res string (list QueryLogEntry)) :=
  log_get e 0 (Query (we_times e) answers (log_params e r) (Z.to_nat (page_offset r)) (Z.to_nat (page_limit r 100 500))).
(** The id and the rest of the path below /api/instances/. *)
Definition instance_path (p : string) : string * string := Cut (TrimPrefix p "/api/instances/") "/".
Definition handleInstance (e : wenv) (r : request) : HM response :=
  let '(id, sub) := instance_path (rq_Path r) in
  if str_eqb sub "policies" then
    only "GET" r (l ← on_fleet (ListPolicies id); reply_to 502 l WPolicies)
  else if str_eqb sub "policy" then
    if is_meth r "PUT" || is_meth r "POST" then
      decoded 400 (bd_policy (rq_Body r)) (λ p,
        a ← on_fleet (fleet_SetPolicy id p); reply_to 502 a (λ _, WAck "set" (wp_ID p)))
    else if is_meth r "DELETE" then
      let pid := rq_Query r "id" in
      a ← on_fleet (DeletePolicy id pid); reply_to 502 a (λ _, WAck "deleted" pid)
    else mret bad_method
  else if str_eqb sub "adopt/status" then
    only "GET" r (a ← on_fleet (GetAdoptStatus id); reply_to 502 a WAdoptStatus)
  else if str_eqb sub "adopt" then
    only "POST" r (a ← on_fleet (Adopt id (bd_code (rq_Body r))); reply_to 400 a (λ _, WAck "adopted" id))
  else if str_eqb sub "adopt/reset" then
    only "POST" r (a ← on_fleet (ResetAdoption id); reply_to 502 a (λ _, WAck "reset" id))
  else if str_eqb sub "label" then
    only "PUT" r (
      let label := bd_label (rq_Body r) in
      if str_eqb label "" then mret (fail "label required" 400)
      else a ← on_fleet (SetLabel id label); reply_to 502 a (λ _, WAck "label updated" id))
  else if str_eqb sub "query-log" then
    only "GET" r (with_log (l ← log_page e r; reply_to 502 l WEntries))
  else if str_eqb sub "" then
    only "DELETE" r (on_fleet (fleet_Remove id);; mret (ok (WAck "removed" id)))
  else mret (fail "not found" 404).
Definition applied (m : FM (W := W) results) : HM response := a ← on_fleet m; mret (ok (WApplied a)).
Definition web_handleRecords (e : wenv) (r : request) : HM response :=
  if is_meth r "GET" then fleet_get (λ f, ok (WRecords (fl_records f)))
  else if is_meth r "PUT" || is_meth r "POST" then
    decoded 400 (bd_records (rq_Body r)) (λ l, applied (fleet_SetRecords l))
  else if is_meth r "DELETE" then applied (fleet_SetRecords [])
  else mret bad_method.

(** ** Settings *)
Definition settings_view (f : Fleet) : content :=
  WSettings (fl_defaultPolicy f) (InstanceOverrides f) (fl_dohHTTPAddr f) (fl_rateLimitQPS f)
    (fl_upstreamServers f) (fl_upstreamRoutes f) (fl_upstreamBootstrap f) (CacheConfig f) (QueryLogRetentionHours f)
    (fl_records f) (ReleaseChannel f).
(** A request for one instance names it. *)
Definition scoped (q : settings) : option string :=
  if str_eqb (sg_Scope q) "instance" && negb (str_eqb (sg_Instance q) "") then Some (sg_Instance q) else None.
(** Merging one field into the override of an instance; the value that means
    "inherit" clears it. *)
Definition override_with (id : string) (partial : InstanceOverride) (clear : InstanceOverride → InstanceOverride)
    (f : Fleet) : option InstanceOverride :=
  clear <$> mergeOverride (InstanceOverrideOf id f) (Some partial).
Definition set_scoped (id : string) (o : Fleet → option InstanceOverride) : HM response :=
  m ← fleet_get o; applied (SetInstanceOverride id m).
Definition cleared {A} (inherit : bool) (v : option A) : option A := if inherit then None else v.
Definition emptied {A} (v : option (list A)) : bool := match v with Some [] => true | _ => false end.
Definition set_doh (q : settings) (addr : string) : HM response :=
  if negb (str_eqb addr "") && is_nil (SplitHostPort addr) then mret (fail "invalid doh_http_addr: must be host:port" 400)
  else match scoped q with
       | Some id => set_scoped id (override_with id (no_override <| ov_DoHHTTPAddr := Some addr |>)
                      (λ o, o <| ov_DoHHTTPAddr ::= cleared (str_eqb addr "") |>))
       | None => applied (fleet_SetDoHHTTPAddr addr)
       end.
Definition set_retention (hours : Z) : HM response :=
  if negb (ValidQueryLogRetentionHours hours)
  then mret (fail "invalid query_log_retention_hours: must be 24, 168, 720, 4320 or 8760" 400)
  else applied (SetQueryLogRetention hours).
Definition set_rate (q : settings) (n : Z) : HM response :=
  let qps := if n <? 0 then 0 else n in
  match scoped q with
  | Some id => set_scoped id (override_with id (no_override <| ov_RateLimitQPS := Some n |>)
                 (λ o, o <| ov_RateLimitQPS ::= cleared (qps =? 0) |>))
  | None => applied (SetRateLimitQPS qps)
  end.
Definition set_cache_size (q : settings) (size : Z) : HM response :=
  if size <? 0 then mret (fail "cache size must be >= 0" 400)
  else match scoped q with
       | Some id => set_scoped id (override_with id (no_override <| ov_CacheSize := Some size |>)
                      (λ o, o <| ov_CacheSize ::= cleared (size =? 0) |>))
       | None => applied (SetCache size)
       end.
Definition set_upstream_pool (q : settings) : HM response :=
  '(sv, rt, bt) ← fleet_get (λ f, (fl_upstreamServers f, fl_upstreamRoutes f, fl_upstreamBootstrap f));
  let valid sv rt bt (k : HM response) :=
    match NewPoolWithBootstrap sv rt "" bt with Err e => mret (fail ("invalid upstream: " +:+ pool_text e) 400) | Ok _ => k end in
  match scoped q with
  | Some id =>
      m ← fleet_get (override_with id
            (no_override <| ov_UpstreamServers := sg_Servers q |> <| ov_UpstreamRoutes := sg_Routes q |>
                         <| ov_UpstreamBootstrap := sg_Bootstrap q |>)
            (λ o, o <| ov_UpstreamServers ::= cleared (emptied (sg_Servers q)) |>
                    <| ov_UpstreamRoutes ::= cleared (emptied (sg_Routes q)) |>
                    <| ov_UpstreamBootstrap ::= cleared (emptied (sg_Bootstrap q)) |>));
      let field {A} (g : InstanceOverride → option A) (fleet : A) := default fleet (m ≫= g) in
      valid (field ov_UpstreamServers sv) (field ov_UpstreamRoutes rt) (field ov_UpstreamBootstrap bt)
        (applied (SetInstanceOverride id m))
  | None =>
      let sv := default sv (sg_Servers q) in
      let rt := default rt (sg_Routes q) in
      let bt := default bt (sg_Bootstrap q) in
      valid sv rt bt (applied (fleet_SetUpstream sv rt bt))
  end.
Definition put_settings (q : settings) : HM response :=
  match sg_Channel q with
  | Some c =>
      err ← on_fleet (SetReleaseChannel c);
      match err with
      | Some t => mret (fail t 400)
      | None => fleet_get (λ f, ok (WChannel (ReleaseChannel f)))
      end
  | None =>
  match sg_DoHHTTPAddr q with Some addr => set_doh q addr | None =>
  match sg_Retention q with Some h => set_retention h | None =>
  match sg_RateLimitQPS q with Some n => set_rate q n | None =>
  match sg_CacheSize q with Some n => set_cache_size q n | None =>
  if negb (is_nil (sg_Servers q) && is_nil (sg_Routes q) && is_nil (sg_Bootstrap q)) then set_upstream_pool q
  else match scoped q with
       | Some id => set_scoped id (λ f, mergeOverride (InstanceOverrideOf id f) (sg_Override q))
       | None => match sg_Policy q with
                 | None => mret (fail "default_policy required" 400)
                 | Some p => applied (SetDefaultPolicy (Some p))
                 end
       end
  end end end end end.
Definition handleSettings (e : wenv) (r : request) : HM response :=
  if is_meth r "GET" then fleet_get (λ f, ok (settings_view f))
  else if is_meth r "PUT" then decoded 400 (bd_settings (rq_Body r)) put_settings
  else mret bad_method.

(** ** High availability and health *)
Definition with_pass (p : string) (c : HAConfig) : HAConfig :=
  mkHA (ha_Enabled c) (ha_Mode c) (ha_NodeRole c) (ha_Interface c) (ha_SourceIP c) (ha_PeerIP c) (ha_VirtualIP c)
    (ha_VirtualRouterID c) (ha_Priority c) (ha_AdvertIntervalSec c) p.
Definition with_passes (p q : string) (c : HACluster) : HACluster :=
  c <| hc_Primary ::= with_pass p |> <| hc_Secondary ::= with_pass q |>.
(** Both passwords empty: the stored ones are kept. *)
Definition keep_passes (current c : HACluster) : HACluster :=
  if str_eqb (ha_AuthPass (hc_Primary c)) "" && str_eqb (ha_AuthPass (hc_Secondary c)) ""
  then with_passes (ha_AuthPass (hc_Primary current)) (ha_AuthPass (hc_Secondary current)) c else c.
Definition handleHighAvailability (e : wenv) (r : request) : HM response :=
  if is_meth r "GET" then
    c ← fleet_get fl_haCluster;
    l ← on_fleet HAStatuses;
    mret (ok (WHA (with_passes "" "" c) l))
  else if is_meth r "PUT" then
    decoded_quietly (bd_cluster (rq_Body r)) (λ c,
      current ← fleet_get fl_haCluster;
      a ← on_fleet (SetHACluster (keep_passes current c)); reply_to 400 a (λ _, WOk))
  else if is_meth r "POST" then
    let action := rq_Query r "action" in
    c ← fleet_get fl_haCluster;
    if str_eqb action "validate" then a ← on_fleet (fleet_ValidateHA c); reply_to 400 a (λ _, WOk)
    else if str_eqb action "apply" then a ← on_fleet (fleet_ApplyHA c); reply_to 400 a (λ _, WOk)
    else if str_eqb action "disable" then a ← on_fleet (FleetOps.DisableHA c); reply_to 400 a (λ _, WOk)
    else mret (fail "unknown high availability action" 400)
  else mret bad_method.
Definition web_handleHealth (e : wenv) (r : request) : HM response :=
  l ← on_fleet fleet_Health;
  ask (λ s, ok (WHealth l (if fl_queryLog (wb_fleet s) then Some (ql_dropped (w_ql (wb_world s))) else None))).

(** ** The query log *)
Definition and_then {A} (m : HM (res string A)) (k : A → HM response) : HM response :=
  a ← m; match a with Err t => mret (fail t 502) | Ok a => k a end.
(** The order in which the engine meets the groups. *)
Definition log_groups {A} (e : wenv) (n : nat) (keys : QueryLogStore → list string) (g : list string → QueryLogStore → A)
    : HM (res string A) :=
  w ← ask wb_world; log_get e n (λ st, g (w_range w (remove_dups (keys st))) st).
Definition has_more (entries : list QueryLogEntry) (offset limit total : Z) : bool :=
  (Z.of_nat (length entries) =? limit) && (offset + limit <? total).
Definition handleQueries (e : wenv) (r : request) : HM response :=
  only "GET" r (with_log (
    and_then (log_page e r) (λ entries,
    and_then (log_get e 1 (QueryCount (we_times e) (log_params e r))) (λ total,
    mret (ok (WQueries entries total (has_more entries (page_offset r) (page_limit r 100 500) total))))))).
Definition handleClients (e : wenv) (r : request) : HM response :=
  let inst := rq_Query r "instance" in
  let since := since_param e r in
  only "GET" r (with_log (
    and_then (log_groups e 0 (λ st, lr_client <$> select_rows (we_times e) (λ _, true) inst since st)
                (λ enum, ClientStats (we_times e) enum inst since (Z.to_nat (page_limit r 250 500)))) (λ l, mret (ok (WClients l))))).
Definition handleClientNames (e : wenv) (r : request) : HM response :=
  with_log (
    if is_meth r "GET" then and_then (log_get e 0 ql_names) (λ m, mret (ok (WNames m)))
    else if is_meth r "PUT" then
      decoded 400 (bd_client (rq_Body r)) (λ '(client, name),
        if str_eqb client "" then mret (fail "client required" 400)
        else if (256 <? slen client)%nat || (128 <? slen name)%nat then mret (fail "client/name too long" 400)
        else and_then (log_do e (λ fails, SetClientName fails client name)) (λ _, mret (ok WOk)))
    else mret bad_method).
(** [None] of [AggregateStats] is a division by zero: a panic. *)
Definition web_handleStats (e : wenv) (r : request) : HM response :=
  let inst := rq_Query r "instance" in
  let bucket := boundedDuration (we_fraction e) (rq_Query r "bucket") (5 * minute) second (24 * hour) in
  let since := since_param e r in
  only "GET" r (with_log (
    and_then (log_get e 0 (λ st, AggregateStats bucket (stats_scan (we_times e) inst since st))) (λ a,
    match a with
    | None => mret (mkResp 0 WPanic None false)
    | Some a =>
        and_then (log_get e 1 (UpstreamErrorCount (we_times e) inst since)) (λ n,
        mret (ok (WStats (mkSA (sa_TotalQueries a) (sa_BlockedQueries a) n (sa_AvgQPS a) (sa_AvgUs a) (sa_PerInstance a) (sa_Series a)))))
    end))).
Definition handleTopDomains (e : wenv) (r : request) : HM response :=
  let inst := rq_Query r "instance" in
  let since := since_param e r in
  let action := outcome_param r in
  only "GET" r (with_log (
    and_then (log_groups e 0 (λ st, lr_domain <$> top_rows (we_times e) inst since action st)
                (λ enum, TopDomains (we_times e) enum inst since (Z.to_nat (page_limit r 10 100)) action)) (λ l, mret (ok (WTop l))))).
Definition ratio (p : Z * Z) : Q := p.1 # Z.to_pos p.2.
Definition cache_sum (per : gmap string InstanceCacheStat) (g : InstanceCacheStat → Z) : Z :=
  foldr (λ kv n, g kv.2 + n) 0 (map_to_list per).
Definition weighted_sum (per : gmap string InstanceCacheStat) (avg : InstanceCacheStat → Z * Z) (n : InstanceCacheStat → Z) : Q :=
  foldr (λ kv q, (ratio (avg kv.2) * inject_Z (n kv.2) + q)%Q) 0%Q (map_to_list per).
Definition fetched (c : InstanceCacheStat) : Z := ic_Queries c - ic_CachedQueries c.
Definition cache_totals (per : gmap string InstanceCacheStat) : cache_total :=
  let queries := cache_sum per ic_Queries in
  let cached := cache_sum per ic_CachedQueries in
  let missed := cache_sum per fetched in
  mkTotal queries cached
    (if 0 <? queries then ((cached # Z.to_pos queries) * 100)%Q else 0%Q)
    (if 0 <? cached then (weighted_sum per ic_AvgCachedUs ic_CachedQueries / inject_Z cached)%Q else 0%Q)
    (if 0 <? missed then (weighted_sum per ic_AvgFetchedUs fetched / inject_Z missed)%Q else 0%Q).
Definition live_sizes (g : StatsResponse → Z) (l : list InstanceStatus) : gmap string Z :=
  foldl (λ m s, match is_Stats s with Some st => <[is_ID s := g st]> m | None => m end) ∅ l.
Definition handleCacheStats (e : wenv) (r : request) : HM response :=
  let inst := rq_Query r "instance" in
  let since := since_param e r in
  let limit := Z.to_nat (page_limit r 50 200) in
  let passed key st := key <$> select_rows (we_times e) (is_action "PASS") inst since st in
  only "GET" r (with_log (
    and_then (log_groups e 0 (passed lr_instance) (λ enum, CacheStats (we_times e) enum inst since)) (λ per,
    and_then (log_groups e 1 (passed lr_domain)
                (λ enum, TopCachedDomains (we_times e) enum inst since (Z.to_nat (page_offset r)) limit)) (λ top,
    and_then (log_get e 2 (TopCachedDomainsCount (we_times e) inst since)) (λ total,
    l ← on_fleet fleet_List;
    mret (ok (WCache (cache_totals per) per (live_sizes st_Cached l) (live_sizes st_CacheSize l) top total))))))).
Definition handleUpstreamErrors (e : wenv) (r : request) : HM response :=
  let inst := rq_Query r "instance" in
  let since := since_param e r in
  only "GET" r (with_log (
    and_then (log_get e 0 (λ st, UpstreamErrorStats (we_times e) (we_groups e (remove_dups (error_key <$> error_rows (we_times e) inst since st)))
                inst since (Z.to_nat (page_limit r 100 500)) st)) (λ l,
    mret (ok (WErrors (foldr (λ s n, us_Count s + n) 0 l) l))))).
(** [ProbeBootstrap]: the resolver is rebuilt when the servers change. *)
Definition ProbeBootstrap : HM (res pool_error (option resolver)) := λ s,
  let servers := fl_upstreamBootstrap (wb_fleet s) in
  let key := bootstrapKey servers in
  let '(k, cached) := wb_probe s in
  if str_eqb k key && (negb (is_nil cached) || str_eqb key "") then (s, Ok cached)
  else match BuildBootstrapResolver servers with
       | Err err => (s, Err err)
       | Ok b => (s <| wb_probe := (key, b) |>, Ok b)
       end.
Definition handleUpstreamTest (e : wenv) (r : request) : HM response :=
  only "POST" r (decoded_quietly (bd_probe (rq_Body r)) (λ '(servers, domain),
    if bool_decide (servers = []) then mret (fail "no servers to test" 400)
    else if (32 <? length servers)%nat then mret (fail "too many servers (max 32)" 400)
    else
      let domain := TrimSpace domain in
      let domain := if str_eqb domain "" then "example.com" else domain in
      if (253 <? slen domain)%nat then mret (fail "domain too long" 400)
      else
        b ← ProbeBootstrap;
        match b with
        | Err err => mret (fail ("bad bootstrap servers: " +:+ pool_text err) 400)
        | Ok b => mret (ok (WProbe domain (imap (λ i sv,
            ProbeServerWithBootstrap (we_validName e) (we_lookup e) (we_ctxErr e) (we_run e i) sv domain b) servers)))
        end)).
Definition handleMaintenance (e : wenv) (r : request) : HM response :=
  only "POST" r (decoded_quietly (bd_action (rq_Body r)) (λ '(action, instance),
    let run (g : bool → QueryLogStore → QueryLogStore) := with_log (a ← log_do e g; reply_to 500 a (λ _, WOk)) in
    if str_eqb action "reset_stats" then run ClearStatsSamples
    else if str_eqb action "clear_query_log" then run ClearQueryLog
    else if str_eqb action "clear_upstream_errors" then run (λ fails, ClearUpstreamErrors fails instance)
    else mret (fail "unknown action" 400))).

(** ** Events *)
(** The stream begins with the backlog; each of its rounds receives from the
    channel, and its end unsubscribes. *)
Definition handleEvents (e : wenv) (r : request) : HM response :=
  if negb (rq_Flusher r) then mret (fail "streaming unsupported" 500)
  else λ s, let '(b, ch, backlog) := Subscribe (fl_bus (wb_fleet s)) in
            (s <| wb_fleet ::= λ f, f <| fl_bus := b |> |>, ok (WEvents ch backlog)).
Definition stream_next (ch : nat) : HM (option Event) := λ s,
  let '(b, ev) := bus_recv ch (fl_bus (wb_fleet s)) in (s <| wb_fleet ::= λ f, f <| fl_bus := b |> |>, ev).
Definition stream_end (ch : nat) : HM unit := λ s, (s <| wb_fleet ::= λ f, f <| fl_bus ::= Unsubscribe ch |> |>, ()).

(** ** The blocklist *)
Definition web_handleCachePurge (e : wenv) (r : request) : HM response :=
  only "POST" r ('(a, n) ← on_fleet FleetPush.PurgeCache; mret (ok (WPurged a n))).
(** A loop of methods that start goroutines. *)
Fixpoint start_all {A} (m : A → FM (W := W) (list goroutine)) (l : list A) : HM unit :=
  match l with [] => mret () | x :: l => begin_jobs (m x);; start_all m l end.
Definition first_of (lim : string) (l : list string) : list string :=
  match (if str_eqb lim "" then None else Atoi lim) with
  | Some n => if (0 <? n) && (n <? Z.of_nat (length l)) then take (Z.to_nat n) l else l
  | None => l
  end.
Definition web_handleBlocklist (e : wenv) (r : request) : HM response :=
  if is_meth r "GET" then
    '(domains, allowed, total, sources) ← fleet_get (λ f,
      (first_of (rq_Query r "limit") (ManualDomains f), AllowedDomains f, Count (fl_blocklist f), fl_blocklistSources f));
    st ← on_fleet BlocklistStatus_read;
    mret (ok (WBlocklist domains allowed total sources st))
  else if is_meth r "POST" || is_meth r "DELETE" then
    decoded 400 (bd_domain (rq_Body r)) (λ '(domain, allow),
      if str_eqb domain "" then mret (fail "domain required" 400)
      else if is_meth r "POST" then
        start_all (if allow then AddAllowedDomain else AddManualDomain) (Fields domain);; mret (ok (WAck "added" ""))
      else
        begin_jobs ((if allow then RemoveAllowedDomain else RemoveManualDomain) domain);; mret (ok (WAck "removed" "")))
  else mret bad_method.
Definition handleBlocklistExport (e : wenv) (r : request) : HM response :=
  only "GET" r (l ← on_fleet lists; mret (ok (WLines l.1))).
Definition handleBlocklistSources (e : wenv) (r : request) : HM response :=
  if is_meth r "GET" then
    l ← fleet_get fl_blocklistSources; st ← on_fleet BlocklistStatus_read; mret (ok (WSources l st))
  else if is_meth r "PUT" || is_meth r "POST" then
    decoded 400 (bd_sources (rq_Body r)) (λ '(urls, hours, clear_manual),
      (match hours with Some h => on_fleet (SetAutoUpdateHours h) | None => mret () end);;
      let urls := cleanURLs urls in
      if bool_decide (urls = []) then
        begin_jobs (SetBlocklistSources hms []);;
        on_fleet (write (λ f, f <| fl_blocklist ::= FromDomains [] |>));;
        (if clear_manual : bool then begin_jobs ClearManualDomains;; begin_jobs ClearAllowedDomains else mret ());;
        begin_jobs persistBlocklist;;
        mret (ok (WImport []))
      else begin_jobs (SetBlocklistSources hms urls);; mret (ok (WImport urls)))
  else mret bad_method.
Definition handleBlocklistStatus (e : wenv) (r : request) : HM response :=
  only "GET" r (st ← on_fleet BlocklistStatus_read; mret (ok (WStatus st))).
Definition handleBlocklistSource (e : wenv) (r : request) : HM response :=
  only "POST" r (decoded 400 (bd_source (rq_Body r)) (λ '(url, enabled),
    let url := TrimSpace url in
    if str_eqb url "" then mret (fail "url required" 400)
    else begin_jobs (SetBlocklistSourceEnabled hms url enabled);; mret (ok (WAck (if enabled : bool then "enabled" else "disabled") "")))).
Definition handleBlocklistClearLog (e : wenv) (r : request) : HM response :=
  only "POST" r (on_fleet ClearImportLog;; mret (ok WOk)).
Definition handleDoHMobileConfig (e : wenv) (r : request) : HM response :=
  only "GET" r (mret
    match profile_params (rq_Query r "host") (rq_Query r "port") (rq_Query r "client_id") with
    | Err t => fail t 400
    | Ok (host, url) => ok (WProfile (buildDoHMobileConfig (we_random e 0) (we_random e 1) (we_random e 2) (we_random e 3) host url))
    end).

(** ** The pages *)
Definition isUIAsset (p : string) : bool :=
  HasSuffix p ".js" || HasSuffix p ".css" || HasSuffix p ".svg" || HasSuffix p ".ico" || HasSuffix p ".png".
(** [filepath.Ext]: the text from the last dot of the last element. *)
Definition path_Ext (name : string) : string :=
  match LastIndexFunc (λ c, ascii_eqb c "." || ascii_eqb c "/") name with
  | Some i => if HasPrefix (sdrop i name) "." then sdrop i name else ""
  | None => ""
  end.
Definition contentType (name : string) : string :=
  if HasSuffix name ".js" then "application/javascript"
  else let t := mime (path_Ext name) in if str_eqb t "" then "application/octet-stream" else t.
Definition serveUIFile (files : string → option string) (name : string) : response :=
  match files name with None => fail "not found" 404 | Some b => ok (WFile (contentType name) b) end.
(** [filepath.Clean]: the elements of a path without empty and "." ones, each
    ".." taking the element before it away; [acc] is reversed. *)
Fixpoint clean_elements (rooted : bool) (acc : list string) (l : list string) : list string :=
  match l with
  | [] => reverse acc
  | x :: l =>
      if str_eqb x "" || str_eqb x "." then clean_elements rooted acc l
      else if str_eqb x ".." then
        match acc with
        | a :: acc' => if str_eqb a ".." then clean_elements rooted (x :: acc) l else clean_elements rooted acc' l
        | [] => clean_elements rooted (if rooted then [] else [x]) l
        end
      else clean_elements rooted (x :: acc) l
  end.
Definition path_Clean (p : string) : string :=
  let rooted := HasPrefix p "/" in
  let s := (if rooted then "/" else "") +:+ Join (clean_elements rooted [] (Split p "/")) "/" in
  if str_eqb s "" then "." else s.
Definition serveUI (files : string → option string) (e : wenv) (r : request) : HM response :=
  let p := rq_Path r in
  let page x := str_eqb p x in
  c ← ask (λ s, Configured (wb_auth s));
  if negb c && (page "/" || page "/setup" || page "/setup.html" || page "/login" || page "/login.html")
  then mret (serveUIFile files "setup.html")
  else if isUIAsset p then
    let name := path_Clean (TrimPrefix p "/") in
    mret (if str_eqb name "." || HasPrefix name "../" || str_eqb name ".." then fail "not found" 404
          else serveUIFile files name)
  else if page "/login" || page "/login.html" then mret (serveUIFile files "login.html")
  else
    a ← authed e r;
    mret (if a : bool then serveUIFile files "index.html" else mkResp 302 (WRedirect "/login") None false).
(** Without embedded files only the API is served. *)
Definition serve_page (e : wenv) (r : request) : HM response :=
  match ui with None => mret (fail "blipc: no UI embedded (API only)" 404) | Some files => serveUI files e r end.

(** ** Routing *)
Definition open_routes : list (string * (wenv → request → HM response)) :=
  [("/api/login", handleLogin); ("/api/setup", handleSetup); ("/api/logout", handleLogout); ("/api/keys", handleAPIKeys)].
Definition gated_routes : list (string * (wenv → request → HM response)) :=
  [("/api/instances", handleInstances); ("/api/instances/update", handleInstanceUpdate);
   ("/api/instances/restart", handleInstanceRestart); ("/api/queries", handleQueries);
   ("/api/upstream-errors", handleUpstreamErrors); ("/api/upstream/test", handleUpstreamTest);
   ("/api/clients", handleClients); ("/api/client-names", handleClientNames); ("/api/stats", web_handleStats);
   ("/api/top-domains", handleTopDomains); ("/api/cache-stats", handleCacheStats); ("/api/maintenance", handleMaintenance);
   ("/api/events", handleEvents); ("/api/health", web_handleHealth); ("/api/records", web_handleRecords);
   ("/api/settings", handleSettings); ("/api/update", handleSelfUpdate);
   ("/api/high-availability", handleHighAvailability); ("/api/cache/purge", web_handleCachePurge);
   ("/api/blocklist", web_handleBlocklist); ("/api/blocklist/export", handleBlocklistExport);
   ("/api/doh-mobileconfig", handleDoHMobileConfig); ("/api/blocklist/sources", handleBlocklistSources);
   ("/api/blocklist/source", handleBlocklistSource); ("/api/blocklist/status", handleBlocklistStatus);
   ("/api/blocklist/clear-log", handleBlocklistClearLog)].
Definition route (p : string) (l : list (string * (wenv → request → HM response))) : option (wenv → request → HM response) :=
  snd <$> List.find (λ x, str_eqb p x.1) l.
Definition dispatch (r : request) : wenv → request → HM response :=
  match route (rq_Path r) open_routes with
  | Some h => h
  | None =>
      match route (rq_Path r) gated_routes with
      | Some h => requireAuth h
      | None => if HasPrefix (rq_Path r) "/api/instances/" then requireAuth handleInstance else serve_page
      end
  end.
Definition security_headers : list (string * string) :=
  [("X-Content-Type-Options", "nosniff"); ("X-Frame-Options", "DENY"); ("Referrer-Policy", "no-referrer");
   ("X-XSS-Protection", "1; mode=block"); ("Cache-Control", "no-store, no-cache, must-revalidate");
   ("Content-Security-Policy", "default-src 'self'; img-src 'self' data: blob:; style-src 'self' 'unsafe-inline'; "
      +:+ "script-src 'self'; connect-src 'self'; base-uri 'none'; frame-ancestors 'none'")].
(** [Server.Handler]; the event stream replaces one of the headers. *)
Definition web_Handler (e : wenv) (r : request) : HM (list (string * string) * response) :=
  resp ← dispatch r e r; mret (security_headers, resp).
End Web.
