(* ===== verification/WebFacts.v ===== *)
(** * What the controller's web API guarantees

    Theorems about Web.v: who can do what without credentials, first-run
    setup, and what a change of the settings does to the configuration that is
    pushed to the instances. *)
From S2P Require Import Prelude GoStrings GoNet Dns Records Blocklist Upstream Stats HA Update Control Bus Release Client.
From S2P Require Import BlocklistDB LogTime QueryLog Pagination Auth Fleet FleetPush FleetOps Import Profile Web.
From Stdlib Require Import Ascii.
#[local] Open Scope Z_scope.

Section Facts.
Context {W : Type} `{!World W} `{Hfp : !Fingerprints} `{!Store W} `{!LogStore W} `{!Files W}.
Context (hms : Z → string) (compare : string → string → option bcrypt_error) (generate : string → option string).
Context (pool_text : pool_error → string) (answers : string → list Answer).
Context (yaml_read : string → res string ynode) (yaml_print : ynode → res string string).
Context (ui : option (string → option string)) (mime : string → string).
#[local] Existing Instance hm_mret.
#[local] Existing Instance hm_mbind.
Notation HM := (HM (W := W)).
Notation dispatch := (dispatch hms compare generate pool_text answers yaml_read yaml_print ui mime).
Implicit Types s : Web (W := W).

Lemma hm_bind {A B} (m : HM A) (k : A → HM B) s : (m ≫= k) s = k (m s).2 (m s).1.
Proof. unfold mbind, hm_mbind. by destruct (m s). Qed.
Lemma hm_ask {A B} (g : Web → A) (k : A → HM B) s : (ask g ≫= k) s = k (g s) s.
Proof. done. Qed.
Lemma hm_on_auth {A B} (g : Auth → Auth * A) (k : A → HM B) s :
  (on_auth g ≫= k) s = k (g (wb_auth s)).2 (s <| wb_auth := (g (wb_auth s)).1 |>).
Proof. unfold on_auth, mbind, hm_mbind. by destruct (g _). Qed.
Lemma web_eq s : s <| wb_auth := wb_auth s |> = s.
Proof. by destruct s. Qed.

(** ** The gate *)
Definition stranger (e : wenv) (r : request) (a : Auth) : Prop :=
  (Authed (we_now e) (rq_Cookie r) a).2 = false
  ∧ validAPIKey (we_keyOrder e) (we_keyNow e) (bearerToken (rq_Authorization r)) a = false.
(** What may be shown to a stranger. *)
Definition public (c : content) : bool :=
  match c with WText _ | WOk | WRedirect _ | WFile _ _ => true | _ => false end.
Definition right_password (r : request) (a : Auth) : Prop :=
  rq_Path r = "/api/login" ∧ ∃ u p, bd_login (rq_Body r) = Ok (u, p) ∧ verify compare u p a = true.
(** Only the sessions and the failed logins of the caller's address may
    change.  A new session comes from the password; one that is gone is the
    one the cookie names, and had expired (or has the empty name, which is never
    given out), or was replaced by a login with the password. *)
Definition only_logins (e : wenv) (r : request) (a a' : Auth) : Prop :=
  a_username a' = a_username a ∧ a_passHash a' = a_passHash a ∧ a_configured a' = a_configured a ∧ a_keys a' = a_keys a
  ∧ (∀ id exp, a_sessions a' !! id = Some exp → a_sessions a !! id = Some exp ∨ right_password r a)
  ∧ (∀ id exp, a_sessions a !! id = Some exp → a_sessions a' !! id = Some exp
       ∨ rq_Cookie r = Some id ∧ (id = "" ∨ time_after (we_now e) exp = true) ∨ right_password r a)
  ∧ ∀ ip, rq_Path r ≠ "/api/login" ∨ ip ≠ ClientIP (rq_RemoteAddr r) → a_fl a' !! ip = a_fl a !! ip.
Lemma only_logins_refl e r a : only_logins e r a a.
Proof. split_and!; try done; intros; by left. Qed.
(** Deleting the session of the cookie, when that session has expired. *)
Lemma delete_logins e r a id : rq_Cookie r = Some id →
  (∀ exp, a_sessions a !! id = Some exp → id = "" ∨ time_after (we_now e) exp = true) →
  only_logins e r a (put_sessions (delete id (a_sessions a)) a).
Proof.
  intros Hc Hx. split_and!; try done; cbn.
  - intros i exp [_ Hi]%lookup_delete_Some. by left.
  - intros i exp Hi. destruct (decide (i = id)) as [->|Hne]; [right; left; auto|left; by rewrite lookup_delete_ne].
Qed.
Lemma Authed_logins e r a : only_logins e r a (Authed (we_now e) (rq_Cookie r) a).1.
Proof.
  unfold Authed. destruct (rq_Cookie r) as [[|x id]|] eqn:Hc; try apply only_logins_refl.
  destruct (a_sessions a !! _) as [t|] eqn:Hl; [|apply only_logins_refl].
  destruct (time_after (we_now e) t) eqn:Ht; [|apply only_logins_refl]. apply delete_logins; [done|].
  intros exp Hx. rewrite Hl in Hx. injection Hx as ->. by right.
Qed.
Lemma Destroy_logins e r a : (Authed (we_now e) (rq_Cookie r) a).2 = false → only_logins e r a (Destroy (rq_Cookie r) a).
Proof.
  unfold Destroy, Authed. destruct (rq_Cookie r) as [id|] eqn:Hc; [|by intros; apply only_logins_refl]. intros Ha.
  apply delete_logins; [done|]. intros exp Hx. destruct id as [|x id]; [by left|]. rewrite Hx in Ha. right. by destruct (time_after _ _).
Qed.
Lemma Login_logins e u p r a :
  rq_Path r = "/api/login" → bd_login (rq_Body r) = Ok (u, p) →
  only_logins e r a (Login compare (we_login e) u p (ClientIP (rq_RemoteAddr r)) a).1.
Proof.
  intros Hr Hb. unfold Login. destruct (negb _); [apply only_logins_refl|]. destruct (negb _); [apply only_logins_refl|].
  destruct (verify compare u p a) eqn:Hv; cbn [negb].
  - assert (right_password r a) as Hp by (split; [done|by exists u, p]).
    assert (∀ ip, rq_Path r ≠ "/api/login" ∨ ip ≠ ClientIP (rq_RemoteAddr r) →
      a_fl (clearFails (ClientIP (rq_RemoteAddr r)) a) !! ip = a_fl a !! ip) as Hf
      by (intros ip [?|Hip]; [done|]; cbn; by apply lookup_delete_ne).
    destruct (newSessionID _) as [id|]; (split_and!; [done..| | |exact Hf]); intros; auto.
  - assert (∀ f ip, rq_Path r ≠ "/api/login" ∨ ip ≠ ClientIP (rq_RemoteAddr r) →
      a_fl (put_fl (<[ClientIP (rq_RemoteAddr r) := f]> (a_fl a)) a) !! ip = a_fl a !! ip) as Hf
      by (intros f ip [?|Hip]; [done|]; cbn; by apply lookup_insert_ne).
    unfold recordFail. destruct (a_fl a !! _) as [f|]; [destruct (expired_window _ f)|]; (split_and!; [done..| | |apply Hf]); by left.
Qed.
(** A handler that a stranger may call. *)
Definition harmless (e : wenv) (r : request) s (x : Web (W := W) * response) : Prop :=
  (∃ a, x.1 = s <| wb_auth := a |> ∧ only_logins e r (wb_auth s) a) ∧ public (wr_Body x.2) = true.
Lemma harmless_same e r s resp : public (wr_Body resp) = true → harmless e r s (s, resp).
Proof. intros Hp. split; [|done]. exists (wb_auth s). split; [by rewrite web_eq|apply only_logins_refl]. Qed.
Lemma gate_harmless h e r s : stranger e r (wb_auth s) → harmless e r s (requireAuth h e r s).
Proof.
  intros [Ha Hk]. unfold requireAuth, authed. rewrite hm_on_auth, Ha, hm_ask. cbn [wb_auth].
  assert (validAPIKey (we_keyOrder e) (we_keyNow e) (bearerToken (rq_Authorization r))
            (Authed (we_now e) (rq_Cookie r) (wb_auth s)).1 = false) as Hk'.
  { rewrite <-Hk. unfold validAPIKey. destruct (str_eqb _ _); [done|]. do 2 f_equal.
    by destruct (Authed_logins e r (wb_auth s)) as (_ & _ & _ & -> & _). }
  cbn. rewrite Hk'. cbn. split; [|done]. eexists. split; [reflexivity|apply Authed_logins].
Qed.
Lemma handleLogin_harmless e r s : rq_Path r = "/api/login" → harmless e r s (handleLogin compare e r s).
Proof.
  intros Hr. unfold handleLogin, only. destruct (is_meth r "POST"); [|by apply harmless_same].
  unfold decoded_quietly. destruct (bd_login (rq_Body r)) as [[u p]|] eqn:Hb; [|by apply harmless_same].
  rewrite hm_ask. destruct (negb _); [by apply harmless_same|]. unfold login. rewrite hm_on_auth. cbn.
  split; [eexists; split; [reflexivity|by apply Login_logins]|]. by destruct (Login _ _ _ _ _ _).2 as [|[]].
Qed.
Lemma handleSetup_configured e r s :
  Configured (wb_auth s) = true →
  (handleSetup compare generate yaml_read yaml_print e r s).1 = s
  ∧ public (wr_Body (handleSetup compare generate yaml_read yaml_print e r s).2) = true.
Proof. intros Hc. unfold handleSetup, only. destruct (is_meth r "POST"); [|done]. by rewrite hm_ask, Hc. Qed.
Lemma handleLogout_harmless e r s : stranger e r (wb_auth s) → harmless e r s (handleLogout e r s).
Proof.
  intros [Ha _]. unfold handleLogout, only. destruct (is_meth r "POST"); [|by apply harmless_same]. rewrite hm_on_auth.
  split; [|done]. eexists. split; [reflexivity|by apply Destroy_logins].
Qed.
Lemma handleAPIKeys_harmless e r s : stranger e r (wb_auth s) → harmless e r s (handleAPIKeys e r s).
Proof.
  intros [Ha _]. unfold handleAPIKeys, authed. rewrite hm_on_auth, Ha. split; [|done]. eexists.
  split; [reflexivity|apply Authed_logins].
Qed.
Lemma page_harmless e r s : stranger e r (wb_auth s) → harmless e r s (serve_page ui mime e r s).
Proof.
  intros [Ha _]. unfold serve_page. destruct ui as [files|]; [|by apply harmless_same].
  assert (∀ name, public (wr_Body (serveUIFile mime files name)) = true) as Hf by (intros; unfold serveUIFile; by case_match).
  unfold serveUI. rewrite hm_ask. destruct (negb _ && _); [by apply harmless_same|].
  destruct (isUIAsset _); [apply harmless_same; destruct (_ || _); [done|apply Hf]|].
  destruct (_ || _); [by apply harmless_same|]. unfold authed. rewrite hm_on_auth, Ha.
  split; [|done]. eexists. split; [reflexivity|apply Authed_logins].
Qed.
(** Which handler answers. *)
Lemma dispatch_cases (P : string → (wenv → request → HM response) → Prop) r :
  P "/api/login" (handleLogin compare) → P "/api/setup" (handleSetup compare generate yaml_read yaml_print) →
  P "/api/logout" handleLogout → P "/api/keys" handleAPIKeys →
  (∀ h, P (rq_Path r) (requireAuth h)) → P (rq_Path r) (serve_page ui mime) →
  P (rq_Path r) (dispatch r).
Proof.
  intros H1 H2 H3 H4 H5 H6. unfold Web.dispatch, route, open_routes. cbn [List.find].
  repeat match goal with
  | |- context [str_eqb (rq_Path r) ?x] => destruct (str_eqb (rq_Path r) x) eqn:E;
      [apply str_eqb_eq in E; cbn; rewrite E; assumption|clear E; cbn [fmap option_fmap option_map]]
  end.
  destruct (List.find _ _) as [[? h]|]; [apply H5|]. cbn. destruct (HasPrefix _ _); [apply H5|exact H6].
Qed.
End Facts.

(** C18: Without credentials the web API is closed.  A request whose cookie is
    not a live session and whose bearer token is not a live key changes
    nothing on a configured controller, whatever its path, method and body:
    not the fleet, not the files or the query log, not the updaters, and it
    leaves no goroutine; of the logins only these change: the session the cookie
    names is forgotten if it had expired, and at /api/login the count of failed
    attempts of the caller's own address changes and the right password opens a
    session.  Its answer holds no data of the controller, only a text, a page or
    a redirection. *)
Theorem web_gate {W : Type} `{!World W} `{!Fingerprints} `{!Store W} `{!LogStore W} `{!Files W}
    hms compare generate pool_text answers yaml_read yaml_print ui mime e r (s : Web (W := W)) :
  Configured (wb_auth s) = true → stranger e r (wb_auth s) →
  let x := web_Handler hms compare generate pool_text answers yaml_read yaml_print ui mime e r s in
  x.1 = s <| wb_auth := wb_auth x.1 |>
  ∧ only_logins compare e r (wb_auth s) (wb_auth x.1)
  ∧ public (wr_Body x.2.2) = true.
Proof.
  intros Hc Hs x.
  assert (harmless compare e r s (dispatch hms compare generate pool_text answers yaml_read yaml_print ui mime r e r s)) as [[a [Ha Hl]] Hp].
  { pattern (dispatch hms compare generate pool_text answers yaml_read yaml_print ui mime r).
    apply (dispatch_cases hms compare generate pool_text answers yaml_read yaml_print ui mime
             (λ p h, p = rq_Path r → harmless compare e r s (h e r s))); [..|done].
    - intros Hr. by apply handleLogin_harmless.
    - intros _. destruct (handleSetup_configured compare generate yaml_read yaml_print e r s Hc) as [H1 H2].
      split; [|done]. exists (wb_auth s). split; [by rewrite H1, web_eq|apply only_logins_refl].
    - intros _. by apply handleLogout_harmless.
    - intros _. by apply handleAPIKeys_harmless.
    - intros h _. by apply gate_harmless.
    - intros _. by apply page_harmless. }
  subst x. unfold web_Handler. rewrite hm_bind. cbn. rewrite Ha. by destruct s.
Qed.
(** A concrete world: no log rows, one file; the hash of a password is the
    password behind a mark. *)
#[export] Instance web_logs : LogStore (nat * DB) := {| w_ql _ := NewQueryLogStore [] 1 [] ∅ []; w_put_ql _ w := w |}.
#[export] Instance web_files : Files (nat * DB) := {| w_read _ _ := Ok "listen: :80"; w_replace _ _ w := (w, None) |}.
Definition web_compare (hash pass : string) : option bcrypt_error := if str_eqb hash ("$2a$" +:+ pass) then None else Some ErrMismatch.
Definition web_generate (pass : string) : option string := Some ("$2a$" +:+ pass).
Definition web_env : wenv :=
  mkWEnv 50 50 [] (mkLogin 50 50 50 (Some (replicate 32 7))) (mkKeyEnv None None 50) 50 50 (λ _, None) exact_fraction id
    (λ _, true) (λ _, []) None (λ _ _ _, (Err (plain_err "timeout"), 0)) (λ _, None) "v1.0.0" (λ _, []) demo_times.
Definition no_bodies : bodies :=
  mkBodies (Err "EOF") (Err "EOF") (Err "EOF") (Err "EOF") (Err "EOF") (Err "EOF") "" "" (Err "EOF") (Err "EOF") (Err "EOF")
    (Err "EOF") (Err "EOF") (Err "EOF") (Err "EOF") (Err "EOF") (Err "EOF").
Definition web_req (method path : string) (cookie : option string) (b : bodies) : request :=
  mkReq method path (λ _, "") cookie "" "192.0.2.7:4000" false true b.
Definition web_state : Web (W := nat * DB) :=
  NewServerWithConfig web_compare web_generate "admin" "correct horse" (import_fleet <| fl_configPath := "blipc.yaml" |>) "blipc.yaml" ""
    (0%nat, import_db).
Notation web_serve := (web_Handler (λ _, "12:00:00") web_compare web_generate (λ _, "bad pool") (λ _, []) (λ _, Ok empty_document)
  (λ _, Ok "yaml") None (λ _, "")).
Lemma web_gate_witness :
  let r := web_req "DELETE" "/api/instances/a" (Some "guess") no_bodies in
  let x := web_serve web_env r web_state in
  wr_Status x.2.2 = 401 ∧ x.1 = web_state <| wb_auth := wb_auth x.1 |> ∧ public (wr_Body x.2.2) = true.
Proof.
  intros r x. split; [vm_compute; reflexivity|].
  destruct (web_gate (λ _, "12:00:00") web_compare web_generate (λ _, "bad pool") (λ _, []) (λ _, Ok empty_document)
    (λ _, Ok "yaml") None (λ _, "") web_env r web_state) as (H1 & _ & H3);
    [vm_compute; reflexivity|split; vm_compute; reflexivity|].
  exact (conj H1 H3).
Defined.

(** ** First-run setup *)
Section Setup.
Context {W : Type} `{!World W} `{Hfp : !Fingerprints} `{!Store W} `{!LogStore W} `{!Files W}.
Context (compare : string → string → option bcrypt_error) (generate : string → option string).
Context (yaml_read : string → res string ynode) (yaml_print : ynode → res string string).
#[local] Existing Instance hm_mret.
#[local] Existing Instance hm_mbind.
Implicit Types s : Web (W := W).
(** What a setup request that passes every check asks for. *)
Definition setup_asks (r : request) s (user pass : string) : Prop :=
  ∃ name, bd_setup (rq_Body r) = Ok (wb_setupToken s, name, pass, pass) ∧ user = TrimSpace name
    ∧ wb_setupToken s ≠ "" ∧ (1 ≤ slen user ≤ 64)%nat ∧ (8 ≤ slen pass ≤ 72)%nat.
(** What it has done when it succeeds. *)
Definition setup_done (e : wenv) (r : request) s (user pass : string) (x : Web (W := W) * response) : Prop :=
  ∃ hash id, generate pass = Some hash
    ∧ persistCredentials yaml_read yaml_print (wb_configPath s) user hash (wb_world s) = (wb_world x.1, None)
    ∧ a_configured (wb_auth x.1) = true ∧ a_username (wb_auth x.1) = user ∧ a_passHash (wb_auth x.1) = hash
    ∧ a_sessions (wb_auth x.1) !! id = Some (l_expiry (we_login e) + sessionTTL)
    ∧ wr_Cookie x.2 = Some (MintCookie (rq_TLS r) (we_cookieNow e) id).
Lemma Configure_done user hash a a' : Configure compare user hash a = (a', true) → a' = put_creds user hash a.
Proof. unfold Configure. repeat (case_match; try done). by intros [= <-]. Qed.
Lemma Login_done e u p ip a a' id :
  Login compare e u p ip a = (a', Ok id) →
  a_sessions a' !! id = Some (l_expiry e + sessionTTL) ∧ a_configured a' = a_configured a
  ∧ a_username a' = a_username a ∧ a_passHash a' = a_passHash a.
Proof.
  unfold Login. destruct (negb _); [done|]. destruct (negb _); [done|]. destruct (negb _); [done|].
  destruct (newSessionID _) as [i|]; [|done]. intros [= <- <-]. cbn. split_and!; try done. apply lookup_insert_eq.
Qed.
Lemma setup_run e r s :
  let x := handleSetup compare generate yaml_read yaml_print e r s in
  (x.1 = s ∨ Configured (wb_auth s) = false ∧ (∃ user pass, setup_asks r s user pass)
             ∧ x.1 = s <| wb_auth := wb_auth x.1 |> <| wb_world := wb_world x.1 |>)
  ∧ (wr_Status x.2 = 200 → ∃ user pass, setup_asks r s user pass ∧ setup_done e r s user pass x).
Proof.
  cbn zeta. unfold handleSetup, only. destruct (is_meth r "POST"); [|split; [by left|done]].
  rewrite hm_ask. destruct (Configured (wb_auth s)) eqn:Hc; [split; [by left|done]|].
  unfold decoded_quietly. destruct (bd_setup (rq_Body r)) as [[[[token name] pass] confirm]|] eqn:Hb; [|split; [by left|done]].
  rewrite hm_ask. destruct (_ || _ || _) eqn:Ht; [split; [by left|done]|]. cbn zeta.
  destruct ((slen (TrimSpace name) <? 1)%nat || _) eqn:Hu; [split; [by left|done]|].
  destruct ((slen pass <? 8)%nat || _) eqn:Hp; [split; [by left|done]|].
  destruct (negb (str_eqb pass confirm)) eqn:Hpc; [split; [by left|done]|].
  destruct (generate pass) as [hash|] eqn:Hg; [|split; [by left|done]].
  rewrite hm_ask. destruct (str_eqb (wb_configPath s) ""); [split; [by left|done]|].
  bools. repeat match goal with E : str_eqb _ _ = true |- _ => apply str_eqb_eq in E end. subst token confirm.
  assert (setup_asks r s (TrimSpace name) pass) as Hask by (exists name; split_and!; done || lia || by apply str_eqb_neq).
  rewrite hm_bind. destruct (persistCredentials yaml_read yaml_print (wb_configPath s) (TrimSpace name) hash (wb_world s)) as [w err] eqn:Hw.
  cbn [fst snd]. destruct err as [t|].
  { split; [right; split_and!; [done|by exists (TrimSpace name), pass|by destruct s]|done]. }
  rewrite hm_on_auth. cbn [wb_auth]. destruct (Configure compare (TrimSpace name) hash (wb_auth _)) as [a b] eqn:Hcf. cbn [fst snd].
  destruct b; cbn [negb]; [|split; [right; split_and!; [done|by exists (TrimSpace name), pass|by destruct s]|done]].
  unfold login. rewrite hm_on_auth. cbn [wb_auth set]. apply Configure_done in Hcf as ->.
  destruct (Login compare (we_login e) (TrimSpace name) pass (ClientIP (rq_RemoteAddr r)) _) as [a' id] eqn:Hl. cbn [fst snd].
  split.
  - right. split_and!; [done|by exists (TrimSpace name), pass|by destruct s].
  - destruct id as [id|]; [|done]. intros _. exists (TrimSpace name), pass. split; [done|]. exists hash, id.
    apply Login_done in Hl as (L1 & L2 & L3 & L4). cbn in *. by rewrite L2, L3, L4.
Qed.
End Setup.

(** The file keeps every other setting. *)
Definition pairs_of (ps : list (ynode * ynode)) : list ynode := ps ≫= λ p, [p.1; p.2].
Definition y_find (key : string) (ps : list (ynode * ynode)) : option string :=
  y_value ∘ snd <$> List.find (λ p, str_eqb (y_value p.1) key) ps.
Fixpoint set_pair (key value : string) (ps : list (ynode * ynode)) : list (ynode * ynode) :=
  match ps with
  | [] => [(text_node key, text_node value)]
  | p :: ps => if str_eqb (y_value p.1) key then (p.1, retext value p.2) :: ps else p :: set_pair key value ps
  end.
Fixpoint drop_pair (key : string) (ps : list (ynode * ynode)) : list (ynode * ynode) :=
  match ps with [] => [] | p :: ps => if str_eqb (y_value p.1) key then ps else p :: drop_pair key ps end.
Lemma pairs_cons p ps : pairs_of (p :: ps) = p.1 :: p.2 :: pairs_of ps.
Proof. done. Qed.
Lemma set_key_pairs key v ps : set_key key v (pairs_of ps) = pairs_of (set_pair key v ps).
Proof.
  induction ps as [|p ps IH]; [done|]. rewrite pairs_cons. cbn [set_key set_pair].
  by destruct (str_eqb _ _); rewrite pairs_cons, <-?IH.
Qed.
Lemma drop_key_pairs key ps : drop_key key (pairs_of ps) = pairs_of (drop_pair key ps).
Proof.
  induction ps as [|p ps IH]; [done|]. rewrite pairs_cons. cbn [drop_key drop_pair].
  destruct (str_eqb _ _); [done|]. by rewrite pairs_cons, <-IH.
Qed.
Lemma find_set_pair key v k ps : y_find k (set_pair key v ps) = if str_eqb key k then Some v else y_find k ps.
Proof.
  unfold y_find. induction ps as [|[a b] ps IH]; cbn; [by destruct (str_eqb key k)|].
  destruct (str_eqb (y_value a) key) eqn:E; cbn.
  - apply str_eqb_eq in E as ->. destruct (str_eqb key k); [by destruct b|done].
  - destruct (str_eqb (y_value a) k) eqn:E'; [|done]. apply str_eqb_eq in E' as <-. cbn.
    destruct (str_eqb key (y_value a)) eqn:E''; [|done]. apply str_eqb_eq in E'' as ->. by rewrite str_eqb_refl in E.
Qed.
Lemma find_drop_pair key k ps : k ≠ key → y_find k (drop_pair key ps) = y_find k ps.
Proof.
  intros Hk. unfold y_find. induction ps as [|[a b] ps IH]; cbn; [done|].
  destruct (str_eqb (y_value a) key) eqn:E; cbn; [|by destruct (str_eqb (y_value a) k)].
  apply str_eqb_eq in E as ->. destruct (str_eqb key k) eqn:E'; [|done]. by apply str_eqb_eq in E'.
Qed.
Lemma find_dropped key ps : NoDup (y_value ∘ fst <$> ps) → y_find key (drop_pair key ps) = None.
Proof.
  unfold y_find. induction ps as [|[a b] ps IH]; cbn; [done|]. intros [Hn Hd]%NoDup_cons.
  destruct (str_eqb (y_value a) key) eqn:E; cbn; [|rewrite E; by apply IH].
  apply str_eqb_eq in E as <-. clear IH Hd. induction ps as [|[c d] ps IH]; [done|]. cbn.
  destruct (str_eqb (y_value c) (y_value a)) eqn:E'; [apply str_eqb_eq in E'; set_solver|]. apply IH. set_solver.
Qed.
Lemma set_pair_keys key v ps :
  NoDup (y_value ∘ fst <$> ps) → NoDup (y_value ∘ fst <$> set_pair key v ps)
  ∧ ∀ k, k ∈ y_value ∘ fst <$> set_pair key v ps → k = key ∨ k ∈ y_value ∘ fst <$> ps.
Proof.
  induction ps as [|[a b] ps IH]; cbn; [intros _; split; [apply NoDup_singleton|set_solver]|].
  intros [Hn Hd]%NoDup_cons. destruct (IH Hd) as [IH1 IH2]. destruct (str_eqb (y_value a) key) eqn:E; cbn.
  - split; [by apply NoDup_cons|set_solver].
  - apply str_eqb_neq in E. split; [apply NoDup_cons; split; [|done]; intros [?|?]%IH2; done|set_solver].
Qed.
Lemma credentials_saved u h ps :
  ∃ ps', set_credentials u h (pairs_of ps) = pairs_of ps'
    ∧ y_find "username" ps' = Some u ∧ y_find "password_hash" ps' = Some h
    ∧ (NoDup (y_value ∘ fst <$> ps) → y_find "password" ps' = None)
    ∧ ∀ k, k ≠ "username" → k ≠ "password_hash" → k ≠ "password" → y_find k ps' = y_find k ps.
Proof.
  exists (drop_pair "password" (set_pair "password_hash" h (set_pair "username" u ps))).
  unfold set_credentials. rewrite !set_key_pairs, drop_key_pairs. split_and!; [done|..].
  - by rewrite find_drop_pair, !find_set_pair.
  - by rewrite find_drop_pair, !find_set_pair.
  - intros Hd. apply find_dropped. by do 2 apply set_pair_keys.
  - intros k H1 H2 H3. rewrite find_drop_pair, !find_set_pair by done.
    apply not_eq_sym, str_eqb_neq in H1, H2. by rewrite H1, H2.
Qed.

(** The document that a configuration file holds; a missing or empty file is
    an empty one. *)
Definition config_document (yaml_read : string → res string ynode) (text : string) : res string ynode :=
  if str_eqb text "" then Ok empty_document else yaml_read text.
Definition web_pairs : list (ynode * ynode) := [(text_node "listen", text_node ":80"); (text_node "password", text_node "old")].
Definition web_yaml (text : string) : res string ynode := Ok (mkY YDocument "" "" [mkY YMapping "" "" (pairs_of web_pairs)]).
Definition setup_request : request :=
  web_req "POST" "/api/setup" None
    (mkBodies (Err "EOF") (Ok ("t0ken", " ops ", "correct horse", "correct horse")) (Err "EOF") (Err "EOF") (Err "EOF") (Err "EOF") "" ""
       (Err "EOF") (Err "EOF") (Err "EOF") (Err "EOF") (Err "EOF") (Err "EOF") (Err "EOF") (Err "EOF") (Err "EOF")).
Definition setup_state : Web (W := nat * DB) :=
  NewServerWithConfig web_compare web_generate "" "" import_fleet "blipc.yaml" "t0ken" (0%nat, import_db).

(** ** Settings *)
Section Settings.
Context {W : Type} `{!World W} `{Hfp : !Fingerprints} (pool_text : pool_error → string).
#[local] Existing Instance fm_mret.
#[local] Existing Instance fm_mbind.
(** The configuration that the fleet is meant to have: what holds for all
    instances, and what is overridden for some. *)
Definition fleet_wide (f : Fleet) :=
  (fl_defaultPolicy f, fl_dohHTTPAddr f, fl_rateLimitQPS f, fl_cacheSize f,
   (fl_upstreamServers f, fl_upstreamRoutes f, fl_upstreamBootstrap f), fl_qlRetentionHours f, fl_records f, fl_releaseChannel f).
Definition desired (f : Fleet) := (fleet_wide f, fl_overrides f).
#[local] Ltac pushes := unfold push_all, insts, id_of, cfg_of, token_of; keep.
Lemma keeps_pushConfigs : keeps desired (pushConfigs (W := W)).
Proof. unfold pushConfigs. pushes. Qed.
Lemma keeps_pushes :
  keeps desired (pushDoH (W := W)) ∧ keeps desired (pushRateLimit (W := W)) ∧ keeps desired (pushCache (W := W))
  ∧ keeps desired (pushUpstream (W := W)).
Proof. split_and!; [unfold pushDoH|unfold pushRateLimit|unfold pushCache|unfold pushUpstream]; pushes. Qed.
Lemma keeps_pushInstance id : keeps desired (pushInstance (W := W) id).
Proof. unfold pushInstance. pushes. Qed.
(** A setter assigns, saves and pushes. *)
Lemma setter_desired {A} g (push : FM (W := W) A) s :
  keeps desired push → desired ((write g;; persist;; push) s).1.1 = desired (g s.1).
Proof.
  intros Hp. destruct s as [f w]. rewrite bind_at. cbn [write fst snd].
  assert (keeps desired (persist (W := W);; push)) as Hk; [|apply Hk].
  unfold persist. apply keeps_bind; [|by intros]. keep.
Qed.
Lemma retention_desired h s : desired (SetQueryLogRetention (W := W) h s).1.1 = desired (s.1 <| fl_qlRetentionHours := h |>).
Proof.
  unfold SetQueryLogRetention, SetQueryLogRetentionDefault. rewrite bind_assoc_at, bind_at. destruct s as [f w]. cbn [write fst snd].
  match goal with |- context [(?m) (?f0, ?w0)] => assert (keeps desired m) as Hk; [|apply (Hk (f0, w0))] end. unfold persist. keep.
Qed.
(** What is effective after an assignment to an override. *)
Definition field_ok {A} (field : InstanceOverride → option A) : Prop := ∀ o, IsEmpty (Some o) = true → field o = None.
Lemma put_override_effective {A} (field : InstanceOverride → option A) v id o f :
  field_ok field → overridden field v id (put_override id o f) = default v (o ≫= field).
Proof.
  intros Hf. unfold overridden, put_override. destruct o as [o|]; [destruct (IsEmpty (Some o)) eqn:E|]; cbn.
  - by rewrite lookup_delete_eq, Hf.
  - by rewrite lookup_insert_eq.
  - by rewrite lookup_delete_eq.
Qed.
Lemma put_override_other id id' o f : id' ≠ id → fl_overrides (put_override id o f) !! id' = fl_overrides f !! id'.
Proof.
  intros Hn. unfold put_override. destruct o as [o|]; [destruct (IsEmpty (Some o))|]; cbn;
    by rewrite ?lookup_delete_ne, ?lookup_insert_ne by done.
Qed.
Lemma put_override_wide id o f : fleet_wide (put_override id o f) = fleet_wide f.
Proof. unfold put_override. by repeat case_match. Qed.
Lemma fields_ok :
  field_ok ov_DoHHTTPAddr ∧ field_ok ov_RateLimitQPS ∧ field_ok ov_CacheSize ∧ field_ok ov_UpstreamServers
  ∧ field_ok ov_UpstreamRoutes ∧ field_ok ov_UpstreamBootstrap.
Proof.
  assert (∀ {B} (x : option B), is_nil x = true → x = None) as Hn by (by intros ? []).
  split_and!; intros o Ho; cbn in Ho; bools; by apply Hn.
Qed.
(** Whatever a request decodes to, with the answer. *)
Definition settled (s : Web (W := W)) (x : Web (W := W) * response) (g : Fleet → Fleet) : Prop :=
  wr_Status x.2 = 200 ∧ desired (wb_fleet x.1) = desired (g (wb_fleet s)).
Lemma applied_at (m : FM (W := W) results) s :
  wr_Status (applied m s).2 = 200 ∧ wb_fleet (applied m s).1 = (m (wb_fleet s, wb_world s)).1.1.
Proof. unfold applied, mbind, hm_mbind, on_fleet. by destruct (m (wb_fleet s, wb_world s)) as [[f w] r]. Qed.
Lemma applied_run g (push : FM (W := W) results) s :
  keeps desired push → settled s (applied (write g;; persist;; push) s) g.
Proof.
  intros Hp. destruct (applied_at (write g;; persist;; push) s) as [H1 H2]. split; [exact H1|]. rewrite H2.
  by apply (setter_desired g push (wb_fleet s, wb_world s)).
Qed.
Lemma scoped_run id o s : settled s (set_scoped id o s) (put_override id (o (wb_fleet s))).
Proof. unfold set_scoped. apply applied_run, keeps_pushInstance. Qed.
Definition refused (s : Web (W := W)) (x : Web (W := W) * response) : Prop := wr_Status x.2 ≠ 200 ∧ x.1 = s.
(** The fleet-wide setters. *)
Definition wide (g : Fleet → Fleet) : Prop := ∀ f, fl_overrides (g f) = fl_overrides f.
Definition settings_case (q : settings) (s : Web (W := W)) (x : Web (W := W) * response) : Prop :=
  refused s x
  ∨ (∃ id o, scoped q = Some id ∧ settled s x (put_override id o))
  ∨ (∃ g, scoped q = None ∧ wide g ∧ settled s x g).
Lemma scoped_effect {A} (field : InstanceOverride → option A) (fleet : Fleet → A) id o s x :
  field_ok field → (∀ f f', fleet_wide f = fleet_wide f' → fleet f = fleet f') → settled s x (put_override id o) →
  overridden field (fleet (wb_fleet x.1)) id (wb_fleet x.1) = default (fleet (wb_fleet s)) (o ≫= field).
Proof.
  intros Hf Hw [_ Hd]. pose proof (f_equal fst Hd : fleet_wide _ = fleet_wide _) as H1.
  pose proof (f_equal snd Hd : fl_overrides _ = fl_overrides _) as H2. rewrite put_override_wide in H1.
  rewrite (Hw _ _ H1), <-(put_override_effective field (fleet (wb_fleet s)) id o (wb_fleet s) Hf). unfold overridden. by rewrite H2.
Qed.
Lemma wide_effect {A} (fleet : Fleet → A) g s x :
  (∀ f f', fleet_wide f = fleet_wide f' → fleet f = fleet f') → settled s x g → fleet (wb_fleet x.1) = fleet (g (wb_fleet s)).
Proof. intros Hw [_ Hd]. apply Hw. by apply (f_equal fst Hd). Qed.
Ltac of_wide := intros ? ? [=]; congruence.
(** A setting of one value: the request's value, or the fleet's where it means
    to inherit. *)
Definition took {A} (q : settings) (effective : string → Fleet → A) (fleet : Fleet → A) (v w : A) (inherit : bool)
    (s : Web (W := W)) (x : Web (W := W) * response) : Prop :=
  wr_Status x.2 = 200 →
  match scoped q with
  | Some id => effective id (wb_fleet x.1) = if inherit then fleet (wb_fleet s) else v
  | None => fleet (wb_fleet x.1) = w
  end.
Lemma scoped_case q id o s : scoped q = Some id → settings_case q s (set_scoped id o s).
Proof. intros Hq. right. left. exists id, (o (wb_fleet s)). split; [done|apply scoped_run]. Qed.
Lemma doh_case q a s :
  settings_case q s (set_doh q a s)
  ∧ took q effectiveDoHHTTPAddr fl_dohHTTPAddr a a (str_eqb a "") s (set_doh q a s).
Proof.
  unfold set_doh, took, fleet_SetDoHHTTPAddr. destruct (_ && _); [split; [by left|done]|]. destruct (scoped q) as [id|] eqn:Hq.
  - split; [by apply scoped_case|]. intros _. unfold effectiveDoHHTTPAddr.
    rewrite (scoped_effect ov_DoHHTTPAddr fl_dohHTTPAddr id _ s _ (proj1 fields_ok) ltac:(of_wide) (scoped_run id _ s)).
    unfold override_with, mergeOverride, InstanceOverrideOf. destruct (fl_overrides _ !! id); cbn; by destruct (str_eqb a "").
  - pose proof (applied_run (SetDoHDefault a) pushDoH s (proj1 keeps_pushes)) as Hr. split.
    + right. right. exists (SetDoHDefault a). split_and!; [done|done|exact Hr].
    + intros _. by rewrite (wide_effect fl_dohHTTPAddr _ _ _ ltac:(of_wide) Hr).
Qed.
Lemma rate_case q n s :
  settings_case q s (set_rate q n s)
  ∧ took q effectiveRateLimitQPS fl_rateLimitQPS n (Z.max 0 n) (n <=? 0) s (set_rate q n s).
Proof.
  unfold set_rate, took, SetRateLimitQPS. destruct (scoped q) as [id|] eqn:Hq.
  - split; [by apply scoped_case|]. intros _. unfold effectiveRateLimitQPS.
    rewrite (scoped_effect ov_RateLimitQPS fl_rateLimitQPS id _ s _ (proj1 (proj2 fields_ok)) ltac:(of_wide) (scoped_run id _ s)).
    assert (((if n <? 0 then 0 else n) =? 0) = (n <=? 0)) as Hn.
    { destruct (n <? 0) eqn:E1, (n <=? 0) eqn:E2; bools; try apply Z.eqb_eq; try apply Z.eqb_neq; lia. }
    unfold override_with, mergeOverride, InstanceOverrideOf. destruct (fl_overrides _ !! id); cbn; rewrite Hn; by destruct (n <=? 0).
  - pose proof (applied_run (SetRateLimitQPSDefault (if n <? 0 then 0 else n)) pushRateLimit s (proj1 (proj2 keeps_pushes))) as Hr. split.
    + right. right. eexists. split_and!; [done| |exact Hr]. done.
    + intros _. rewrite (wide_effect fl_rateLimitQPS _ _ _ ltac:(of_wide) Hr). cbn. destruct (n <? 0) eqn:E; cbn; bools; [lia|].
      destruct (n <? 0) eqn:E'; bools; lia.
Qed.
Lemma cache_case q n s :
  settings_case q s (set_cache_size q n s) ∧ took q effectiveCacheConfig fl_cacheSize n n (n =? 0) s (set_cache_size q n s).
Proof.
  unfold set_cache_size, took, SetCache. destruct (n <? 0) eqn:E; [split; [by left|done]|]. destruct (scoped q) as [id|] eqn:Hq.
  - split; [by apply scoped_case|]. intros _. unfold effectiveCacheConfig.
    rewrite (scoped_effect ov_CacheSize fl_cacheSize id _ s _ (proj1 (proj2 (proj2 fields_ok))) ltac:(of_wide) (scoped_run id _ s)).
    unfold override_with, mergeOverride, InstanceOverrideOf. destruct (fl_overrides _ !! id); cbn; by destruct (n =? 0).
  - pose proof (applied_run (SetCacheDefault n) pushCache s (proj1 (proj2 (proj2 keeps_pushes)))) as Hr. split.
    + right. right. eexists. split_and!; [done| |exact Hr]. done.
    + intros _. rewrite (wide_effect fl_cacheSize _ _ _ ltac:(of_wide) Hr). cbn. by rewrite E.
Qed.
(** What a list of a request selects: itself, the fleet's when it is empty,
    what was effective when it is absent. *)
Definition chosen {A} (new : option (list A)) (current fleet : list A) : list A :=
  match new with Some [] => fleet | Some l => l | None => current end.
Definition pool_of (f : Fleet) := (fl_upstreamServers f, fl_upstreamRoutes f, fl_upstreamBootstrap f).
Definition chosen_pool (q : settings) (cur fleet : list UpstreamServer * list UpstreamRoute * list UpstreamServer) :=
  (chosen (sg_Servers q) cur.1.1 fleet.1.1, chosen (sg_Routes q) cur.1.2 fleet.1.2, chosen (sg_Bootstrap q) cur.2 fleet.2).
Definition named_pool (q : settings) (f : Fleet) :=
  (default (fl_upstreamServers f) (sg_Servers q), default (fl_upstreamRoutes f) (sg_Routes q), default (fl_upstreamBootstrap f) (sg_Bootstrap q)).
Definition builds (u : list UpstreamServer * list UpstreamRoute * list UpstreamServer) : Prop :=
  is_ok (NewPoolWithBootstrap u.1.1 u.1.2 "" u.2) = true.
Definition upstream_override (q : settings) (id : string) (f : Fleet) : option InstanceOverride :=
  override_with id
    (no_override <| ov_UpstreamServers := sg_Servers q |> <| ov_UpstreamRoutes := sg_Routes q |> <| ov_UpstreamBootstrap := sg_Bootstrap q |>)
    (λ o, o <| ov_UpstreamServers ::= cleared (emptied (sg_Servers q)) |> <| ov_UpstreamRoutes ::= cleared (emptied (sg_Routes q)) |>
            <| ov_UpstreamBootstrap ::= cleared (emptied (sg_Bootstrap q)) |>) f.
Lemma upstream_fields q id f :
  let o := upstream_override q id f in
  (default (fl_upstreamServers f) (o ≫= ov_UpstreamServers), default (fl_upstreamRoutes f) (o ≫= ov_UpstreamRoutes),
   default (fl_upstreamBootstrap f) (o ≫= ov_UpstreamBootstrap)) = chosen_pool q (effectiveUpstream id f) (pool_of f).
Proof.
  unfold upstream_override, override_with, mergeOverride, InstanceOverrideOf, effectiveUpstream, overridden, chosen_pool.
  destruct q as [? ? ? ? ? ? ? ? [[]|] [[]|] [[]|] ?]; destruct (fl_overrides f !! id) as [o|]; reflexivity.
Qed.
Lemma upstream_case q s :
  let x := set_upstream_pool pool_text q s in
  settings_case q s x
  ∧ (wr_Status x.2 = 200 →
     match scoped q with
     | Some id => effectiveUpstream id (wb_fleet x.1) = chosen_pool q (effectiveUpstream id (wb_fleet s)) (pool_of (wb_fleet s))
                  ∧ builds (effectiveUpstream id (wb_fleet x.1))
     | None => pool_of (wb_fleet x.1) = named_pool q (wb_fleet s) ∧ builds (pool_of (wb_fleet x.1))
     end).
Proof.
  cbn zeta. unfold set_upstream_pool, builds, fleet_get. rewrite hm_ask. destruct (scoped q) as [id|] eqn:Hq.
  - rewrite hm_ask. cbn beta. fold (upstream_override q id (wb_fleet s)).
    pose proof (upstream_fields q id (wb_fleet s)) as Hf. cbn zeta in Hf.
    destruct (NewPoolWithBootstrap _ _ _ _) as [pool|] eqn:Hpool; [|split; [by left|done]].
    pose proof (scoped_run id (λ _, upstream_override q id (wb_fleet s)) s : settled s (applied (SetInstanceOverride id _) s) _) as Hr.
    assert (effectiveUpstream id (wb_fleet (applied (SetInstanceOverride id (upstream_override q id (wb_fleet s))) s).1)
            = chosen_pool q (effectiveUpstream id (wb_fleet s)) (pool_of (wb_fleet s))) as He.
    { rewrite <-Hf. unfold effectiveUpstream. destruct fields_ok as (_ & _ & _ & F1 & F2 & F3).
      by rewrite (scoped_effect _ fl_upstreamServers id _ s _ F1 ltac:(of_wide) Hr),
        (scoped_effect _ fl_upstreamRoutes id _ s _ F2 ltac:(of_wide) Hr), (scoped_effect _ fl_upstreamBootstrap id _ s _ F3 ltac:(of_wide) Hr). }
    split; [right; left; by exists id, (upstream_override q id (wb_fleet s))|]. intros _. split; [exact He|].
    rewrite He, <-Hf. cbn [fst snd]. by rewrite Hpool.
  - destruct (NewPoolWithBootstrap _ _ _ _) as [pool|] eqn:Hpool; [|split; [by left|done]].
    unfold fleet_SetUpstream. pose proof (applied_run (SetUpstreamDefault (default (fl_upstreamServers (wb_fleet s)) (sg_Servers q))
      (default (fl_upstreamRoutes (wb_fleet s)) (sg_Routes q)) (default (fl_upstreamBootstrap (wb_fleet s)) (sg_Bootstrap q)))
      pushUpstream s (proj2 (proj2 (proj2 keeps_pushes)))) as Hr.
    pose proof (wide_effect pool_of _ _ _ ltac:(intros ? ? [=]; unfold pool_of; congruence) Hr) as He.
    split; [right; right; eexists; split_and!; [done| |exact Hr]; done|]. intros _.
    split; [exact He|]. by rewrite He; cbn; rewrite Hpool.
Qed.
(** What a request asks for: the first of its fields that is present. *)
Inductive asked :=
  AChannel (c : string) | ADoH (a : string) | ARetention (h : Z) | ARate (n : Z) | ACache (n : Z) | APool
| AOverride (id : string) | APolicy (p : WirePolicy) | ANothing.
Definition asked_of (q : settings) : asked :=
  match sg_Channel q, sg_DoHHTTPAddr q, sg_Retention q, sg_RateLimitQPS q, sg_CacheSize q with
  | Some c, _, _, _, _ => AChannel c
  | None, Some a, _, _, _ => ADoH a
  | None, None, Some h, _, _ => ARetention h
  | None, None, None, Some n, _ => ARate n
  | None, None, None, None, Some n => ACache n
  | None, None, None, None, None =>
      if is_nil (sg_Servers q) && is_nil (sg_Routes q) && is_nil (sg_Bootstrap q) then
        match scoped q, sg_Policy q with Some id, _ => AOverride id | None, Some p => APolicy p | None, None => ANothing end
      else APool
  end.
(** The instance it is about; the release channel and the retention are the
    fleet's, whatever instance is named. *)
Definition about (q : settings) : option string :=
  match asked_of q with AChannel _ | ARetention _ => None | _ => scoped q end.
Lemma retention_case h s :
  let x := set_retention h s in
  refused s x ∨ ValidQueryLogRetentionHours h = true ∧ settled s x (λ f, f <| fl_qlRetentionHours := h |>).
Proof.
  cbn zeta. unfold set_retention. destruct (ValidQueryLogRetentionHours h); [right|by left]. split; [done|].
  destruct (applied_at (SetQueryLogRetention h) s) as [H1 H2]. split; [exact H1|]. cbn [negb]. rewrite H2. apply retention_desired.
Qed.
(** A channel that could not be saved is changed nevertheless. *)
Lemma channel_case q c s : sg_Channel q = Some c →
  let x := put_settings pool_text q s in
  refused s x ∨ ValidUpdateChannel c = true ∧ desired (wb_fleet x.1) = desired (wb_fleet s <| fl_releaseChannel := c |>).
Proof.
  intros Hc. cbn zeta. unfold put_settings. rewrite Hc, hm_bind. unfold on_fleet, SetReleaseChannel, SetReleaseChannelDefault, write'.
  rewrite bind_at. cbn [fst snd]. destruct (ValidUpdateChannel c); cbn [negb fst snd]; [|left; split; [done|by destruct s]]. right. split; [done|].
  assert (keeps desired (saveConfig (W := W))) as Hk by keep. specialize (Hk (wb_fleet s <| fl_releaseChannel := c |>, wb_world s)).
  destruct (saveConfig _) as [[f w] [t|]]; exact Hk.
Qed.
Lemma put_settings_case q s :
  let x := put_settings pool_text q s in
  match asked_of q with
  | AChannel c => refused s x ∨ ValidUpdateChannel c = true ∧ desired (wb_fleet x.1) = desired (wb_fleet s <| fl_releaseChannel := c |>)
  | ARetention h => refused s x ∨ ValidQueryLogRetentionHours h = true ∧ settled s x (λ f, f <| fl_qlRetentionHours := h |>)
  | ADoH a => x = set_doh q a s
  | ARate n => x = set_rate q n s
  | ACache n => x = set_cache_size q n s
  | APool => x = set_upstream_pool pool_text q s
  | AOverride id => scoped q = Some id ∧ settled s x (put_override id (mergeOverride (InstanceOverrideOf id (wb_fleet s)) (sg_Override q)))
  | APolicy p => scoped q = None ∧ settled s x (fleet_SetDefault (Some p))
  | ANothing => refused s x
  end.
Proof.
  cbn zeta. unfold asked_of. destruct (sg_Channel q) as [c|] eqn:Hc; [by apply channel_case|]. unfold put_settings. rewrite Hc.
  destruct (sg_DoHHTTPAddr q); [done|]. destruct (sg_Retention q); [apply retention_case|]. destruct (sg_RateLimitQPS q); [done|].
  destruct (sg_CacheSize q); [done|]. destruct (is_nil _ && _ && _); cbn [negb]; [|done].
  destruct (scoped q) as [id|]; [split; [done|apply scoped_run]|]. destruct (sg_Policy q) as [p|]; [|done]. split; [done|].
  unfold SetDefaultPolicy. apply applied_run, keeps_pushConfigs.
Qed.
(** Which part of the configuration moved. *)
Definition moved (q : settings) (s : Web (W := W)) (x : Web (W := W) * response) : Prop :=
  (wr_Status x.2 ≠ 200 → x.1 = s ∨ ∃ c, asked_of q = AChannel c)
  ∧ (∀ id, about q = Some id → fleet_wide (wb_fleet x.1) = fleet_wide (wb_fleet s)
       ∧ ∀ id', id' ≠ id → fl_overrides (wb_fleet x.1) !! id' = fl_overrides (wb_fleet s) !! id')
  ∧ (about q = None → fl_overrides (wb_fleet x.1) = fl_overrides (wb_fleet s)).
Lemma refused_moved q s x : refused s x → moved q s x.
Proof. unfold moved. intros [_ H]. rewrite H. split_and!; auto. Qed.
Lemma wide_moved q s x g : about q = None → wide g → settled s x g → moved q s x.
Proof.
  intros Ha Hw [Hs Hd]. split_and!; [done|by rewrite Ha|]. intros _. exact (eq_trans (f_equal snd Hd) (Hw (wb_fleet s))).
Qed.
Lemma override_moved q s x id o : about q = Some id → settled s x (put_override id o) → moved q s x.
Proof.
  intros Ha [Hs Hd]. pose proof (f_equal fst Hd : fleet_wide _ = fleet_wide _) as H1. pose proof (f_equal snd Hd : fl_overrides _ = fl_overrides _) as H2.
  split_and!; [done| |by rewrite Ha]. intros id'. rewrite Ha. intros [= <-]. split; [exact (eq_trans H1 (put_override_wide _ _ _))|].
  intros id' Hn. exact (eq_trans (f_equal (λ m, m !! id') H2) (put_override_other _ _ _ _ Hn)).
Qed.
Lemma case_moved q s x : about q = scoped q → settings_case q s x → moved q s x.
Proof.
  intros Ha [H|[(id & o & Hid & H)|(g & Hn & Hw & H)]]; [by apply refused_moved|apply (override_moved q s x id o); [congruence|exact H]|].
  eapply wide_moved; [congruence|exact Hw|exact H].
Qed.
Lemma put_settings_moved q s : moved q s (put_settings pool_text q s).
Proof.
  pose proof (put_settings_case q s) as H. cbv zeta in H.
  assert (match asked_of q with AChannel _ | ARetention _ => True | _ => about q = scoped q end) as Ha by (unfold about; by destruct (asked_of q)).
  destruct (asked_of q) as [c|a|h|n|n| |id|p|] eqn:E.
  - destruct H as [H|[_ H]]; [by apply refused_moved|]. unfold moved, about. rewrite E.
    split_and!; [intros _; right; by exists c|done|intros _; exact (f_equal snd H)].
  - rewrite H. apply case_moved; [done|apply doh_case].
  - destruct H as [H|[_ H]]; [by apply refused_moved|]. eapply wide_moved; [by unfold about; rewrite E| |exact H]. done.
  - rewrite H. apply case_moved; [done|apply rate_case].
  - rewrite H. apply case_moved; [done|apply cache_case].
  - rewrite H. apply case_moved; [done|apply upstream_case].
  - destruct H as [Hq H]. eapply (override_moved q s _ id); [congruence|exact H].
  - destruct H as [Hq H]. eapply wide_moved; [congruence| |exact H]. done.
  - by apply refused_moved.
Qed.
End Settings.

(** C19: What a change of the settings does.  A refused request changes nothing,
    except that a release channel that was accepted but could not be saved is
    in force although the answer is an error.  A request about an instance
    leaves the fleet-wide settings and every other instance's overrides alone,
    and one about the fleet (the release channel and the log retention always
    are) every override.  After a request that succeeds, the value in effect
    (the one that is pushed) is the one asked for, the fleet's where an
    instance is told to inherit; of several values in one request only the
    first counts.  An upstream change keeps the lists it does not mention, and
    the resulting pool is one that can be built. *)
Theorem settings_take_effect {W : Type} `{!World W} `{!Fingerprints} pool_text q (s : Web (W := W)) :
  let x := put_settings pool_text q s in
  let f := wb_fleet s in
  let f' := wb_fleet x.1 in
  (wr_Status x.2 ≠ 200 → x.1 = s ∨ ∃ c, asked_of q = AChannel c ∧ ValidUpdateChannel c = true
                                   ∧ desired f' = desired (f <| fl_releaseChannel := c |>))
  ∧ (∀ id, about q = Some id →
       fleet_wide f' = fleet_wide f ∧ ∀ id', id' ≠ id → fl_overrides f' !! id' = fl_overrides f !! id')
  ∧ (about q = None → fl_overrides f' = fl_overrides f)
  ∧ (wr_Status x.2 = 200 →
     match asked_of q with
     | AChannel c => ValidUpdateChannel c = true ∧ desired f' = desired (f <| fl_releaseChannel := c |>)
     | ADoH a => took q effectiveDoHHTTPAddr fl_dohHTTPAddr a a (str_eqb a "") s x
     | ARetention h => ValidQueryLogRetentionHours h = true ∧ desired f' = desired (f <| fl_qlRetentionHours := h |>)
     | ARate n => took q effectiveRateLimitQPS fl_rateLimitQPS n (Z.max 0 n) (n <=? 0) s x
     | ACache n => took q effectiveCacheConfig fl_cacheSize n n (n =? 0) s x
     | APool => match scoped q with
                | Some id => effectiveUpstream id f' = chosen_pool q (effectiveUpstream id f) (pool_of f) ∧ builds (effectiveUpstream id f')
                | None => pool_of f' = named_pool q f ∧ builds (pool_of f')
                end
     | AOverride id => desired f' = desired (put_override id (mergeOverride (InstanceOverrideOf id f) (sg_Override q)) f)
     | APolicy p => desired f' = desired (fleet_SetDefault (Some p) f)
     | ANothing => False
     end).
Proof.
  intros x f f'. pose proof (put_settings_case pool_text q s) as Hcase. cbv zeta in Hcase. fold x in Hcase. fold f in Hcase.
  destruct (put_settings_moved pool_text q s) as (H1 & H2 & H3). fold x in H1, H2, H3. split_and!; [|exact H2|exact H3|].
  - intros Hs. destruct (H1 Hs) as [?|[c Hc]]; [by left|]. rewrite Hc in Hcase. destruct Hcase as [[_ ?]|[? ?]]; [by left|]. right. by exists c.
  - intros Hs. destruct (asked_of q) as [c|a|h|n|n| |id|p|].
    + by destruct Hcase as [[? _]|?].
    + rewrite Hcase. apply doh_case.
    + destruct Hcase as [[? _]|[? [_ ?]]]; done.
    + rewrite Hcase. apply rate_case.
    + rewrite Hcase. apply cache_case.
    + subst f'. rewrite Hcase in Hs |- *. by apply upstream_case.
    + by destruct Hcase as [_ [_ ?]].
    + by destruct Hcase as [_ [_ ?]].
    + by destruct Hcase as [? _].
Qed.
Definition ask_nothing : settings := mkSettings "" None "" None None None None None None None None None.
Definition ask_rate (instance : string) (n : Z) : settings :=
  mkSettings "instance" None instance None None (Some n) None None None None None None.
Definition ask_servers (l : list UpstreamServer) : settings :=
  mkSettings "" None "" None None None None None (Some l) None None None.
Definition ask_routes (instance : string) (l : list UpstreamRoute) : settings :=
  mkSettings "instance" None instance None None None None None None (Some l) None None.
Notation put_one := (put_settings (W := nat * DB) (λ _, "bad pool")).
Lemma settings_take_effect_witness :
  let q := ask_rate "a" 20 in
  let x := put_one q web_state in
  wr_Status x.2 = 200 ∧ effectiveRateLimitQPS "a" (wb_fleet x.1) = 20 ∧ fleet_wide (wb_fleet x.1) = fleet_wide (wb_fleet web_state).
Proof.
  intros q x. assert (wr_Status x.2 = 200) as Hs by (vm_compute; reflexivity). split; [exact Hs|].
  destruct (settings_take_effect (λ _, "bad pool") q web_state) as (_ & H2 & _ & H4).
  split; [exact (H4 Hs Hs)|exact (proj1 (H2 "a" eq_refl))].
Defined.
(** A request "for an instance" that names none changes the whole fleet. *)
Example unnamed_instance_is_the_fleet :
  fl_rateLimitQPS (wb_fleet (put_one (ask_rate "" 5) web_state).1) = 5.
Proof. vm_compute. reflexivity. Qed.
(** The routes of an instance may name servers of the fleet; removing such a
    server is accepted, although the instance can then not build its pool. *)
Example removed_server_breaks_an_override :
  let sv n := mkServer n "udp://192.0.2.1" 0 0 in
  let s1 := (put_one (ask_servers [sv "lan"; sv "isp"]) web_state).1 in
  let x2 := put_one (ask_routes "a" [mkRoute "r" "lan.example" "lan" "" false]) s1 in
  let x3 := put_one (ask_servers [sv "isp"]) x2.1 in
  (wr_Status x2.2, wr_Status x3.2) = (200, 200)
  ∧ (let u := effectiveUpstream "a" (wb_fleet x2.1) in is_ok (NewPoolWithBootstrap u.1.1 u.1.2 "" u.2)) = true
  ∧ (let u := effectiveUpstream "a" (wb_fleet x3.1) in is_ok (NewPoolWithBootstrap u.1.1 u.1.2 "" u.2)) = false.
Proof. vm_compute. auto. Qed.
(** Saving an empty source list without "clear_manual" takes the hand-kept
    domains out of the list as well, while they are still kept. *)
Example empty_sources_unblock_hand_kept :
  let b := mkBodies (Err "") (Err "") (Err "") (Err "") (Err "") (Err "") "" "" (Err "") (Err "") (Err "") (Err "") (Err "")
             (Err "") (Err "") (Ok ([], None, false)) (Err "") in
  let s := (handleBlocklistSources (λ _, "12:00:00") web_env (web_req "PUT" "/api/blocklist/sources" None b)
              (web_state <| wb_fleet ::= λ f, f <| fl_blocklist ::= FromDomainsMap ["mine.example"] |> |>)).1 in
  "mine.example" ∈ fl_manualDomains (wb_fleet s) ∧ "mine.example" ∉ bl_exact (fl_blocklist (wb_fleet s)).
Proof. split; apply (bool_decide_unpack _); vm_compute; exact I. Qed.

(** ** Pages of the query log *)
Section Pages.
Context {W : Type} `{!World W} `{Hfp : !Fingerprints} `{!LogStore W} (answers : string → list Answer).
#[local] Existing Instance hm_mret.
#[local] Existing Instance hm_mbind.
(** The page that [handleQueries] answers: no more entries than its limit, and
    "has_more" is set exactly when a full page leaves entries behind it. *)
Lemma queries_has_more e r (s : Web (W := W)) entries total more :
  (handleQueries answers e r s).2 = ok (WQueries entries total more) →
  let off := page_offset r in
  let lim := page_limit r 100 500 in
  let q := log_params e r in
  entries = Query (we_times e) answers q (Z.to_nat off) (Z.to_nat lim) (w_ql (wb_world s))
  ∧ total = QueryCount (we_times e) q (w_ql (wb_world s))
  ∧ Z.of_nat (length entries) ≤ lim ∧ (more = true ↔ off + Z.of_nat (length entries) < total).
Proof.
  unfold handleQueries, only, with_log, fleet_get, and_then, log_page, log_get. destruct (is_meth r "GET"); [|done].
  rewrite hm_ask. destruct (fl_queryLog _); [|done]. rewrite hm_ask. destruct (we_sql e 0); [done|]. rewrite hm_ask.
  destruct (we_sql e 1); [done|]. intros [= <- <- <-]. cbn zeta.
  set (off := page_offset r). set (lim := page_limit r 100 500). set (st := w_ql _). set (q := log_params e r).
  assert (0 ≤ off ∧ 1 ≤ lim) as [Ho Hl].
  { subst off lim. unfold page_offset, page_limit, boundedOffset, boundedLimit, maxPageOffset. split; repeat case_match; bools; lia. }
  assert (length (Query (we_times e) answers q (Z.to_nat off) (Z.to_nat lim) st) = min (Z.to_nat lim) (length (matching (we_times e) q st) - Z.to_nat off)) as Hn.
  { unfold Query. rewrite length_fmap, length_take, length_drop. by rewrite (Permutation_length (merge_sort_Permutation (newer (we_times e)) _)). }
  split_and!; [done|done|lia|]. unfold has_more, QueryCount. rewrite andb_true_iff, Z.eqb_eq, Z.ltb_lt. lia.
Qed.
End Pages.
