(* ===== verification/Boot.v ===== *)
(** * Starting the controller

    cmd/blipc/main.go: what the program does with its configuration file
    before it listens: the fleet is built, the settings are loaded into it in
    this order (some of the calls save the file again), the instances are
    registered, and the server gets its credentials or a setup token.  The
    environment, the token files and the release download are arguments; log
    lines are left out. *)
From S2P Require Import Prelude GoStrings Records Blocklist Upstream Stats HA Update Control Bus Release Client.
From S2P Require Import BlocklistDB QueryLog Auth Fleet FleetPush FleetOps Import Web WebFacts.
#[local] Open Scope Z_scope.

(** What starting meets outside the configuration file. *)
Record boot_env := mkBoot {
  be_user : string; be_pass : string; be_hash : string;          (* BLIPC_USER, BLIPC_PASS, BLIPC_PASS_HASH *)
  be_readToken : string → option string;
  be_download : string → option download;
  be_random : list Z }.
Definition or_default (x y : string) : string := if str_eqb x "" then y else x.
(** [load] and the defaults of [main]; [None] ends the program. *)
Definition load_config (e : boot_env) (r : res string FileConfig) : option FileConfig :=
  match r with
  | Err _ => None
  | Ok c =>
      Some (mkFC (or_default (fc_Listen c) "0.0.0.0:8500") (or_default (fc_Username c) (be_user e))
        (or_default (fc_Password c) (be_pass e)) (or_default (fc_PasswordHash c) (be_hash e))
        (fc_DefaultPolicy c) (fc_InstancePolicies c) (fc_DoHHTTPAddr c) (fc_RateLimitQPS c)
        (fc_UpstreamServers c) (fc_UpstreamRoutes c) (fc_UpstreamBootstrap c) (fc_CacheSize c) (fc_QueryLogRetentionHours c)
        (fc_BlocklistSources c) (fc_BlocklistDisabled c) (fc_BlocklistUpdateHours c) (fc_Instances c) (fc_Records c)
        (fc_HACluster c) (fc_ReleaseChannel c))
  end.

Section Boot.
Context {W : Type} `{!World W} `{Hfp : !Fingerprints} `{!Store W}.
Context (compare : string → string → option bcrypt_error) (generate : string → option string).
#[local] Existing Instance fm_mret.
#[local] Existing Instance fm_mbind.
Notation FM := (FM (W := W)).
Definition when (b : bool) (m : FM unit) : FM unit := if b then m else mret ().
Definition load_overrides (m : gmap string InstanceOverride) : FM unit :=
  ids ← range (λ _, key_list m); each ids () (λ id _, write (SetOverride id (m !! id))).
(** The settings, up to the upstream servers. *)
Definition load_settings (e : boot_env) (c : FileConfig) : FM unit :=
  when (negb (is_nil (fc_DefaultPolicy c))) (write (fleet_SetDefault (fc_DefaultPolicy c)));;
  load_overrides (fc_InstancePolicies c);;
  when (negb (str_eqb (fc_DoHHTTPAddr c) "")) (write (SetDoHDefault (fc_DoHHTTPAddr c)));;
  when (0 <? fc_RateLimitQPS c) (write (SetRateLimitQPSDefault (fc_RateLimitQPS c)));;
  when (0 <? fc_CacheSize c) (write (SetCacheDefault (fc_CacheSize c)));;
  SetQueryLogRetentionDefault (fc_QueryLogRetentionHours c);;
  fleet_SetRecords (fc_Records c);;
  when (hc_Enabled (fc_HACluster c)) (write (λ f, (SetHAClusterDefault (fc_HACluster c) f).1));;
  (if str_eqb (fc_ReleaseChannel c) "" then t ← now; write (startReleaseCheck (be_download e) t)
   else write (λ f, (SetReleaseChannelDefault (fc_ReleaseChannel c) f).1));;
  when (negb (bool_decide (fc_UpstreamServers c = [] ∧ fc_UpstreamRoutes c = [])))
    (write (SetUpstreamDefault (fc_UpstreamServers c) (fc_UpstreamRoutes c) (fc_UpstreamBootstrap c))).
(** The stored lists, the instances, the sources. *)
Definition load_lists (e : boot_env) (c : FileConfig) : FM (list goroutine) :=
  gs ← LoadBlocklistCache;
  LoadManualDomains;;
  LoadAllowedDomains;;
  LoadSourceStats;;
  each (fc_Instances c) () (λ ic _, fleet_Add (ResolveTokenFile (be_readToken e) ic);; mret ());;
  when (0 <? fc_BlocklistUpdateHours c) (SetAutoUpdateHours (fc_BlocklistUpdateHours c));;
  when (negb (bool_decide (fc_BlocklistSources c = [])))
    (SetBlocklistDisabled (fc_BlocklistDisabled c);; SetBlocklistSourcesDefault (fc_BlocklistSources c));;
  mret gs.
(** [main] of the controller: the server before it listens. *)
Definition boot (e : boot_env) (path : string) (queryLog blocklistDB : bool) (w : W) : option (Web (W := W)) :=
  match load_config e (w_readConfig path w) with
  | None => None
  | Some c =>
      let '((f, w), gs) := (load_settings e c;; load_lists e c) (NewFleet path queryLog blocklistDB, w) in
      let pass := or_default (fc_PasswordHash c) (fc_Password c) in
      let unset := str_eqb (fc_Username c) "" || str_eqb pass "" || negb (Configured (NewAuth compare generate (fc_Username c) pass)) in
      let token := if unset then default "" (NewSetupToken (Some (be_random e))) else "" in
      let s := NewServerWithConfig compare generate (fc_Username c) pass f path token w in
      Some (s <| wb_jobs := JImport <$> gs |>)
  end.
End Boot.

(** ** What starting does to the settings *)
(** The settings of a fleet, and nothing else of it. *)
Definition settings_only (f : Fleet) : Fleet :=
  NewFleet "" false false <| fl_blocklistSources := fl_blocklistSources f |> <| fl_blocklistDisabled := fl_blocklistDisabled f |>
    <| fl_autoUpdateHours := fl_autoUpdateHours f |> <| fl_defaultPolicy := fl_defaultPolicy f |> <| fl_overrides := fl_overrides f |>
    <| fl_dohHTTPAddr := fl_dohHTTPAddr f |> <| fl_rateLimitQPS := fl_rateLimitQPS f |> <| fl_cacheSize := fl_cacheSize f |>
    <| fl_cacheConfigured := fl_cacheConfigured f |> <| fl_upstreamServers := fl_upstreamServers f |>
    <| fl_upstreamRoutes := fl_upstreamRoutes f |> <| fl_upstreamBootstrap := fl_upstreamBootstrap f |>
    <| fl_qlRetentionHours := fl_qlRetentionHours f |> <| fl_records := fl_records f |> <| fl_haCluster := fl_haCluster f |>
    <| fl_releaseChannel := fl_releaseChannel f |> <| fl_release := None |>.
(** The instances: which are registered, and the configuration of each. *)
Definition registered (f : Fleet) := (fl_instances f, in_Config <$> fl_heap f).
Definition put_overrides (m : gmap string InstanceOverride) (f : Fleet) : Fleet :=
  f <| fl_overrides ::= λ o, filter (λ x, IsEmpty (Some x.2) = false) m ∪ o |>.
(** What [load_settings] and [load_lists] assign. *)
Definition cond (b : bool) (g : Fleet → Fleet) (f : Fleet) : Fleet := if b then g f else f.
Definition settings_loaded (c : FileConfig) (f : Fleet) : Fleet :=
  cond (negb (bool_decide (fc_UpstreamServers c = [] ∧ fc_UpstreamRoutes c = [])))
    (SetUpstreamDefault (fc_UpstreamServers c) (fc_UpstreamRoutes c) (fc_UpstreamBootstrap c))
  $ cond (negb (str_eqb (fc_ReleaseChannel c) "")) (λ f, (SetReleaseChannelDefault (fc_ReleaseChannel c) f).1)
  $ cond (hc_Enabled (fc_HACluster c)) (λ f, (SetHAClusterDefault (fc_HACluster c) f).1)
  $ put_records (fc_Records c)
  $ (λ f, f <| fl_qlRetentionHours := fc_QueryLogRetentionHours c |>)
  $ cond (0 <? fc_CacheSize c) (SetCacheDefault (fc_CacheSize c))
  $ cond (0 <? fc_RateLimitQPS c) (SetRateLimitQPSDefault (fc_RateLimitQPS c))
  $ cond (negb (str_eqb (fc_DoHHTTPAddr c) "")) (SetDoHDefault (fc_DoHHTTPAddr c))
  $ put_overrides (fc_InstancePolicies c)
  $ cond (negb (is_nil (fc_DefaultPolicy c))) (fleet_SetDefault (fc_DefaultPolicy c)) f.
Definition lists_loaded (c : FileConfig) (f : Fleet) : Fleet :=
  cond (negb (bool_decide (fc_BlocklistSources c = [])))
    (λ f, f <| fl_blocklistDisabled := list_to_set (cleanURLs (fc_BlocklistDisabled c)) |>
            <| fl_blocklistSources := cleanURLs (fc_BlocklistSources c) |>)
  $ cond (0 <? fc_BlocklistUpdateHours c) (λ f, f <| fl_autoUpdateHours := fc_BlocklistUpdateHours c |>) f.

Section Loading.
Context {W : Type} `{!World W} `{Hfp : !Fingerprints} `{!Store W}.
Context (Hrange : ∀ (w : W) l, w_range w l ≡ₚ l).
#[local] Existing Instance fm_mret.
#[local] Existing Instance fm_mbind.
Notation FM := (FM (W := W)).
(** A method that assigns [g] to the settings. *)
Definition assigns (g : Fleet → Fleet) {A} (m : FM A) : Prop := ∀ s, settings_only (m s).1.1 = g (settings_only s.1).
Lemma assigns_bind g h {A B} (m : FM A) (k : A → FM B) : assigns g m → (∀ a, assigns h (k a)) → assigns (λ f, h (g f)) (m ≫= k).
Proof. intros Hm Hk s. by rewrite bind_at, Hk, Hm. Qed.
Lemma assigns_keep {A} (m : FM A) : keeps settings_only m → assigns id m.
Proof. intros Hm. exact Hm. Qed.
Lemma assigns_write (g : Fleet → Fleet) : (∀ f, settings_only (g f) = g (settings_only f)) → assigns g (write g).
Proof. intros Hg [f w]. apply Hg. Qed.
Lemma assigns_when (b : bool) g (m : FM unit) : assigns g m → assigns (cond b g) (when b m).
Proof. intros Hm. by destruct b. Qed.
Lemma assigns_ext g h {A} (m : FM A) : assigns g m → (∀ f, g f = h f) → assigns h m.
Proof. intros Hm He s. by rewrite Hm. Qed.

(** The range over the overrides: its order does not matter. *)
Lemma each_SetOverride (m : gmap string InstanceOverride) l (s : Fleet * W) :
  (each l () (λ id _, write (SetOverride id (m !! id))) s).1
  = (foldl (λ f id, SetOverride id (m !! id) f) s.1 l, s.2).
Proof. revert s. induction l as [|id l IH]; intros [f w]; [done|]. cbn [each]. by rewrite bind_at, IH. Qed.
Lemma SetOverride_only id o f : settings_only (SetOverride id o f) = SetOverride id o (settings_only f).
Proof. unfold SetOverride. by repeat case_match. Qed.
Lemma over_lookup (m o : gmap string InstanceOverride) (k : list string) i :
  (filter (λ x, x.1 ∈ k ∧ IsEmpty (Some x.2) = false) m ∪ o) !! i
  = match m !! i with Some x => if bool_decide (i ∈ k) && negb (IsEmpty (Some x)) then Some x else o !! i | None => o !! i end.
Proof.
  rewrite lookup_union, map_lookup_filter. destruct (m !! i) as [x|]; cbn -[IsEmpty bool_decide]; [|by destruct (o !! i)].
  case_guard as Hg; cbn -[IsEmpty bool_decide] in *.
  - destruct Hg as [H1 H2]. rewrite (bool_decide_eq_true_2 (i ∈ k)), H2 by done. by destruct (o !! i).
  - destruct (bool_decide_reflect (i ∈ k)), (IsEmpty (Some x)) eqn:E; cbn -[IsEmpty bool_decide]; try by destruct (o !! i). exfalso. by apply Hg.
Qed.
Lemma fold_SetOverride (m : gmap string InstanceOverride) (l : list string) f :
  foldl (λ f id, SetOverride id (m !! id) f) f l
  = f <| fl_overrides ::= λ o, filter (λ x, x.1 ∈ l ∧ IsEmpty (Some x.2) = false) m ∪ o |>.
Proof.
  revert f. induction l as [|id l IH]; intros f; cbn [foldl].
  - destruct f. cbn -[IsEmpty bool_decide]. f_equal. apply map_eq. intros i. rewrite over_lookup. by destruct (m !! i).
  - rewrite IH. destruct f. unfold SetOverride. cbn -[IsEmpty bool_decide].
    assert (∀ (o o' : gmap string InstanceOverride) i,
      (i = id → o' !! i = match m !! i with Some x => if negb (IsEmpty (Some x)) then Some x else o !! i | None => o !! i end) →
      (i ≠ id → o' !! i = o !! i) →
      (filter (λ x, x.1 ∈ l ∧ IsEmpty (Some x.2) = false) m ∪ o') !! i
      = (filter (λ x, x.1 ∈ id :: l ∧ IsEmpty (Some x.2) = false) m ∪ o) !! i) as Hstep.
    { intros o o' i H1 H2. rewrite !over_lookup. destruct (decide (i = id)) as [->|Hn].
      - rewrite H1, (bool_decide_eq_true_2 (id ∈ id :: l)) by (done || left). destruct (m !! id) as [x|]; [|done].
        by destruct (IsEmpty (Some x)), (bool_decide (id ∈ l)).
      - rewrite H2, (bool_decide_ext (i ∈ id :: l) (i ∈ l)) by (done || rewrite elem_of_cons; naive_solver). done. }
    destruct (m !! id) as [o|] eqn:Hm; [destruct (IsEmpty (Some o)) eqn:Eo|]; cbn -[IsEmpty bool_decide]; f_equal; apply map_eq; intros i; apply Hstep;
      intros Hi; subst; rewrite ?Hm, ?Eo, ?lookup_insert_eq, ?lookup_insert_ne by done; cbn -[IsEmpty bool_decide] in *; by rewrite ?Eo.
Qed.
Lemma load_overrides_assigns m : assigns (put_overrides m) (load_overrides m).
Proof.
  intros [f w]. unfold load_overrides. rewrite bind_at. cbn [range fst snd]. rewrite each_SetOverride. cbn [fst snd].
  set (ids := w_range w _). rewrite fold_SetOverride. unfold put_overrides. destruct f. cbn -[IsEmpty bool_decide]. unfold settings_only. cbn -[IsEmpty].
  do 2 f_equal. apply map_filter_ext. intros i x Hi. split; [by intros [_ H]|intros H; split; [|done]].
  unfold ids. cbn [fst]. rewrite Hrange. unfold key_list. rewrite list_elem_of_fmap. exists (i, x). split; [done|]. by apply elem_of_map_to_list.
Qed.
Ltac settle := unfold push_all, insts, id_of, cfg_of, token_of, persist; keep.
Lemma SetRecords_assigns l : assigns (put_records l) (fleet_SetRecords l).
Proof.
  apply (assigns_bind (put_records l) id); [by apply assigns_write; intros []|intros _]. apply assigns_keep.
  unfold pushRecords. settle.
Qed.
Lemma retention_assigns h : assigns (λ f, f <| fl_qlRetentionHours := h |>) (SetQueryLogRetentionDefault h).
Proof.
  apply (assigns_bind (λ f, f <| fl_qlRetentionHours := h |>) id); [by apply assigns_write; intros []|intros _]. apply assigns_keep. settle.
Qed.
Lemma assigns_setter (b : bool) (g : Fleet → Fleet) :
  (∀ f, settings_only (g f) = g (settings_only f)) → assigns (cond b g) (when b (write (W := W) g)).
Proof. intros Hg. by apply assigns_when, assigns_write. Qed.
Lemma release_assigns e c :
  assigns (cond (negb (str_eqb c "")) (λ f, (SetReleaseChannelDefault c f).1))
    (if str_eqb c "" then t ← now; write (startReleaseCheck (be_download e) t) else write (W := W) (λ f, (SetReleaseChannelDefault c f).1)).
Proof.
  destruct (str_eqb c ""); [|apply assigns_write; intros f; unfold SetReleaseChannelDefault; by destruct (negb _)].
  apply assigns_keep. keep. unfold startReleaseCheck. by case_match.
Qed.
Lemma load_settings_assigns e c : assigns (settings_loaded c) (load_settings e c).
Proof.
  unfold load_settings. eapply assigns_ext.
  - eapply assigns_bind; [apply (assigns_setter _ (fleet_SetDefault (fc_DefaultPolicy c))); done|intros _].
    eapply assigns_bind; [apply load_overrides_assigns|intros _].
    eapply assigns_bind; [apply (assigns_setter _ (SetDoHDefault (fc_DoHHTTPAddr c))); done|intros _].
    eapply assigns_bind; [apply (assigns_setter _ (SetRateLimitQPSDefault (fc_RateLimitQPS c))); done|intros _].
    eapply assigns_bind; [apply (assigns_setter _ (SetCacheDefault (fc_CacheSize c))); done|intros _].
    eapply assigns_bind; [apply retention_assigns|intros _].
    eapply assigns_bind; [apply SetRecords_assigns|intros _].
    eapply assigns_bind; [apply (assigns_setter _ (λ f, (SetHAClusterDefault (fc_HACluster c) f).1))|intros _].
    { intros f. unfold SetHAClusterDefault. by destruct (validateHACluster _). }
    eapply assigns_bind; [apply release_assigns|intros _].
    by apply (assigns_setter _ (SetUpstreamDefault (fc_UpstreamServers c) (fc_UpstreamRoutes c) (fc_UpstreamBootstrap c))).
  - done.
Qed.
Lemma Add_keeps ic : keeps settings_only (fleet_Add ic).
Proof.
  unfold fleet_Add. destruct (str_eqb (ic_ID ic) ""); [done|]. destruct (str_eqb (ic_URL ic) ""); [done|].
  unfold Adopt, with_instance, maybePushConfig, maybePushBlocklist, label_of. settle.
Qed.
Lemma load_lists_assigns e c : assigns (lists_loaded c) (load_lists e c).
Proof.
  unfold load_lists. eapply assigns_ext.
  - eapply assigns_bind; [apply assigns_keep; unfold LoadBlocklistCache, if_db; keep|intros gs].
    eapply assigns_bind; [apply assigns_keep; unfold LoadManualDomains, if_db, sql; keep; intros [? w]; cbn; by destruct (loadDomainSet _ _ _)|intros _].
    eapply assigns_bind; [apply assigns_keep; unfold LoadAllowedDomains, if_db, sql; keep; intros [? w]; cbn; by destruct (loadDomainSet _ _ _)|intros _].
    eapply assigns_bind; [apply assigns_keep; unfold LoadSourceStats, if_db, sql; keep; intros [? w]; cbn; by destruct (LoadSourceMeta _ _)|intros _].
    eapply assigns_bind; [apply assigns_keep; apply keeps_each; intros; apply keeps_bind; [apply Add_keeps|done]|intros _].
    eapply assigns_bind; [apply (assigns_when _ (λ f, f <| fl_autoUpdateHours := if fc_BlocklistUpdateHours c <? 0 then 0 else fc_BlocklistUpdateHours c |>))|intros _].
    { eapply (assigns_bind _ id); [by apply assigns_write|intros _]. apply assigns_keep. settle. }
    eapply assigns_bind; [apply assigns_when|intros _; apply assigns_keep, keeps_ret].
    eapply (assigns_bind (λ f, f <| fl_blocklistDisabled := list_to_set (cleanURLs (fc_BlocklistDisabled c)) |>)
      (λ f, f <| fl_blocklistSources := cleanURLs (fc_BlocklistSources c) |>)); [by apply assigns_write|intros _; by apply assigns_write].
  - intros f. cbn beta. unfold lists_loaded, id, cond. destruct (Z.ltb_spec 0 (fc_BlocklistUpdateHours c)); [|done].
    by replace (fc_BlocklistUpdateHours c <? 0) with false by (symmetry; apply Z.ltb_ge; lia).
Qed.

(** The instances. *)
Definition labelled (cfg : InstanceConfig) : InstanceConfig :=
  if str_eqb (ic_Label cfg) "" then cfg <| ic_Label := ic_ID cfg |> else cfg.
Definition loadable (ic : InstanceConfig) : Prop := ic_ID ic ≠ "" ∧ ic_URL ic ≠ "" ∧ ic_Label ic ≠ "" ∧ ic_Claim ic = "".
Definition add_config (ic : InstanceConfig) (x : gmap string nat * list InstanceConfig) : gmap string nat * list InstanceConfig :=
  (<[ic_ID ic := length x.2]> x.1, x.2 ++ [ic]).
Lemma ResolveTokenFile_token r ic : ∃ t, ResolveTokenFile r ic = ic <| ic_Token := t |>.
Proof. unfold ResolveTokenFile. repeat case_match; try (eexists; reflexivity); exists (ic_Token ic); by destruct ic. Qed.
Lemma Resolve_loadable r ic : loadable ic → loadable (ResolveTokenFile r ic) ∧ ic_ID (ResolveTokenFile r ic) = ic_ID ic.
Proof. intros H. destruct (ResolveTokenFile_token r ic) as [t ->]. done. Qed.
Lemma fleet_Add_registered ic (s : Fleet * W) : loadable ic → registered (fleet_Add ic s).1.1 = add_config ic (registered s.1).
Proof.
  intros (H1 & H2 & H3 & H4). unfold fleet_Add. apply str_eqb_neq in H1, H2, H3. rewrite H1, H2, H3.
  cbv zeta iota. rewrite H4. change (str_eqb "" "") with true. cbv iota. rewrite bind_at.
  assert (registered (now s).1.1 = registered s.1) as <- by apply keeps_now.
  destruct (now s) as [[f w] t]. cbn [fst snd]. rewrite bind_at. cbn [write fst snd].
  match goal with |- context [(?m) (?f0, ?w0)] => assert (keeps registered m) as ->; [settle|] end.
  unfold registered, register, add_config. cbn. by rewrite fmap_app, length_fmap.
Qed.
Lemma add_all (read : string → option string) l b (s : Fleet * W) :
  Forall loadable l →
  registered (each l b (λ ic _, fleet_Add (ResolveTokenFile read ic);; mret ()) s).1.1
  = foldl (λ x ic, add_config (ResolveTokenFile read ic) x) (registered s.1) l.
Proof.
  intros Hl. revert b s. induction Hl as [|ic l Hic _ IH]; intros b s; [done|]. cbn [each foldl]. rewrite bind_at, IH, bind_at.
  cbn [mret fm_mret fst]. by rewrite fleet_Add_registered by apply Resolve_loadable, Hic.
Qed.
Definition config_of (x : gmap string nat * list InstanceConfig) (id : string) : option InstanceConfig := x.1 !! id ≫= λ p, x.2 !! p.
Lemma config_add ic x id :
  config_of (add_config ic x) id = if decide (id = ic_ID ic) then Some ic else x.1 !! id ≫= λ p, (x.2 ++ [ic]) !! p.
Proof.
  unfold config_of, add_config. cbn. destruct (decide _) as [->|Hn]; [|by rewrite lookup_insert_ne by done].
  rewrite lookup_insert_eq. cbn. by apply list_lookup_middle.
Qed.
Definition tight (x : gmap string nat * list InstanceConfig) : Prop := ∀ id p, x.1 !! id = Some p → (p < length x.2)%nat.
Lemma add_config_ok ic x : tight x → tight (add_config ic x)
  ∧ ∀ id, config_of (add_config ic x) id = if decide (id = ic_ID ic) then Some ic else config_of x id.
Proof.
  intros Ht. split.
  - intros id p. cbn. rewrite length_app, lookup_insert. cbn. case_decide; [intros [= <-]; lia|intros Hp%Ht; lia].
  - intros id. rewrite config_add. destruct (decide _); [done|]. unfold config_of. destruct (x.1 !! id) as [p|] eqn:E; [|done]. cbn.
    apply lookup_app_l, (Ht _ _ E).
Qed.
Lemma fold_configs (g : InstanceConfig → InstanceConfig) l x :
  (∀ ic, ic ∈ l → ic_ID (g ic) = ic_ID ic) → NoDup (ic_ID <$> l) → tight x →
  let y := foldl (λ x ic, add_config (g ic) x) x l in
  tight y ∧ (∀ ic, ic ∈ l → config_of y (ic_ID ic) = Some (g ic)) ∧ (∀ id, id ∉ ic_ID <$> l → config_of y id = config_of x id).
Proof.
  revert x. induction l as [|ic l IH]; intros x Hg Hnd Ht; cbn [foldl]; [split_and!; [done|by intros ? ?%not_elem_of_nil|done]|].
  apply NoDup_cons in Hnd as [Hni Hnd]. destruct (add_config_ok (g ic) x Ht) as [Ht' Hc].
  rewrite (Hg ic) in Hc by left.
  destruct (IH (add_config (g ic) x) (λ i Hi, Hg i (list_elem_of_further _ _ _ Hi)) Hnd Ht') as (H1 & H2 & H3). split_and!; [done| |].
  - intros i [->|Hi]%elem_of_cons; [|by apply H2]. rewrite H3, Hc by done. by rewrite decide_True.
  - intros id Hid. cbn in Hid. apply not_elem_of_cons in Hid as [Hn Hid]. rewrite H3, Hc by done. by rewrite decide_False.
Qed.
Lemma load_settings_registered e c : keeps registered (load_settings e c).
Proof.
  unfold load_settings, when, load_overrides, SetQueryLogRetentionDefault, fleet_SetRecords, pushRecords. settle;
    try (by unfold SetOverride; repeat case_match); unfold SetHAClusterDefault, SetReleaseChannelDefault, startReleaseCheck; by repeat case_match.
Qed.
Lemma load_lists_registered e c (s : Fleet * W) :
  Forall loadable (fc_Instances c) →
  registered (load_lists e c s).1.1 = foldl (λ x ic, add_config (ResolveTokenFile (be_readToken e) ic) x) (registered s.1) (fc_Instances c).
Proof.
  intros Hl. unfold load_lists.
  assert (keeps registered (W := W) LoadBlocklistCache) as K1 by (unfold LoadBlocklistCache, if_db; keep).
  assert (keeps registered (W := W) LoadManualDomains) as K2.
  { unfold LoadManualDomains, if_db, sql. keep. intros [? w]. cbn. by destruct (loadDomainSet _ _ _). }
  assert (keeps registered (W := W) LoadAllowedDomains) as K3.
  { unfold LoadAllowedDomains, if_db, sql. keep. intros [? w]. cbn. by destruct (loadDomainSet _ _ _). }
  assert (keeps registered (W := W) LoadSourceStats) as K4.
  { unfold LoadSourceStats, if_db, sql. keep. intros [? w]. cbn. by destruct (LoadSourceMeta _ _). }
  do 5 rewrite bind_at. 
  match goal with |- context [(?m) (each _ _ _ _).1] => assert (keeps registered m) as -> end.
  { unfold when, SetAutoUpdateHours, SetBlocklistDisabled, SetBlocklistSourcesDefault. settle. }
  rewrite add_all by done. f_equal. by rewrite K4, K3, K2, K1.
Qed.
End Loading.

(** ** What a restart keeps *)
(** What the setters keep true of the settings. *)
Record savable (f : Fleet) : Prop := {
  sv_policy : ∀ p, fl_defaultPolicy f = Some p → wp_ID p = "default";
  sv_overrides : map_Forall (λ _ o, IsEmpty (Some o) = false) (fl_overrides f);
  sv_qps : 0 ≤ fl_rateLimitQPS f;
  sv_cache : 0 ≤ fl_cacheSize f;
  sv_cluster : validateHACluster (fl_haCluster f) = None;
  sv_hours : 0 ≤ fl_autoUpdateHours f;
  sv_sources : cleanURLs (fl_blocklistSources f) = fl_blocklistSources f;
  sv_disabled : ∀ u, u ∈ fl_blocklistDisabled f → TrimSpace u = u ∧ u ≠ "" }.
Lemma setters_savable f : savable f →
  (∀ p, savable (fleet_SetDefault p f)) ∧ (∀ id o, savable (put_override id o f)) ∧ (∀ a, savable (SetDoHDefault a f))
  ∧ (∀ q, savable (SetRateLimitQPSDefault q f)) ∧ (∀ n, savable (SetCacheDefault n f)) ∧ (∀ l, savable (put_records l f))
  ∧ (∀ s r b, savable (SetUpstreamDefault s r b f)) ∧ (∀ c, savable (SetHAClusterDefault c f).1)
  ∧ (∀ c, savable (SetReleaseChannelDefault c f).1).
Proof.
  intros [S1 S2 S3 S4 S5 S6 S7 S8]. split_and!; intros; try by constructor.
  - constructor; try done. cbn. intros q. destruct p; [|done]. by intros [= <-].
  - unfold put_override. destruct o as [o|]; [destruct (IsEmpty (Some o)) eqn:E|]; constructor; try done; cbn -[IsEmpty];
      [by apply map_Forall_delete|by apply map_Forall_insert_2|by apply map_Forall_delete].
  - constructor; try done. cbn -[Z.ltb]. destruct (Z.ltb_spec q 0); lia.
  - constructor; try done. cbn -[Z.ltb]. destruct (Z.ltb_spec n 0); lia.
  - unfold SetHAClusterDefault. destruct (validateHACluster c) eqn:E; by constructor.
  - unfold SetReleaseChannelDefault. destruct (negb _); by constructor.
Qed.
(** The settings of [f] are those of [f0], as far as they have an effect. *)
Definition restored (f0 f : Fleet) : Prop :=
  (∀ id, effectivePolicy id f = effectivePolicy id f0 ∧ effectiveDoHHTTPAddr id f = effectiveDoHHTTPAddr id f0
     ∧ effectiveRateLimitQPS id f = effectiveRateLimitQPS id f0 ∧ effectiveCacheConfig id f = effectiveCacheConfig id f0
     ∧ effectiveUpstream id f = effectiveUpstream id f0 ∧ fleet_records id f = fleet_records id f0
     ∧ effectiveHABConfig id f = effectiveHABConfig id f0)
  ∧ InstanceOverrides f = InstanceOverrides f0 ∧ QueryLogRetentionHours f = QueryLogRetentionHours f0
  ∧ ReleaseChannel f = ReleaseChannel f0 ∧ fl_autoUpdateHours f = fl_autoUpdateHours f0
  ∧ fl_blocklistSources f = fl_blocklistSources f0 ∧ enabled_sources f = enabled_sources f0.
Section Restart.
Context {W : Type} `{!World W} `{Hfp : !Fingerprints} `{!Store W}.
Context (compare : string → string → option bcrypt_error) (generate : string → option string).
Context (Hrange : ∀ (w : W) l, w_range w l ≡ₚ l).
#[local] Existing Instance fm_mret.
#[local] Existing Instance fm_mbind.
Lemma or_default_same x : or_default x "" = x.
Proof. unfold or_default. destruct (str_eqb x "") eqn:E; [|done]. by apply str_eqb_eq in E. Qed.
Lemma saved_instances f0 (w : W) :
  (∀ id p, get id f0 = Some p → ic_ID (in_Config (inst p f0)) = id ∧ loadable (in_Config (inst p f0))) →
  let l := omap (λ id, p ← fl_instances f0 !! id; Some (in_Config (inst p f0))) (w_range w (key_list (fl_instances f0))) in
  Forall loadable l ∧ NoDup (ic_ID <$> l)
  ∧ (∀ id, (∃ p, get id f0 = Some p) ↔ id ∈ ic_ID <$> l)
  ∧ ∀ id p, get id f0 = Some p → in_Config (inst p f0) ∈ l.
Proof.
  intros Hi l. assert (ic_ID <$> l = w_range w (key_list (fl_instances f0))) as Hids.
  { unfold l. assert (Forall (λ id, is_Some (fl_instances f0 !! id)) (w_range w (key_list (fl_instances f0)))) as Hf.
    { apply Forall_forall. intros id. rewrite Hrange. unfold key_list. rewrite list_elem_of_fmap.
      intros ([i p] & -> & Hp%elem_of_map_to_list). by exists p. }
    induction Hf as [|id k [p Hp] _ IH]; [done|]. cbn. rewrite Hp. cbn. rewrite IH. f_equal. by apply Hi. }
  assert (∀ ic, ic ∈ l ↔ ∃ id p, get id f0 = Some p ∧ ic = in_Config (inst p f0)) as Hl.
  { intros ic. unfold l. rewrite list_elem_of_omap. split.
    - intros (id & _ & Hp). destruct (fl_instances f0 !! id) as [p|] eqn:E; [|done]. cbn in Hp. simplify_eq. by exists id, p.
    - intros (id & p & Hp & ->). exists id. rewrite Hrange. split; [|by unfold get in Hp; rewrite Hp].
      unfold key_list. rewrite list_elem_of_fmap. exists (id, p). split; [done|]. by apply elem_of_map_to_list. }
  split_and!.
  - apply Forall_forall. intros ic Hic. apply Hl in Hic as (id & p & Hp & ->). by apply (Hi id).
  - rewrite Hids, Hrange. apply NoDup_fst_map_to_list.
  - intros id. rewrite Hids, Hrange. unfold key_list. rewrite list_elem_of_fmap. split.
    + intros [p Hp]. exists (id, p). split; [done|]. by apply elem_of_map_to_list.
    + intros ([i p] & -> & Hp%elem_of_map_to_list). by exists p.
  - intros id p Hp. apply Hl. by exists id, p.
Qed.
(** The settings, field by field, after loading what was saved. *)
Lemma disabled_back f0 (disabled : list string) :
  savable f0 → disabled ≡ₚ elements (fl_blocklistDisabled f0) → list_to_set (cleanURLs disabled) =@{gset string} fl_blocklistDisabled f0.
Proof.
  intros Hs Hd. apply set_eq. intros u. rewrite elem_of_list_to_set. unfold cleanURLs. rewrite list_elem_of_filter, list_elem_of_fmap.
  assert (∀ v, v ∈ disabled ↔ v ∈ fl_blocklistDisabled f0) as He by (intros v; by rewrite Hd, elem_of_elements). split.
  - intros (_ & v & -> & Hv). apply He in Hv. by destruct (sv_disabled _ Hs v Hv) as [-> _].
  - intros Hu. destruct (sv_disabled _ Hs u Hu) as [H1 H2]. split; [done|]. exists u. by rewrite He.
Qed.
Lemma ReleaseChannel_valid f : ValidUpdateChannel (ReleaseChannel f) = true.
Proof. unfold ReleaseChannel. by destruct (ValidUpdateChannel (fl_releaseChannel f)) eqn:E. Qed.
Lemma overrides_back f : savable f → filter (λ x, IsEmpty (Some x.2) = false) (fl_overrides f) ∪ ∅ = fl_overrides f.
Proof. intros Hs. rewrite (right_id ∅ (∪)). apply map_filter_id. intros i x Hi. apply (sv_overrides _ Hs i x Hi). Qed.
Lemma policy_back f : savable f → with_ID "default" <$> fl_defaultPolicy f = fl_defaultPolicy f.
Proof.
  intros Hs. destruct (fl_defaultPolicy f) as [p|] eqn:E; [|done]. pose proof (sv_policy _ Hs p E) as Hp. cbn. f_equal.
  destruct p. cbn in *. by subst.
Qed.
(** A conditional assignment to a fresh field is an assignment. *)
Lemma fresh_policy p F :
  fl_defaultPolicy F = None → cond (negb (is_nil p)) (fleet_SetDefault p) F = F <| fl_defaultPolicy := with_ID "default" <$> p |>.
Proof. intros HF. destruct p; [done|]. destruct F. cbn in *. by subst. Qed.
Lemma fresh_doh a F : fl_dohHTTPAddr F = "" → cond (negb (str_eqb a "")) (SetDoHDefault a) F = F <| fl_dohHTTPAddr := a |>.
Proof.
  intros HF. unfold cond. destruct (str_eqb a "") eqn:E; [|done]. apply str_eqb_eq in E as ->. destruct F. cbn in *. by subst.
Qed.
Lemma fresh_rate q F : fl_rateLimitQPS F = 0 → 0 ≤ q → cond (0 <? q) (SetRateLimitQPSDefault q) F = F <| fl_rateLimitQPS := q |>.
Proof.
  intros HF Hq. unfold cond, SetRateLimitQPSDefault. destruct (Z.ltb_spec 0 q), (Z.ltb_spec q 0); try lia; [done|].
  replace q with 0 by lia. destruct F. cbn in *. by subst.
Qed.
Lemma fresh_cache n F :
  fl_cacheSize F = 0 → fl_cacheConfigured F = false → 0 ≤ n →
  cond (0 <? n) (SetCacheDefault n) F = F <| fl_cacheSize := n |> <| fl_cacheConfigured := 0 <? n |>.
Proof.
  intros HF HF' Hn. unfold cond, SetCacheDefault. destruct (Z.ltb_spec 0 n), (Z.ltb_spec n 0); try lia; [done|].
  replace n with 0 by lia. destruct F. cbn in *. by subst.
Qed.
Lemma fresh_cluster c F :
  fl_haCluster F = no_cluster → validateHACluster c = None →
  cond (hc_Enabled c) (λ f, (SetHAClusterDefault c f).1) F = F <| fl_haCluster := if hc_Enabled c then c else no_cluster |>.
Proof.
  intros HF Hc. unfold cond, SetHAClusterDefault. rewrite Hc. destruct (hc_Enabled c); [done|]. destruct F. cbn in *. by subst.
Qed.
Lemma fresh_channel c F :
  ValidUpdateChannel c = true →
  cond (negb (str_eqb c "")) (λ f, (SetReleaseChannelDefault c f).1) F = F <| fl_releaseChannel := c |>.
Proof.
  intros Hc. unfold cond, SetReleaseChannelDefault. rewrite Hc. by destruct (str_eqb c "") eqn:E; [apply str_eqb_eq in E; subst|].
Qed.
Lemma fresh_upstream s r b F :
  fl_upstreamServers F = [] → fl_upstreamRoutes F = [] → fl_upstreamBootstrap F = [] → b = [] ∨ s ≠ [] ∨ r ≠ [] →
  cond (negb (bool_decide (s = [] ∧ r = []))) (SetUpstreamDefault s r b) F
  = F <| fl_upstreamServers := s |> <| fl_upstreamRoutes := r |> <| fl_upstreamBootstrap := b |>.
Proof.
  intros H1 H2 H3 Hb. unfold cond. destruct (bool_decide_reflect (s = [] ∧ r = [])) as [[-> ->]|]; [|done].
  destruct Hb as [->|[]]; [|done..]. destruct F. cbn in *. by subst.
Qed.
Lemma settings_back c insts disabled f0 :
  savable f0 → (fl_upstreamBootstrap f0 = [] ∨ fl_upstreamServers f0 ≠ [] ∨ fl_upstreamRoutes f0 ≠ []) →
  settings_loaded (file_of c insts disabled f0) (settings_only (NewFleet "" false false))
  = settings_only (f0 <| fl_qlRetentionHours := QueryLogRetentionHours f0 |> <| fl_releaseChannel := ReleaseChannel f0 |>
      <| fl_haCluster := if hc_Enabled (fl_haCluster f0) then fl_haCluster f0 else no_cluster |>
      <| fl_cacheConfigured := 0 <? fl_cacheSize f0 |>
      <| fl_autoUpdateHours := 0 |> <| fl_blocklistSources := [] |> <| fl_blocklistDisabled := ∅ |>).
Proof.
  intros Hs Hb. pose proof (policy_back f0 Hs) as Hp. pose proof (overrides_back f0 Hs) as Ho. pose proof (ReleaseChannel_valid f0) as Hc.
  destruct Hs. unfold settings_loaded. cbn [file_of fc_DefaultPolicy fc_InstancePolicies fc_DoHHTTPAddr fc_RateLimitQPS fc_CacheSize
    fc_QueryLogRetentionHours fc_Records fc_HACluster fc_ReleaseChannel fc_UpstreamServers fc_UpstreamRoutes fc_UpstreamBootstrap].
  rewrite fresh_policy, fresh_doh, fresh_rate, fresh_cache, fresh_cluster, fresh_channel, fresh_upstream by done.
  rewrite Hp. unfold put_overrides, put_records. cbn -[IsEmpty Z.ltb]. rewrite Ho. done.
Qed.
(** The fields that the settings of a fleet consist of. *)
Lemma enabled_none (f : Fleet) : fl_blocklistSources f = [] → enabled_sources f = [].
Proof. intros Hf. unfold enabled_sources. by rewrite Hf. Qed.
Lemma restored_only f0 f :
  settings_only f = settings_only (f0 <| fl_qlRetentionHours := QueryLogRetentionHours f0 |> <| fl_releaseChannel := ReleaseChannel f0 |>
      <| fl_haCluster := if hc_Enabled (fl_haCluster f0) then fl_haCluster f0 else no_cluster |>
      <| fl_cacheConfigured := 0 <? fl_cacheSize f0 |>
      <| fl_blocklistDisabled := if bool_decide (fl_blocklistSources f0 = []) then ∅ else fl_blocklistDisabled f0 |>) →
  restored f0 f.
Proof.
  set (f1 := f0 <| fl_qlRetentionHours := _ |> <| fl_releaseChannel := _ |> <| fl_haCluster := _ |> <| fl_cacheConfigured := _ |>
    <| fl_blocklistDisabled := _ |>). intros He.
  assert (∀ B (g : Fleet → B), (∀ f, g (settings_only f) = g f) → g f = g f1) as Hg by (intros B g Hg; by rewrite <-Hg, He, Hg).
  split; [intros id; split_and!|split_and!].
  - exact (Hg _ (effectivePolicy id) (λ _, eq_refl)).
  - exact (Hg _ (effectiveDoHHTTPAddr id) (λ _, eq_refl)).
  - exact (Hg _ (effectiveRateLimitQPS id) (λ _, eq_refl)).
  - exact (Hg _ (effectiveCacheConfig id) (λ _, eq_refl)).
  - exact (Hg _ (effectiveUpstream id) (λ _, eq_refl)).
  - exact (Hg _ (fleet_records id) (λ _, eq_refl)).
  - rewrite (Hg _ (effectiveHABConfig id) (λ _, eq_refl)). unfold effectiveHABConfig, f1. cbn.
    by destruct (hc_Enabled (fl_haCluster f0)) eqn:E; [rewrite E|].
  - exact (Hg _ InstanceOverrides (λ _, eq_refl)).
  - rewrite (Hg _ QueryLogRetentionHours (λ _, eq_refl)). unfold f1, QueryLogRetentionHours. cbn.
    destruct (fl_qlRetentionHours f0 <=? 0) eqn:E; [done|by rewrite E].
  - rewrite (Hg _ ReleaseChannel (λ _, eq_refl)). unfold f1. unfold ReleaseChannel at 1. cbn.
    by rewrite (ReleaseChannel_valid f0).
  - exact (Hg _ fl_autoUpdateHours (λ _, eq_refl)).
  - exact (Hg _ fl_blocklistSources (λ _, eq_refl)).
  - rewrite (Hg _ enabled_sources (λ _, eq_refl)). destruct (decide (fl_blocklistSources f0 = [])) as [E|E].
    + by rewrite !enabled_none.
    + unfold enabled_sources, f1. cbn. by rewrite bool_decide_eq_false_2.
Qed.
Lemma lists_back c insts disabled f0 F :
  savable f0 → disabled ≡ₚ elements (fl_blocklistDisabled f0) →
  fl_autoUpdateHours F = 0 → fl_blocklistSources F = [] → fl_blocklistDisabled F = ∅ →
  lists_loaded (file_of c insts disabled f0) F = F <| fl_autoUpdateHours := fl_autoUpdateHours f0 |>
    <| fl_blocklistSources := fl_blocklistSources f0 |>
    <| fl_blocklistDisabled := if bool_decide (fl_blocklistSources f0 = []) then ∅ else fl_blocklistDisabled f0 |>.
Proof.
  intros Hs Hd H1 H2 H3. unfold lists_loaded. cbn [file_of fc_BlocklistSources fc_BlocklistUpdateHours fc_BlocklistDisabled].
  rewrite (disabled_back f0 disabled Hs Hd), (sv_sources _ Hs). pose proof (sv_hours _ Hs). unfold cond.
  destruct (Z.ltb_spec 0 (fl_autoUpdateHours f0)); [|replace (fl_autoUpdateHours f0) with 0 by lia];
    (destruct (bool_decide_reflect (fl_blocklistSources f0 = [])) as [E|]; [rewrite E|]); destruct F; cbn in *; by subst.
Qed.
Lemma file_restores e base insts disabled f0 (s0 : Fleet * W) :
  savable f0 → (fl_upstreamBootstrap f0 = [] ∨ fl_upstreamServers f0 ≠ [] ∨ fl_upstreamRoutes f0 ≠ []) →
  disabled ≡ₚ elements (fl_blocklistDisabled f0) → settings_only s0.1 = settings_only (NewFleet "" false false) →
  let c := file_of base insts disabled f0 in
  restored f0 ((load_settings e c ≫= λ _, load_lists e c) s0).1.1.
Proof.
  intros Hs Hb Hd H0 c. apply restored_only. rewrite bind_at, (load_lists_assigns e c), (load_settings_assigns Hrange e c), H0.
  unfold c. rewrite settings_back, lists_back by done. done.
Qed.
Lemma file_registers e c (s0 : Fleet * W) :
  Forall loadable (fc_Instances c) → NoDup (ic_ID <$> fc_Instances c) → registered s0.1 = (∅, []) →
  let f := ((load_settings e c ≫= λ _, load_lists e c) s0).1.1 in
  (∀ ic, ic ∈ fc_Instances c → ∃ p, get (ic_ID ic) f = Some p ∧ in_Config (inst p f) = ResolveTokenFile (be_readToken e) ic)
  ∧ ∀ id, id ∉ ic_ID <$> fc_Instances c → get id f = None.
Proof.
  intros Hl Hnd H0 f.
  assert (registered f = foldl (λ x ic, add_config (ResolveTokenFile (be_readToken e) ic) x) (∅, []) (fc_Instances c)) as Hf.
  { unfold f. rewrite bind_at, load_lists_registered, (load_settings_registered e c) by done. by rewrite H0. }
  destruct (fold_configs (ResolveTokenFile (be_readToken e)) (fc_Instances c) (∅, [])) as (H1 & H2 & H3).
  { intros ic Hic. rewrite Forall_forall in Hl. by apply Resolve_loadable, Hl. } { done. } { intros id p Hp. cbn in Hp. by rewrite lookup_empty in Hp. }
  rewrite <-Hf in H1, H2, H3. split.
  - intros ic Hic. specialize (H2 ic Hic). unfold config_of, registered in H2. cbn in H2. unfold get.
    destruct (fl_instances f !! ic_ID ic) as [p|]; [|done]. exists p. split; [done|]. cbn in H2. rewrite list_lookup_fmap in H2.
    apply fmap_Some in H2 as (i & Hi & ->). unfold inst. by rewrite (list_lookup_total_correct _ _ _ Hi).
  - intros id Hid. specialize (H3 id Hid). unfold config_of in H3. unfold get. destruct (fl_instances f !! id) as [p|] eqn:E; [|done].
    specialize (H1 id p E). apply lookup_lt_is_Some in H1 as [ic Hic]. unfold registered in *. cbn in H3, Hic. rewrite E in H3.
    cbn in H3. by rewrite Hic in H3.
Qed.
End Restart.

(** C16: What the controller saves, a restart brings back.  If [saveConfig] has
    written the file, reading gives what was written, and the controller is
    started again on that file, then it starts with the same desired settings:
    for every instance the same policy, records, upstream pool, rate limit,
    cache size, DoH address and high-availability role, the same overrides,
    retention, release channel, update interval and enabled blocklist sources;
    the same instances are registered, each with its saved configuration, a
    token reference resolved.  This holds for settings that the setters make,
    unless only bootstrap servers are set, and for instances without a claim
    code that is still to be used. *)
Theorem restart_keeps_settings {W : Type} `{!World W} `{!Fingerprints} `{!Store W} compare generate e path queryLog blocklistDB f0 (w0 w : W) :
  (∀ (w : W) l, w_range w l ≡ₚ l) →
  (∀ c (w w' : W), w_writeConfig path c w = (w', None) → w_readConfig path w' = Ok c) →
  fl_configPath f0 = path → path ≠ "" →
  (saveConfig (f0, w0)).2 = None → w_readConfig path w = w_readConfig path (saveConfig (f0, w0)).1.2 →
  savable f0 → fl_upstreamBootstrap f0 = [] ∨ fl_upstreamServers f0 ≠ [] ∨ fl_upstreamRoutes f0 ≠ [] →
  (∀ id p, get id f0 = Some p → ic_ID (in_Config (inst p f0)) = id ∧ loadable (in_Config (inst p f0))) →
  ∃ s, boot compare generate e path queryLog blocklistDB w = Some s ∧ restored f0 (wb_fleet s)
    ∧ ∀ id, match get id f0 with
            | Some p => ∃ p', get id (wb_fleet s) = Some p'
                          ∧ in_Config (inst p' (wb_fleet s)) = ResolveTokenFile (be_readToken e) (in_Config (inst p f0))
            | None => get id (wb_fleet s) = None
            end.
Proof.
  intros Hrange Hback Hpath Hne Hsave Hw Hs Hb Hi.
  assert (∃ c d, w_readConfig path w = Ok (file_of c (omap (λ id, p ← fl_instances f0 !! id; Some (in_Config (inst p f0)))
    (w_range w0 (key_list (fl_instances f0)))) d f0) ∧ d ≡ₚ elements (fl_blocklistDisabled f0)) as (c & d & Hr & Hd).
  { unfold saveConfig in *. rewrite Hpath in *. apply str_eqb_neq in Hne. rewrite Hne in *. destruct (w_readConfig path w0) as [c|]; [|done].
    exists c, (w_range w0 (elements (fl_blocklistDisabled f0))). split; [|by apply Hrange]. rewrite Hw.
    destruct (w_writeConfig _ _ w0) as [w' er] eqn:E. cbn in Hsave |- *. subst er. by eapply Hback. }
  destruct (saved_instances Hrange f0 w0 Hi) as (L1 & L2 & L3 & L4).
  unfold boot. rewrite Hr. cbn [load_config].
  match goal with |- context [load_settings e ?fc] => change fc with (file_of fc (fc_Instances fc) d f0); set (c' := fc) end.
  pose proof (file_restores Hrange e c' (fc_Instances c') d f0 (NewFleet path queryLog blocklistDB, w) Hs Hb Hd eq_refl) as H1.
  destruct (file_registers e c' (NewFleet path queryLog blocklistDB, w) L1 L2 eq_refl) as [H2 H3].
  change (file_of c' (fc_Instances c') d f0) with c' in *. cbv zeta in H1.
  match type of H1 with restored _ (?x).1.1 => destruct x as [[f w1] gs] end. cbn [fst snd] in *. eexists. split; [reflexivity|]. cbn. split; [done|].
  intros id. destruct (get id f0) as [p|] eqn:Hp.
  - destruct (Hi id p Hp) as [E _]. rewrite <-E. apply H2. by apply (L4 id).
  - apply H3. intros Hid. apply L3 in Hid as [p Hp']. congruence.
Qed.
(** A concrete world: one file that every write replaces; the clock stands
    still and every request fails. *)
#[export] Instance disk_world : World FileConfig := {|
  w_transport := λ _ w, (w, Err "connection refused");
  w_now w := (w, 7);
  w_range _ l := l;
  w_readConfig _ c := Ok c;
  w_writeConfig _ c _ := (c, None);
  w_log _ w := w;
  w_blockLabel _ _ := Ok "" |}.
#[export] Instance disk_store : Store FileConfig := {| w_db _ := (0%nat, empty_db); w_put_db _ w := w; w_fault _ := None |}.
Definition disk_env : boot_env :=
  mkBoot "" "" "" (λ p, if str_eqb p "/run/token" then Some "s3cret" else None) (λ _, None) (replicate 24 7).
Definition disk_fleet : Fleet :=
  fleet_SetDefault (Some (mkWire "" [] [] [] ["ads.example"] "nxdomain" true ""))
    (put_override "b" (Some (no_override <| ov_RateLimitQPS := Some 0 |>))
    (SetUpstreamDefault [mkServer "quad9" "tls://9.9.9.9" 1 0] [] [mkServer "boot" "udp://1.1.1.1:53" 1 0]
    (NewFleet "blipc.yaml" false false <| fl_blocklistSources := ["http://a/"; "http://b/"] |> <| fl_blocklistDisabled := {["http://b/"]} |>
      <| fl_rateLimitQPS := 50 |> <| fl_instances := {["b" := 0%nat]} |>
      <| fl_heap := [new_instance (mkICfg "b" "http://192.0.2.2:8444" "@/run/token" "b" "") 0] |>))).
Notation disk_boot := (boot (λ _ _, None) (λ _, None) disk_env "blipc.yaml" false false).
Notation disk_saved f := (saveConfig (f, empty_file)).1.2.
Lemma restart_keeps_settings_witness :
  ∃ s, disk_boot (disk_saved disk_fleet) = Some s ∧ effectiveRateLimitQPS "b" (wb_fleet s) = 0 ∧ enabled_sources (wb_fleet s) = ["http://a/"]
    ∧ ∃ p, get "b" (wb_fleet s) = Some p ∧ in_Config (inst p (wb_fleet s)) = mkICfg "b" "http://192.0.2.2:8444" "s3cret" "b" "".
Proof.
  destruct (restart_keeps_settings (λ _ _, None) (λ _, None) disk_env "blipc.yaml" false false disk_fleet empty_file (disk_saved disk_fleet))
    as (s & H1 & (H2 & _ & _ & _ & _ & _ & H3) & H4); try done.
  - by intros c w w' [= ->].
  - constructor; try done; try (by vm_compute).
    + by intros p [= <-].
    + apply (bool_decide_unpack _). vm_compute. exact I.
    + cbn. set_solver.
  - right. left. done.
  - intros id p Hp. assert (id = "b" ∧ p = 0%nat) as [-> ->]; [|by vm_compute].
    unfold get in Hp. change (fl_instances disk_fleet) with ({["b" := 0%nat]} : gmap string nat) in Hp. by apply lookup_singleton_Some in Hp as [<- <-].
  - exists s. split; [exact H1|]. split; [exact (proj1 (proj2 (proj2 (H2 "b"))))|]. split; [exact H3|].
    exact (H4 "b").
Defined.
(** The restart itself saves the file, before the sources are loaded: the
    next one starts without them. *)
Example restart_drops_sources :
  let first := disk_boot (disk_saved disk_fleet) in
  (λ s, (fl_blocklistSources (wb_fleet s), fc_BlocklistSources (wb_world s))) <$> first = Some (["http://a/"; "http://b/"], [])
  ∧ (λ s, fl_blocklistSources (wb_fleet s)) <$> (first ≫= λ s, disk_boot (wb_world s)) = Some [].
Proof. split; vm_compute; reflexivity. Qed.
(** It first saves it without the instances: a crash here forgets them all. *)
Example restart_window :
  fc_Instances (disk_saved disk_fleet) ≠ []
  ∧ fc_Instances (load_settings disk_env (disk_saved disk_fleet) (NewFleet "blipc.yaml" false false, disk_saved disk_fleet)).1.2 = [].
Proof. by vm_compute. Qed.
(** Bootstrap servers alone are saved and not loaded. *)
Example restart_drops_bootstrap :
  let f := SetUpstreamDefault [] [] [mkServer "boot" "udp://1.1.1.1:53" 1 0] (NewFleet "blipc.yaml" false false) in
  fc_UpstreamBootstrap (disk_saved f) = [mkServer "boot" "udp://1.1.1.1:53" 1 0]
  ∧ (λ s, fl_upstreamBootstrap (wb_fleet s)) <$> disk_boot (disk_saved f) = Some [].
Proof. split; vm_compute; reflexivity. Qed.
(** A cache that was switched off is no longer enforced. *)
Example restart_drops_cache_off :
  let f := SetCacheDefault 0 (NewFleet "blipc.yaml" false false) in
  cacheConfiguredFor "b" f = true ∧ (λ s, cacheConfiguredFor "b" (wb_fleet s)) <$> disk_boot (disk_saved f) = Some false.
Proof. split; vm_compute; reflexivity. Qed.
(** The configuration of a cluster that is switched off is forgotten. *)
Example restart_drops_cluster :
  let f := NewFleet "blipc.yaml" false false <| fl_haCluster := mkHAC false "a" "b" empty_ha empty_ha |> in
  fc_HACluster (disk_saved f) = fl_haCluster f ∧ (λ s, fl_haCluster (wb_fleet s)) <$> disk_boot (disk_saved f) = Some no_cluster.
Proof. split; vm_compute; reflexivity. Qed.
(** The time of the last import is not restored, because it is looked up
    before the sources are known: an import starts right after every restart,
    however fresh the stored lists are. *)
Definition fresh_store : Store FileConfig := {|
  w_db _ := (0%nat, empty_db <| db_meta := {["http://a/" := meta_to_row (mkMeta "http://a/" 1 0 "" "" "")]} |>);
  w_put_db _ w := w; w_fault _ := None |}.
Example restart_reimports :
  let f := NewFleet "blipc.yaml" false true <| fl_blocklistSources := ["http://a/"] |> <| fl_autoUpdateHours := 24 |> in
  let due (f : Fleet) := (auto_update (λ _, "") (f, empty_file)).2 in
  due (LoadSourceStats (Store0 := fresh_store) (f, empty_file)).1.1 = []
  ∧ (λ s, due (wb_fleet s)) <$> boot (Store0 := fresh_store) (λ _ _, None) (λ _, None) disk_env "blipc.yaml" false true (disk_saved f)
    = Some [GImport 1 IBegin].
Proof. split; vm_compute; reflexivity. Qed.
