(* ===== verification/FleetNode.v ===== *)
(** * A controller and its nodes

    The fleet of FleetPush.v over a network of real nodes: the transport of the
    client (Client.v) delivers a request to the management API (Control.v) of
    the node at its address.  [HostView] states what a node shows of its
    settings and that every setter changes its own one only; Node.v's process
    implements it.  On top of it, the reconciliation of the poll loop is shown
    to converge. *)
From S2P Require Import Prelude GoStrings GoNet GoUrl Filter Cache RateLimit Records Blocklist Upstream Stats Server HA Update Control Node.
From S2P Require Import Bus Release Client BlocklistDB QueryLog Fleet FleetPush FleetOps.
#[local] Open Scope Z_scope.

(** ** What a node shows *)
Record Obs := mkObs {
  o_Upstream : string;                       (* of the default policy *)
  o_Blocklist : Z;                           (* checksums *)
  o_Records : Z;
  o_DoH : string;
  o_Rate : Z;
  o_Cache : Z;
  o_Pool : list UpstreamServer * list UpstreamRoute * list UpstreamServer }.
#[export] Instance Obs_eta : Eta Obs := λ o,
  mkObs (o_Upstream o) (o_Blocklist o) (o_Records o) (o_DoH o) (o_Rate o) (o_Cache o) (o_Pool o).
Definition default_upstream (st : Store) : string := match (All st).1 with Some p => p_Upstream p | None => "" end.
Definition obs {H} `{!Host H} (h : H) : Obs :=
  mkObs (default_upstream (h_store h)) (match h_blocklist h with Some b => Checksum b | None => 0 end)
    (RecordsHash (h_GetRecords h)) (h_DoHHTTPAddr h) (h_RateLimitQPS h) (h_CacheSize h) (h_Upstream h).
(** Every accepted setting shows, and nothing else moves. *)
Class HostView (H : Type) `{!Host H} (good : H → Prop) := {
  hv_default : ∀ p h w, good h →
    let h1 := h_put_store (SetDefault (Some p) (h_store h)) h in
    let h' := h_put_watch (Notify w (h_watch h1)) h1 in
    good h' ∧ obs h' = obs h <| o_Upstream := p_Upstream p |>;
  hv_doh : ∀ a h h', good h → h_SetDoHHTTPAddr a h = (h', None) → good h' ∧ obs h' = obs h <| o_DoH := a |>;
  hv_rate : ∀ q b h, good h → 0 ≤ q → good (h_SetRateLimit q b h) ∧ obs (h_SetRateLimit q b h) = obs h <| o_Rate := q |>;
  hv_cache : ∀ n h h', good h → h_SetCacheConfig n h = (h', None) → good h' ∧ obs h' = obs h <| o_Cache := n |>;
  hv_records : ∀ l h, good h → Forall kept_record l →
    good (h_SetRecords l h) ∧ obs (h_SetRecords l h) = obs h <| o_Records := RecordsHash l |>;
  hv_pool : ∀ sv rt b h h', good h → h_SetUpstream sv rt b h = (h', None) →
    good h' ∧ obs h' = obs h <| o_Pool := (sv, rt, b) |>;
  hv_blocklist : ∀ d a b h, good h → h_blocklist h = Some b →
    let b' := SetAllowed a (FromDomains d b) in
    good (h_purge (h_put_blocklist b' h)) ∧ obs (h_purge (h_put_blocklist b' h)) = obs h <| o_Blocklist := Checksum b' |>;
  hv_ha : ∀ c h, good h → good (h_SetHAConfig c h).1 ∧ obs (h_SetHAConfig c h).1 = obs h;
  hv_apply : ∀ h, good h → good (h_ApplyHA h).1 ∧ obs (h_ApplyHA h).1 = obs h }.

(** The node of Node.v. *)
#[export] Instance node_view : HostView Node node_good.
Proof.
  split.
  - intros p h w Hg h1 h'. assert (node_good h1) as Hg1.
    { apply node_store_good; [exact Hg|]. pose proof (si_store _ Hg). by constructor. }
    split; [|done]. apply node_watch_good; [exact Hg1|]. apply Notify_wf, watch_good, Hg1.
  - intros a h h' Hg Hs. pose proof (node_doh a h h' Hg Hs) as [Hg' Ha]. split; [done|]. revert Hs Ha. cbn. unfold run.
    destruct (SetDoHHTTPAddr_ok (nd_listen h) a (nd_srv h)) as (s' & er & Hrun & pl & addr & Hs' & _). rewrite Hrun.
    destruct er as [[]|]; [done..|]. intros [= <-] Ha. unfold obs. cbn in *. rewrite Ha, Hs'. done.
  - intros q b h Hg Hq. pose proof (hl_rate (good := node_good) q b h Hg Hq) as [Hg' Ha]. split; [done|]. unfold obs. by rewrite Ha.
  - intros n h h' Hg Hs. pose proof (node_cache n h h' Hg Hs) as [Hg' Ha]. split; [done|]. revert Hs Ha. cbn. unfold run, SetCacheConfig.
    destruct (n <? 0); [done|]. destruct (SetMaxEntries n _) as [c|]; [|done]. cbn. intros [= <-] Ha. by cbn in Ha |- *.
  - intros l h Hg Hl. pose proof (node_records l h Hg) as [Hg' Ha]. split; [done|]. unfold obs.
    rewrite filter_id in Ha by (intros r; by apply (proj1 (Forall_forall _ _) Hl)). by rewrite (RecordsHash_perm _ _ Ha).
  - intros sv rt b h h' Hg Hs. pose proof (node_upstream sv rt b h h' Hg Hs) as [Hg' Ha]. split; [done|]. unfold obs. rewrite Ha.
    revert Hs. cbn. unfold run, SetUpstream. rewrite run_get. destruct (NewPoolWithBootstrap _ _ _ _); [|done]. cbn.
    by intros [= <-].
  - intros d a b h Hg Hb b'. split; [|done]. apply (hl_purge (good := node_good)), (hl_blocklist (good := node_good)); [done|].
    exact (blr_step (OpSetAllowed a) _ (blr_step (OpFrom d) _ (hl_reachable (good := node_good) b h Hg Hb))).
  - intros c h Hg. cbn. by destruct (SetHAConfig _ _ _ _ _ _) as [[m fs] e].
  - intros h Hg. cbn. by destruct (ApplyHA _ _ _ _) as [[m fs] e].
Qed.

(** ** The network *)
Section Net.
Context {H : Type} `{!Host H} (enc : adopt_state → string) (env : cenv) (peer : string) (clock : nat → Z) `{!Fingerprints}.
(** The nodes by address, the ticks of the clock, the configuration file, and
    the requests sent so far with the status of their answers. *)
Record Net := mkNet {
  nw_nodes : gmap string (ControlServer * H); nw_ticks : nat; nw_file : option FileConfig;
  nw_log : list (client_request * Z) }.
#[export] Instance Net_eta : Eta Net := λ n, mkNet (nw_nodes n) (nw_ticks n) (nw_file n) (nw_log n).
(** The request as the node gets it, from the controller's address. *)
Definition to_mreq (r : client_request) : mgmt_request :=
  let '(path, query) := split_target (cq_Path r) in
  let b := cq_Body r in
  mkMReq (cq_Method r) path peer (cq_Authorization r) (query_get query)
    (match b with PPolicy p => Some p | _ => None end) None
    (match b with PDoH a => Some a | _ => None end)
    (match b with PRate q b => Some (q, b) | _ => None end)
    (match b with PSize n => Some n | _ => None end)
    (match b with PUpstream sv rt bt => Some (sv, rt, bt) | _ => None end)
    (match b with PRecords l => Some l | _ => None end)
    (match b with PBlocklist d a => Some (d, a) | _ => None end)
    (match b with PHA c => Some c | _ => None end)
    (match b with PCode c => Some c | _ => None end).
(** A client decodes only bodies of the type it asked for. *)
Definition to_reply (a : mgmt_response) : reply :=
  let b := mr_body a in
  let other {A} : res string A := Err "json" in
  mkReply (mr_status a) (match b with BText t => t +:+ String newline "" | _ => "" end)
    (match b with BHealth u s v d => Ok (mkHealth u s v d) | _ => other end)
    (match b with BStats s => Ok s | _ => other end)
    (match b with BPolicies d l => Ok (d, l) | _ => other end)
    (match b with BPurged n => Ok n | _ => other end)
    (match b with BAdoptStatus x i v => Ok (mkAdoptStatus x i v) | _ => other end)
    (match b with BAdopt x t m => Ok (mkAdoptResponse x t m) | _ => other end)
    (match b with BRecords l => Ok l | _ => other end)
    (match b with BHA s => Ok s | _ => other end)
    (match b with BUpdate s => Ok s | _ => other end).
Definition net_transport : Transport Net := λ r n,
  match nw_nodes n !! cq_Base r with
  | None => (n <| nw_log ::= λ l, l ++ [(r, 0)] |>, Err "connection refused")
  | Some st =>
      let a := Handler enc env (to_mreq r) st in
      (n <| nw_nodes ::= <[cq_Base r := a.1]> |> <| nw_log ::= λ l, l ++ [(r, mr_status a.2)] |>, Ok (to_reply a.2))
  end.
#[local] Instance net_world : World Net := {|
  w_transport := net_transport;
  w_now n := (n <| nw_ticks ::= S |>, clock (nw_ticks n));
  w_range _ l := l;
  w_readConfig _ n := Ok (default empty_file (nw_file n));
  w_writeConfig _ c n := (n <| nw_file := Some c |>, None);
  w_log _ n := n;
  w_blockLabel _ _ := Ok "" |}.
Notation state := (Fleet * Net)%type.
Definition acked (n : Net) : Prop := Forall (λ e, e.2 = 200) (nw_log n).

(** ** The log only grows *)
#[local] Existing Instance fm_mret.
#[local] Existing Instance fm_mbind.
Definition grows {A} (m : FM (W := Net) A) : Prop := ∀ s, ∃ l, nw_log (m s).1.2 = nw_log s.2 ++ l.
Lemma grows_pure {A} (m : FM A) : (∀ s, nw_log (m s).1.2 = nw_log s.2) → grows m.
Proof. intros Hm s. exists []. by rewrite Hm, List.app_nil_r. Qed.
Lemma grows_bind {A C} (m : FM A) (k : A → FM C) : grows m → (∀ a, grows (k a)) → grows (m ≫= k).
Proof.
  intros Hm Hk s. unfold mbind, fm_mbind. destruct (Hm s) as [l Hl]. destruct (m s) as [s' a]. destruct (Hk a s') as [l' Hl'].
  exists (l ++ l'). rewrite Hl'. cbn in Hl. rewrite Hl. by rewrite (assoc_L (++)).
Qed.
Lemma grows_ret {A} (a : A) : grows (mret a).
Proof. by apply grows_pure. Qed.
Lemma grows_read {A} (g : Fleet → A) : grows (read g).
Proof. by apply grows_pure. Qed.
Lemma grows_write g : grows (write g).
Proof. apply grows_pure. by intros [f n]. Qed.
Lemma grows_now : grows now.
Proof. apply grows_pure. by intros [f n]. Qed.
Lemma grows_lists : grows lists.
Proof. apply grows_pure. by intros [f n]. Qed.
Lemma grows_logs c : grows (logs c).
Proof. apply grows_pure. intros [f n]. cbn. by destruct (fl_queryLog f). Qed.
Lemma grows_ctl {A} p what m path b (out : reply → res string A) : grows (ctl p (λ c, do_as c what m path b out)).
Proof.
  intros [f n]. unfold ctl, do_as, roundTrip. cbn. unfold net_transport.
  destruct (nw_nodes n !! cq_Base _); cbn; by eexists.
Qed.
Lemma grows_publish e : grows (publish e).
Proof. apply grows_bind; [apply grows_now|]. intros t. apply grows_write. Qed.
Lemma grows_acked {A} (m : FM A) s : grows m → acked (m s).1.2 → acked s.2.
Proof. intros Hm Ha. destruct (Hm s) as [l Hl]. unfold acked in *. rewrite Hl in Ha. by apply Forall_app in Ha as [? _]. Qed.
#[local] Hint Resolve grows_ret grows_read grows_write grows_now grows_lists grows_logs grows_publish : grows.
#[local] Hint Extern 1 (grows (ctl _ _)) => apply grows_ctl : grows.
Ltac grow :=
  repeat first
    [ done
    | progress auto with grows
    | apply grows_bind; [|intros]
    | match goal with |- grows (match ?x with _ => _ end) => destruct x end ].
Lemma grows_reconcile p b path pl what :
  grows (reconcile p b (λ c, do_as c what "PUT" path pl no_out)).
Proof. unfold reconcile, token_of. grow. Qed.
Lemma grows_config p st : grows (maybePushConfig p st).
Proof. unfold maybePushConfig, id_of, cfg_of, token_of. grow. Qed.
Lemma grows_doh p st : grows (maybePushDoH p st).
Proof. unfold maybePushDoH, id_of, cfg_of, reconcile, token_of. grow. Qed.
Lemma grows_rate p st : grows (maybePushRateLimit p st).
Proof. unfold maybePushRateLimit, id_of, cfg_of, reconcile, token_of. grow. Qed.
Lemma grows_cache p st : grows (maybePushCache p st).
Proof. unfold maybePushCache, id_of, cfg_of, reconcile, token_of. grow. Qed.
Lemma grows_upstream p st : grows (maybePushUpstream p st).
Proof. unfold maybePushUpstream, id_of, cfg_of, reconcile, token_of. grow. Qed.
Lemma grows_blocklist p st : grows (maybePushBlocklist p st).
Proof. unfold maybePushBlocklist, token_of. grow. Qed.
Lemma grows_records p st : grows (reconcileRecords p st).
Proof. unfold reconcileRecords, id_of, cfg_of, token_of. grow. Qed.
Lemma grows_HA p : grows (maybePushHA p).
Proof. unfold maybePushHA, id_of, cfg_of, token_of, setAndApplyHA. grow. Qed.

(** ** What an acknowledged call does to its node *)
Context (good : H → Prop) `{!HostView H good}.
Definition same_ctl (a b : ControlServer) : Prop :=
  ct_token b = ct_token a ∧ ct_adoptedBy b = ct_adoptedBy a ∧ ct_ctrls b = ct_ctrls a.
(** A call that changes what the node shows by [g]. *)
Definition sets (method path : string) (b : payload) (g : Obs → Obs) : Prop := ∀ c ct h,
  good h → all_wired ct →
  let r := Handler enc env (to_mreq (client_req c method path b)) (ct, h) in
  mr_status r.2 = 200 → ∃ ct' h', r.1 = (ct', h') ∧ same_ctl ct ct' ∧ good h' ∧ obs h' = g (obs h).
Lemma handler_ok r (st : ControlServer * H) hd :
  endpoint enc (mq_Path r) = Some (true, hd) → mr_status (Handler enc env r st).2 = 200 → Handler enc env r st = hd env r st.
Proof.
  unfold Handler. intros ->. destruct (auth r st.1) as [a|] eqn:Ha; [|done]. cbn. intros Hs. by apply auth_status in Ha.
Qed.
Lemma same_ctl_refl ct : same_ctl ct ct.
Proof. done. Qed.
Lemma to_mreq_plain c m path b :
  split_target path = (path, "") →
  to_mreq (client_req c m path b) = mkMReq m path peer ("Bearer " +:+ c_token c) (query_get "")
    (match b with PPolicy p => Some p | _ => None end) None
    (match b with PDoH a => Some a | _ => None end)
    (match b with PRate q b => Some (q, b) | _ => None end)
    (match b with PSize n => Some n | _ => None end)
    (match b with PUpstream sv rt bt => Some (sv, rt, bt) | _ => None end)
    (match b with PRecords l => Some l | _ => None end)
    (match b with PBlocklist d a => Some (d, a) | _ => None end)
    (match b with PHA c => Some c | _ => None end)
    (match b with PCode c => Some c | _ => None end).
Proof. intros Hp. unfold to_mreq, client_req. cbn. by rewrite Hp. Qed.
(** The call reaches its handler [hd]; the guards on the method are evaluated. *)
Ltac eval_strings :=
  repeat match goal with |- context [str_eqb ?a ?b] =>
    let v := eval vm_compute in (str_eqb a b) in
    lazymatch v with true => idtac | false => idtac end; change (str_eqb a b) with v end.
Ltac endpoint_is hd :=
  rewrite to_mreq_plain by reflexivity;
  match goal with |- mr_status (Handler _ _ ?r ?st).2 = _ → _ =>
    let Hs := fresh "Hs" in intros Hs; rewrite (handler_ok r st hd eq_refl Hs) in Hs |- *; revert Hs end.
Lemma sets_doh a : sets "PUT" "/api/v1/doh" (PDoH a) (λ o, o <| o_DoH := a |>).
Proof.
  intros c ct h Hg (W1 & _). cbn zeta. endpoint_is (λ (_ : cenv) r (st : ControlServer * H), handleDoH r st). unfold handleDoH, is_write, is_method. cbn [mq_Method]. eval_strings. rewrite W1. cbn.
  destruct (negb (str_eqb a "") && negb (bool_decide (is_Some (SplitHostPort a)))); [done|].
  destruct (h_SetDoHHTTPAddr a h) as [h' [e|]] eqn:E; [done|]. intros _.
  destruct (hv_doh a h h' Hg E). by exists ct, h'.
Qed.
Lemma sets_rate q b : sets "PUT" "/api/v1/ratelimit" (PRate q b) (λ o, o <| o_Rate := q |>).
Proof.
  intros c ct h Hg (_ & W2 & _). cbn zeta. endpoint_is (λ (_ : cenv) r (st : ControlServer * H), handleRateLimit r st). unfold handleRateLimit, is_write, is_method. cbn [mq_Method]. eval_strings. rewrite W2. cbn.
  destruct (q <? 0) eqn:E; [done|]. intros _. bools. destruct (hv_rate q (if b <? 0 then 0 else b) h Hg E). by eexists _, _.
Qed.
Lemma sets_cache n : sets "PUT" "/api/v1/cache" (PSize n) (λ o, o <| o_Cache := n |>).
Proof.
  intros c ct h Hg (_ & _ & W3 & _). cbn zeta. endpoint_is (λ (_ : cenv) r (st : ControlServer * H), handleCache r st). unfold handleCache, is_write, is_method. cbn [mq_Method]. eval_strings. rewrite W3. cbn.
  destruct (n <? 0); [done|]. destruct (h_SetCacheConfig n h) as [h' [e|]] eqn:E; [done|]. intros _.
  destruct (hv_cache n h h' Hg E). by exists ct, h'.
Qed.
Lemma sets_records l : Forall kept_record l →
  sets "PUT" "/api/v1/records" (PRecords l) (λ o, o <| o_Records := RecordsHash l |>).
Proof.
  intros Hl c ct h Hg (_ & _ & _ & W4 & _). cbn zeta. endpoint_is (λ (_ : cenv) r (st : ControlServer * H), handleRecords r st). unfold handleRecords, is_write, is_method. cbn [mq_Method]. eval_strings. rewrite W4. cbn.
  intros _. destruct (hv_records l h Hg Hl). by eexists _, _.
Qed.
Lemma sets_pool sv rt b : sets "PUT" "/api/v1/upstream" (PUpstream sv rt b) (λ o, o <| o_Pool := (sv, rt, b) |>).
Proof.
  intros c ct h Hg (_ & _ & _ & _ & W5). cbn zeta. endpoint_is (λ (_ : cenv) r (st : ControlServer * H), handleUpstream r st). unfold handleUpstream, is_write, is_method. cbn [mq_Method]. eval_strings. rewrite W5. cbn.
  destruct (h_SetUpstream sv rt b h) as [h' [e|]] eqn:E; [done|]. intros _. destruct (hv_pool sv rt b h h' Hg E). by exists ct, h'.
Qed.
Lemma sets_blocklist d a :
  sets "PUT" "/api/v1/blocklist" (PBlocklist d a)
    (λ o, o <| o_Blocklist := Checksum (SetAllowed a (FromDomains d Blocklist.New)) |>).
Proof.
  intros c ct h Hg _. cbn zeta. endpoint_is (λ (_ : cenv) r (st : ControlServer * H), handleBlocklist r st). unfold handleBlocklist, is_write, is_method. cbn [mq_Method]. eval_strings. cbn.
  destruct (h_blocklist h) as [b|] eqn:Hb; [|done]. intros _. destruct (hv_blocklist d a b h Hg Hb) as [Hg' Ho].
  rewrite (rebuild_blocklist d a b) in Ho. eexists _, _. split; [reflexivity|]. rewrite <-(rebuild_blocklist d a b) in Ho |- *.
  split_and!; [|done|done]. by destruct (str_eqb (ct_blocklistCachePath ct) "").
Qed.
Lemma sets_policy p : wp_ID p = "default" →
  sets "PUT" "/api/v1/policy" (PPolicy p) (λ o, o <| o_Upstream := wp_Upstream p |>).
Proof.
  intros Hp c ct h Hg _. cbn zeta. endpoint_is (handlePolicy (H := H)). unfold handlePolicy, is_write, is_method. cbn [mq_Method]. eval_strings. cbn. rewrite Hp. eval_strings. cbn. intros _.
  destruct (hv_default (toFilter p) h (policy_event env "default") Hg) as [Hg' Ho]. by eexists _, _.
Qed.
Lemma sets_ha cfg : sets "PUT" "/api/v1/ha" (PHA cfg) id.
Proof.
  intros c ct h Hg _. cbn zeta. endpoint_is (λ (_ : cenv) r (st : ControlServer * H), handleHAConfig r st). unfold handleHAConfig, ha_guard, is_method. cbn [mq_Method]. eval_strings. cbn. destruct (negb _); [done|]. cbn.
  destruct (hv_ha cfg h Hg) as [Hg' Ho]. destruct (h_SetHAConfig cfg h) as [h' [e|]]; [done|]. by exists ct, h'.
Qed.
Lemma sets_apply : sets "POST" "/api/v1/ha/apply" PNone id.
Proof.
  intros c ct h Hg _. cbn zeta. endpoint_is (λ (_ : cenv) r (st : ControlServer * H), handleHAApply r st). unfold handleHAApply, ha_guard, is_method. cbn [mq_Method]. eval_strings. cbn. destruct (negb _); [done|]. cbn.
  destruct (hv_apply h Hg) as [Hg' Ho]. destruct (h_ApplyHA h) as [h' [e|]]; [done|]. by exists ct, h'.
Qed.

(** ** One instance of the fleet and its node *)
Section One.
Context (f0 : Fleet) (p : nat) (cfg : InstanceConfig) (cl : Client) (ct0 : ControlServer).
Context (Hwired : all_wired ct0) (Htoken : ic_Token cfg ≠ "").
(** The fleet differs from [f0] in its instances, its blocklist and its bus;
    the instance [p] is [i], and its node shows [o]. *)
Record at_state (o : Obs) (i : Instance) (b : Blocklist) (s : state) : Prop := {
  at_fleet : ∃ hp bus, s.1 = f0 <| fl_heap := hp |> <| fl_bus := bus |> <| fl_blocklist := b |> ∧ hp !! p = Some i;
  at_config : in_Config i = cfg;
  at_client : in_client i = cl;
  at_node : ∃ ct h, nw_nodes s.2 !! c_base cl = Some (ct, h) ∧ same_ctl ct0 ct ∧ good h ∧ obs h = o }.
Lemma at_inst o i b s : at_state o i b s → inst p s.1 = i.
Proof. intros [(hp & bus & -> & Hp) _ _ _]. unfold inst. cbn. by apply list_lookup_total_correct. Qed.
Lemma at_hasToken o i b s : at_state o i b s → hasToken (inst p s.1) = true.
Proof.
  intros Ha. rewrite (at_inst _ _ _ _ Ha). unfold hasToken. rewrite (at_config _ _ _ _ Ha).
  by apply negb_true_iff, str_eqb_neq.
Qed.
(** A change of the instance that keeps its configuration and its client. *)
Lemma at_upd g o i b s :
  at_state o i b s → in_Config (g i) = in_Config i → in_client (g i) = in_client i →
  at_state o (g i) b (write (upd p g) s).1.
Proof.
  intros [(hp & bus & Hf & Hp) Hc Hl Hn] H1 H2. destruct s as [f n]. cbn in Hf. subst f.
  split; cbn; [|congruence..|done]. exists (alter g p hp), bus. split; [done|]. by rewrite list_lookup_alter_eq, Hp.
Qed.
(** A call that the node acknowledges. *)
Lemma ctl_at what method path pl g o i b s :
  sets method path pl g → at_state o i b s →
  let r := ctl p (λ c, do_as c what method path pl no_out) s in
  acked r.1.2 → r.2 = Ok () ∧ at_state (g o) i b r.1.
Proof.
  intros Hsets Ha. pose proof (at_inst _ _ _ _ Ha) as Hi. destruct Ha as [(hp & bus & Hf & Hp) Hc Hl (ct & h & Hn & Hct & Hg & Ho)].
  destruct s as [f n]. cbn in Hf, Hn, Hi. cbn zeta. unfold ctl. rewrite Hi, Hl. unfold do_as, roundTrip. cbn. unfold net_transport. cbn. rewrite Hn. cbn.
  intros Hack. apply Forall_app in Hack as [_ Hack]. apply Forall_inv in Hack. cbn in Hack.
  assert (all_wired ct) as Hw by (destruct Hct as (_ & _ & Hct); unfold all_wired; by rewrite Hct).
  destruct (Hsets cl ct h Hg Hw Hack) as (ct' & h' & Hr & Hct' & Hg' & Ho').
  rewrite Hack. split; [done|]. split; cbn; [by exists hp, bus|done..|].
  exists ct', h'. rewrite Hr, lookup_insert_eq, Ho', Ho. split_and!; try done.
  destruct Hct as (? & ? & ?), Hct' as (? & ? & ?). unfold same_ctl. split_and!; congruence.
Qed.
(** Steps of the monad at such a state. *)
Notation id := (ic_ID cfg).
Lemma id_at {A} (k : string → FM A) o i b s : at_state o i b s → (id_of p ≫= k) s = k id s.
Proof.
  intros Ha. unfold id_of, cfg_of, mbind, fm_mbind, read. cbn.
  by rewrite (at_inst _ _ _ _ Ha), (at_config _ _ _ _ Ha).
Qed.
Lemma token_at {A} (k : bool → FM A) o i b s : at_state o i b s → (token_of p ≫= k) s = k true s.
Proof. intros Ha. unfold token_of, mbind, fm_mbind, read. cbn. by rewrite (at_hasToken _ _ _ _ Ha). Qed.
(** The desired settings do not depend on what changed. *)
Lemma want_at {A} (g : Fleet → A) o i b s :
  at_state o i b s → (∀ hp bus b, g (f0 <| fl_heap := hp |> <| fl_bus := bus |> <| fl_blocklist := b |>) = g f0) → g s.1 = g f0.
Proof. intros [(hp & bus & -> & _) _ _ _] Hg. apply Hg. Qed.
Lemma reconcile_at what path pl g (diverges : bool) o i b s :
  sets "PUT" path pl g → at_state o i b s → (diverges = false → g o = o) →
  let r := reconcile p diverges (λ c, do_as c what "PUT" path pl no_out) s in
  acked r.1.2 → at_state (g o) i b r.1.
Proof.
  intros Hs Ha Hd. cbn zeta. unfold reconcile. rewrite (token_at _ _ _ _ _ Ha). destruct diverges; cbn [negb orb].
  - unfold mbind, fm_mbind. pose proof (ctl_at what "PUT" path pl g o i b s Hs Ha) as Hc.
    destruct (ctl p _ s) as [s' r]. intros Hack. by apply Hc.
  - intros _. cbn. by rewrite Hd.
Qed.
Lemma reconcile_quiet {A} (m : Client → Net → Net * res string A) o i b s :
  at_state o i b s → reconcile p false m s = (s, ()).
Proof. intros Ha. unfold reconcile. by rewrite (token_at _ _ _ _ _ Ha). Qed.

(** ** Each setting converges *)
Lemma doh_at st o i b s :
  at_state o i b s → st_DohHTTPAddr st = o_DoH o → acked (maybePushDoH p (Some st) s).1.2 →
  at_state (o <| o_DoH := effectiveDoHHTTPAddr id f0 |>) i b (maybePushDoH p (Some st) s).1.
Proof.
  intros Ha Hr. unfold maybePushDoH. rewrite (id_at _ _ _ _ _ Ha), read_at, (want_at _ _ _ _ _ Ha) by done.
  apply reconcile_at; [apply sets_doh|done|]. intros Hd. apply negb_false_iff, str_eqb_eq in Hd. rewrite <-Hd, Hr. by destruct o.
Qed.
Lemma doh_quiet st o i b s :
  at_state o i b s → st_DohHTTPAddr st = effectiveDoHHTTPAddr id f0 → (maybePushDoH p (Some st) s).1 = s.
Proof.
  intros Ha Hr. unfold maybePushDoH. rewrite (id_at _ _ _ _ _ Ha), read_at, (want_at _ _ _ _ _ Ha), Hr, str_eqb_refl by done.
  by erewrite reconcile_quiet.
Qed.
Lemma rate_at st o i b s :
  at_state o i b s → st_RateLimitQPS st = o_Rate o → acked (maybePushRateLimit p (Some st) s).1.2 →
  at_state (o <| o_Rate := effectiveRateLimitQPS id f0 |>) i b (maybePushRateLimit p (Some st) s).1.
Proof.
  intros Ha Hr. unfold maybePushRateLimit. rewrite (id_at _ _ _ _ _ Ha), read_at, (want_at _ _ _ _ _ Ha) by done.
  apply reconcile_at; [apply sets_rate|done|]. intros Hd. apply negb_false_iff, Z.eqb_eq in Hd. rewrite <-Hd, Hr. by destruct o.
Qed.
Lemma rate_quiet st o i b s :
  at_state o i b s → st_RateLimitQPS st = effectiveRateLimitQPS id f0 → (maybePushRateLimit p (Some st) s).1 = s.
Proof.
  intros Ha Hr. unfold maybePushRateLimit. rewrite (id_at _ _ _ _ _ Ha), read_at, (want_at _ _ _ _ _ Ha), Hr, Z.eqb_refl by done.
  by erewrite reconcile_quiet.
Qed.
(** The cache is managed only once it was configured. *)
Definition cached (o : Obs) : Obs := if cacheConfiguredFor id f0 then o <| o_Cache := effectiveCacheConfig id f0 |> else o.
Lemma cache_at st o i b s :
  at_state o i b s → st_CacheSize st = o_Cache o → acked (maybePushCache p (Some st) s).1.2 →
  at_state (cached o) i b (maybePushCache p (Some st) s).1.
Proof.
  intros Ha Hr. unfold maybePushCache, cached. rewrite (id_at _ _ _ _ _ Ha), read_at, (want_at _ _ _ _ _ Ha) by done.
  destruct (cacheConfiguredFor id f0); [|done]. cbn [negb]. rewrite read_at, (want_at _ _ _ _ _ Ha) by done.
  apply reconcile_at; [apply sets_cache|done|]. intros Hd. apply negb_false_iff, Z.eqb_eq in Hd. rewrite <-Hd, Hr. by destruct o.
Qed.
Lemma cache_quiet st o i b s :
  at_state o i b s → (cacheConfiguredFor id f0 = true → st_CacheSize st = effectiveCacheConfig id f0) →
  (maybePushCache p (Some st) s).1 = s.
Proof.
  intros Ha Hr. unfold maybePushCache. rewrite (id_at _ _ _ _ _ Ha), read_at, (want_at _ _ _ _ _ Ha) by done.
  destruct (cacheConfiguredFor id f0); [|done]. cbn [negb]. rewrite read_at, (want_at _ _ _ _ _ Ha), Hr, Z.eqb_refl by done.
  by erewrite reconcile_quiet.
Qed.
(** The pool is compared by its fingerprint. *)
Definition pooled (o : Obs) : Obs :=
  let want := effectiveUpstream id f0 in
  if unmanaged want || str_eqb (upstreamHash want) (upstreamHash (o_Pool o)) then o else o <| o_Pool := want |>.
Lemma pool_at st o i b s :
  at_state o i b s → (st_UpstreamServers st, st_UpstreamRoutes st, st_BootstrapServers st) = o_Pool o →
  acked (maybePushUpstream p (Some st) s).1.2 → at_state (pooled o) i b (maybePushUpstream p (Some st) s).1.
Proof.
  intros Ha Hr. unfold maybePushUpstream, pooled. rewrite (id_at _ _ _ _ _ Ha), read_at, (want_at _ _ _ _ _ Ha), Hr by done.
  destruct (effectiveUpstream id f0) as [[sv rt] bt]. destruct (unmanaged _); [done|]. cbn [orb].
  destruct (str_eqb _ _) eqn:E.
  - intros _. cbn [negb]. by rewrite (reconcile_quiet _ _ _ _ _ Ha).
  - apply (reconcile_at _ "/api/v1/upstream" (PUpstream sv rt bt) (λ o, o <| o_Pool := (sv, rt, bt) |>)); [apply sets_pool|done..].
Qed.
Lemma pool_quiet st o i b s :
  at_state o i b s →
  (unmanaged (effectiveUpstream id f0) = false →
   upstreamHash (st_UpstreamServers st, st_UpstreamRoutes st, st_BootstrapServers st) = upstreamHash (effectiveUpstream id f0)) →
  (maybePushUpstream p (Some st) s).1 = s.
Proof.
  intros Ha Hr. unfold maybePushUpstream. rewrite (id_at _ _ _ _ _ Ha), read_at, (want_at _ _ _ _ _ Ha) by done.
  destruct (unmanaged _); [done|]. rewrite Hr, str_eqb_refl by done. by erewrite reconcile_quiet.
Qed.
Lemma at_now o i b s : at_state o i b s → at_state o i b (now s).1.
Proof. destruct s as [f n]. by intros []. Qed.
Lemma ctl_bind {A} what method path pl g o i b s (k : res string unit → FM A) :
  sets method path pl g → at_state o i b s → (∀ r, grows (k r)) →
  acked ((ctl p (λ c, do_as c what method path pl no_out) ≫= k) s).1.2 →
  ∃ s', at_state (g o) i b s' ∧ (ctl p (λ c, do_as c what method path pl no_out) ≫= k) s = k (Ok ()) s'.
Proof.
  intros Hs Ha Hk. rewrite bind_at. intros Hack.
  destruct (ctl_at what method path pl g o i b s Hs Ha) as [Hok Hat]; [by eapply grows_acked, Hack|].
  rewrite Hok. by eexists.
Qed.
(** The policy, whose application is also marked on the instance. *)
Definition ruled (o : Obs) : Obs :=
  match effectivePolicy id f0 with
  | Some e => if str_eqb (effectiveHash e) "" then o else o <| o_Upstream := wp_Upstream e |>
  | None => o
  end.
Definition config_ok (i : Instance) : Prop :=
  match effectivePolicy id f0 with
  | Some e => effectiveHash e = "" ∨ configApplied (effectiveHash e) i = true
  | None => True
  end.
Lemma config_unfold st o i b s :
  at_state o i b s →
  maybePushConfig p (Some st) s =
  match effectivePolicy id f0 with
  | None => (s, ())
  | Some e =>
      if str_eqb (effectiveHash e) "" then (s, ())
      else if configApplied (effectiveHash e) i && str_eqb (st_Upstream st) (wp_Upstream e) then (s, ())
      else (ctl p (c_SetPolicy e) ≫= λ r,
              match r with Ok _ => write (upd p (markConfigAppliedWith (effectiveHash e) (wp_Upstream e))) | Err _ => mret () end) s
  end.
Proof.
  intros Ha. unfold maybePushConfig, hash_for. rewrite (id_at _ _ _ _ _ Ha), !read_at.
  rewrite (want_at (effectivePolicy id) _ _ _ _ Ha), (token_at _ _ _ _ _ Ha) by done.
  destruct (effectivePolicy id f0) as [e|]; [|done]. rewrite orb_false_r. destruct (str_eqb _ ""); [done|].
  rewrite read_at, (at_inst _ _ _ _ Ha). by destruct (configApplied _ i && _).
Qed.
Lemma config_at st o i b s :
  (∀ q, fl_defaultPolicy f0 = Some q → wp_ID q = "default") →
  at_state o i b s → st_Upstream st = o_Upstream o → acked (maybePushConfig p (Some st) s).1.2 →
  ∃ i', at_state (ruled o) i' b (maybePushConfig p (Some st) s).1 ∧ config_ok i'
    ∧ in_blPushing i' = in_blPushing i ∧ in_blRetryAfter i' = in_blRetryAfter i.
Proof.
  intros Hdef Ha Hr. rewrite (config_unfold _ _ _ _ _ Ha). unfold ruled, config_ok.
  destruct (effectivePolicy id f0) as [e|] eqn:He; [|by exists i].
  destruct (str_eqb (effectiveHash e) "") eqn:Eh; [apply str_eqb_eq in Eh; exists i; split_and!; [done|by left|done..]|].
  destruct (configApplied _ i && _) eqn:Ea.
  { apply andb_true_iff in Ea as [Ea Eu]. apply str_eqb_eq in Eu. exists i. split_and!; [|by right|done..].
    rewrite <-Eu, Hr. by destruct o. }
  assert (wp_ID e = "default") as Hid.
  { revert He. unfold effectivePolicy. destruct (fl_overrides f0 !! id); [|apply Hdef].
    destruct (fl_defaultPolicy f0) as [q|] eqn:Hq; intros [= <-]; [exact (Hdef q eq_refl)|done]. }
  intros Hack. eapply ctl_bind in Hack as (s' & Hat & Hm); [|by apply sets_policy|exact Ha|intros []; auto with grows].
  setoid_rewrite Hm. eexists. split; [by apply at_upd|]. split_and!; [|done..]. right. apply str_eqb_refl.
Qed.
Lemma config_quiet st o i b s :
  at_state o i b s → config_ok i →
  (∀ e, effectivePolicy id f0 = Some e → effectiveHash e ≠ "" → st_Upstream st = wp_Upstream e) →
  (maybePushConfig p (Some st) s).1 = s.
Proof.
  intros Ha Hok Hr. rewrite (config_unfold _ _ _ _ _ Ha). revert Hok. unfold config_ok.
  destruct (effectivePolicy id f0) as [e|]; [|done]. intros [Hh|Hh]; [by rewrite Hh|].
  destruct (str_eqb (effectiveHash e) "") eqn:Eh; [done|]. rewrite Hh, (Hr e eq_refl), str_eqb_refl; [done|].
  by apply str_eqb_neq.
Qed.
(** The blocklist, one push at a time; [transferable] says that the list the
    controller sends has its own checksum when the node rebuilds it. *)
Definition synced (b : Blocklist) : Blocklist := SetAllowed (AllowedDomains f0) b.
Definition rebuilt (b : Blocklist) : Blocklist :=
  SetAllowed (Blocklist.Allowed (elements (bl_allowExact b)) (elements (bl_allowWild b)))
    (FromDomains (List (elements (bl_exact b)) (elements (bl_wild b))) Blocklist.New).
Definition transferable (b : Blocklist) : Prop := Checksum (rebuilt b) = Checksum b.
Definition slot_free (i : Instance) : Prop :=
  in_blPushing i = false ∧ ∀ k, time_before (clock k) (in_blRetryAfter i) = false.
Definition listed (b : Blocklist) (o : Obs) : Obs := if fl_blLoading f0 then o else o <| o_Blocklist := Checksum (synced b) |>.
Lemma synced_idem b : synced (synced b) = synced b.
Proof. unfold synced, SetAllowed. by destruct (foldl _ _ _) as [[? ?] ?]. Qed.
Lemma at_blocklist o i b s : at_state o i b s → fl_blocklist s.1 = b.
Proof. by intros [(hp & bus & -> & _) _ _ _]. Qed.
Lemma at_sync o i b s : at_state o i b s → at_state o i (synced b) (write syncAllowed s).1.
Proof.
  intros [(hp & bus & Hf & Hp) Hc Hl Hn]. destruct s as [f n]. cbn in Hf. subst f. split; [|done..].
  by exists hp, bus.
Qed.
(** After the checksum is compared. *)
Definition push_if_free (hash : Z) : FM unit :=
  t ← now;
  ok ← read (λ f, (tryBeginBlocklistPush t (inst p f)).2);
  write (upd p (λ i, (tryBeginBlocklistPush t i).1));;
  if negb ok then mret ()
  else
    l ← lists;
    r ← ctl p (c_SetBlocklist l.1 l.2);
    t ← (match r with Err _ => now | Ok _ => mret 0 end);
    write (upd p (finishBlocklistPush t (negb (is_ok r)) hash)).
Lemma blocklist_unfold st o i b s :
  at_state o i b s →
  maybePushBlocklist p (Some st) s =
  if fl_blLoading f0 then (s, ())
  else
    let s := (write syncAllowed s).1 in
    let hash := Checksum (synced b) in
    if st_BlocklistHash st =? hash then write (upd p (markBlocklistApplied hash)) s
    else ((if st_BlocklistHash st =? in_blHash i then mret () else write (λ f, upd p (λ i, (foreignBlocklistDetected i).1) f))
          ≫= λ _, push_if_free hash) s.
Proof.
  intros Ha. unfold maybePushBlocklist. rewrite (token_at _ _ _ _ _ Ha), read_at.
  rewrite (want_at fl_blLoading _ _ _ _ Ha) by done. destruct (fl_blLoading f0); [done|]. cbn [negb orb].
  pose proof (at_sync _ _ _ _ Ha) as Hs. rewrite bind_at, read_at. cbn zeta. cbn [reportedBlocklistHash].
  rewrite (at_blocklist _ _ _ _ Hs). destruct (_ =? Checksum _); [done|].
  by rewrite read_at, (at_inst _ _ _ _ Hs).
Qed.
Lemma lists_at {A} (k : list string * list string → FM A) o i b s :
  at_state o i b s →
  (lists ≫= k) s = k (List (elements (bl_exact b)) (elements (bl_wild b)), Blocklist.Allowed (elements (bl_allowExact b)) (elements (bl_allowWild b))) s.
Proof. intros Ha. pose proof (at_blocklist _ _ _ _ Ha) as Hb. destruct s as [f n]. cbn in Hb. subst b. done. Qed.
Lemma tryBegin_frame t i :
  let i' := (tryBeginBlocklistPush t i).1 in
  in_Config i' = in_Config i ∧ in_client i' = in_client i ∧ in_appliedHash i' = in_appliedHash i ∧ in_haHash i' = in_haHash i.
Proof. unfold tryBeginBlocklistPush. by destruct (in_blPushing i || _). Qed.
Lemma push_if_free_at o i b s :
  at_state o i b s → slot_free i → acked (push_if_free (Checksum b) s).1.2 →
  ∃ i', at_state (o <| o_Blocklist := Checksum (rebuilt b) |>) i' b (push_if_free (Checksum b) s).1
    ∧ in_appliedHash i' = in_appliedHash i ∧ in_haHash i' = in_haHash i.
Proof.
  intros Ha [Hp Ht]. unfold push_if_free. rewrite bind_at. pose proof (at_now _ _ _ _ Ha) as Hn.
  assert ((now s).2 = clock (nw_ticks s.2)) as -> by by destruct s. specialize (Ht (nw_ticks s.2)). revert Hn. generalize (now s).1. intros s1 Hn.
  set (t := clock _) in *. rewrite read_at, (at_inst _ _ _ _ Hn).
  assert ((tryBeginBlocklistPush t i).2 = true) as -> by (unfold tryBeginBlocklistPush; by rewrite Hp, Ht).
  destruct (tryBegin_frame t i) as (F1 & F2 & F3 & F4).
  rewrite bind_at. pose proof (at_upd (λ i, (tryBeginBlocklistPush t i).1) _ _ _ _ Hn F1 F2) as Hw.
  revert Hw. generalize (write (upd p (λ i, (tryBeginBlocklistPush t i).1)) s1).1. intros s2 Hw. cbn [negb].
  rewrite (lists_at _ _ _ _ _ Hw). cbn [fst snd]. intros Hack.
  eapply ctl_bind in Hack as (s' & Hat & Hm); [|apply sets_blocklist|exact Hw|intros []; cbn; grow].
  setoid_rewrite Hm. eexists. split; [by apply at_upd|]. cbn. by rewrite F3, F4.
Qed.
Lemma blocklist_at st o i b s :
  at_state o i b s → st_BlocklistHash st = o_Blocklist o → slot_free i → transferable (synced b) →
  acked (maybePushBlocklist p (Some st) s).1.2 →
  ∃ i' b', at_state (listed b o) i' b' (maybePushBlocklist p (Some st) s).1 ∧ synced b' = synced b
    ∧ in_appliedHash i' = in_appliedHash i ∧ in_haHash i' = in_haHash i.
Proof.
  intros Ha Hr Hfree Ht. rewrite (blocklist_unfold _ _ _ _ _ Ha). unfold listed. destruct (fl_blLoading f0); [by exists i, b|].
  cbn zeta. pose proof (at_sync _ _ _ _ Ha) as Hs. revert Hs. generalize (write syncAllowed s).1. intros s1 Hs.
  destruct (_ =? _) eqn:E.
  { apply Z.eqb_eq in E. intros _. exists (markBlocklistApplied (Checksum (synced b)) i), (synced b).
    split; [|split; [apply synced_idem|done]]. rewrite <-E, Hr. replace (o <| _ := _ |>) with o by by destruct o. by apply at_upd. }
  clear E. set (m := if _ =? _ then _ else _).
  assert (∃ i1, at_state o i1 (synced b) (m s1).1 ∧ slot_free i1 ∧ in_appliedHash i1 = in_appliedHash i ∧ in_haHash i1 = in_haHash i)
    as (i1 & H1 & Hf1 & Hap & Hha).
  { subst m. destruct (_ =? _); [by exists i|]. exists (foreignBlocklistDetected i).1.
    assert (foreignBlocklistDetected i = (if in_blForeign i then i else i <| in_blForeign := true |>, negb (in_blForeign i))) as Hfo
      by (unfold foreignBlocklistDetected; by destruct (in_blForeign i)).
    split; [apply (at_upd (λ i, (foreignBlocklistDetected i).1)); [done|..]|]; rewrite Hfo; by destruct (in_blForeign i). }
  rewrite bind_at. intros Hack. destruct (push_if_free_at _ _ _ _ H1 Hf1 Hack) as (i' & Hi' & ? & ?).
  rewrite Ht in Hi'. exists i', (synced b). split; [done|]. split; [apply synced_idem|]. split; congruence.
Qed.
Lemma blocklist_quiet st o i b s :
  at_state o i b s → (fl_blLoading f0 = false → st_BlocklistHash st = Checksum (synced b)) →
  ∃ i', at_state o i' (if fl_blLoading f0 then b else synced b) (maybePushBlocklist p (Some st) s).1
    ∧ (maybePushBlocklist p (Some st) s).1.2 = s.2 ∧ in_appliedHash i' = in_appliedHash i ∧ in_haHash i' = in_haHash i.
Proof.
  intros Ha Hr. rewrite (blocklist_unfold _ _ _ _ _ Ha). destruct (fl_blLoading f0); [by exists i|].
  cbn zeta. rewrite (Hr eq_refl), Z.eqb_refl. pose proof (at_sync _ _ _ _ Ha) as Hs.
  eexists. split; [by apply at_upd|]. by destruct s as [f n].
Qed.
(** The fleet-wide records. *)
Lemma records_unfold st o i b s :
  fl_overrides f0 !! id ≫= ov_Records = None → at_state o i b s →
  reconcileRecords p (Some st) s =
  if st_RecordsHash st =? RecordsHash (fl_records f0) then (s, ())
  else (ctl p (c_SetRecords (fl_records f0)) ≫= λ _, mret ()) s.
Proof.
  intros Hno Ha. unfold reconcileRecords. rewrite (id_at _ _ _ _ _ Ha), (token_at _ _ _ _ _ Ha), read_at.
  rewrite (want_at (λ f, maybePushRecords (fl_records f) (fl_overrides f !! id ≫= ov_Records) true _) _ _ _ _ Ha) by done.
  unfold maybePushRecords, recordsHash, effectiveRecords. rewrite Hno. cbn. rewrite orb_false_r. by destruct (_ =? _).
Qed.
Lemma records_at st o i b s :
  fl_overrides f0 !! id ≫= ov_Records = None → Forall kept_record (fl_records f0) →
  at_state o i b s → st_RecordsHash st = o_Records o → acked (reconcileRecords p (Some st) s).1.2 →
  at_state (o <| o_Records := RecordsHash (fl_records f0) |>) i b (reconcileRecords p (Some st) s).1.
Proof.
  intros Hno Hk Ha Hr. rewrite (records_unfold _ _ _ _ _ Hno Ha). destruct (_ =? _) eqn:E.
  - intros _. apply Z.eqb_eq in E. rewrite <-E, Hr. by destruct o.
  - intros Hack. eapply ctl_bind in Hack as (s' & Hat & Hm); [|by apply sets_records|exact Ha|auto with grows].
    by setoid_rewrite Hm.
Qed.
Lemma records_quiet st o i b s :
  fl_overrides f0 !! id ≫= ov_Records = None → at_state o i b s → st_RecordsHash st = RecordsHash (fl_records f0) →
  (reconcileRecords p (Some st) s).1 = s.
Proof. intros Hno Ha Hr. by rewrite (records_unfold _ _ _ _ _ Hno Ha), Hr, Z.eqb_refl. Qed.
(** The keepalived configuration, whose application is marked. *)
Definition updating : bool := uj_Running (fl_updateJob f0) && str_eqb (uj_Current (fl_updateJob f0)) id.
Definition ha_ok (i : Instance) : Prop :=
  match effectiveHABConfig id f0 with Some c => updating = true ∨ haConfigApplied (haConfigHash c) i = true | None => True end.
Lemma HA_unfold o i b s :
  at_state o i b s →
  maybePushHA p s =
  match effectiveHABConfig id f0 with
  | None => (s, ())
  | Some c =>
      if updating || haConfigApplied (haConfigHash c) i then (s, ())
      else (setAndApplyHA p c ≫= λ r,
              match r with
              | Err _ => mret ()
              | Ok _ => write (λ f, upd p (markHAApplied (match effectiveHABConfig id f with Some c => haConfigHash c | None => "" end)) f)
              end) s
  end.
Proof.
  intros Ha. unfold maybePushHA. rewrite (id_at _ _ _ _ _ Ha), read_at, (want_at (effectiveHABConfig id) _ _ _ _ Ha) by done.
  rewrite (token_at _ _ _ _ _ Ha). destruct (effectiveHABConfig id f0) as [c|]; [|done].
  rewrite !read_at, (at_inst _ _ _ _ Ha).
  rewrite (want_at (λ f, uj_Running (fl_updateJob f) && str_eqb (uj_Current (fl_updateJob f)) id) _ _ _ _ Ha) by done.
  cbn [negb orb]. fold updating. by destruct (updating || _).
Qed.
Lemma HA_at o i b s :
  at_state o i b s → acked (maybePushHA p s).1.2 →
  ∃ i', at_state o i' b (maybePushHA p s).1 ∧ ha_ok i' ∧ in_appliedHash i' = in_appliedHash i.
Proof.
  intros Ha. rewrite (HA_unfold _ _ _ _ Ha). unfold ha_ok. destruct (effectiveHABConfig id f0) as [c|] eqn:Hc; [|by exists i].
  destruct (updating || _) eqn:E; [apply orb_true_iff in E; by exists i|].
  unfold setAndApplyHA. rewrite bind_assoc_at. intros Hack.
  eapply ctl_bind in Hack as Hm; [|apply sets_ha|exact Ha|intros []; grow]. destruct Hm as (s1 & H1 & Hm).
  setoid_rewrite Hm. setoid_rewrite Hm in Hack. clear Hm.
  eapply ctl_bind in Hack as (s2 & H2 & Hm); [|apply sets_apply|exact H1|intros []; grow].
  setoid_rewrite Hm. clear Hm. cbn [id] in H2.
  exists (markHAApplied (haConfigHash c) i). split_and!; [|right; apply str_eqb_refl|done].
  pose proof (at_upd (markHAApplied (haConfigHash c)) _ _ _ _ H2 eq_refl eq_refl) as Hu.
  pose proof (want_at (effectiveHABConfig id) _ _ _ _ H2 ltac:(done)) as He. rewrite Hc in He.
  destruct s2 as [f2 n2]. cbn in Hu, He |- *. by rewrite He.
Qed.
Lemma HA_quiet o i b s : at_state o i b s → ha_ok i → (maybePushHA p s).1 = s.
Proof.
  intros Ha. rewrite (HA_unfold _ _ _ _ Ha). unfold ha_ok. destruct (effectiveHABConfig id f0) as [c|]; [|done].
  by intros [-> | ->]; rewrite ?orb_true_r.
Qed.

(** ** The two requests of a poll *)
Definition health_request : client_request := client_req cl "GET" "/api/v1/health" PNone.
Definition stats_request : client_request := client_req cl "GET" "/api/v1/stats" PNone.
Definition admitted : Prop := auth (to_mreq health_request) ct0 = None.
Definition reports (st : StatsResponse) (o : Obs) : Prop :=
  st_Upstream st = o_Upstream o ∧ st_DohHTTPAddr st = o_DoH o ∧ st_RateLimitQPS st = o_Rate o ∧ st_CacheSize st = o_Cache o
  ∧ (st_UpstreamServers st, st_UpstreamRoutes st, st_BootstrapServers st) = o_Pool o
  ∧ st_BlocklistHash st = o_Blocklist o ∧ st_RecordsHash st = o_Records o.
Lemma auth_same r ct : same_ctl ct0 ct → auth r ct = auth r ct0.
Proof. intros (Ht & Hb & _). unfold auth. by rewrite Ht, Hb. Qed.
(** A read: the handler does not change the node. *)
Lemma get_at {A} path (out : reply → res string A) (g : cenv → ControlServer * H → mgmt_response) o i b s :
  at_state o i b s → split_target path = (path, "") →
  endpoint (H := H) enc path = Some (true, λ e _ st, (st, g e st)) → (∀ st, mr_status (g env st) = 200) →
  let req := client_req cl "GET" path PNone in
  let r := ctl p (λ c, do c "GET" path PNone out) s in
  (acked r.1.2 → auth (to_mreq req) ct0 = None) ∧
  (auth (to_mreq req) ct0 = None →
   at_state o i b r.1 ∧ nw_log r.1.2 = nw_log s.2 ++ [(req, 200)]
   ∧ ∃ ct h, all_wired ct ∧ obs h = o ∧ r.2 = out (to_reply (g env (ct, h)))).
Proof.
  intros Ha Hpath He Hg. pose proof (at_inst _ _ _ _ Ha) as Hi.
  destruct Ha as [(hp & bus & Hf & Hp) Hc Hl (ct & h & Hn & Hct & Hgd & Ho)].
  destruct s as [f n]. cbn in Hf, Hn, Hi. cbn zeta. unfold ctl. rewrite Hi, Hl. unfold do, do_as, roundTrip. cbn.
  unfold net_transport. cbn. rewrite Hn. cbn. unfold Handler.
  assert (mq_Path (to_mreq (client_req cl "GET" path PNone)) = path) as -> by by rewrite to_mreq_plain.
  rewrite He, (auth_same _ _ Hct). destruct (auth _ ct0) as [a|] eqn:Hau.
  - split; [|done]. intros Hack. apply Forall_app in Hack as [_ Hack]. apply Forall_inv in Hack. cbn in Hack.
    by apply auth_status in Hau.
  - split; [done|]. intros _. cbn. rewrite Hg. cbn. split_and!; [|done|].
    + split; cbn; [by exists hp, bus|done..|]. exists ct, h. by rewrite insert_id.
    + exists ct, h. split_and!; [|done..]. destruct Hct as (_ & _ & Hct). unfold all_wired. by rewrite Hct.
Qed.
Lemma health_at o i b s :
  at_state o i b s →
  let r := ctl p c_Health s in
  (acked r.1.2 → admitted) ∧
  (admitted → at_state o i b r.1 ∧ nw_log r.1.2 = nw_log s.2 ++ [(health_request, 200)] ∧ ∃ hr, r.2 = Ok hr).
Proof.
  intros Ha. destruct (get_at "/api/v1/health" rp_health handleHealth _ _ _ _ Ha eq_refl eq_refl) as [H1 H2]; [by intros []|].
  split; [exact H1|]. intros Hau. destruct (H2 Hau) as (? & ? & ct & h & _ & _ & Hr). split_and!; [done..|].
  eexists. exact Hr.
Qed.
Lemma stats_at o i b s :
  at_state o i b s → admitted →
  let r := ctl p c_Stats s in
  at_state o i b r.1 ∧ nw_log r.1.2 = nw_log s.2 ++ [(stats_request, 200)] ∧ ∃ st, r.2 = Ok st ∧ reports st o.
Proof.
  intros Ha Hau. destruct (get_at "/api/v1/stats" rp_stats (λ _, handleStats) _ _ _ _ Ha eq_refl eq_refl) as [_ H2]; [by intros []|].
  destruct H2 as (? & ? & ct & h & (W1 & W2 & W3 & W4 & W5) & Ho & Hr); [exact Hau|]. split_and!; [done..|].
  change ((ctl p c_Stats s).2 = rp_stats (to_reply (handleStats (ct, h)))) in Hr. rewrite Hr.
  unfold handleStats, addUpstreamStats. rewrite W1, W2, W3, W4, W5. destruct (h_Upstream h) as [[sv rt] bt] eqn:Hu.
  eexists. split; [reflexivity|]. subst o. unfold reports, obs. cbn. rewrite Hu. done.
Qed.

(** ** A poll *)
(** What the node shows is what the fleet wants of it. *)
Definition in_sync (b : Blocklist) (o : Obs) : Prop :=
  (∀ e, effectivePolicy id f0 = Some e → effectiveHash e ≠ "" → o_Upstream o = wp_Upstream e)
  ∧ o_DoH o = effectiveDoHHTTPAddr id f0
  ∧ o_Rate o = effectiveRateLimitQPS id f0
  ∧ (cacheConfiguredFor id f0 = true → o_Cache o = effectiveCacheConfig id f0)
  ∧ (unmanaged (effectiveUpstream id f0) = false → upstreamHash (o_Pool o) = upstreamHash (effectiveUpstream id f0))
  ∧ (fl_blLoading f0 = false → o_Blocklist o = Checksum (synced b))
  ∧ o_Records o = RecordsHash (fl_records f0).
Definition settled (o : Obs) (i : Instance) (b : Blocklist) : Prop := config_ok i ∧ ha_ok i ∧ in_sync b o.
Lemma config_ok_mark i i' : in_appliedHash i' = in_appliedHash i → config_ok i → config_ok i'.
Proof. unfold config_ok, configApplied. by intros ->. Qed.
Lemma ha_ok_mark i i' : in_haHash i' = in_haHash i → ha_ok i → ha_ok i'.
Proof. unfold ha_ok, haConfigApplied. by intros ->. Qed.
Lemma acked_seq {A B} (m : FM A) (k : FM B) (s : state) :
  grows k → acked ((m;; k) s).1.2 → acked (m s).1.2 ∧ acked (k (m s).1).1.2.
Proof. intros Hk. rewrite bind_at. intros Ha. split; [by eapply grows_acked, Ha|done]. Qed.
#[local] Hint Resolve grows_config grows_doh grows_rate grows_cache grows_upstream grows_blocklist grows_records grows_HA : grows.
Lemma pooled_hash o :
  unmanaged (effectiveUpstream id f0) = false → upstreamHash (o_Pool (pooled o)) = upstreamHash (effectiveUpstream id f0).
Proof. unfold pooled. intros ->. cbn [orb]. destruct (str_eqb _ _) eqn:E; [by apply str_eqb_eq in E|done]. Qed.
Lemma reconciled_sync o b :
  in_sync b (listed b (pooled (cached ((ruled o) <| o_DoH := effectiveDoHHTTPAddr id f0 |> <| o_Rate := effectiveRateLimitQPS id f0 |>)))
     <| o_Records := RecordsHash (fl_records f0) |>).
Proof.
  set (o1 := cached _). pose proof (pooled_hash o1) as Hp. unfold in_sync. split_and!; subst o1.
  - intros e He Hh. apply str_eqb_neq in Hh. unfold listed, pooled, cached, ruled in *. rewrite He, Hh.
    by repeat case_match.
  - unfold listed, pooled, cached. by repeat case_match.
  - unfold listed, pooled, cached. by repeat case_match.
  - intros Hc. unfold listed, pooled, cached in *. rewrite Hc. by repeat case_match.
  - unfold listed. destruct (fl_blLoading f0); exact Hp.
  - unfold listed. by intros ->.
  - done.
Qed.
Lemma reconcile_all_at st o i b s :
  (∀ q, fl_defaultPolicy f0 = Some q → wp_ID q = "default") → fl_overrides f0 !! id ≫= ov_Records = None →
  Forall kept_record (fl_records f0) → slot_free i → transferable (synced b) →
  at_state o i b s → reports st o → acked (reconcile_all p (Some st) s).1.2 →
  ∃ o' i' b', at_state o' i' b' (reconcile_all p (Some st) s).1 ∧ settled o' i' b' ∧ synced b' = synced b.
Proof.
  intros Hdef Hno Hk [Hf1 Hf2] Ht Ha (R1 & R2 & R3 & R4 & R5 & R6 & R7). unfold reconcile_all. intros Hack.
  apply acked_seq in Hack as [H1 Hack]; [|grow]. rewrite bind_at.
  destruct (config_at _ _ _ _ _ Hdef Ha R1 H1) as (i1 & A1 & Hcfg & E1 & E2).
  apply acked_seq in Hack as [H2 Hack]; [|grow]. rewrite bind_at.
  apply (doh_at _ _ _ _ _ A1) in H2; [|by rewrite R2; unfold ruled; repeat case_match].
  apply acked_seq in Hack as [H3 Hack]; [|grow]. rewrite bind_at.
  apply (rate_at _ _ _ _ _ H2) in H3; [|by rewrite R3; unfold ruled; repeat case_match].
  apply acked_seq in Hack as [H4 Hack]; [|grow]. rewrite bind_at.
  apply (cache_at _ _ _ _ _ H3) in H4; [|by rewrite R4; unfold ruled; repeat case_match].
  apply acked_seq in Hack as [H5 Hack]; [|grow]. rewrite bind_at.
  apply (pool_at _ _ _ _ _ H4) in H5; [|by rewrite R5; unfold cached, ruled; repeat case_match].
  apply acked_seq in Hack as [H6 Hack]; [|grow]. rewrite bind_at.
  apply (blocklist_at _ _ _ _ _ H5) in H6 as (i6 & b6 & A6 & Eb & E3 & E4);
    [|by rewrite R6; unfold pooled, cached, ruled; repeat case_match|split; congruence|done].
  apply acked_seq in Hack as [H7 Hack]; [|grow]. rewrite bind_at.
  apply (records_at _ _ _ _ _ Hno Hk A6) in H7; [|by rewrite R7; unfold listed, pooled, cached, ruled; repeat case_match].
  apply (HA_at _ _ _ _ H7) in Hack as (i8 & A8 & Hha & E5).
  eexists _, i8, b6. split; [exact A8|]. split; [|done]. split; [|split; [done|]].
  - apply (config_ok_mark i1); [congruence|done].
  - pose proof (reconciled_sync o b) as Hs. unfold in_sync in *. by rewrite Eb.
Qed.
Lemma reconcile_all_quiet st o i b s :
  fl_overrides f0 !! id ≫= ov_Records = None → at_state o i b s → settled o i b → reports st o →
  nw_log (reconcile_all p (Some st) s).1.2 = nw_log s.2.
Proof.
  intros Hno Ha (Hcfg & Hha & S1 & S2 & S3 & S4 & S5 & S6 & S7) (R1 & R2 & R3 & R4 & R5 & R6 & R7).
  unfold reconcile_all. rewrite bind_at, (config_quiet _ _ _ _ _ Ha); [|done|intros e; rewrite R1; apply S1].
  rewrite bind_at, (doh_quiet _ _ _ _ _ Ha) by congruence.
  rewrite bind_at, (rate_quiet _ _ _ _ _ Ha) by congruence.
  rewrite bind_at, (cache_quiet _ _ _ _ _ Ha) by (rewrite R4; apply S4).
  rewrite bind_at, (pool_quiet _ _ _ _ _ Ha) by (rewrite R5; apply S5).
  rewrite bind_at. destruct (blocklist_quiet st _ _ _ _ Ha) as (i' & Ha' & <- & _ & Eh); [rewrite R6; apply S6|].
  rewrite bind_at, (records_quiet _ _ _ _ _ Hno Ha') by congruence.
  by rewrite (HA_quiet _ _ _ _ Ha') by (by eapply ha_ok_mark).
Qed.
(** Steps that neither the instance nor the node notices. *)
Definition unnoticed {A} (m : FM A) : Prop := ∀ o i b (s : state),
  at_state o i b s → at_state o i b (m s).1 ∧ nw_log (m s).1.2 = nw_log s.2.
Lemma unnoticed_now : unnoticed now.
Proof. intros o i b s Ha. split; [by apply at_now|]. by destruct s. Qed.
Lemma unnoticed_ret {A} (a : A) : unnoticed (mret a).
Proof. by intros o i b s Ha. Qed.
Lemma unnoticed_logs c : unnoticed (logs c).
Proof. intros o i b [f n] Ha. unfold logs. cbn. by destruct (fl_queryLog f). Qed.
Lemma unnoticed_bind {A B} (m : FM A) (k : A → FM B) : unnoticed m → (∀ a, unnoticed (k a)) → unnoticed (m ≫= k).
Proof.
  intros Hm Hk o i b s Ha. rewrite bind_at. destruct (Hm _ _ _ _ Ha) as [H1 <-]. by apply Hk.
Qed.
Lemma unnoticed_publish e : unnoticed (publish e).
Proof.
  apply unnoticed_bind; [apply unnoticed_now|]. intros t o i b [f n] [(hp & bus & Hf & Hp) Hc Hl Hn]. cbn in Hf. subst f.
  split; [|done]. split; cbn; [|done..]. by eexists _, _.
Qed.
Lemma poll_at o i b s :
  at_state o i b s → admitted →
  ∃ i1 st s1, at_state o i1 b s1 ∧ reports st o
    ∧ nw_log s1.2 = nw_log s.2 ++ [(health_request, 200); (stats_request, 200)]
    ∧ (in_appliedHash i1 = in_appliedHash i ∧ in_haHash i1 = in_haHash i ∧ in_blPushing i1 = in_blPushing i ∧ in_blRetryAfter i1 = in_blRetryAfter i)
    ∧ poll p s = (reconcile_all p (Some st);; t ← now; logs (CallInsert (poll_entry t (ic_Label cfg)))) s1.
Proof.
  intros Ha Hau. unfold poll. rewrite bind_at. destruct (unnoticed_now _ _ _ _ Ha) as [A1 <-]. clear Ha.
  generalize dependent (now s).1. intros s1 A1. rewrite bind_at.
  destruct (health_at _ _ _ _ A1) as [_ Hh]. destruct (Hh Hau) as (A2 & L2 & hr & ->). clear Hh.
  generalize dependent (ctl p c_Health s1).1. intros s2 A2 L2. rewrite bind_at.
  destruct (stats_at _ _ _ _ A2 Hau) as (A3 & L3 & st & -> & Hst). rewrite L2, <-(assoc_L (++)) in L3. clear A1 A2 L2.
  generalize dependent (ctl p c_Stats s2).1. intros s3 A3 L3. rewrite bind_at.
  destruct (unnoticed_now _ _ _ _ A3) as [A4 L4]. rewrite L3 in L4. clear A3 L3.
  generalize dependent (now s3).1. intros s4 A4 L4. rewrite bind_at.
  destruct (unnoticed_now _ _ _ _ A4) as [A5 L5]. rewrite L4 in L5. clear A4 L4.
  generalize dependent (now s4).1. intros s5 A5 L5. rewrite bind_at.
  set (g := record_health _ _ _). pose proof (at_upd g _ _ _ _ A5 eq_refl eq_refl) as A6.
  assert (nw_log (write (upd p g) s5).1.2 = nw_log s5.2) as L6 by by destruct s5. rewrite L5 in L6. clear A5 L5.
  generalize dependent (write (upd p g) s5).1. intros s6 A6 L6. rewrite bind_at.
  pose proof (at_upd (record_stats (Ok st)) _ _ _ _ A6 eq_refl eq_refl) as A7.
  assert (nw_log (write (upd p (record_stats (Ok st))) s6).1.2 = nw_log s6.2) as L7 by by destruct s6. rewrite L6 in L7. clear A6 L6.
  generalize dependent (write (upd p (record_stats (Ok st))) s6).1. intros s7 A7 L7.
  unfold cfg_of. rewrite read_at, (at_inst _ _ _ _ A7), (at_config _ _ _ _ A7). rewrite bind_at.
  set (m := now ≫= _). assert (unnoticed m) as Hm by (apply unnoticed_bind; [apply unnoticed_now|intros; apply unnoticed_logs]).
  destruct (Hm _ _ _ _ A7) as [A8 L8]. rewrite L7 in L8. clear A7 L7.
  generalize dependent (m s7).1. intros s8 A8 L8. rewrite bind_at.
  set (e := λ t, mkFleetEvent _ _ _ t _ _ _ _ _ _ _ _ _ _ _).
  destruct (unnoticed_publish e _ _ _ _ A8) as [A9 L9]. rewrite L8 in L9.
  eexists _, st, (publish e s8).1. split; [exact A9|]. split_and!; [done..|]. done.
Qed.
Lemma poll_acked o i b s : at_state o i b s → acked (poll p s).1.2 → admitted.
Proof.
  intros Ha Hack. unfold poll in Hack. rewrite bind_at in Hack. destruct (unnoticed_now _ _ _ _ Ha) as [A1 _].
  rewrite bind_at in Hack. apply (health_at _ _ _ _ A1).
  eapply grows_acked, Hack. unfold cfg_of, reconcile_all. grow.
Qed.
Lemma noted_log (s : state) : nw_log ((t ← now; logs (CallInsert (poll_entry t (ic_Label cfg)))) s).1.2 = nw_log s.2.
Proof. destruct s as [f n]. unfold mbind, fm_mbind, now, logs. cbn. by destruct (fl_queryLog f). Qed.
(** A poll that is answered throughout makes the next one quiet. *)
Lemma poll_converges o i b s :
  (∀ q, fl_defaultPolicy f0 = Some q → wp_ID q = "default") → fl_overrides f0 !! id ≫= ov_Records = None →
  Forall kept_record (fl_records f0) → slot_free i → transferable (synced b) →
  at_state o i b s → acked (poll p s).1.2 →
  (∃ o' i' b', at_state o' i' b' (poll p s).1 ∧ in_sync b o') ∧
  nw_log (poll p (poll p s).1).1.2 = nw_log (poll p s).1.2 ++ [(health_request, 200); (stats_request, 200)].
Proof.
  intros Hdef Hno Hk Hfree Ht Ha Hack. pose proof (poll_acked _ _ _ _ Ha Hack) as Hau.
  destruct (poll_at _ _ _ _ Ha Hau) as (i1 & st & s1 & A1 & R1 & _ & (_ & _ & E3 & E4) & Hp).
  rewrite Hp in Hack |- *. apply acked_seq in Hack as [Hack _]; [|grow]. rewrite bind_at.
  destruct (reconcile_all_at _ _ _ _ _ Hdef Hno Hk ltac:(unfold slot_free; rewrite E3, E4; exact Hfree) Ht A1 R1 Hack)
    as (o2 & i2 & b2 & A2 & (S1 & S2 & S3) & Eb).
  set (m := now ≫= _). assert (unnoticed m) as Hm by (apply unnoticed_bind; [apply unnoticed_now|intros; apply unnoticed_logs]).
  destruct (Hm _ _ _ _ A2) as [A3 L3]. generalize dependent (m (reconcile_all p (Some st) s1).1).1.
  intros s3 A3 L3. split.
  - exists o2, i2, b2. split; [done|]. unfold in_sync in *. by rewrite <-Eb.
  - destruct (poll_at _ _ _ _ A3 Hau) as (i4 & st4 & s4 & A4 & R4 & L4 & (E1 & E2 & _) & ->). rewrite bind_at.
    rewrite noted_log, (reconcile_all_quiet st4 _ _ _ _ Hno A4); [done|split; [|split; [|done]]|done].
    + by apply (config_ok_mark i2).
    + by apply (ha_ok_mark i2).
Qed.
End One.

(** C2: The fleet's poll loop converges.  Take an adopted instance whose node
    has all its controllers, whose push slot for the blocklist is free, which
    has no record override; a default policy stored under its id "default";
    fleet records that all have a usable name (the node
    drops one whose name is empty or "*.", its checksum then never agrees and
    the records are pushed at every poll: unusable_record_repushed in
    Records.v); and a blocklist that keeps its checksum when it is rebuilt from
    its text.  If every request of a poll is answered with status
    200, whatever the node held before and however many settings had to be
    pushed, then afterwards the node shows what the fleet wants of it (default
    upstream, plain-HTTP address, rate limit, cache size, pool, blocklist and
    records), and the next poll sends its two reads and nothing else.  Proved
    for every implementation of the node's controllers that shows each accepted
    setting and changes no other. *)
Theorem fleet_converges f n p i ct h :
  fl_heap f !! p = Some i → nw_nodes n !! c_base (in_client i) = Some (ct, h) → all_wired ct → good h →
  ic_Token (in_Config i) ≠ "" → slot_free i →
  (∀ q, fl_defaultPolicy f = Some q → wp_ID q = "default") →
  fl_overrides f !! ic_ID (in_Config i) ≫= ov_Records = None → Forall kept_record (fl_records f) →
  transferable (synced f (fl_blocklist f)) →
  let s1 := (poll p (f, n)).1 in
  let s2 := (poll p s1).1 in
  acked s1.2 →
  (∃ ct' h', nw_nodes s1.2 !! c_base (in_client i) = Some (ct', h') ∧ in_sync f (in_Config i) (fl_blocklist f) (obs h'))
  ∧ nw_log s2.2 = nw_log s1.2 ++ [(health_request (in_client i), 200); (stats_request (in_client i), 200)].
Proof.
  intros Hi Hn Hw Hg Htok Hfree Hdef Hno Hk Ht s1 s2 Hack.
  destruct (poll_converges f p (in_Config i) (in_client i) ct Hw Htok (obs h) i (fl_blocklist f) (f, n))
    as [(o & i' & b' & [_ _ _ (ct' & h' & Hn' & _ & _ & <-)] & Hs) Hl]; try done.
  - split; [exists (fl_heap f), (fl_bus f); by destruct f|done..|]. by exists ct, h.
  - split; [by exists ct', h'|done].
Qed.
End Net.

(** ** A controller and the process of Node.v *)
Definition demo_wanted : Fleet :=
  (register (demo_config "node1" "http://n1:8081") 0 (NewFleet "" true false))
    <| fl_defaultPolicy := Some (mkWire "default" [] [] [] ["ads.example"] "nxdomain" true "1.1.1.1") |>
    <| fl_dohHTTPAddr := "127.0.0.1:8080" |> <| fl_rateLimitQPS := 50 |>
    <| fl_cacheSize := 200 |> <| fl_cacheConfigured := true |>
    <| fl_records := [mkRec "nas.lan" "A" "192.168.1.5" 300] |>
    <| fl_upstreamServers := [mkServer "cf" "1.0.0.1" 1 2] |>
    <| fl_blocklist := FromDomains ["tracker.net"; "*.ads.net"] Blocklist.New |>
    <| fl_manualAllowed := {["good.ads.net"]} |>.
Definition demo_net : Net := mkNet {["http://n1:8081" := (demo_wired, demo_node)]} 0 None [].
Definition demo_poll (s : Fleet * Net (H := Node)) : Fleet * Net (H := Node) :=
  (poll (World0 := net_world state_enc (demo_cenv 0) "198.51.100.7:4000" (λ _, 1000)) 0 s).1.
Lemma fleet_converges_witness :
  let s1 := demo_poll (demo_wanted, demo_net) in
  let s2 := demo_poll s1 in
  length (nw_log s1.2) = 9%nat ∧
  nw_log s2.2 = nw_log s1.2 ++ [(health_request (NewClient "http://n1:8081" "s3cret"), 200); (stats_request (NewClient "http://n1:8081" "s3cret"), 200)].
Proof.
  intros s1 s2. split; [vm_compute; reflexivity|].
  refine (proj2 (fleet_converges state_enc (demo_cenv 0) "198.51.100.7:4000" (λ _, 1000) node_good
    demo_wanted demo_net 0 (inst 0 demo_wanted) demo_wired demo_node _ _ _ _ _ _ _ _ _ _ _)).
  - reflexivity.
  - vm_compute. reflexivity.
  - by split_and!.
  - exact demo_inv.
  - done.
  - by split.
  - by intros q [= <-].
  - reflexivity.
  - by repeat constructor.
  - vm_compute. reflexivity.
  - apply (bool_decide_unpack _). vm_compute. exact I.
Defined.
