(* ===== verification/Ctl.v ===== *)
(** * The command-line client

    cmd/blipctl/main.go: reading the token, one command per run, what it
    prints and the status it exits with; and the event stream of
    internal/control/client.go.  The arguments are those left after the flags
    are parsed; files and the YAML decoder are arguments, JSON output is kept
    as the value that is printed. *)
From S2P Require Import Prelude GoStrings GoNet GoUrl Filter Cache RateLimit Records Blocklist Upstream Stats Server HA Update Control Node.
From S2P Require Import Bus Release Client BlocklistDB QueryLog Fleet FleetPush FleetNode.
From Stdlib Require Import Ascii.
#[local] Open Scope Z_scope.

(** ** [sanitize]: a range over the runes of a string *)
Definition cont (lo hi : Z) (i : nat) (s : string) : bool :=
  match String.get i s with Some c => in_range lo hi c | None => false end.
(** The width of the first rune; a byte that starts none counts alone. *)
Definition rune_width (s : string) : nat :=
  match s with
  | "" => 0
  | String c _ =>
      let b := code c in
      let tail i := cont 128 191 i s in
      if in_range 194 223 c && tail 1%nat then 2
      else if ((b =? 224) && cont 160 191 1 s || in_range 225 236 c && tail 1%nat || (b =? 237) && cont 128 159 1 s || in_range 238 239 c && tail 1%nat)
              && tail 2%nat then 3
      else if ((b =? 240) && cont 144 191 1 s || in_range 241 243 c && tail 1%nat || (b =? 244) && cont 128 143 1 s)
              && tail 2%nat && tail 3%nat then 4
      else 1
  end.
Definition keeps_char (c : ascii) : bool :=
  in_range 97 122 c || in_range 65 90 c || is_digit c || (code c =? 45) || (code c =? 95).
Fixpoint sanitize_go (fuel : nat) (s : string) : string :=
  match fuel, s with
  | S n, String c _ => String (if keeps_char c then c else "-"%char) (sanitize_go n (sdrop (rune_width s) s))
  | _, _ => ""
  end.
(** Every rune takes at least a byte: the length is fuel enough. *)
Definition sanitize (s : string) : string := sanitize_go (slen s) s.

(** ** What a run shows *)
Inductive json_out :=
| JHealth (h : HealthResponse) | JStats (s : StatsResponse) | JPolicies (p : option WirePolicy * list WirePolicy) | JAdopt (a : AdoptStatus).
Inductive line := LText (s : string) | LJSON (j : json_out) | LEvent (e : WatchEvent) | LError (s : string) | LUsage.
Record outcome := mkOut { out_lines : list line; out_code : Z }.
(** [die] on an error, otherwise go on. *)
Definition or_die {A} (r : res string A) (k : A → outcome) : outcome :=
  match r with Err e => mkOut [LError ("error: " +:+ e)] 1 | Ok a => k a end.
Definition usage_error (l : list line) : outcome := mkOut (l ++ [LUsage]) 2.
Definition printed (l : list line) : outcome := mkOut l 0.
(** What the watch request gets: status, text, and the lines with the error at
    their end. *)
Record stream := mkStream { sm_status : Z; sm_text : string; sm_lines : list string; sm_err : option string }.

Section Ctl.
Context {W : Type} `{!Transport W} (open : client_request → W → W * res string stream) (decode : string → option WatchEvent).
Context (file : string → res string string) (yaml : string → res string WirePolicy).
(** [Client.Watch]: the events of the stream, and how it ended. *)
Definition c_Watch (c : Client) (w : W) : W * (list WatchEvent * option string) :=
  match open (client_req c "GET" "/api/v1/watch" PNone) w with
  | (w, Err e) => (w, ([], Some e))
  | (w, Ok s) =>
      if 400 <=? sm_status s then (w, ([], Some ("control: watch -> " +:+ Itoa (sm_status s) +:+ ": " +:+ limited (sm_text s))))
      else (w, (watch_events decode (sm_lines s), sm_err s))
  end.
Definition loadPolicyFile (path : string) : res string WirePolicy :=
  match file path with
  | Err e => Err e
  | Ok b => match yaml b with
            | Err e => Err e
            | Ok p => if str_eqb (wp_ID p) "" then Err "policy file missing id" else Ok p
            end
  end.
Definition block_policy (cidr domain : string) : WirePolicy :=
  mkWire ("ctl-" +:+ sanitize cidr) [cidr] [] [] [domain] "" true "".
(** A command of the switch, with its arguments. *)
Definition command (client : Client) (base cmd : string) (rest : list string) (w : W) : W * outcome :=
  let show {A} (r : W * res string A) (k : A → outcome) : W * outcome := (r.1, or_die r.2 k) in
  let missing (text : string) : W * outcome := (w, mkOut [LError ("error: " +:+ text)] 1) in
  if str_eqb cmd "health" then show (c_Health client w) (λ h, printed [LJSON (JHealth h)])
  else if str_eqb cmd "stats" then show (c_Stats client w) (λ s, printed [LJSON (JStats s)])
  else if str_eqb cmd "policies" then show (c_ListPolicies client w) (λ p, printed [LJSON (JPolicies p)])
  else if str_eqb cmd "set-policy" then
    match rest with
    | [] => missing "set-policy requires a YAML file path"
    | path :: _ =>
        match loadPolicyFile path with
        | Err e => missing e
        | Ok p => show (c_SetPolicy p client w) (λ _, printed [LText ("policy set: " +:+ wp_ID p)])
        end
    end
  else if str_eqb cmd "block" then
    match rest with
    | cidr :: domain :: _ => show (c_SetPolicy (block_policy cidr domain) client w) (λ _, printed [LText ("blocked " +:+ domain +:+ " for " +:+ cidr)])
    | _ => missing "block requires <cidr> <domain>"
    end
  else if str_eqb cmd "del-policy" then
    match rest with
    | [] => missing "del-policy requires <id>"
    | id :: _ => show (c_DeletePolicy id client w) (λ _, printed [LText ("deleted policy: " +:+ id)])
    end
  else if str_eqb cmd "adopt-status" then show (c_AdoptStatus client w) (λ a, printed [LJSON (JAdopt a)])
  else if str_eqb cmd "adopt" then
    match rest with
    | [] => missing "adopt requires <code>"
    | adopt_code :: _ =>
        show (c_Adopt adopt_code client w) (λ a,
          if negb (ar_Adopted a) then or_die (A := unit) (Err ("adoption rejected: " +:+ ar_Message a)) (λ _, printed [])
          else if negb (str_eqb (ar_Token a) "") then printed [LText ("adopted. admin token: " +:+ ar_Token a)]
          else printed [LText "already adopted (token was issued earlier; use the stored token)"])
    end
  else if str_eqb cmd "watch" then
    let '(w, (events, e)) := c_Watch client w in
    let seen := LText ("watching " +:+ base +:+ " (ctrl-c to stop)") :: (LEvent <$> events) in
    (w, match e with None => printed seen | Some t => mkOut (seen ++ [LError ("error: " +:+ t)]) 1 end)
  else (w, usage_error [LText ("unknown command: " +:+ cmd)]).
(** [main]; the token flag defaults to BLIP_TOKEN. *)
Definition blipctl (token tokenFile : string) (args : list string) (w : W) : W * outcome :=
  let run (token : string) :=
    match args with
    | base :: cmd :: rest => command (NewClient base token) base cmd rest w
    | _ => (w, usage_error [])
    end in
  if str_eqb token "" && negb (str_eqb tokenFile "") then
    match file tokenFile with
    | Err e => (w, mkOut [LError ("error: " +:+ e)] 1)
    | Ok b => run (TrimSpace b)
    end
  else run token.
End Ctl.

(** ** Exit statuses *)
Section Exit.
Context {W : Type} `{!Transport W} (open : client_request → W → W * res string stream) (decode : string → option WatchEvent).
Context (file : string → res string string) (yaml : string → res string WirePolicy).
(** What a run that ends in [(w', o)] has asked of the node. *)
Definition one_request (token : string) (w w' : W) (o : outcome) : Prop :=
  ∃ q : client_request, cq_Authorization q = "Bearer " +:+ token ∧
    ((w' = (roundTrip q w).1 ∧ (out_code o = 0 → ∃ r, (roundTrip q w).2 = Ok r ∧ rp_status r < 400))
     ∨ (w' = (open q w).1 ∧ (out_code o = 0 → ∃ r, (open q w).2 = Ok r ∧ sm_status r < 400 ∧ sm_err r = None))).
Lemma do_as_request {A} (c : Client) what method path b (dec : reply → res string A) (k : A → outcome) w :
  let r := do_as c what method path b dec w in one_request (c_token c) w r.1 (or_die r.2 k).
Proof.
  cbv zeta. exists (client_req c method path b). split; [done|]. left. unfold do_as. destruct (roundTrip _ w) as [w1 [r|e]]; cbn; [|done]. split; [by destruct (400 <=? rp_status r)|]. destruct (Z.leb_spec 400 (rp_status r)); cbn; [done|]. intros _. exists r. by split; [|lia].
Qed.
(** A run either asks nothing and fails, or makes one request with its token,
    and succeeds only if the node answered it. *)
Lemma command_exit token base cmd rest w :
  let x := command open decode file yaml (NewClient base token) base cmd rest w in
  x.1 = w ∧ out_code x.2 ≠ 0 ∨ one_request token w x.1 x.2.
Proof.
  cbv zeta. unfold command, c_Health, c_Stats, c_ListPolicies, c_SetPolicy, c_DeletePolicy, c_AdoptStatus, c_Adopt, do.
  repeat match goal with |- context [str_eqb cmd ?x] => destruct (str_eqb cmd x) end.
  all: try (right; apply (do_as_request (NewClient base token))).
  - destruct rest as [|path rest]; [by left|]. destruct (loadPolicyFile file yaml path) as [p|]; [|by left].
    right. apply (do_as_request (NewClient base token)).
  - destruct rest as [|cidr [|domain rest]]; [by left..|]. right. apply (do_as_request (NewClient base token)).
  - destruct rest as [|id rest]; [by left|]. right. apply (do_as_request (NewClient base token)).
  - destruct rest as [|ac rest]; [by left|]. right. apply (do_as_request (NewClient base token)).
  - right. unfold c_Watch. exists (client_req (NewClient base token) "GET" "/api/v1/watch" PNone). split; [done|]. right.
    destruct (open _ w) as [w1 [r|e]]; [|done]. cbn [fst snd]. destruct (Z.leb_spec 400 (sm_status r)); cbn; [done|]. split; [done|]. destruct (sm_err r) eqn:E; [done|]. intros _. exists r. by split_and!; [|lia|].
  - by left.
Qed.
End Exit.

(** ** Policy names *)
Lemma sanitize_go_chars n s : sforall keeps_char (sanitize_go n s) = true.
Proof.
  revert s. induction n as [|n IH]; intros [|c s]; [done..|]. cbn [sanitize_go sforall]. rewrite IH.
  by destruct (keeps_char c) eqn:E; [rewrite E|].
Qed.
Lemma keeps_ascii c s : keeps_char c = true → rune_width (String c s) = 1%nat.
Proof.
  intros Hc. assert (code c < 194) as Hlt.
  { unfold keeps_char, in_range, is_digit, in_range in Hc. repeat (apply orb_true_iff in Hc as [Hc|Hc]); bools; lia. }
  unfold rune_width. unfold in_range.
  repeat match goal with |- context [(?x <=? code c) && _] => replace (x <=? code c) with false by (symmetry; apply Z.leb_gt; lia) end.
  repeat match goal with |- context [code c =? ?x] => replace (code c =? x) with false by (symmetry; apply Z.eqb_neq; lia) end.
  done.
Qed.
Lemma sanitize_kept n s : (slen s ≤ n)%nat → sforall keeps_char s = true → sanitize_go n s = s.
Proof.
  revert n. induction s as [|c s IH]; intros [|n] Hn Hs; [done..|cbn in Hn; lia|]. cbn [sforall] in Hs. apply andb_true_iff in Hs as [Hc Hs].
  cbn [sanitize_go]. rewrite Hc, keeps_ascii by done. cbn [sdrop]. f_equal. apply IH; [cbn in Hn; lia|done].
Qed.
(** The names are made of letters, digits, dashes and underscores, and such a
    name is kept. *)
Lemma sanitize_safe s : sforall keeps_char (sanitize s) = true ∧ sanitize (sanitize s) = sanitize s.
Proof. split; [apply sanitize_go_chars|]. apply sanitize_kept; [done|apply sanitize_go_chars]. Qed.
Example sanitize_runes : sanitize "fd00::/8" = "fd00---8" ∧ sanitize ("a" +:+ String (ascii_of_N 195) (String (ascii_of_N 169) "b")) = "a-b".
Proof. split; vm_compute; reflexivity. Qed.

(** ** The client and a node *)
Notation ctl_net := (Net (H := Node)).
#[local] Instance ctl_transport : Transport ctl_net := net_transport state_enc (demo_cenv 0) "127.0.0.1:4000".
Definition no_stream (r : client_request) (w : ctl_net) : ctl_net * res string stream := (w, Err "no stream").
Notation run_ctl := (blipctl (W := ctl_net) no_stream (λ _, None) (λ p, if str_eqb p "/run/token" then Ok ("s3cret" +:+ String newline "") else Err "no such file")
  (λ _, Err "yaml: line 1") "").
Definition ctl_state : ctl_net := mkNet {["http://n" := (demo_wired, demo_node)]} 0 None [].
(** Whether the node blocks a name for a client of the network. *)
Definition blocks (w : ctl_net) (domain : string) : option bool :=
  (λ st : ControlServer * Node, (Classify (s_store (nd_srv st.2)) (ParseIP "192.168.10.7") "" domain).1.1.1) <$> nw_nodes w !! "http://n".
(** The token comes from a file, its line end cut off. *)
Example ctl_blocks :
  let '(w, o) := run_ctl "/run/token" ["http://n"; "block"; "192.168.10.0/24"; "ads.net"] ctl_state in
  o = printed [LText "blocked ads.net for 192.168.10.0/24"] ∧ blocks ctl_state "ads.net" = Some false ∧ blocks w "ads.net" = Some true.
Proof. split_and!; vm_compute; reflexivity. Qed.
(** The policy is named after the network only: blocking a second name for it
    unblocks the first. *)
Example ctl_block_replaces :
  let w := (run_ctl "/run/token" ["http://n"; "block"; "192.168.10.0/24"; "ads.net"] ctl_state).1 in
  let '(w', o) := run_ctl "/run/token" ["http://n"; "block"; "192.168.10.0/24"; "track.net"] w in
  out_code o = 0 ∧ blocks w "ads.net" = Some true ∧ blocks w' "ads.net" = Some false ∧ blocks w' "track.net" = Some true.
Proof. split_and!; vm_compute; reflexivity. Qed.
(** Two networks can get the same name. *)
Example ctl_names_collide :
  wp_ID (block_policy "::1.2.3.4/120" "ads.net") = wp_ID (block_policy "::1:2:3:4/120" "ads.net")
  ∧ (ParseCIDR "::1.2.3.4/120" ≠ ParseCIDR "::1:2:3:4/120").
Proof. split; [vm_compute; reflexivity|vm_compute; discriminate]. Qed.
Example ctl_errors :
  (run_ctl "" ["http://n"; "health"] ctl_state).2 = mkOut [LError ("error: control: GET /api/v1/health -> 401: unauthorized" +:+ String newline "")] 1
  ∧ (run_ctl "/nowhere" ["http://n"; "health"] ctl_state).2 = mkOut [LError "error: no such file"] 1
  ∧ (run_ctl "/run/token" ["http://n"; "helth"] ctl_state).2 = mkOut [LText "unknown command: helth"; LUsage] 2
  ∧ (run_ctl "/run/token" ["http://n"] ctl_state).2 = mkOut [LUsage] 2.
Proof. split_and!; vm_compute; reflexivity. Qed.
